(* ===== verification/_CoqProject ===== *)
-Q . S2P
Prelude.v
Fs.v
External.v
Instances.v
Atomic.v
SlotCounter.v
Signer.v
SlotSystem.v
SlotRuns.v
Freshness.v
FreshnessSystem.v
FreshnessRuns.v
Seats.v
StatusLists.v
Committees.v
Verifiers.v
Nodes.v
MlStatusLists.v
MlCommittees.v
Wire.v
Credentials.v
Params.v
Workload.v
Artifacts.v
MlFixture.v
MlRawAgg.v
MlSignerMain.v
MlExperiment.v
VerifierMain.v
CheckOutput.v
Network.v
Corpus.v
Fixture.v
Prover.v
RawAgg.v
Fleet.v
RawAggOwn.v
SignerMain.v
LocalDemo.v
Pipeline.v
Storage.v
Rounds.v
Member.v
MlMember.v
Holder.v
MlHolder.v
MlRuns.v
Boot.v
BootRuns.v
HolderMain.v
FirstCredential.v
Probe.v
MlExamples.v
Examples.v
DemoExamples.v
PipelineExamples.v
MlDemoExamples.v
RawExamples.v
MlRawExamples.v
BootExamples.v
LocalExamples.v
