(* ===== verification/Prelude.v ===== *)
(** * Decentralized root of trust: a verification development

    The program lets a committee of [N] members publish a status list (the
    fingerprints of the credentials that are valid) so that a relying party that
    holds nothing but the committee's anchor accepts a list only when [t] members
    signed it, and never goes back to an older one.  Two record forms carry the
    quorum: the signatures themselves (raw) and one SNARK aggregate of them; a
    second signature system (ML-DSA) has a raw form only.  Each XMSS key may be
    applied once per slot, which is the reason for the durable slot counter.

    ** How the parts interact

    [Committee] (the anchor) fixes the members, the threshold and the slot of
    every version.  A member signs the message of (anchor, algorithm, list,
    version) at that slot through [SignerNode], which burns the slot in
    [AtomicSlotCounter] first.  [StatusList::new] or the prover makes the record;
    [VerifierNode] or [PQSNARKVerifierModule] judges it; [RawNode] and [SnarkNode]
    decode, verify and only then offer the version to [HighWaterMark].  The demo
    network wires these into processes; the benchmark programs exchange records
    as files.

    ** Files

    Foundations.
    - [Prelude] (this file): Rust's [Result] and [?], bytes and machine integers
      (a [u32], [u64] or a [usize] from the wire is a [Z] with an explicit range
      and written-out wrap-around or checked operations; lengths and indices of
      vectors in memory are [nat]), little-endian coding, UTF-8 decoding, decimal
      and hexadecimal text, sorting, and the shared list lemmas.
    - [Fs]: [std::fs] as an io monad over a world of directory versions, file
      versions, locks, a schedule of verdicts (every call may fail, or the process
      may die inside it), power loss, and Hoare triples over it.
    - [External]: third-party code as interfaces with the documented facts the
      program relies on (hashes of fixed length, the XMSS and leanVM calls, bit
      lists, SSZ codecs with canonical round trips).  No security of a hash is
      assumed: theorems that need it name the two inputs that would
      have to collide ([collides]).
    - [Instances]: executable stand-ins, for evaluation and witnesses only.

    Durable state (src/state).
    - [Atomic]: the lock file and the replacement by temporary file, sync, rename
      and directory sync that both state modules use.
    - [SlotCounter]: slot_counter.rs. Journal records, recovery, legacy formats,
      [create], [open], [reserve], [reserve_at].  [SlotSystem]: many processes,
      crashes and power loss as a step relation; no slot is used twice.
      [SlotRuns]: creating and signing when no call fails.
    - [Freshness]: freshness.rs. The mark's text and operations.
      [FreshnessSystem]: the same step relation for the mark; no rollback.
      [FreshnessRuns]: what the operations return when no call fails.

    Protocol (src/protocol, src/node).
    - [Seats]: duplicates, seats, bitmaps and pairs, shared with ML-DSA.
    - [StatusLists]: status_list.rs. [Committees]: committee.rs.
    - [Verifiers]: raw_verifier.rs, snark_verifier.rs, snark_prover.rs.
    - [Signer]: signer.rs. [Nodes]: mod.rs, raw_node.rs, snark_node.rs, over a
      class that states what a freshness gate promises.
    - [MlStatusLists], [MlCommittees]: mldsa/src.

    Demo network (demo/src).
    - [Wire], [Credentials], [Network], [Storage]: wire.rs, vc.rs, config.rs,
      storage.rs.  [Rounds]: what the two signature systems' rounds share (asking
      the members, counting, publishing).  [Member], [MlMember]: bin/signer.rs,
      bin/mldsa_signer.rs, one committee member with its round.  [Holder],
      [MlHolder]: bin/holder.rs, bin/mldsa_holder.rs, the relying parties.
      [MlRuns]: the ML-DSA processes connected to each other.
    - [Boot]: bin/bootstrap.rs, bin/mldsa_bootstrap.rs and the start of the members
      up to their listener.  [BootRuns]: the whole network starting.  [HolderMain]:
      [main] and [Node::build] of the relying parties.  [FirstCredential]: the
      ML-DSA network from empty volumes to its first credential.  [Probe]:
      bin/probe.rs, which asks one member directly.

    Programs (src/main.rs, src/bin, src/bench, src/examples).
    - [Params], [Workload]: params.rs, bench/workload.rs.
    - [Artifacts]: directories that are read and directories that are filled.
    - [VerifierMain]: bin/verifier.rs. [CheckOutput]: bin/check_prover_output.rs.
    - [Corpus]: main.rs. [Fixture]: bin/committee_fixture.rs. [Prover]:
      bin/prover.rs, both modes.  [Pipeline]: these programs composed.
    - [Fleet]: a committee of signer nodes in one process, and how a quorum of
      them signs.  [RawAgg], [RawAggOwn]: bin/raw_agg.rs over a fixture and on its
      own.  [SignerMain]: bin/signer.rs.  [LocalDemo]: examples/local_demo.rs, a
      fleet and a relying party in one directory, in both modes.

    ML-DSA programs (mldsa/src/bin).
    - [MlFixture]: support/mod.rs and mldsa_fixture.rs.  [MlRawAgg]:
      mldsa_raw_agg.rs, the relying party and its five controls.  [MlSignerMain]:
      mldsa_signer.rs.  [MlExperiment]: mldsa_statement_experiment.rs.

    Witnesses: [Examples], [MlExamples], [DemoExamples], [PipelineExamples],
    [MlDemoExamples], [RawExamples], [MlRawExamples], [BootExamples] and
    [LocalExamples] hold concrete instances and apply the properties there.

    ** What the theorems show

    - Slot safety: in every execution of any number of processes with failures,
      deaths and power losses the key is applied to strictly increasing slots,
      under two guards that the code does not enforce: [create] runs where the
      metadata of the state file can be read, [open] on a state file with nothing
      waiting to be written back ([guarded_step]; [guards_needed] shows that
      neither can be left out).
    - No rollback: the same executions, for the versions a mark accepted.
    - Quorum: a record of either form verifies only if [t] members of exactly
      this anchor signed exactly this list and version, and every record built
      from such signatures, in any order, verifies; same for ML-DSA.
    - Codecs: one wire form per value, for records, anchors, journals, marks and
      frames; decoding accepts only well-formed values.
    - Ordering: burn before use, verify before advance, persist before accept.
    - Demo: a round publishes the record after the one it read, with exactly the
      requested change; a member signs one past the version it read, at that slot
      (both read version 0 where storage cannot be read); when a round completes;
      that waiting ends.  A relying party's success is about the credential of the
      reply, or the saved one, in a record a quorum signed, which may be one seen
      before, or older than the mark: then the report says so.
    - Start to finish, when no call fails: the bootstrap and ten members end in the
      anchor that names every key at its index ([network_starts]); the ML-DSA
      network goes from empty volumes to a first credential that node A finds
      valid ([first_credential_issued]).  Whatever fails, the probe reports a
      signature only for a slot the member had not spent
      ([probe_needs_fresh_slot]).
    - Programs: the demonstration, the acceptance check, the verifier's exit
      code with the mark before and after it, the whole pipeline from fresh keys to the verifier's success, the
      raw benchmark's six controls, the walk-through in both modes, the ML-DSA
      fixture with its relying party's five controls, and the statement
      experiment.  Where a control could only be accepted if a
      signature were valid for something it was not made for, the theorem names
      that signature ([control_accepted], [ml_control_accepted], [crossed]).
    - Widths: what the counter's operations return fits its machine types.
    - Divergences found are theorems too: [guards_needed], [holder_gaps],
      [unchecked_slot_poisons].

    ** Bounds and fuel

    [wait_loop] has fuel for the rounds of its loop, and [wait_for_terminates]
    gives an amount that is always enough (one round, where the file is there
    when the wait begins); [from_utf8] recurses on the number of
    bytes and [decimal] on 20 digits (a [u64] has at most 20); every other
    recursion is structural.

    ** Not modelled

    Printing (report.rs does nothing else), timing, memory readings and
    floating-point summaries (they decide nothing); sockets and threads (a
    connection is a byte stream or the list of answers that arrived, the other
    processes are a step relation or a parameter; an XMSS member and node A end
    where their listener begins); key generation and randomness (arguments);
    where the benchmark's state directory is (an argument) and its removal;
    empty directories (a directory is the files in it); the internals of the
    third-party code; the order of complaints within one directory comparison of
    the acceptance check; test code. *)
From stdpp Require Export base list gmap strings numbers pretty.
From Stdlib Require Export ZArith Lia Sorted.
From Stdlib.Strings Require Byte.

Declare Scope drot_scope.
Delimit Scope drot_scope with drot.
Open Scope Z_scope.

(** ** Rust's [Result], with the [?] operator *)

Inductive result (A E : Type) : Type :=
| Ok (a : A)
| Err (e : E).
Arguments Ok {A E} a.
Arguments Err {A E} e.

Definition result_bind {A B E} (r : result A E) (k : A → result B E) : result B E :=
  match r with Ok a => k a | Err e => Err e end.

Definition map_err {A E F} (f : E → F) (r : result A E) : result A F :=
  match r with Ok a => Ok a | Err e => Err (f e) end.

Definition is_ok {A E} (r : result A E) : bool :=
  match r with Ok _ => true | Err _ => false end.

Definition result_ok {A E} (r : result A E) : option A :=
  match r with Ok a => Some a | Err _ => None end.

Definition ok_or {A E} (o : option A) (e : E) : result A E :=
  match o with Some a => Ok a | None => Err e end.

Notation "'let?' x := r 'in' k" := (result_bind r (λ x, k))
  (at level 10, x pattern, r at level 200, k at level 200) : drot_scope.
Notation "'guard' b 'else' e ; k" := (if b then k else Err e)
  (at level 10, b at level 200, e at level 100, k at level 200) : drot_scope.
Open Scope drot_scope.

(** [iter().map(f).collect::<Result<Vec<_>, _>>()]: the first error wins. *)
Fixpoint collect_results {A B E} (f : A → result B E) (l : list A) : result (list B) E :=
  match l with
  | [] => Ok []
  | a :: l' => let? b := f a in let? bs := collect_results f l' in Ok (b :: bs)
  end.

(** ** Bytes and machine integers

    A byte is [Byte.byte]; a [u32], [u64] or a [usize] read from the wire is a
    [Z] with the range made explicit; the length of an in-memory vector and an
    index into it are [nat]. *)

Abbreviation byte := Byte.byte.
Abbreviation bytes := (list Byte.byte).

Definition u32_max : Z := 2 ^ 32 - 1.
Definition u64_max : Z := 2 ^ 64 - 1.
Definition is_u32 (z : Z) : Prop := 0 ≤ z ≤ u32_max.
Definition is_u64 (z : Z) : Prop := 0 ≤ z ≤ u64_max.
Definition u32b (z : Z) : bool := (0 <=? z) && (z <=? u32_max).
Definition u64b (z : Z) : bool := (0 <=? z) && (z <=? u64_max).

(** [checked_add] at 32 and 64 bits. *)
Definition checked_add_u32 (a b : Z) : option Z :=
  if a + b <=? u32_max then Some (a + b) else None.
Definition checked_add_u64 (a b : Z) : option Z :=
  if a + b <=? u64_max then Some (a + b) else None.
Definition checked_mul_u64 (a b : Z) : option Z :=
  if a * b <=? u64_max then Some (a * b) else None.
Definition wrap_u64 (z : Z) : Z := z mod 2 ^ 64.
Definition wrapping_add_u64 (a b : Z) : Z := wrap_u64 (a + b).

(** An unchecked [+ 1] at 32 bits, as a release build runs it. *)
Definition wrapping_succ_u32 (v : Z) : Z := (v + 1) mod 2 ^ 32.
Definition wrapping_mul_u64 (a b : Z) : Z := wrap_u64 (a * b).

Definition byte_of_Z (z : Z) : byte := default Byte.x00 (Byte.of_N (Z.to_N (z mod 256))).
Definition Z_of_byte (b : byte) : Z := Z.of_N (Byte.to_N b).

#[export] Instance byte_eq_decision : EqDecision byte := Byte.byte_eq_dec.
#[export] Program Instance byte_countable : Countable byte :=
  inj_countable Byte.to_N Byte.of_N _.
Next Obligation. intros b. apply Byte.of_to_N. Qed.

Fixpoint le_bytes (n : nat) (z : Z) : bytes :=
  match n with
  | O => []
  | S n' => byte_of_Z z :: le_bytes n' (z / 256)
  end.

Fixpoint le_val (l : bytes) : Z :=
  match l with
  | [] => 0
  | b :: l' => Z_of_byte b + 256 * le_val l'
  end.

Definition u32_le (z : Z) : bytes := le_bytes 4 z.
Definition u64_le (z : Z) : bytes := le_bytes 8 z.

(** ** Slices *)

(** [&v[off .. off + len]]. *)
Definition slice {A} (off len : nat) (l : list A) : list A := take len (drop off l).

(** [v[off ..].copy_from_slice(b)] over an existing buffer. *)
Definition overwrite {A} (off : nat) (b l : list A) : list A :=
  take off l ++ b ++ drop (off + length b) l.

#[global] Arguments u32_le : simpl never.
#[global] Arguments u64_le : simpl never.
#[global] Arguments slice : simpl never.
#[global] Arguments overwrite : simpl never.

(** ** Strings: sequences of Unicode scalar values *)

Abbreviation rstr := (list Z).

Definition str (s : string) : rstr :=
  map (λ a, Z.of_N (Ascii.N_of_ascii a)) (String.list_ascii_of_string s).

(** A Rust [String] as the bytes of its UTF-8 form. *)
Definition string_bytes (s : string) : bytes := String.list_byte_of_string s.

(** [char::is_whitespace]: the Unicode White_Space property. *)
Definition is_whitespace (c : Z) : bool :=
  ((9 <=? c) && (c <=? 13)) || (c =? 32) || (c =? 0x85) || (c =? 0xA0) ||
  (c =? 0x1680) || ((0x2000 <=? c) && (c <=? 0x200A)) || (c =? 0x2028) ||
  (c =? 0x2029) || (c =? 0x202F) || (c =? 0x205F) || (c =? 0x3000).

Fixpoint split_ws_from (cur : rstr) (s : rstr) : list rstr :=
  match s with
  | [] => match cur with [] => [] | _ => [cur] end
  | c :: s' =>
      if is_whitespace c
      then match cur with [] => split_ws_from [] s' | _ => cur :: split_ws_from [] s' end
      else split_ws_from (cur ++ [c]) s'
  end.

(** [str::split_whitespace]. *)
Definition split_whitespace (s : rstr) : list rstr := split_ws_from [] s.

Fixpoint strip_prefix (p s : rstr) : option rstr :=
  match p, s with
  | [], _ => Some s
  | a :: p', b :: s' => if a =? b then strip_prefix p' s' else None
  | _ :: _, [] => None
  end.

(** [core::str::from_utf8]: the well-formed UTF-8 byte sequences of the
    Unicode standard (no overlong forms, no surrogates, at most U+10FFFF). *)
Definition cont_byte (lo hi : Z) (b : Z) : bool := (lo <=? b) && (b <=? hi).

Fixpoint utf8_from (fuel : nat) (l : list Z) : option rstr :=
  match fuel with
  | O => match l with [] => Some [] | _ => None end
  | S fuel' =>
      match l with
      | [] => Some []
      | a :: l1 =>
          if a <=? 0x7F then (a ::.) <$> utf8_from fuel' l1
          else if (0xC2 <=? a) && (a <=? 0xDF) then
            match l1 with
            | b :: l2 =>
                if cont_byte 0x80 0xBF b
                then ((a mod 32) * 64 + b mod 64 ::.) <$> utf8_from fuel' l2 else None
            | _ => None
            end
          else if (0xE0 <=? a) && (a <=? 0xEF) then
            match l1 with
            | b :: c :: l2 =>
                let lo := if a =? 0xE0 then 0xA0 else 0x80 in
                let hi := if a =? 0xED then 0x9F else 0xBF in
                if cont_byte lo hi b && cont_byte 0x80 0xBF c
                then (((a mod 16) * 64 + b mod 64) * 64 + c mod 64 ::.) <$> utf8_from fuel' l2
                else None
            | _ => None
            end
          else if (0xF0 <=? a) && (a <=? 0xF4) then
            match l1 with
            | b :: c :: d :: l2 =>
                let lo := if a =? 0xF0 then 0x90 else 0x80 in
                let hi := if a =? 0xF4 then 0x8F else 0xBF in
                if cont_byte lo hi b && cont_byte 0x80 0xBF c && cont_byte 0x80 0xBF d
                then ((((a mod 8) * 64 + b mod 64) * 64 + c mod 64) * 64 + d mod 64 ::.)
                       <$> utf8_from fuel' l2
                else None
            | _ => None
            end
          else None
      end
  end.

Definition from_utf8 (l : bytes) : option rstr := utf8_from (length l) (map Z_of_byte l).

(** The bytes of a string all of whose characters are ASCII, which is every
    string the program writes to a state file. *)
Definition ascii_bytes (s : rstr) : bytes := map byte_of_Z s.

(** ** Integer parsing and printing *)

Inductive IntErrorKind := IntEmpty | InvalidDigit | PosOverflow.

Definition digit_value (c : Z) : option Z :=
  if (48 <=? c) && (c <=? 57) then Some (c - 48) else None.

Fixpoint parse_digits (max acc : Z) (s : rstr) : result Z IntErrorKind :=
  match s with
  | [] => Ok acc
  | c :: s' =>
      match digit_value c with
      | None => Err InvalidDigit
      | Some d =>
          if acc * 10 + d <=? max then parse_digits max (acc * 10 + d) s' else Err PosOverflow
      end
  end.

(** [str::parse::<u32>()] and [str::parse::<u64>()], by their maximum. *)
Definition parse_unsigned (max : Z) (s : rstr) : result Z IntErrorKind :=
  match s with
  | [] => Err IntEmpty
  | [43] => Err InvalidDigit
  | 43 :: s' => parse_digits max 0 s'
  | _ => parse_digits max 0 s
  end.

Fixpoint decimal_go (fuel : nat) (n : Z) (acc : rstr) : rstr :=
  match fuel with
  | O => acc
  | S fuel' =>
      let acc' := (48 + n mod 10) :: acc in
      if n / 10 =? 0 then acc' else decimal_go fuel' (n / 10) acc'
  end.

(** [to_string] of an unsigned integer below 10^20 (every u64). *)
Definition decimal (n : Z) : rstr := decimal_go 20 n [].

(** [format!("{b:02x}")] and its concatenation over a byte string. *)
Definition hex_digit (d : Z) : Z := if d <? 10 then 48 + d else 87 + d.
Definition hex_byte (b : byte) : rstr := [hex_digit (Z_of_byte b / 16); hex_digit (Z_of_byte b mod 16)].
Definition hex (l : bytes) : rstr := mjoin (hex_byte <$> l).

(** [{index:02}]. *)
Definition two_digits (index : nat) : string :=
  if (index <? 10)%nat then ("0" +:+ pretty index)%string else pretty index.

(** [Vec::sort_by_key]: the stable sort, by insertion. *)
Section sorting.
Context {A : Type} (key : A → Z).
Fixpoint insert_by_key (a : A) (l : list A) : list A :=
  match l with
  | [] => [a]
  | b :: l' => if key a <=? key b then a :: b :: l' else b :: insert_by_key a l'
  end.
Definition sort_by_key (l : list A) : list A := foldr insert_by_key [] l.
End sorting.

(** [l.windows(2).any(|w| f(w[0], w[1]))]. *)
Fixpoint any_adjacent {A} (f : A → A → bool) (l : list A) : bool :=
  match l with
  | a :: (b :: _) as l' => f a b || any_adjacent f l'
  | _ => false
  end.

(** Strings of ASCII characters, of visible ones, of decimal digits. *)
Definition ascii_str (s : rstr) : Prop := Forall (λ c, 0 ≤ c < 128) s.
Definition plain_str (s : rstr) : Prop := Forall (λ c, 33 ≤ c < 128) s.
Definition digit_str (s : rstr) : Prop := Forall (λ c, 48 ≤ c ≤ 57) s.

(** ** Shared tactics *)

(** Case analysis on every [let?], [if] and [match] that the hypothesis [H]
    runs through, discarding the branches that end in the wrong constructor. *)
Ltac step_in H :=
  match type of H with
  | context [result_bind ?r _] =>
      let E := fresh "E" in destruct r eqn:E; simpl in H; try discriminate H
  | context [if ?b then _ else _] =>
      let E := fresh "E" in destruct b eqn:E; simpl in H; try discriminate H
  | context [match ?o with _ => _ end] =>
      let E := fresh "E" in destruct o eqn:E; simpl in H; try discriminate H
  end.

Ltac run_in H := simpl in H; repeat step_in H; simplify_eq H.

(** Turn boolean tests into propositions. *)
Ltac boolify :=
  repeat match goal with
  | H : _ && _ = true |- _ => apply andb_true_iff in H as [? ?]
  | H : _ || _ = false |- _ => apply orb_false_iff in H as [? ?]
  | H : negb _ = true |- _ => apply negb_true_iff in H
  | H : negb _ = false |- _ => apply negb_false_iff in H
  | H : (_ <=? _) = true |- _ => apply Z.leb_le in H
  | H : (_ <=? _) = false |- _ => apply Z.leb_gt in H
  | H : (_ <? _) = true |- _ => apply Z.ltb_lt in H
  | H : (_ <? _) = false |- _ => apply Z.ltb_ge in H
  | H : (_ =? _) = true |- _ => apply Z.eqb_eq in H
  | H : (_ =? _) = false |- _ => apply Z.eqb_neq in H
  | H : bool_decide _ = true |- _ => apply bool_decide_eq_true in H
  | H : bool_decide _ = false |- _ => apply bool_decide_eq_false in H
  end.

Create HintDb drot.
Create Rewrite HintDb drot.

(** ** Lemmas on bytes and little-endian integers *)

Lemma Z_of_byte_range b : 0 ≤ Z_of_byte b < 256.
Proof. unfold Z_of_byte. pose proof (Byte.to_N_bounded b). lia. Qed.

Lemma Z_of_byte_of_Z z : Z_of_byte (byte_of_Z z) = z mod 256.
Proof.
  unfold Z_of_byte, byte_of_Z.
  pose proof (Z.mod_pos_bound z 256 ltac:(lia)) as Hz.
  pose proof (Byte.to_of_N_option_map (Z.to_N (z mod 256))) as H.
  destruct (Byte.of_N _) as [b|]; simpl in *.
  - destruct (_ <=? 255)%N; simplify_eq H. intros ->. lia.
  - destruct (N.leb_spec (Z.to_N (z mod 256)) 255); [discriminate|lia].
Qed.

Lemma byte_of_Z_of_byte b : byte_of_Z (Z_of_byte b) = b.
Proof.
  unfold byte_of_Z. pose proof (Z_of_byte_range b).
  rewrite Z.mod_small by done. unfold Z_of_byte. by rewrite N2Z.id, Byte.of_to_N.
Qed.

Lemma byte_of_Z_inj a b : 0 ≤ a < 256 → 0 ≤ b < 256 → byte_of_Z a = byte_of_Z b → a = b.
Proof.
  intros Ha Hb H%(f_equal Z_of_byte). rewrite !Z_of_byte_of_Z in H.
  by rewrite !Z.mod_small in H by done.
Qed.

#[export] Instance Z_of_byte_inj : Inj (=) (=) Z_of_byte.
Proof. intros a b H. by rewrite <-(byte_of_Z_of_byte a), H, byte_of_Z_of_byte. Qed.

Lemma length_le_bytes n z : length (le_bytes n z) = n.
Proof. revert z; induction n; intros; simpl; auto. Qed.

Lemma le_val_range l : 0 ≤ le_val l < 256 ^ Z.of_nat (length l).
Proof.
  induction l as [|b l IH]; [done|].
  change (length (b :: l)) with (S (length l)). cbn [le_val].
  rewrite Nat2Z.inj_succ, Z.pow_succ_r by lia. pose proof (Z_of_byte_range b). lia.
Qed.

Lemma le_val_le_bytes n z : 0 ≤ z < 256 ^ Z.of_nat n → le_val (le_bytes n z) = z.
Proof.
  revert z; induction n as [|n IH]; intros z Hz; [simpl in *; lia|].
  rewrite Nat2Z.inj_succ, Z.pow_succ_r in Hz by lia. cbn [le_bytes le_val].
  rewrite Z_of_byte_of_Z, IH.
  - pose proof (Z.div_mod z 256). lia.
  - split; [apply Z.div_pos; lia|]. apply Z.div_lt_upper_bound; lia.
Qed.

Lemma le_bytes_le_val n l : length l = n → le_bytes n (le_val l) = l.
Proof.
  revert l; induction n as [|n IH]; intros [|b l] Hl; simplify_eq/=; [done|].
  pose proof (Z_of_byte_range b). f_equal.
  - rewrite <-(byte_of_Z_of_byte b) at 2. unfold byte_of_Z.
    replace ((Z_of_byte b + 256 * le_val l) mod 256) with (Z_of_byte b mod 256); [done|].
    rewrite Z.mul_comm, Z.mod_add by lia. done.
  - replace ((Z_of_byte b + 256 * le_val l) / 256) with (le_val l); [by apply IH|].
    rewrite Z.mul_comm, Z.div_add by lia. rewrite Z.div_small by done. lia.
Qed.

Lemma le_bytes_inj n a b :
  0 ≤ a < 256 ^ Z.of_nat n → 0 ≤ b < 256 ^ Z.of_nat n → le_bytes n a = le_bytes n b → a = b.
Proof. intros Ha Hb H%(f_equal le_val). by rewrite !le_val_le_bytes in H. Qed.

Lemma u64_le_val z : is_u64 z → le_val (u64_le z) = z.
Proof. unfold is_u64, u64_max. intros. apply le_val_le_bytes. simpl. lia. Qed.

Lemma u32_le_val z : is_u32 z → le_val (u32_le z) = z.
Proof. unfold is_u32, u32_max. intros. apply le_val_le_bytes. simpl. lia. Qed.

Lemma u64_le_inj a b : is_u64 a → is_u64 b → u64_le a = u64_le b → a = b.
Proof. intros Ha Hb H%(f_equal le_val). by rewrite !u64_le_val in H. Qed.

Lemma u32_le_inj a b : is_u32 a → is_u32 b → u32_le a = u32_le b → a = b.
Proof. intros Ha Hb H%(f_equal le_val). by rewrite !u32_le_val in H. Qed.

(** ** Lemmas on slices *)

Section slices.
Context {A : Type}.
Implicit Types l b : list A.

Lemma length_slice off len l : (off + len ≤ length l)%nat → length (slice off len l) = len.
Proof. intros. unfold slice. rewrite length_take, length_drop. lia. Qed.

Lemma length_overwrite off b l :
  (off + length b ≤ length l)%nat → length (overwrite off b l) = length l.
Proof. intros. unfold overwrite. rewrite !length_app, length_take, length_drop. lia. Qed.

Lemma lookup_slice off len l k :
  slice off len l !! k = if decide (k < len)%nat then l !! (off + k)%nat else None.
Proof.
  unfold slice. case_decide.
  - rewrite lookup_take_lt by done. apply lookup_drop.
  - apply lookup_take_ge. lia.
Qed.

Lemma slice_app_l off len l b :
  (off + len ≤ length l)%nat → slice off len (l ++ b) = slice off len l.
Proof.
  intros. unfold slice. rewrite drop_app_le by lia. rewrite take_app_le; [done|].
  rewrite length_drop. lia.
Qed.

Lemma slice_app_r off len l b :
  slice (length l + off) len (l ++ b) = slice off len b.
Proof. unfold slice. by rewrite drop_app_add. Qed.

Lemma slice_overwrite_same off b l :
  (off ≤ length l)%nat → slice off (length b) (overwrite off b l) = b.
Proof.
  intros. unfold slice, overwrite. rewrite drop_app_length'; [|rewrite length_take; lia].
  by rewrite take_app_length.
Qed.

Lemma lookup_overwrite off b l k :
  (off + length b ≤ length l)%nat →
  overwrite off b l !! k =
    if decide (off ≤ k < off + length b)%nat then b !! (k - off)%nat else l !! k.
Proof.
  intros. unfold overwrite. case_decide.
  - rewrite lookup_app_r by (rewrite length_take; lia).
    rewrite length_take, Nat.min_l by lia. apply lookup_app_l. lia.
  - destruct (decide (k < off)%nat).
    + rewrite lookup_app_l by (rewrite length_take; lia). by rewrite lookup_take_lt.
    + rewrite lookup_app_r by (rewrite length_take; lia).
      rewrite length_take, Nat.min_l by lia.
      rewrite lookup_app_r by lia. rewrite lookup_drop. f_equal. lia.
Qed.

Lemma slice_overwrite_disjoint off len off' b l :
  (off' + length b ≤ length l)%nat →
  (off + len ≤ off' ∨ off' + length b ≤ off)%nat →
  slice off len (overwrite off' b l) = slice off len l.
Proof.
  intros Hb Hd. apply list_eq. intros k. rewrite !lookup_slice.
  case_decide; [|done]. rewrite lookup_overwrite by done. case_decide; [lia|done].
Qed.

Lemma overwrite_mid n a b c d :
  length a = n → length b = length c → overwrite n b (a ++ c ++ d) = a ++ b ++ d.
Proof.
  intros <- Hl. unfold overwrite. rewrite take_app_length. f_equal. f_equal.
  rewrite Hl, drop_app_add. apply drop_app_length.
Qed.

Lemma slice_mid n m a b c :
  length a = n → length b = m → slice n m (a ++ b ++ c) = b.
Proof. intros <- <-. unfold slice. rewrite drop_app_length. apply take_app_length. Qed.

Lemma slice_all n l : length l = n → slice 0 n l = l.
Proof. intros <-. apply firstn_all. Qed.

Lemma slice_split n m l : slice n m l ++ drop (n + m) l = drop n l.
Proof. unfold slice. rewrite <-(take_drop m (drop n l)) at 2. by rewrite drop_drop. Qed.

Lemma slice_add off n m l : slice off (n + m) l = slice off n l ++ slice (off + n) m l.
Proof. unfold slice. by rewrite <-drop_drop, take_take_drop. Qed.

Lemma overwrite_0 b l : (length b = length l)%nat → overwrite 0 b l = b.
Proof. intros. unfold overwrite. simpl. rewrite drop_ge by lia. apply app_nil_r. Qed.
End slices.

#[export] Hint Rewrite @length_app @length_le_bytes @length_replicate @length_fmap @length_map : drot.

(** ** Lemmas on strings *)


Lemma plain_ascii s : plain_str s → ascii_str s.
Proof. intros H. eapply Forall_impl; [exact H|]. simpl. lia. Qed.

Lemma plain_not_whitespace c : 33 ≤ c < 128 → is_whitespace c = false.
Proof. unfold is_whitespace. intros. repeat (apply orb_false_iff; split); lia. Qed.

Lemma from_utf8_ascii s : ascii_str s → from_utf8 (ascii_bytes s) = Some s.
Proof.
  intros H. unfold from_utf8, ascii_bytes. rewrite length_map.
  induction H as [|c s Hc _ IH]; [done|]. simpl.
  rewrite Z_of_byte_of_Z, Z.mod_small by lia.
  rewrite (proj2 (Z.leb_le c 127)) by lia. by rewrite IH.
Qed.

Lemma split_ws_from_plain cur s rest :
  plain_str s → split_ws_from cur (s ++ rest) = split_ws_from (cur ++ s) rest.
Proof.
  intros H. revert cur. induction H as [|c s Hc _ IH]; intros cur; simpl.
  - by rewrite app_nil_r.
  - rewrite plain_not_whitespace by done. rewrite IH. by rewrite <-app_assoc.
Qed.

(** One token followed by a white-space character. *)
Lemma split_ws_token s c rest :
  plain_str s → s ≠ [] → is_whitespace c = true →
  split_whitespace (s ++ c :: rest) = s :: split_whitespace rest.
Proof.
  intros Hs Hn Hc. unfold split_whitespace.
  rewrite split_ws_from_plain by done. simpl. rewrite Hc. by destruct s.
Qed.

Lemma split_ws_nil : split_whitespace [] = [].
Proof. done. Qed.

Lemma parse_digits_app max acc s s' a :
  parse_digits max acc s = Ok a → parse_digits max acc (s ++ s') = parse_digits max a s'.
Proof.
  revert acc. induction s as [|c s IH]; intros acc H; simpl in *; [congruence|].
  destruct (digit_value c); [|done]. destruct (_ <=? max); [|done]. by apply IH.
Qed.

Lemma digit_value_digit d : 0 ≤ d < 10 → digit_value (48 + d) = Some d.
Proof.
  intros. unfold digit_value.
  rewrite (proj2 (Z.leb_le 48 _)), (proj2 (Z.leb_le _ 57)) by lia. simpl. f_equal. lia.
Qed.

Lemma decimal_go_app fuel n acc : decimal_go fuel n acc = decimal_go fuel n [] ++ acc.
Proof.
  revert n acc. induction fuel as [|fuel IH]; intros n acc; [done|].
  cbn [decimal_go]. destruct (n / 10 =? 0); [done|].
  rewrite IH. rewrite (IH _ [_]). by rewrite <-app_assoc.
Qed.

Lemma parse_digits_decimal_go max fuel n :
  0 ≤ n ≤ max → n < 10 ^ Z.of_nat fuel → (0 < fuel)%nat →
  parse_digits max 0 (decimal_go fuel n []) = Ok n.
Proof.
  revert n. induction fuel as [|fuel IH]; intros n Hn Hlt Hf; [lia|].
  pose proof (Z.mod_pos_bound n 10 ltac:(lia)) as Hm.
  pose proof (Z.div_mod n 10 ltac:(lia)) as Hdm.
  cbn [decimal_go]. destruct (Z.eqb_spec (n / 10) 0) as [E|E].
  - cbn [parse_digits]. rewrite digit_value_digit by done.
    rewrite (proj2 (Z.leb_le _ max)) by lia. f_equal. lia.
  - rewrite Nat2Z.inj_succ, Z.pow_succ_r in Hlt by lia.
    assert (0 ≤ n / 10) by (apply Z.div_pos; lia).
    assert (n / 10 < 10 ^ Z.of_nat fuel) by (apply Z.div_lt_upper_bound; lia).
    assert (0 < fuel)%nat by (destruct fuel; [simpl in *; lia|lia]).
    rewrite decimal_go_app. erewrite parse_digits_app; [|apply IH; lia].
    cbn [parse_digits]. rewrite digit_value_digit by done.
    rewrite (proj2 (Z.leb_le _ max)) by lia. f_equal. lia.
Qed.

Lemma decimal_go_digits fuel n acc : 0 ≤ n → digit_str acc → digit_str (decimal_go fuel n acc).
Proof.
  revert n acc. induction fuel as [|fuel IH]; intros n acc Hn Ha; [done|].
  cbn [decimal_go]. pose proof (Z.mod_pos_bound n 10 ltac:(lia)).
  assert (digit_str ((48 + n mod 10) :: acc)) by (constructor; [lia|done]).
  destruct (n / 10 =? 0); [done|]. apply IH; [apply Z.div_pos; lia|done].
Qed.

Lemma length_decimal n : (length (decimal n) ≤ 20)%nat.
Proof.
  assert (H : ∀ fuel n acc, (length (decimal_go fuel n acc) ≤ fuel + length acc)%nat).
  { clear n. intros fuel. induction fuel as [|fuel IH]; intros n acc; [done|]. cbn [decimal_go].
    destruct (_ =? 0); [simpl; lia|]. etrans; [apply IH|]. simpl. lia. }
  etrans; [apply H|done].
Qed.

Lemma decimal_digits n : 0 ≤ n → digit_str (decimal n).
Proof. intros. apply decimal_go_digits; [done|constructor]. Qed.

Lemma decimal_plain n : 0 ≤ n → plain_str (decimal n).
Proof. intros H%decimal_digits. eapply Forall_impl; [exact H|]. simpl. lia. Qed.

Lemma decimal_go_nonempty fuel n acc : (0 < fuel)%nat ∨ acc ≠ [] → decimal_go fuel n acc ≠ [].
Proof.
  revert n acc. induction fuel as [|fuel IH]; intros n acc H; simpl; [destruct H; [lia|done]|].
  destruct (n / 10 =? 0); [done|]. apply IH. by right.
Qed.

Lemma decimal_nonempty n : decimal n ≠ [].
Proof. apply decimal_go_nonempty. left. lia. Qed.

Lemma parse_unsigned_digits max s :
  digit_str s → s ≠ [] → parse_unsigned max s = parse_digits max 0 s.
Proof.
  intros H Hn. destruct s as [|c s]; [done|]. inversion H as [|?? Hc Hs]; subst.
  unfold parse_unsigned. destruct c as [|p|]; try done.
  do 6 (destruct p as [p|p|]; try done; try lia).
Qed.

(** [parse] undoes [to_string]. *)
Lemma parse_decimal max n :
  0 ≤ n ≤ max → max < 10 ^ 20 → parse_unsigned max (decimal n) = Ok n.
Proof.
  intros Hn Hm. rewrite parse_unsigned_digits;
    [|apply decimal_digits; lia|apply decimal_nonempty].
  apply parse_digits_decimal_go; [done|change (Z.of_nat 20) with 20; lia|lia].
Qed.

Lemma parse_digits_range max acc s v : 0 ≤ acc ≤ max → parse_digits max acc s = Ok v → 0 ≤ v ≤ max.
Proof.
  revert acc. induction s as [|c s IH]; intros acc Ha H; simpl in H; [congruence|].
  unfold digit_value in H. destruct (_ && _) eqn:E; [|done]. boolify.
  destruct (Z.leb_spec (acc * 10 + (c - 48)) max); [|done]. eapply IH; [|done]. lia.
Qed.

Lemma parse_unsigned_range max s v : 0 ≤ max → parse_unsigned max s = Ok v → 0 ≤ v ≤ max.
Proof.
  intros Hm H. unfold parse_unsigned in H.
  repeat case_match; try done; eapply parse_digits_range; try exact H; lia.
Qed.

Lemma hex_digit_range d : 0 ≤ d < 16 → 33 ≤ hex_digit d < 128.
Proof. unfold hex_digit. intros. destruct (d <? 10) eqn:E; boolify; lia. Qed.

Lemma hex_digit_inj a b : 0 ≤ a < 16 → 0 ≤ b < 16 → hex_digit a = hex_digit b → a = b.
Proof.
  unfold hex_digit. intros. destruct (a <? 10) eqn:?, (b <? 10) eqn:?; boolify; lia.
Qed.

Lemma nibbles b : 0 ≤ Z_of_byte b / 16 < 16 ∧ 0 ≤ Z_of_byte b mod 16 < 16.
Proof.
  pose proof (Z_of_byte_range b). split; [|apply Z.mod_pos_bound; lia].
  split; [apply Z.div_pos; lia|]. apply Z.div_lt_upper_bound; lia.
Qed.

Lemma hex_byte_inj a b : hex_byte a = hex_byte b → a = b.
Proof.
  intros H. injection H as H1 H2. pose proof (nibbles a) as []. pose proof (nibbles b) as [].
  apply hex_digit_inj in H1, H2; try done. apply (inj Z_of_byte).
  rewrite (Z.div_mod (Z_of_byte a) 16), (Z.div_mod (Z_of_byte b) 16) by lia. congruence.
Qed.

Lemma hex_plain l : plain_str (hex l).
Proof.
  induction l as [|b l IH]; [constructor|]. unfold hex. simpl.
  pose proof (nibbles b) as []. repeat constructor; try apply hex_digit_range; done.
Qed.

#[export] Instance hex_inj : Inj (=) (=) hex.
Proof.
  intros a. induction a as [|x a IH]; intros [|y b] H; [done|done|done|].
  unfold hex in H; simpl in H. injection H as H1 H2 H3.
  rewrite (hex_byte_inj x y) by (unfold hex_byte; congruence). f_equal. by apply IH.
Qed.

Lemma hex_nonempty l : l ≠ [] → hex l ≠ [].
Proof. by destruct l. Qed.

Lemma strip_prefix_Some p s r : strip_prefix p s = Some r ↔ s = p ++ r.
Proof.
  revert s. induction p as [|a p IH]; intros s; simpl; [naive_solver|].
  destruct s as [|b s]; [naive_solver|]. destruct (Z.eqb_spec a b) as [->|Hab].
  - rewrite IH. naive_solver.
  - naive_solver.
Qed.

(** ** Lemmas on sorting *)

Section sorting_facts.
Context {A : Type} (key : A → Z).
Definition key_le (a b : A) : Prop := key a ≤ key b.
Definition key_lt (a b : A) : Prop := key a < key b.

Lemma insert_by_key_perm a l : insert_by_key key a l ≡ₚ a :: l.
Proof.
  induction l as [|b l IH]; simpl; [done|]. destruct (_ <=? _); [done|].
  rewrite IH. apply Permutation_swap.
Qed.

Lemma sort_by_key_perm l : sort_by_key key l ≡ₚ l.
Proof. induction l as [|a l IH]; simpl; [done|]. by rewrite insert_by_key_perm, IH. Qed.

Lemma insert_by_key_sorted a l :
  StronglySorted key_le l → StronglySorted key_le (insert_by_key key a l).
Proof.
  induction 1 as [|b l Hs IH Hb]; simpl; [repeat constructor|].
  destruct (Z.leb_spec (key a) (key b)).
  - constructor; [by constructor|]. constructor; [done|].
    eapply Forall_impl; [exact Hb|]. unfold key_le. simpl. lia.
  - constructor; [done|]. rewrite insert_by_key_perm. constructor; [|done].
    unfold key_le. lia.
Qed.

Lemma sort_by_key_sorted l : StronglySorted key_le (sort_by_key key l).
Proof. induction l as [|a l IH]; simpl; [constructor|by apply insert_by_key_sorted]. Qed.

(** A sorted list has no two adjacent equal keys exactly when it has no two
    equal keys at all: the adjacent-duplicate test is complete after sorting. *)
Lemma any_adjacent_dup l :
  StronglySorted key_le l →
  any_adjacent (λ a b, key a =? key b) l = false ↔ StronglySorted key_lt l.
Proof.
  induction 1 as [|a l Hs IH Ha]; [split; [constructor|done]|].
  destruct l as [|b l]; [split; [repeat constructor|done]|].
  cbn [any_adjacent]. rewrite orb_false_iff, IH, Z.eqb_neq.
  inversion Ha as [|?? Hab Hal]; subst. unfold key_le in Hab. split.
  - intros [Hne Hl]. constructor; [done|]. inversion Hl as [|?? Hl' Hbl]; subst.
    constructor; [unfold key_lt; lia|]. eapply Forall_impl; [exact Hbl|].
    unfold key_lt. simpl. lia.
  - intros Hl. inversion Hl as [|?? Hl' Hbl]; subst. inversion Hbl; subst.
    unfold key_lt in *. split; [lia|done].
Qed.
End sorting_facts.

(** A list of blocks of one size is determined by its concatenation. *)
Lemma mjoin_fixed_inj n (l k : list bytes) :
  (0 < n)%nat → Forall (λ e, length e = n) l → Forall (λ e, length e = n) k →
  mjoin l = mjoin k → l = k.
Proof.
  intros Hn Hl. revert k. induction Hl as [|x l Hx _ IH]; intros k Hk E.
  - destruct Hk as [|y k Hy _]; [done|]. simpl in E. destruct y; simpl in *; [lia|done].
  - destruct Hk as [|y k Hy Hk]; simpl in E; [destruct x; simpl in *; [lia|done]|].
    apply app_inj_1 in E as [-> E]; [|congruence]. f_equal. by apply IH.
Qed.

Lemma list_filter_sublist {A} (f : A → bool) (l : list A) : sublist (List.filter f l) l.
Proof. induction l as [|a l IH]; simpl; [constructor|]. destruct (f a); by constructor. Qed.

(** Keys stay distinct when elements are dropped. *)
Lemma NoDup_sublist_keys {A B} (f : A → B) (k l : list A) :
  sublist k l → NoDup (f <$> l) → NoDup (f <$> k).
Proof. intros Hs Hl. eapply sublist_NoDup; [exact Hl|]. by apply fmap_sublist. Qed.

Lemma length_mjoin n (l : list bytes) :
  Forall (λ e, length e = n) l → length (mjoin l) = (n * length l)%nat.
Proof.
  induction 1 as [|e l He _ IH]; [simpl; lia|].
  change (mjoin (e :: l)) with (e ++ mjoin l). change (length (e :: l)) with (S (length l)).
  rewrite length_app, He, IH. lia.
Qed.

(** What distinct positions contribute is apart. *)
Lemma NoDup_bind_apart {A B} (f : A → list B) l i j a b x :
  NoDup (l ≫= f) → l !! i = Some a → l !! j = Some b → i ≠ j → x ∈ f a → x ∉ f b.
Proof.
  revert i j. induction l as [|y l IH]; [done|]. intros i j (Hnd & Hdis & Hnd')%NoDup_app Hi Hj Hne Ha Hb.
  assert (Hin : ∀ k z, l !! k = Some z → x ∈ f z → x ∈ l ≫= f)
    by (intros k z Hk Hz; apply list_elem_of_bind; exists z; split; [done|by eapply list_elem_of_lookup_2]).
  destruct i as [|i], j as [|j]; [done| | |].
  - injection Hi as ->. eapply Hdis; [exact Ha|by eapply Hin].
  - injection Hj as ->. eapply Hdis; [exact Hb|by eapply Hin].
  - by apply (IH i j Hnd' Hi Hj); [congruence|..].
Qed.

(** ** Lemmas on results *)

Lemma result_bind_Ok {A B E} (r : result A E) (k : A → result B E) b :
  result_bind r k = Ok b ↔ ∃ a, r = Ok a ∧ k a = Ok b.
Proof. destruct r; naive_solver. Qed.

(** Going round [n] places from [i] visits no place twice, and in [n] steps all. *)
Lemma rotation_NoDup i n t :
  (0 < n)%nat → (t ≤ n)%nat → NoDup ((λ j, (i + j) mod n)%nat <$> seq 0 t).
Proof.
  intros Hn Ht. apply NoDup_fmap_2_strong; [|apply NoDup_seq]. intros x y Hx%elem_of_seq Hy%elem_of_seq E.
  rewrite <-(Nat.Div0.add_mod_idemp_l i x), <-(Nat.Div0.add_mod_idemp_l i y) in E.
  pose proof (Nat.mod_upper_bound i n ltac:(lia)) as Hi. set (r := (i mod n)%nat) in *.
  destruct (decide (r + x < n)%nat) as [Hx'|Hx'], (decide (r + y < n)%nat) as [Hy'|Hy'].
  - rewrite !Nat.mod_small in E by lia. lia.
  - rewrite (Nat.mod_small (r + x)) in E by lia.
    rewrite <-(Nat.mod_unique (r + y) n 1 (r + y - n)) in E by lia. lia.
  - rewrite (Nat.mod_small (r + y)) in E by lia.
    rewrite <-(Nat.mod_unique (r + x) n 1 (r + x - n)) in E by lia. lia.
  - rewrite <-(Nat.mod_unique (r + y) n 1 (r + y - n)),
      <-(Nat.mod_unique (r + x) n 1 (r + x - n)) in E by lia. lia.
Qed.

Lemma rotation_hits i n p : (p < n)%nat → p ∈ (λ j, (i + j) mod n)%nat <$> seq 0 n.
Proof.
  intros Hp. assert (Hsub : (λ j, (i + j) mod n)%nat <$> seq 0 n ⊆+ seq 0 n).
  { apply NoDup_submseteq; [apply rotation_NoDup; lia|]. intros x (j & -> & _)%list_elem_of_fmap.
    apply elem_of_seq. pose proof (Nat.mod_upper_bound (i + j) n). lia. }
  apply submseteq_length_Permutation in Hsub; [|by rewrite length_fmap, length_seq].
  rewrite Hsub. apply elem_of_seq. lia.
Qed.

Lemma collect_results_Ok {A B E} (f : A → result B E) l bs :
  collect_results f l = Ok bs ↔ Forall2 (λ a b, f a = Ok b) l bs.
Proof.
  revert bs. induction l as [|a l IH]; intros bs; simpl.
  - split; [intros [= <-]; constructor|by inversion 1].
  - rewrite result_bind_Ok. split.
    + intros (b & Hb & (bs' & Hbs & [= <-])%result_bind_Ok). constructor; [done|by apply IH].
    + intros (b & bs' & Hb & Hbs%IH & ->)%Forall2_cons_inv_l. exists b. split; [done|].
      apply result_bind_Ok. eauto.
Qed.

#[export] Hint Resolve hex_plain decimal_plain plain_ascii decimal_nonempty : drot.
