(* ===== verification/Fs.v ===== *)
(** * The operating system under the durable state

    A model of the [std::fs] calls the two state modules make, in one directory:
    directory entries, file contents, advisory file locks, I/O failures, process
    death in the middle of a call and power loss.  The directory and every file
    keep the versions written since their last successful sync, current one
    first; a power loss leaves one version of the directory and, at every byte
    of every file, the byte of one of the versions.  Calls return the outcome
    chosen by the list [w_verdicts] (an exhausted list means success), so every
    failure schedule is a value of the model and the code stays executable. *)
From S2P Require Import Prelude.

(** ** Paths *)

(** A path: the components before the file name, and the file name when the
    path has one ([Path::file_name] is [None] for [..] and the root). *)
Abbreviation path := (list string * option string)%type.

(** [sibling(path, suffix)]: [<file name>.<suffix>] in the same directory. *)
Definition sibling (p : path) (suffix : string) : path :=
  let name := default ""%string (snd p) in
  (fst p, Some (name +:+ "." +:+ suffix)%string).

(** [Path::display]. *)
Definition display_path (p : path) : string :=
  String.concat "/" (fst p ++ match snd p with Some n => [n] | None => [] end).

(** ** State *)

Inductive io_error := NotFound | OtherError.

(** The text the operating system gives an error. *)
Class OsText := os_text : io_error → string.

Inductive try_lock_error := TryWouldBlock | TryError (e : io_error).

(** What the operating system does with the next call: complete it, fail after
    [k] bytes of it (with an error other than the [NotFound] of a missing name),
    or have the process die after [k] bytes of it. *)
Inductive verdict := Proceed | Fault (k : nat) | Kill (k : nat).

Record world := World {
  w_dirs : list (gmap path nat);
  w_nodes : gmap nat (list bytes);
  w_next : nat;
  w_locks : gset nat;
  w_verdicts : list verdict;
  (** whether [stat] answers: [Path::exists] returns [false] when it does not *)
  w_stat_ok : bool;
  w_entropy : nat;
  (** every (slot, message) pair an XMSS secret key was applied to, latest first *)
  w_signed : list (Z * bytes);
}.

Definition cur_dir (w : world) : gmap path nat :=
  match w_dirs w with d :: _ => d | [] => ∅ end.

Definition versions (w : world) (i : nat) : list bytes := default [] (w_nodes w !! i).

Definition content (w : world) (i : nat) : bytes :=
  match versions w i with c :: _ => c | [] => [] end.

(** The bytes under a name. *)
Definition file_at (w : world) (q : path) : option bytes := content w <$> cur_dir w !! q.

Definition with_dirs (ds : list (gmap path nat)) (w : world) : world :=
  World ds (w_nodes w) (w_next w) (w_locks w) (w_verdicts w) (w_stat_ok w)
    (w_entropy w) (w_signed w).
Definition with_nodes (ns : gmap nat (list bytes)) (w : world) : world :=
  World (w_dirs w) ns (w_next w) (w_locks w) (w_verdicts w) (w_stat_ok w)
    (w_entropy w) (w_signed w).
Definition with_next (n : nat) (w : world) : world :=
  World (w_dirs w) (w_nodes w) n (w_locks w) (w_verdicts w) (w_stat_ok w)
    (w_entropy w) (w_signed w).
Definition with_locks (ls : gset nat) (w : world) : world :=
  World (w_dirs w) (w_nodes w) (w_next w) ls (w_verdicts w) (w_stat_ok w)
    (w_entropy w) (w_signed w).
Definition with_verdicts (vs : list verdict) (w : world) : world :=
  World (w_dirs w) (w_nodes w) (w_next w) (w_locks w) vs (w_stat_ok w)
    (w_entropy w) (w_signed w).
Definition with_stat (b : bool) (w : world) : world :=
  World (w_dirs w) (w_nodes w) (w_next w) (w_locks w) (w_verdicts w) b
    (w_entropy w) (w_signed w).
Definition with_entropy (n : nat) (w : world) : world :=
  World (w_dirs w) (w_nodes w) (w_next w) (w_locks w) (w_verdicts w) (w_stat_ok w)
    n (w_signed w).
Definition with_signed (l : list (Z * bytes)) (w : world) : world :=
  World (w_dirs w) (w_nodes w) (w_next w) (w_locks w) (w_verdicts w) (w_stat_ok w)
    (w_entropy w) l.

Definition push_dir (d : gmap path nat) (w : world) : world := with_dirs (d :: w_dirs w) w.
Definition push_node (i : nat) (c : bytes) (w : world) : world :=
  with_nodes (<[i := c :: versions w i]> (w_nodes w)) w.

(** ** Effects: state, errors and process death *)

Inductive outcome (E A : Type) : Type :=
| Done (a : A)
| Failed (e : E)
| Halted.
Arguments Done {E A} a.
Arguments Failed {E A} e.
Arguments Halted {E A}.

Definition io (E A : Type) : Type := world → outcome E A * world.

#[export] Instance io_ret {E} : MRet (io E) := λ A a w, (Done a, w).
#[export] Instance io_bind {E} : MBind (io E) := λ A B k m w,
  let '(o, w') := m w in
  match o with
  | Done a => k a w'
  | Failed e => (Failed e, w')
  | Halted => (Halted, w')
  end.

Definition throw {E A} (e : E) : io E A := λ w, (Failed e, w).
Definition lift {E A} (r : result A E) : io E A :=
  λ w, (match r with Ok a => Done a | Err e => Failed e end, w).
Definition io_map_err {E F A} (f : E → F) (m : io E A) : io F A := λ w,
  let '(o, w') := m w in
  (match o with Done a => Done a | Failed e => Failed (f e) | Halted => Halted end, w').
(** A call that has no error of its own. *)
Definition no_panic {E A} : io Empty_set A → io E A := io_map_err (λ e : Empty_set, match e with end).
(** [match m { Ok(a) => k(Ok(a)), Err(e) => k(Err(e)) }]. *)
Definition io_catch {E F A B} (m : io E A) (k : result A E → io F B) : io F B := λ w,
  let '(o, w') := m w in
  match o with Done a => k (Ok a) w' | Failed e => k (Err e) w' | Halted => (Halted, w') end.

(** One call: the operating system's verdict decides between the operation and
    its partial effect. *)
Definition syscall {E A} (inj : io_error → E) (partial : nat → world → world)
    (op : world → result A E * world) : io E A := λ w,
  let '(v, w1) := match w_verdicts w with
                  | [] => (Proceed, w)
                  | v :: vs => (v, with_verdicts vs w)
                  end in
  match v with
  | Proceed => let '(r, w2) := op w1 in
               (match r with Ok a => Done a | Err e => Failed e end, w2)
  | Fault k => (Failed (inj OtherError), partial k w1)
  | Kill k => (Halted, partial k w1)
  end.

Definition no_partial (_ : nat) (w : world) : world := w.

(** ** Files *)

(** An open file: the inode it refers to and its cursor. *)
Record file := File { f_ino : nat; f_pos : nat }.

Definition open_rw (p : path) : io io_error file :=
  syscall id no_partial (λ w,
    match cur_dir w !! p with
    | Some i => (Ok (File i 0), w)
    | None => (Err NotFound, w)
    end).

Definition alloc_file (p : path) (w : world) : nat * world :=
  let i := w_next w in
  (i, with_next (S i) (push_dir (<[p := i]> (cur_dir w)) (push_node i [] w))).

(** [OpenOptions::create(true).truncate(true)] and [File::create]. *)
Definition open_truncate (p : path) : io io_error file :=
  syscall id no_partial (λ w,
    match cur_dir w !! p with
    | Some i => (Ok (File i 0), push_node i [] w)
    | None => let '(i, w') := alloc_file p w in (Ok (File i 0), w')
    end).

(** [OpenOptions::create(true).truncate(false)]. *)
Definition open_create (p : path) : io io_error file :=
  syscall id no_partial (λ w,
    match cur_dir w !! p with
    | Some i => (Ok (File i 0), w)
    | None => let '(i, w') := alloc_file p w in (Ok (File i 0), w')
    end).

Definition seek (f : file) (off : nat) : io io_error file :=
  syscall id no_partial (λ w, (Ok (File (f_ino f) off), w)).

(** Writing [b] at [pos], zero-filling a gap past the end. *)
Definition write_at (pos : nat) (b c : bytes) : bytes :=
  take pos (c ++ replicate (pos - length c) Byte.x00) ++ b ++ drop (pos + length b) c.

Definition write_all (f : file) (b : bytes) : io io_error file :=
  let put k w := push_node (f_ino f) (write_at (f_pos f) (take k b) (content w (f_ino f))) w in
  syscall id put (λ w, (Ok (File (f_ino f) (f_pos f + length b)), put (length b) w)).

(** [sync_all] and [sync_data] of a file: the current contents are durable. *)
Definition sync_file (f : file) : io io_error unit :=
  syscall id no_partial (λ w,
    (Ok tt, with_nodes (<[f_ino f := [content w (f_ino f)]]> (w_nodes w)) w)).

Definition read_to_end (f : file) : io io_error bytes :=
  syscall id no_partial (λ w, (Ok (drop (f_pos f) (content w (f_ino f))), w)).

Definition fs_read (p : path) : io io_error bytes :=
  syscall id no_partial (λ w,
    match cur_dir w !! p with
    | Some i => (Ok (content w i), w)
    | None => (Err NotFound, w)
    end).

Definition rename (p q : path) : io io_error unit :=
  syscall id no_partial (λ w,
    match cur_dir w !! p with
    | Some i => (Ok tt, push_dir (<[q := i]> (delete p (cur_dir w))) w)
    | None => (Err NotFound, w)
    end).

(** [fs::remove_file]. *)
Definition remove_file (p : path) : io io_error unit :=
  syscall id no_partial (λ w,
    match cur_dir w !! p with
    | Some _ => (Ok tt, push_dir (delete p (cur_dir w)) w)
    | None => (Err NotFound, w)
    end).

(** [File::open(dir)?] and [.sync_all()?] on the directory. *)
Definition open_dir : io io_error unit := syscall id no_partial (λ w, (Ok tt, w)).
Definition sync_dir : io io_error unit :=
  syscall id no_partial (λ w, (Ok tt, with_dirs [cur_dir w] w)).

(** [Path::exists]: [false] also when the metadata cannot be read. *)
Definition path_exists {E} (p : path) : io E bool := λ w,
  (Done (w_stat_ok w && bool_decide (is_Some (cur_dir w !! p))), w).

(** [fs::symlink_metadata]. *)
Definition symlink_metadata (p : path) : io io_error unit :=
  syscall id no_partial (λ w,
    match cur_dir w !! p with Some _ => (Ok tt, w) | None => (Err NotFound, w) end).

(** [File::try_lock] and the release of the lock when the file is dropped. *)
Definition try_lock (f : file) : io try_lock_error unit :=
  syscall TryError no_partial (λ w,
    if bool_decide (f_ino f ∈ w_locks w) then (Err TryWouldBlock, w)
    else (Ok tt, with_locks ({[f_ino f]} ∪ w_locks w) w)).

Definition unlock (f : file) (w : world) : world := with_locks (w_locks w ∖ {[f_ino f]}) w.

(** A scope that owns the lock: an early return with [Err] drops it. *)
Definition drop_lock_on_err {E A} (l : file) (m : io E A) : io E A := λ w,
  let '(o, w') := m w in
  match o with Failed e => (Failed e, unlock l w') | _ => (o, w') end.

(** A fresh value from the random generator. *)
Definition draw {E} : io E nat := λ w, (Done (w_entropy w), with_entropy (S (w_entropy w)) w).

(** ** Power loss and process death *)

Definition torn (h : list bytes) (m : bytes) : Prop :=
  ∀ k : nat, ∃ c, c ∈ h ∧ m !! k = c !! k.

Record power_loss (w w' : world) : Prop := {
  pl_dirs : ∃ d, d ∈ w_dirs w ∧ w_dirs w' = [d];
  pl_nodes : ∀ i, match w_nodes w !! i with
                  | None => w_nodes w' !! i = None
                  | Some h => ∃ m, torn h m ∧ w_nodes w' !! i = Some [m]
                  end;
  pl_next : w_next w' = w_next w;
  pl_locks : w_locks w' = ∅;
  pl_signed : w_signed w' = w_signed w;
}.

(** One power loss: directory version [dv] survives, and of every file the first
    [off] bytes of its oldest version followed by the rest of its newest. *)
Definition mixed (off : nat) (h : list bytes) : bytes :=
  take off (default [] (last h)) ++ drop off (default [] (head h)).
Definition reboot (dv off : nat) (w : world) : world :=
  World [nth dv (w_dirs w) ∅] ((λ h, [mixed off h]) <$> w_nodes w) (w_next w) ∅ []
    (w_stat_ok w) (w_entropy w) (w_signed w).
Definition can_reboot (dv : nat) (w : world) : bool :=
  (dv <? length (w_dirs w))%nat &&
  forallb (λ '(_, h), match h with
                      | [] => false
                      | c :: _ => (length (default [] (last h)) =? length c)%nat
                      end) (map_to_list (w_nodes w)).

(** Two worlds that agree on everything but the contents of file [i] (and the
    schedule of verdicts and the random generator). *)
Record same_but (i : nat) (w0 w : world) : Prop := {
  sb_dirs : w_dirs w = w_dirs w0;
  sb_next : w_next w = w_next w0;
  sb_locks : w_locks w = w_locks w0;
  sb_stat : w_stat_ok w = w_stat_ok w0;
  sb_signed : w_signed w = w_signed w0;
  sb_nodes : ∀ j, j ≠ i → w_nodes w !! j = w_nodes w0 !! j;
}.

(** ** Hoare triples

    [triple P m Q R]: from a world in [P], [m] returns [a] in a world in [Q a],
    or fails or is cut short in a world in [R]. *)

Definition triple {E A} (P : world → Prop) (m : io E A) (Q : A → world → Prop)
    (R : world → Prop) : Prop :=
  ∀ w, P w → match m w with (Done a, w') => Q a w' | (_, w') => R w' end.

(** Predicates that do not look at the schedule of verdicts. *)
Definition schedule_free (P : world → Prop) : Prop := ∀ vs w, P w → P (with_verdicts vs w).

(** Predicates that do not look at the random generator and the clock. *)
Definition entropy_free (P : world → Prop) : Prop := ∀ n w, P w → P (with_entropy n w).

Lemma triple_weaken {E A} (P P' : world → Prop) (m : io E A) Q Q' (R R' : world → Prop) :
  triple P m Q R → (∀ w, P' w → P w) → (∀ a w, Q a w → Q' a w) → (∀ w, R w → R' w) →
  triple P' m Q' R'.
Proof.
  intros H HP HQ HR w Hw. specialize (H w (HP w Hw)).
  destruct (m w) as [[a|e|] w']; eauto.
Qed.

Lemma triple_pre {E A} (P P' : world → Prop) (m : io E A) Q R :
  (∀ w, P' w → P w) → triple P m Q R → triple P' m Q R.
Proof. intros HP H w Hw. by apply H, HP. Qed.

Lemma triple_fail {E A} P (m : io E A) Q (R R' : world → Prop) :
  triple P m Q R' → (∀ w, R' w → R w) → triple P m Q R.
Proof. intros H HR. by eapply triple_weaken. Qed.

Lemma triple_bind {E A B} (P : world → Prop) (m : io E A) (k : A → io E B) Q S R :
  triple P m S R → (∀ a, triple (S a) (k a) Q R) → triple P (m ≫= k) Q R.
Proof.
  intros Hm Hk w Hw. specialize (Hm w Hw). unfold mbind, io_bind.
  destruct (m w) as [[a|e|] w']; [by apply Hk|done|done].
Qed.

Lemma triple_ret {E A} (P : world → Prop) (a : A) (Q : A → world → Prop) R :
  (∀ w, P w → Q a w) → triple P (mret (M := io E) a) Q R.
Proof. intros H w Hw. by apply H. Qed.

Lemma triple_map_err {E F A} (f : E → F) P (m : io E A) Q R :
  triple P m Q R → triple P (io_map_err f m) Q R.
Proof.
  intros H w Hw. specialize (H w Hw). unfold io_map_err. by destruct (m w) as [[a|e|] w'].
Qed.

Lemma triple_throw {E A} (e : E) P (Q : A → world → Prop) (R : world → Prop) :
  (∀ w, P w → R w) → triple P (throw e) Q R.
Proof. intros H w Hw. by apply H. Qed.

Lemma triple_lift {E A} (r : result A E) P (Q : A → world → Prop) (R : world → Prop) :
  (∀ a w, r = Ok a → P w → Q a w) → (∀ w, P w → R w) → triple P (lift r) Q R.
Proof. intros HQ HR w Hw. unfold lift. destruct r; [by apply HQ|by apply HR]. Qed.

Lemma triple_syscall {E A} (inj : io_error → E) partial (op : world → result A E * world)
    (P : world → Prop) Q (R : world → Prop) :
  schedule_free P →
  (∀ w, P w → match op w with (Ok a, w') => Q a w' | (Err _, w') => R w' end) →
  (∀ k w, P w → R (partial k w)) →
  triple P (syscall inj partial op) Q R.
Proof.
  intros HP Hop Hpart w Hw. unfold syscall.
  destruct (w_verdicts w) as [|v vs].
  - specialize (Hop w Hw). by destruct (op w) as [[a|e] w'].
  - specialize (HP vs w Hw). destruct v as [|k|k]; [|by apply Hpart|by apply Hpart].
    specialize (Hop _ HP). by destruct (op (with_verdicts vs w)) as [[a|e] w'].
Qed.

Lemma triple_drop_lock {E A} l (m : io E A) P Q (R R' : world → Prop) :
  triple P m Q R → (∀ w, R w → R' (unlock l w)) → (∀ w, R w → R' w) →
  triple P (drop_lock_on_err l m) Q R'.
Proof.
  intros H HR HR' w Hw. specialize (H w Hw). unfold drop_lock_on_err.
  destruct (m w) as [[a|e|] w']; auto.
Qed.

(** A [?] on a pure result: the continuation sees the value. *)
Lemma triple_bind_lift {E A B} (r : result A E) (k : A → io E B) P Q (R : world → Prop) :
  (∀ a, r = Ok a → triple P (k a) Q R) → (∀ w, P w → R w) → triple P (lift r ≫= k) Q R.
Proof.
  intros HQ HR w Hw. unfold mbind, io_bind, lift. destruct r; [by apply HQ|by apply HR].
Qed.

Lemma lift_Ok {E A B} (a : A) (k : A → io E B) w : (lift (Ok a) ≫= k) w = k a w.
Proof. done. Qed.
Lemma lift_Err {E A B} (e : E) (k : A → io E B) w : (lift (Err e) ≫= k) w = (Failed e, w).
Proof. done. Qed.

(** A pure conjunct of the precondition moves to the context. *)
Lemma triple_pure {E A} (φ : Prop) P (m : io E A) Q R :
  (φ → triple P m Q R) → triple (λ w, φ ∧ P w) m Q R.
Proof. intros H w [Hφ Hw]. by apply H. Qed.

(** Calls that do not change the world. *)
Lemma triple_seek f off P :
  schedule_free P → triple P (seek f off) (λ f' w, f' = File (f_ino f) off ∧ P w) P.
Proof. intros HP. by apply triple_syscall. Qed.

Lemma triple_open_dir P : schedule_free P → triple P open_dir (λ _ w, P w) P.
Proof. intros HP. by apply triple_syscall. Qed.

Lemma triple_read_to_end f P :
  schedule_free P →
  triple P (read_to_end f) (λ b w, b = drop (f_pos f) (content w (f_ino f)) ∧ P w) P.
Proof. intros HP. by apply triple_syscall. Qed.

Lemma triple_open_rw p P :
  schedule_free P →
  triple P (open_rw p) (λ f w, f_pos f = 0%nat ∧ cur_dir w !! p = Some (f_ino f) ∧ P w) P.
Proof.
  intros HP. apply triple_syscall; [done| |done].
  intros w Hw. by destruct (cur_dir w !! p) eqn:E.
Qed.

(** A write, whole or cut short, and a sync. *)
Lemma triple_write_all f b (P : world → Prop) Q (R : world → Prop) :
  let put k w := push_node (f_ino f) (write_at (f_pos f) (take k b) (content w (f_ino f))) w in
  schedule_free P →
  (∀ w, P w → Q (File (f_ino f) (f_pos f + length b)) (put (length b) w)) →
  (∀ k w, P w → R (put k w)) →
  triple P (write_all f b) Q R.
Proof. intros put HP HQ HR. by apply triple_syscall. Qed.

Lemma triple_sync_file f (P Q R : world → Prop) :
  schedule_free P →
  (∀ w, P w → Q (with_nodes (<[f_ino f := [content w (f_ino f)]]> (w_nodes w)) w)) →
  (∀ w, P w → R w) →
  triple P (sync_file f) (λ _ w, Q w) R.
Proof. intros HP HQ HR. apply triple_syscall; [done|intros w Hw; by apply HQ|intros k w Hw; by apply HR]. Qed.

(** A lock that is taken, or not for whatever reason. *)
Lemma triple_try_lock f (P Q R : world → Prop) :
  schedule_free P → (∀ w, P w → Q (with_locks ({[f_ino f]} ∪ w_locks w) w)) →
  (∀ w, P w → R w) → triple P (try_lock f) (λ _, Q) R.
Proof.
  intros HP HQ HR w Hw. unfold try_lock, syscall.
  destruct (w_verdicts w) as [|[|k|k] vs]; [|apply (HP vs) in Hw..];
    try case_bool_decide; (by apply HQ) || (by apply HR).
Qed.

Lemma io_map_err_done {E F A} (f : E → F) (m : io E A) w a w' :
  io_map_err f m w = (Done a, w') → m w = (Done a, w').
Proof. unfold io_map_err. destruct (m w) as [[]]; by intros [= <- <-]. Qed.

(** A call that completed ran its operation. *)
Lemma syscall_done {E A} (inj : io_error → E) partial (op : world → result A E * world) w a w' :
  syscall inj partial op w = (Done a, w') → ∃ vs, op (with_verdicts vs w) = (Ok a, w').
Proof.
  unfold syscall. destruct (w_verdicts w) as [|[|k|k] vs] eqn:Ev; [| |done..].
  - exists []. rewrite <-Ev. replace (with_verdicts (w_verdicts w) w) with w by (by destruct w).
    destruct (op w) as [[]]; [by simplify_eq|done].
  - exists vs. destruct (op (with_verdicts vs w)) as [[]]; [by simplify_eq|done].
Qed.

(** *** Runs that return

    [settles P m Q]: from a world in [P], [m] returns or fails with [r], in a world
    in [Q r]; the process does not die. *)
Definition settles {E A} (P : world → Prop) (m : io E A) (Q : result A E → world → Prop) : Prop :=
  ∀ w, P w → match m w with
             | (Done a, w') => Q (Ok a) w'
             | (Failed e, w') => Q (Err e) w'
             | (Halted, _) => False
             end.

Lemma settles_bind {E A B} P (m : io E A) (k : A → io E B) S Q :
  settles P m S → (∀ a, settles (S (Ok a)) (k a) Q) → (∀ e w, S (Err e) w → Q (Err e) w) →
  settles P (m ≫= k) Q.
Proof.
  intros Hm Hk He w Hw. specialize (Hm w Hw). unfold mbind, io_bind.
  destruct (m w) as [[a|e|] w']; [by apply Hk|by apply He|done].
Qed.

Lemma settles_catch {E F A B} P (m : io E A) (k : result A E → io F B) S Q :
  settles P m S → (∀ r, settles (S r) (k r) Q) → settles P (io_catch m k) Q.
Proof.
  intros Hm Hk w Hw. specialize (Hm w Hw). unfold io_catch.
  destruct (m w) as [[a|e|] w']; [by apply Hk..|done].
Qed.

Lemma settles_ret {E A} P (a : A) (Q : result A E → world → Prop) :
  (∀ w, P w → Q (Ok a) w) → settles P (mret (M := io E) a) Q.
Proof. intros H w Hw. by apply H. Qed.

Lemma settles_lift {E A} (r : result A E) P (Q : result A E → world → Prop) :
  (∀ w, P w → Q r w) → settles P (lift r) Q.
Proof. intros H w Hw. specialize (H w Hw). by destruct r. Qed.

Lemma settles_weaken {E A} (P P' : world → Prop) (m : io E A) (Q Q' : result A E → world → Prop) :
  settles P m Q → (∀ w, P' w → P w) → (∀ r w, Q r w → Q' r w) → settles P' m Q'.
Proof.
  intros H HP HQ w Hw. specialize (H w (HP w Hw)). destruct (m w) as [[a|e|] w']; auto.
Qed.

Lemma settles_pure {E A} (φ : Prop) P (m : io E A) Q :
  (φ → settles P m Q) → settles (λ w, φ ∧ P w) m Q.
Proof. intros H w [Hφ Hw]. by apply H. Qed.

Lemma schedule_free_and (P Q : world → Prop) :
  schedule_free P → schedule_free Q → schedule_free (λ w, P w ∧ Q w).
Proof. intros HP HQ vs w []. split; [by apply HP|by apply HQ]. Qed.

Lemma schedule_free_same_but i w0 : schedule_free (same_but i w0).
Proof. by intros vs w []. Qed.

Lemma triple_catch {E F A B} P (m : io E A) (k : result A E → io F B) S T Q (R : world → Prop) :
  triple P m S T → (∀ w, T w → R w) →
  (∀ a, triple (S a) (k (Ok a)) Q R) → (∀ e, triple T (k (Err e)) Q R) →
  triple P (io_catch m k) Q R.
Proof.
  intros Hm HR Ha He w Hw. unfold io_catch. specialize (Hm w Hw).
  destruct (m w) as [[a|e|] w']; [by apply Ha|by apply He|by apply HR].
Qed.

Lemma triple_catch_metadata {E A} q (k : result unit io_error → io E A) P Q (R : world → Prop) :
  schedule_free P → (∀ w, P w → R w) →
  triple P (k (Ok tt)) Q R → triple P (k (Err OtherError)) Q R →
  triple (λ w, P w ∧ cur_dir w !! q = None) (k (Err NotFound)) Q R →
  triple P (io_catch (symlink_metadata q) k) Q R.
Proof.
  intros HP HR Hk He Hn w Hw. unfold io_catch, symlink_metadata, syscall.
  destruct (w_verdicts w) as [|[|j|j] vs]; [|apply (HP vs) in Hw..]; [| |by apply He|by apply HR].
  all: destruct (cur_dir _ !! q) eqn:E'; [by apply Hk|by apply Hn].
Qed.

Lemma triple_catch_read {E A} q (k : result bytes io_error → io E A) P Q (R : world → Prop) :
  schedule_free P → (∀ w, P w → R w) →
  (∀ b, triple (λ w, P w ∧ ∃ i, cur_dir w !! q = Some i ∧ b = content w i) (k (Ok b)) Q R) →
  triple P (k (Err OtherError)) Q R →
  triple (λ w, P w ∧ cur_dir w !! q = None) (k (Err NotFound)) Q R →
  triple P (io_catch (fs_read q) k) Q R.
Proof.
  intros HP HR Hk He Hn w Hw. unfold io_catch, fs_read, syscall.
  destruct (w_verdicts w) as [|[|j|j] vs]; [|apply (HP vs) in Hw..]; [| |by apply He|by apply HR].
  all: destruct (cur_dir _ !! q) as [i|] eqn:E';
    [apply Hk; split; [done|by exists i]|by apply Hn].
Qed.

(** ** Facts about the state *)

Lemma sibling_parent p s : fst (sibling p s) = fst p.
Proof. done. Qed.

Lemma sibling_suffix_inj p s s' : sibling p s = sibling p s' → s = s'.
Proof. unfold sibling. intros [= H]. by apply (inj (String.append _)), (inj (String.append _)) in H. Qed.

Lemma string_app_nonempty_neq s a t : (s +:+ String a t)%string ≠ s.
Proof. induction s as [|b s IH]; simpl; [done|]. intros [= H]. by apply IH. Qed.

(** A state file never shares its path with its own lock or temporary file. *)
Lemma sibling_ne p s : sibling p s ≠ p.
Proof.
  destruct p as [d [n|]]; unfold sibling; simpl; [|done].
  intros [= H]. by apply string_app_nonempty_neq in H.
Qed.

(** Two files with different names have different siblings. *)
Lemma sibling_inj d n n' s : sibling (d, Some n) s = sibling (d, Some n') s → n = n'.
Proof.
  unfold sibling. simpl. intros [= H].
  assert (∀ x y t : string, (x +:+ t)%string = (y +:+ t)%string → x = y) as Happ.
  { intros x y t E%(f_equal String.list_ascii_of_string).
    assert (Hl : ∀ u v, String.list_ascii_of_string (u +:+ v)%string =
      String.list_ascii_of_string u ++ String.list_ascii_of_string v).
    { intros u v. induction u as [|a u IH]; simpl; [done|by f_equal]. }
    rewrite !Hl in E. apply (inj (.++ _)) in E.
    by rewrite <-(String.string_of_list_ascii_of_string x), E,
      String.string_of_list_ascii_of_string. }
  by apply Happ in H.
Qed.

Lemma write_at_overwrite pos b c :
  (pos + length b ≤ length c)%nat → write_at pos b c = overwrite pos b c.
Proof.
  intros. unfold write_at, overwrite. f_equal. by rewrite take_app_le by lia.
Qed.

(** Writing at the start of a file that was truncated. *)
Lemma write_at_whole b c : (length c ≤ length b)%nat → write_at 0 (take (length b) b) c = b.
Proof.
  intros. unfold write_at. rewrite firstn_all, drop_ge by lia. simpl. apply app_nil_r.
Qed.

Lemma versions_push i j c w :
  versions (push_node i c w) j = if decide (i = j) then c :: versions w i else versions w j.
Proof.
  unfold versions at 1, push_node. simpl. rewrite lookup_insert.
  by case_decide; subst.
Qed.

Lemma content_push i c w : content (push_node i c w) i = c.
Proof. unfold content. rewrite versions_push. by case_decide. Qed.

Lemma cur_dir_push d w : cur_dir (push_dir d w) = d.
Proof. done. Qed.

Lemma same_but_refl i w : same_but i w w.
Proof. done. Qed.

Lemma same_but_trans i w0 w1 w2 : same_but i w0 w1 → same_but i w1 w2 → same_but i w0 w2.
Proof.
  intros [? ? ? ? ? H0] [? ? ? ? ? H1]. split; try congruence.
  intros j Hj. by rewrite H1, H0.
Qed.

Lemma same_but_push i c w0 w : same_but i w0 w → same_but i w0 (push_node i c w).
Proof. intros []. split; try done. intros j Hj. simpl. rewrite lookup_insert_ne by done. eauto. Qed.

Lemma same_but_sync i w0 w :
  same_but i w0 w → same_but i w0 (with_nodes (<[i := [content w i]]> (w_nodes w)) w).
Proof. intros []. split; try done. intros j Hj. simpl. rewrite lookup_insert_ne by done. eauto. Qed.

Lemma same_but_cur_dir i w0 w : same_but i w0 w → cur_dir w = cur_dir w0.
Proof. intros []. unfold cur_dir. by rewrite sb_dirs0. Qed.

Lemma versions_sync i w :
  versions (with_nodes (<[i := [content w i]]> (w_nodes w)) w) i = [content w i].
Proof. unfold versions at 1. simpl. by rewrite lookup_insert_eq. Qed.

Lemma content_in_versions w i : versions w i ≠ [] → content w i ∈ versions w i.
Proof. unfold content. destruct (versions w i); [done|]. intros _. apply list_elem_of_here. Qed.

Lemma torn_slice h m off len b :
  torn h m → (∀ c, c ∈ h → slice off len c = b) → slice off len m = b.
Proof.
  intros Ht Hb. apply list_eq. intros k.
  destruct (Ht (off + k)%nat) as (c & Hc & Hm).
  rewrite <-(Hb c Hc), !lookup_slice. by case_decide.
Qed.

Lemma torn_length h m n : torn h m → (∀ c, c ∈ h → length c = n) → length m = n.
Proof.
  intros Ht Hl. apply Nat.le_antisymm.
  - apply lookup_ge_None. destruct (Ht n) as (c & Hc & ->).
    apply lookup_ge_None. by rewrite (Hl c Hc).
  - destruct n as [|n]; [lia|]. destruct (Ht n) as (c & Hc & Hm).
    assert (is_Some (m !! n)) as Hs%lookup_lt_is_Some_1; [|lia].
    rewrite Hm. apply lookup_lt_is_Some_2. rewrite (Hl c Hc). lia.
Qed.

Lemma torn_mixed off h c :
  head h = Some c → length (default [] (last h)) = length c → torn h (mixed off h).
Proof.
  intros Hh Hl k. unfold mixed. rewrite Hh. destruct (last h) as [c'|] eqn:E;
    [|destruct h; [done|by apply last_None in E]]. simpl in *.
  assert (c ∈ h) by (destruct h; [done|simplify_eq/=; apply list_elem_of_here]).
  assert (c' ∈ h) by (apply last_Some in E as [? ->]; set_solver).
  destruct (decide (k < off)%nat) as [Hk|Hk].
  - exists c'. split; [done|]. destruct (decide (k < length c')%nat) as [Hk'|Hk'].
    + rewrite lookup_app_l by (rewrite length_take; lia). by apply lookup_take_lt.
    + rewrite !(proj2 (lookup_ge_None _ _)); [done|lia|]. rewrite length_app, length_take, length_drop. lia.
  - exists c. split; [done|]. destruct (decide (off < length c')%nat) as [Hk'|Hk'].
    + rewrite lookup_app_r by (rewrite length_take; lia). rewrite length_take, lookup_drop. f_equal. lia.
    + rewrite !(proj2 (lookup_ge_None _ _)); [done|lia|]. rewrite length_app, length_take, length_drop. lia.
Qed.

Lemma power_loss_reboot dv off w : can_reboot dv w = true → power_loss w (reboot dv off w).
Proof.
  unfold can_reboot. intros [Hd Hn]%andb_true_iff. apply Nat.ltb_lt in Hd. split; try done.
  - exists (nth dv (w_dirs w) ∅). split; [|done]. apply list_elem_of_In, nth_In, Hd.
  - intros i. simpl. rewrite lookup_fmap. destruct (w_nodes w !! i) as [h|] eqn:E; [|done].
    exists (mixed off h). split; [|done]. rewrite forallb_forall in Hn.
    specialize (Hn (i, h)). rewrite <-list_elem_of_In, elem_of_map_to_list in Hn.
    specialize (Hn E). simpl in Hn. destruct h as [|c h]; [done|].
    apply Nat.eqb_eq in Hn. by apply (torn_mixed off (c :: h) c).
Qed.

#[export] Hint Rewrite versions_push content_push cur_dir_push : drot.
#[export] Hint Resolve sibling_ne schedule_free_and schedule_free_same_but : drot.
