(* ===== verification/External.v ===== *)
(** * Third-party code the program calls

    The program's cryptography (RustCrypto SHA-3, leanVM's BLAKE2s hasher, XMSS
    and aggregation, RustCrypto ML-DSA) and its SSZ codec ([ethereum_ssz]) are
    not part of the repository.  Each is an interface here: the operations the
    program calls, with the documented facts it relies on.  No cryptographic
    strength is assumed; theorems that need a hash to separate two inputs
    name them and say that otherwise those two collide. *)
From S2P Require Import Prelude.

(** ** Hashes *)

Class Hashes := {
  sha3_256 : bytes → bytes;
  sha3_384 : bytes → bytes;
  (** leanVM's streaming BLAKE2s-256 hasher: [finalize] of what was [update]d. *)
  blake2s_256 : bytes → bytes;
  (** 64 bytes read from SHAKE256. *)
  shake256_64 : bytes → bytes;
  sha3_256_length : ∀ b, length (sha3_256 b) = 32%nat;
  sha3_384_length : ∀ b, length (sha3_384 b) = 48%nat;
  blake2s_256_length : ∀ b, length (blake2s_256 b) = 32%nat;
  shake256_64_length : ∀ b, length (shake256_64 b) = 64%nat;
}.

(** Two different inputs with one digest.  Some such pair exists for every hash of
    fixed length; what a theorem leaves open is always whether the two inputs it
    names are one. *)
Definition collides (h : bytes → bytes) (x y : bytes) : Prop := x ≠ y ∧ h x = h y.

(** ** leanVM XMSS *)

Class Xmss := {
  XmssPublicKey : Type;
  XmssSecretKey : Type;
  XmssSignature : Type;
  xmss_pk_eq_dec :: EqDecision XmssPublicKey;
  (** the fixed 32-byte SSZ object of a public key *)
  xmss_pk_ssz : XmssPublicKey → bytes;
  xmss_pk_ssz_length : ∀ pk, length (xmss_pk_ssz pk) = 32%nat;
  xmss_pk_ssz_inj :: Inj (=) (=) xmss_pk_ssz;
  (** [sign(&mut rng, sk, message, slot)]; the first argument is the randomness
      drawn from [leanvm::rand::rng()]. *)
  xmss_sign : nat → XmssSecretKey → bytes → Z → result XmssSignature string;
  (** [verify(pk, message, signature, slot).is_ok()] *)
  xmss_verify : XmssPublicKey → bytes → XmssSignature → Z → bool;
}.

(** Key generation from a seed and the decoder of a public key's SSZ object. *)
Class XmssKeys `{Xmss} := {
  key_gen_from_seed : bytes → Z → Z → result (XmssSecretKey * XmssPublicKey) string;
  xmss_pk_from_ssz : bytes → result XmssPublicKey string;
  xmss_pk_from_as : ∀ pk, xmss_pk_from_ssz (xmss_pk_ssz pk) = Ok pk;
}.

(** ** leanVM aggregation *)

Class LeanVm `{Xmss} := {
  AggregateSignature : Type;
  SphincsSigner : Type;
  sphincs_signer_eq_dec :: EqDecision SphincsSigner;
  agg_from_bytes : bytes → result AggregateSignature string;
  agg_to_bytes : AggregateSignature → bytes;
  agg_sphincs_signers : AggregateSignature → list SphincsSigner;
  (** the declared XMSS groups: slot, message, public keys *)
  agg_xmss_signers : AggregateSignature → list (Z * bytes * list XmssPublicKey);
  (** [verify().is_ok()] *)
  agg_verify : AggregateSignature → bool;
  (** [aggregate(&[], xmss, Vec::new(), None, log_inv_rate)] *)
  lean_aggregate : list (XmssPublicKey * Z * bytes * XmssSignature) → nat →
                   result AggregateSignature string;
}.

(** ** RustCrypto ML-DSA-65 *)

Class MlDsa := {
  MlPublicKey : Type;
  MlSignature : Type;
  MlSigningKey : Type;
  (** [VerifyingKey::encode], [VerifyingKey::decode] of an encoding's 1952 bytes *)
  ml_pk_encode : MlPublicKey → bytes;
  ml_pk_decode : bytes → MlPublicKey;
  ml_pk_encode_length : ∀ pk, length (ml_pk_encode pk) = 1952%nat;
  ml_pk_decode_encode : ∀ pk, ml_pk_decode (ml_pk_encode pk) = pk;
  ml_pk_eq_dec :: EqDecision MlPublicKey;
  (** [Signature::encode], [Signature::try_from] *)
  ml_sig_encode : MlSignature → bytes;
  ml_sig_try_from : bytes → option MlSignature;
  ml_sig_encode_length : ∀ s, length (ml_sig_encode s) = 3309%nat;
  ml_sig_try_from_encode : ∀ s, ml_sig_try_from (ml_sig_encode s) = Some s;
  (** the seed stands for the 32-byte [Seed] *)
  ml_from_seed : bytes → MlSigningKey;
  ml_to_seed : MlSigningKey → bytes;
  ml_verifying_key : MlSigningKey → MlPublicKey;
  (** [try_generate] and [sign_randomized]; the first argument is what the
      operating system's generator returned, [None] when it failed. *)
  ml_try_generate : option nat → option MlSigningKey;
  ml_sign_randomized : option nat → MlSigningKey → bytes → bytes → option MlSignature;
  (** [verify_with_context(message, context, signature)] *)
  ml_verify_with_context : MlPublicKey → bytes → bytes → MlSignature → bool;
}.

#[export] Instance ml_pk_encode_inj `{MlDsa} : Inj (=) (=) ml_pk_encode.
Proof. intros x y E%(f_equal ml_pk_decode). by rewrite !ml_pk_decode_encode in E. Qed.

(** ** [ethereum_ssz] *)

(** A derived encoder alone. *)
Class SszEncode (A : Type) := { ssz_encode : A → bytes }.

(** The derived encoder and decoder of one wire schema. *)
Class Ssz (A : Type) := {
  as_ssz_bytes : A → bytes;
  from_ssz_bytes : bytes → result A string;
}.

(** What the derive documents: a value that fits the schema ([wf]) round-trips,
    and a byte string that decodes is the canonical encoding of a value that
    fits (offsets, lengths and trailing bytes are checked). *)
Class SszLaws (A : Type) `{Ssz A} (wf : A → Prop) := {
  ssz_from_as : ∀ a, wf a → from_ssz_bytes (as_ssz_bytes a) = Ok a;
  ssz_as_from : ∀ b (a : A), from_ssz_bytes b = Ok a → as_ssz_bytes a = b;
  ssz_from_wf : ∀ b (a : A), from_ssz_bytes b = Ok a → wf a;
}.

(** [BitList<U2048>]: a bit string of a fixed length, at most 2048. *)
Class BitListOps := {
  BitList : Type;
  bl_with_capacity : nat → option BitList;
  bl_set : BitList → nat → bool → option BitList;
  bl_len : BitList → nat;
  bl_num_set_bits : BitList → nat;
  bl_iter : BitList → list bool;
}.

Class BitListLaws `{BitListOps} := {
  bl_len_iter : ∀ b, bl_len b = length (bl_iter b);
  bl_len_max : ∀ b, (bl_len b ≤ 2048)%nat;
  bl_count_iter : ∀ b, bl_num_set_bits b = length (filter Is_true (bl_iter b));
  bl_with_capacity_Some : ∀ n, (n ≤ 2048)%nat →
    ∃ b, bl_with_capacity n = Some b ∧ bl_iter b = replicate n false;
  bl_with_capacity_None : ∀ n, (2048 < n)%nat → bl_with_capacity n = None;
  bl_set_Some : ∀ b i v, (i < bl_len b)%nat →
    ∃ b', bl_set b i v = Some b' ∧ bl_iter b' = <[i := v]> (bl_iter b);
  bl_set_None : ∀ b i v, (bl_len b ≤ i)%nat → bl_set b i v = None;
  bl_iter_inj :: Inj (=) (=) bl_iter;
}.

Section ssz_facts.
Context {A : Type} `{Ssz A} {wf : A → Prop} {L : SszLaws A wf}.

(** Well-formed values have one encoding each. *)
Lemma as_ssz_inj a a' : wf a → wf a' → as_ssz_bytes a = as_ssz_bytes a' → a = a'.
Proof.
  intros Ha Ha' E. apply ssz_from_as in Ha, Ha'. rewrite E in Ha. congruence.
Qed.

(** A byte string decodes to at most one value, and two strings that decode to
    the same value are equal. *)
Lemma from_ssz_inj b b' (a : A) : from_ssz_bytes b = Ok a → from_ssz_bytes b' = Ok a → b = b'.
Proof. intros Hb%(ssz_as_from (wf := wf)) Hb'%(ssz_as_from (wf := wf)). congruence. Qed.
End ssz_facts.

Lemma hash_eq_or_collides (h : bytes → bytes) x y : h x = h y → x = y ∨ collides h x y.
Proof. intros E. destruct (decide (x = y)) as [->|Hne]; [by left|]. by right. Qed.
