(* ===== verification/Instances.v ===== *)
(** * Concrete instances of the third-party interfaces

    Small executable stand-ins for the cryptography, used only to evaluate the
    definitions on concrete inputs and to show that the hypotheses of the
    theorems can hold.  No theorem about the program depends on them. *)
From S2P Require Import Prelude Fs External.

Open Scope Z_scope.

(** A 257-ary polynomial digest of [n] bytes. *)
Definition toy_digest (n : nat) (b : bytes) : bytes :=
  le_bytes n (foldl (λ acc x, Z.land (acc * 257 + Z_of_byte x + 1) (Z.ones (8 * Z.of_nat n))) 7 b).

#[refine] Definition toy_hashes : Hashes := {|
  sha3_256 := toy_digest 32;
  sha3_384 := toy_digest 48;
  blake2s_256 := toy_digest 32;
  shake256_64 := toy_digest 64;
|}.
Proof. all: intros; apply length_le_bytes. Defined.

(** Keys are bytes; a signature names its key, message and slot; slots from 1000
    on are refused, as leanVM refuses slots outside the key's window. *)
#[refine] Definition toy_xmss : Xmss := {|
  XmssPublicKey := byte;
  XmssSecretKey := byte;
  XmssSignature := byte * bytes * Z;
  xmss_pk_ssz := λ pk, replicate 31 Byte.x00 ++ [pk];
  xmss_sign := λ _ sk m slot, if slot <? 1000 then Ok (sk, m, slot) else Err "EpochOutOfRange"%string;
  xmss_verify := λ pk m s slot, bool_decide (s = (pk, m, slot));
|}.
Proof. done. Defined.

(** A machine with an empty directory. *)
Definition blank_world : world := World [∅] ∅ 0 ∅ [] true 0 [].

Definition toy_path : path := (["var"; "drot"], Some "member.state")%string.

(** ** A codec for any countable type *)

Section toy_codec.
Context {A : Type} `{Countable A}.

Definition toy_encode (a : A) : bytes :=
  let z := Zpos (encode a) in le_bytes (Z.to_nat (Z.log2 z / 8 + 1)) z.

(** Only the canonical encoding of a value that fits decodes. *)
Definition toy_decode (wf : A → Prop) `{∀ a, Decision (wf a)} (b : bytes) : result A string :=
  match decode (Z.to_pos (le_val b)) with
  | Some a => if bool_decide (wf a ∧ toy_encode a = b) then Ok a else Err "not canonical"%string
  | None => Err "not a value"%string
  end.

Lemma toy_decode_encode (wf : A → Prop) `{∀ a, Decision (wf a)} a :
  wf a → toy_decode wf (toy_encode a) = Ok a.
Proof.
  intros Ha. unfold toy_decode. assert (E : le_val (toy_encode a) = Zpos (encode a)).
  { unfold toy_encode. cbv zeta. set (z := Zpos (encode a)). apply le_val_le_bytes.
    assert (0 < z) by (unfold z; lia). pose proof (Z.log2_spec z ltac:(lia)) as [_ Hlt].
    pose proof (Z.log2_nonneg z). assert (0 ≤ Z.log2 z / 8) by (apply Z.div_pos; lia).
    rewrite Z2Nat.id by lia. split; [lia|]. eapply Z.lt_le_trans; [exact Hlt|].
    change 256 with (2 ^ 8). rewrite <-Z.pow_mul_r by lia. apply Z.pow_le_mono_r; [lia|].
    pose proof (Z.div_mod (Z.log2 z) 8). pose proof (Z.mod_pos_bound (Z.log2 z) 8). lia. }
  rewrite E. simpl. rewrite decode_encode. by rewrite bool_decide_eq_true_2.
Qed.

Lemma toy_decode_Ok (wf : A → Prop) `{∀ a, Decision (wf a)} b a :
  toy_decode wf b = Ok a → wf a ∧ toy_encode a = b.
Proof.
  unfold toy_decode. destruct (decode _); [|done]. case_bool_decide as Hc; [|done].
  intros [= <-]. exact Hc.
Qed.

Definition toy_ssz (wf : A → Prop) `{∀ a, Decision (wf a)} : Ssz A :=
  {| as_ssz_bytes := toy_encode; from_ssz_bytes := toy_decode wf |}.

Lemma toy_ssz_laws (wf : A → Prop) `{∀ a, Decision (wf a)} : @SszLaws A (toy_ssz wf) wf.
Proof.
  split; simpl.
  - intros a. apply toy_decode_encode.
  - by intros b a [? ?]%toy_decode_Ok.
  - by intros b a [? ?]%toy_decode_Ok.
Qed.
End toy_codec.

(** ** A codec from a layout and a parser that undoes it *)

Section layout_codec.
Context {A : Type} (enc : A → bytes) (parse : bytes → A) (wf : A → Prop).
Context `{∀ a, Decision (wf a)}.

Definition layout_ssz : Ssz A := {|
  as_ssz_bytes := enc;
  from_ssz_bytes := λ b,
    let a := parse b in
    if bool_decide (wf a ∧ enc a = b) then Ok a else Err "not canonical"%string;
|}.

Lemma layout_laws : (∀ a, wf a → parse (enc a) = a) → @SszLaws A layout_ssz wf.
Proof.
  intros Hp. split; simpl.
  - intros a Ha. rewrite Hp by done. by rewrite bool_decide_eq_true_2.
  - intros b a. case_bool_decide as Hb; [|done]. intros [= <-]. apply Hb.
  - intros b a. case_bool_decide as Hb; [|done]. intros [= <-]. apply Hb.
Qed.
End layout_codec.

(** Blocks of [n] bytes. *)
Fixpoint chunks (fuel n : nat) (b : bytes) : list bytes :=
  match fuel, b with
  | S fuel', _ :: _ => take n b :: chunks fuel' n (drop n b)
  | _, _ => []
  end.

Lemma chunks_mjoin fuel n (l : list bytes) :
  (0 < n)%nat → Forall (λ e, length e = n) l → (length l ≤ fuel)%nat → chunks fuel n (mjoin l) = l.
Proof.
  intros Hn Hl. revert fuel. induction Hl as [|e l He _ IH]; intros fuel Hf; [by destruct fuel|].
  destruct fuel as [|fuel]; [simpl in Hf; lia|]. simpl in Hf.
  change (mjoin (e :: l)) with (e ++ mjoin l). cbn [chunks].
  destruct (e ++ mjoin l) as [|x t] eqn:E; [destruct e; simpl in *; [lia|done]|].
  rewrite <-E, <-He, take_app_length, drop_app_length. f_equal. rewrite He. apply IH. lia.
Qed.
(** A bit string as a number, with the sentinel bit on top. *)
Fixpoint bits_pos (l : list bool) : positive :=
  match l with [] => xH | true :: l' => xI (bits_pos l') | false :: l' => xO (bits_pos l') end.
Fixpoint pos_bits (p : positive) : list bool :=
  match p with xH => [] | xI p' => true :: pos_bits p' | xO p' => false :: pos_bits p' end.

Lemma pos_bits_pos l : pos_bits (bits_pos l) = l.
Proof. induction l as [|[] l IH]; simpl; [done|by f_equal..]. Qed.

Lemma bits_pos_bound l : Zpos (bits_pos l) < 2 ^ (Z.of_nat (length l) + 1).
Proof.
  induction l as [|b l IH]; [done|]. change (length (b :: l)) with (S (length l)).
  rewrite Nat2Z.inj_succ. rewrite Z.add_succ_l, Z.pow_succ_r by lia. destruct b; simpl; lia.
Qed.

Definition bitmap_bytes (l : list bool) : bytes :=
  le_bytes (Nat.div (length l) 8 + 1) (Zpos (bits_pos l)).

Lemma bitmap_bytes_val l : le_val (bitmap_bytes l) = Zpos (bits_pos l).
Proof.
  apply le_val_le_bytes. split; [lia|]. eapply Z.lt_le_trans; [apply bits_pos_bound|].
  change 256 with (2 ^ 8). rewrite <-Z.pow_mul_r by lia. apply Z.pow_le_mono_r; [lia|].
  pose proof (Nat.div_mod (length l) 8). pose proof (Nat.mod_upper_bound (length l) 8). lia.
Qed.

(** ** Bit lists *)

Definition short (l : list bool) : Prop := (length l <=? 2048)%nat = true.
Definition ToyBits : Type := { l : list bool | short l }.

#[export] Instance short_dec l : Decision (short l).
Proof. unfold short. apply _. Defined.
#[export] Instance short_pi l : ProofIrrel (short l).
Proof. unfold short. apply _. Defined.

Definition toy_bits (l : list bool) : option ToyBits :=
  match decide (short l) with left H => Some (l ↾ H) | right _ => None end.

Definition toy_bit_set (b : ToyBits) (i : nat) (v : bool) : option ToyBits :=
  if (i <? length (proj1_sig b))%nat then toy_bits (<[i := v]> (proj1_sig b)) else None.

Definition toy_bit_list : BitListOps := {|
  BitList := ToyBits;
  bl_with_capacity := λ n, toy_bits (replicate n false);
  bl_set := toy_bit_set;
  bl_len := λ b, length (proj1_sig b);
  bl_num_set_bits := λ b, length (filter Is_true (proj1_sig b));
  bl_iter := λ b, proj1_sig b;
|}.

Lemma toy_bits_Some l : (length l ≤ 2048)%nat → ∃ b, toy_bits l = Some b ∧ proj1_sig b = l.
Proof.
  intros Hl. unfold toy_bits. destruct (decide (short l)) as [H|H]; [by eexists|].
  destruct H. by apply Nat.leb_le.
Qed.

Lemma toy_bit_laws : @BitListLaws toy_bit_list.
Proof.
  split; simpl.
  - done.
  - intros [l H]. simpl. by apply Nat.leb_le.
  - done.
  - intros n Hn. apply toy_bits_Some. by rewrite length_replicate.
  - intros n Hn. unfold toy_bits. destruct (decide _) as [H|]; [|done]. exfalso.
    apply Nat.leb_le in H. rewrite length_replicate in H. lia.
  - intros [l H] i v Hi. simpl in *. unfold toy_bit_set. simpl.
    rewrite (proj2 (Nat.ltb_lt _ _)) by done. apply toy_bits_Some. rewrite length_insert.
    by apply Nat.leb_le.
  - intros [l H] i v Hi. unfold toy_bit_set. simpl in *. by rewrite (proj2 (Nat.ltb_ge _ _)).
  - intros [l H] [k H'] E. simpl in E. by apply (sig_eq_pi _).
Qed.

(** ** Aggregates *)

(** An aggregate names its slot, message and keys and ends in one byte of proof
    body; it is made only of valid signatures on one slot and message, and
    verifies when no key occurs twice and the body is as it was made. *)
Definition ToyAggregate : Type := Z * bytes * list byte * byte.

Definition toy_agg_bytes (a : ToyAggregate) : bytes :=
  let '(slot, m, pks, body) := a in u64_le slot ++ m ++ pks ++ [body].
Definition toy_agg_parse (b : bytes) : result ToyAggregate string :=
  if (length b <? 40)%nat then Err "short"%string
  else
    match last (drop 40 b) with
    | Some body => Ok (le_val (slice 0 8 b), slice 8 32 b, removelast (drop 40 b), body)
    | None => Err "short"%string
    end.

Definition toy_entry_ok (slot : Z) (m : bytes) (x : byte * Z * bytes * (byte * bytes * Z)) : bool :=
  let '(pk, s, m', sig) := x in
  bool_decide (s = slot) && bool_decide (m' = m) && bool_decide (sig = (pk, m, slot)).

Definition toy_aggregate (l : list (byte * Z * bytes * (byte * bytes * Z))) (rate : nat) :
    result ToyAggregate string :=
  match l with
  | [] => Err "nothing to aggregate"%string
  | (_, slot, m, _) :: _ =>
      if forallb (toy_entry_ok slot m) l then Ok (slot, m, (λ x, x.1.1.1) <$> l, Byte.x00)
      else Err "invalid signature"%string
  end.

#[local] Existing Instance toy_xmss.
Definition toy_leanvm : LeanVm := {|
  AggregateSignature := ToyAggregate;
  SphincsSigner := Empty_set;
  agg_from_bytes := toy_agg_parse;
  agg_to_bytes := toy_agg_bytes;
  agg_sphincs_signers := λ _, [];
  agg_xmss_signers := λ a, [a.1];
  agg_verify := λ a, bool_decide (NoDup a.1.2) && bool_decide (a.2 = Byte.x00);
  lean_aggregate := toy_aggregate;
|}.

Lemma toy_agg_roundtrip slot m pks body :
  is_u64 slot → length m = 32%nat →
  toy_agg_parse (toy_agg_bytes (slot, m, pks, body)) = Ok (slot, m, pks, body).
Proof.
  intros Hs Hm. unfold toy_agg_parse, toy_agg_bytes.
  assert (Hl : length (u64_le slot) = 8%nat) by apply length_le_bytes.
  rewrite (proj2 (Nat.ltb_ge _ _)) by (rewrite !length_app; lia).
  assert (E : drop 40 (u64_le slot ++ m ++ pks ++ [body]) = pks ++ [body]).
  { rewrite app_assoc. apply drop_app_length'. rewrite length_app. lia. }
  rewrite E, last_snoc, removelast_last.
  rewrite (slice_mid 0 8 [] (u64_le slot) (m ++ pks ++ [body]) eq_refl Hl :
    slice 0 8 (u64_le slot ++ m ++ pks ++ [body]) = u64_le slot).
  rewrite (slice_mid 8 32 (u64_le slot) m) by done. by rewrite u64_le_val by done.
Qed.
