(* ===== verification/Atomic.v ===== *)
(** * Locked, atomically replaced files

    Both state modules keep one file the same way: a sibling [<file>.lock] is
    locked for the lifetime of the state, and a whole new content is written to
    a sibling [<file>.tmp], synced, renamed over the file, and the directory is
    synced.  This file states once what that promises when any call may fail,
    kill the process, or be followed by a power loss: what the disk can show
    for the file is always what it could show before or the new content. *)
From S2P Require Import Prelude Fs.

Open Scope Z_scope.

(** [acquire_lock] of both modules, for their error types. *)
Definition lock_file {E} (busy : E) (inj : io_error → E) (p : path) : io E file :=
  f ← io_map_err inj (open_create (sibling p "lock"));
  _ ← io_map_err (λ e, match e with TryWouldBlock => busy | TryError e => inj e end) (try_lock f);
  mret f.

(** The replacement both modules write out. *)
Definition replace_file {E} (inj : io_error → E) (p : path) (b : bytes) : io E file :=
  f ← io_map_err inj (open_truncate (sibling p "tmp"));
  f ← io_map_err inj (write_all f b);
  _ ← io_map_err inj (sync_file f);
  _ ← io_map_err inj (rename (sibling p "tmp") p);
  _ ← io_map_err inj open_dir;
  _ ← io_map_err inj sync_dir;
  mret f.

Section atomic.
Context (p : path).

Definition lock_path : path := sibling p "lock".
Definition tmp_path : path := sibling p "tmp".

Lemma lock_ne_p : lock_path ≠ p. Proof. apply sibling_ne. Qed.
Lemma tmp_ne_p : tmp_path ≠ p. Proof. apply sibling_ne. Qed.
Lemma lock_ne_tmp : lock_path ≠ tmp_path.
Proof. by intros ?%sibling_suffix_inj. Qed.

(** ** Well-formed disks *)

(** Inodes below [w_next] are in use, and the temporary file is never the file
    itself, in any version of the directory. *)
Record wf_world (w : world) : Prop := {
  ww_dirs : w_dirs w ≠ [];
  ww_entries : ∀ d q i, d ∈ w_dirs w → d !! q = Some i → (i < w_next w)%nat;
  ww_nodes : ∀ i, is_Some (w_nodes w !! i) → (i < w_next w)%nat;
  ww_tmp : ∀ d i, d ∈ w_dirs w → d !! p = Some i → d !! tmp_path ≠ Some i;
  ww_cur : ∀ d i, d ∈ w_dirs w → d !! p = Some i → cur_dir w !! tmp_path ≠ Some i;
}.

(** What directory version [d] shows for the file: its unsynced versions. *)
Definition shown (w : world) (d : gmap path nat) : option (list bytes) := versions w <$> d !! p.

(** [Ψ] holds of whatever the disk can show. *)
Definition entries (Ψ : option (list bytes) → Prop) (w : world) : Prop :=
  ∀ d, d ∈ w_dirs w → Ψ (shown w d).

Lemma entries_mono (Ψ Ψ' : option (list bytes) → Prop) w :
  (∀ o, Ψ o → Ψ' o) → entries Ψ w → entries Ψ' w.
Proof. intros H He d Hd. by apply H, He. Qed.

(** [Ψ] is not about how recent contents tear. *)
Definition tearable (Ψ : option (list bytes) → Prop) : Prop :=
  ∀ h m, Ψ (Some h) → torn h m → Ψ (Some [m]).

Definition locked (l : file) (w : world) : Prop :=
  cur_dir w !! lock_path = Some (f_ino l) ∧ f_ino l ∈ w_locks w.

(** The lock of a file that is kept under one. *)
Definition locked_if (l : option file) (w : world) : Prop :=
  match l with Some l => locked l w | None => True end.

Lemma locked_if_same l w w' :
  cur_dir w' !! lock_path = cur_dir w !! lock_path → w_locks w' = w_locks w →
  locked_if l w → locked_if l w'.
Proof. intros Hc Hl. destruct l as [l|]; [|done]. intros []. split; congruence. Qed.

(** Everything of the world but the disk's contents, the schedule, the locks and
    the random generator. *)
Definition same_log (w0 w : world) : Prop :=
  w_signed w = w_signed w0 ∧ w_stat_ok w = w_stat_ok w0.

Lemma cur_in_dirs w : wf_world w → cur_dir w ∈ w_dirs w.
Proof. intros []. unfold cur_dir. destruct (w_dirs w); [done|]. apply list_elem_of_here. Qed.

Lemma schedule_free_wf : schedule_free wf_world.
Proof. intros vs w []. by split. Qed.

Lemma wf_locks ls w : wf_world w → wf_world (with_locks ls w).
Proof. intros []. by split. Qed.

Lemma cur_unlock l w : cur_dir (unlock l w) = cur_dir w.
Proof. done. Qed.

(** ** Power loss and write-back *)

(** The operating system writes its caches back. *)
Definition written_back (w : world) : world :=
  with_dirs [cur_dir w] (with_nodes (take 1 <$> w_nodes w) w).

Lemma versions_written_back w i : versions (written_back w) i = take 1 (versions w i).
Proof. unfold versions, written_back. simpl. rewrite lookup_fmap. by destruct (w_nodes w !! i). Qed.

Lemma wf_written_back w : wf_world w → wf_world (written_back w).
Proof.
  intros Hw. pose proof (cur_in_dirs _ Hw) as Hcur. destruct Hw as [? He Hi Htmp Hc].
  split; simpl; [done|..].
  - intros d q i ->%list_elem_of_singleton. by apply He.
  - intros i. rewrite lookup_fmap, fmap_is_Some. apply Hi.
  - intros d i ->%list_elem_of_singleton. by apply Htmp.
  - intros d i ->%list_elem_of_singleton. by apply Hc.
Qed.

Lemma torn_head (c : bytes) h : torn (c :: h) c.
Proof. intros k. exists c. split; [apply list_elem_of_here|done]. Qed.

Lemma entries_written_back Ψ w :
  wf_world w → tearable Ψ → entries Ψ w → entries Ψ (written_back w).
Proof.
  intros Hw Ht He d ->%list_elem_of_singleton. specialize (He _ (cur_in_dirs _ Hw)).
  unfold shown in *. destruct (cur_dir w !! p) as [i|]; simpl in *; [|done].
  rewrite versions_written_back. destruct (versions w i) as [|c h]; [done|].
  simpl. rewrite take_0. eapply Ht; [exact He|apply torn_head].
Qed.

Lemma wf_power_loss w w' : wf_world w → power_loss w w' → wf_world w'.
Proof.
  intros [? He Hi Htmp Hc] [(d & Hd & Hds) Hn Hnx _ _].
  assert (Hcur : cur_dir w' = d) by (unfold cur_dir; by rewrite Hds).
  split; rewrite ?Hds, ?Hnx, ?Hcur; [done|..].
  - intros d' q i ->%list_elem_of_singleton. by apply He.
  - intros i Hsome. apply Hi. specialize (Hn i).
    destruct (w_nodes w !! i); [done|]. rewrite Hn in Hsome. by destruct Hsome.
  - intros d' i ->%list_elem_of_singleton. by apply Htmp.
  - intros d' i ->%list_elem_of_singleton. by apply Htmp.
Qed.

Lemma versions_power_loss w w' i :
  power_loss w w' →
  versions w' i = versions w i ∨ ∃ m, torn (versions w i) m ∧ versions w' i = [m].
Proof.
  intros [_ Hn _ _ _]. specialize (Hn i). unfold versions.
  destruct (w_nodes w !! i) as [h|].
  - destruct Hn as (m & Ht & ->). right. by exists m.
  - rewrite Hn. by left.
Qed.

Lemma entries_power_loss Ψ w w' :
  tearable Ψ → power_loss w w' → entries Ψ w → entries Ψ w'.
Proof.
  intros Ht Hpl He d' Hd'. pose proof Hpl as [(d & Hd & Hds) _ _ _ _].
  rewrite Hds in Hd'. apply list_elem_of_singleton in Hd' as ->. specialize (He d Hd).
  unfold shown in *. destruct (d !! p) as [i|]; simpl in *; [|done].
  destruct (versions_power_loss w w' i Hpl) as [->|(m & Hm & ->)]; [done|by eapply Ht].
Qed.

(** ** Locking only adds a lock file *)

(** [w0] under another schedule. *)
Definition sched (w0 w : world) : Prop := ∃ vs, w = with_verdicts vs w0.

Lemma sched_refl w : sched w w.
Proof. exists (w_verdicts w). by destruct w. Qed.

Lemma schedule_free_sched w0 : schedule_free (sched w0).
Proof. intros vs w [vs' ->]. by exists vs. Qed.

(** From [w0] to [w] nothing happened to the file. *)
Record ext (w0 w : world) : Prop := {
  ex_world : wf_world w;
  ex_log : same_log w0 w;
  ex_dirs : ∀ d, d ∈ w_dirs w → ∃ d0, d0 ∈ w_dirs w0 ∧ d !! p = d0 !! p;
  ex_cur : cur_dir w !! p = cur_dir w0 !! p;
  ex_nodes : ∀ i, (i < w_next w0)%nat → w_nodes w !! i = w_nodes w0 !! i;
}.

Lemma schedule_free_ext w0 : schedule_free (ext w0).
Proof. intros vs w [[] [] ? ? ?]. by split. Qed.

Lemma ext_sched w0 w : wf_world w0 → sched w0 w → ext w0 w.
Proof. intros Hw [vs ->]. apply schedule_free_ext. split; try done. eauto. Qed.

Lemma ext_locks ls w0 w : ext w0 w → ext w0 (with_locks ls w).
Proof. intros [[] [] ? ? ?]. by split. Qed.

Lemma ext_versions w0 w d i :
  wf_world w0 → ext w0 w → d ∈ w_dirs w0 → d !! p = Some i → versions w i = versions w0 i.
Proof.
  intros Hw0 Hx Hd Hi. unfold versions. by rewrite (ex_nodes _ _ Hx) by (eapply ww_entries; eauto).
Qed.

Lemma ext_shown w0 w d0 d :
  wf_world w0 → ext w0 w → d0 ∈ w_dirs w0 → d !! p = d0 !! p → shown w d = shown w0 d0.
Proof.
  intros Hw0 Hx Hd E. unfold shown. rewrite E. destruct (d0 !! p) as [i|] eqn:Hi; [|done].
  simpl. f_equal. by eapply ext_versions.
Qed.

Lemma ext_entries Ψ w0 w : wf_world w0 → ext w0 w → entries Ψ w0 → entries Ψ w.
Proof.
  intros Hw0 Hx He d (d0 & Hd0 & E)%(ex_dirs _ _ Hx). rewrite (ext_shown w0 w d0) by done. by apply He.
Qed.

Lemma ext_alloc_lock w0 w :
  ext w0 w → cur_dir w !! lock_path = None → (w_next w0 ≤ w_next w)%nat →
  ext w0 (snd (alloc_file lock_path w)).
Proof.
  intros [Hw ? Hd Hc Hn] Hl Hle. pose proof (cur_in_dirs w Hw) as Hcur.
  destruct Hw as [Hne He Hi Ht Htc]. pose proof lock_ne_p. pose proof lock_ne_tmp.
  assert (E : cur_dir (snd (alloc_file lock_path w)) = <[lock_path := w_next w]> (cur_dir w))
    by done.
  split; [split|..]; rewrite ?E; try done.
  - simpl. intros d q i [->|Hin]%elem_of_cons.
    + rewrite lookup_insert. case_decide; [intros [= <-]; lia|]. intros Hq.
      specialize (He _ _ _ Hcur Hq). lia.
    + intros Hq. specialize (He _ _ _ Hin Hq). lia.
  - simpl. intros i. rewrite lookup_insert. case_decide; [lia|]. intros Hs. specialize (Hi i Hs). lia.
  - intros d i [->|Hin]%elem_of_cons; [|by apply Ht].
    rewrite !lookup_insert_ne by done. by apply Ht.
  - rewrite (lookup_insert_ne _ lock_path tmp_path) by done.
    intros d i [->|Hin]%elem_of_cons; [|by apply Htc].
    rewrite lookup_insert_ne by done. by apply Htc.
  - intros d [->|Hin]%elem_of_cons; [|by apply Hd].
    rewrite lookup_insert_ne by done. rewrite Hc. apply Hd in Hcur as (d0 & ? & ?).
    exists d0. split; [done|]. congruence.
  - by rewrite lookup_insert_ne.
  - simpl. intros i Hlt. rewrite lookup_insert_ne by lia. by apply Hn.
Qed.

Lemma lock_file_ok {E} (busy : E) inj w0 :
  wf_world w0 →
  triple (sched w0) (lock_file busy inj p) (λ l w, ext w0 w ∧ locked l w) (ext w0).
Proof.
  intros Hw0. unfold lock_file.
  eapply (triple_bind _ _ _ _ (λ f w, ext w0 w ∧ cur_dir w !! lock_path = Some (f_ino f))).
  - apply triple_map_err, triple_syscall; [apply schedule_free_sched| |].
    + intros w Hw. pose proof (ext_sched _ _ Hw0 Hw) as Hx.
      change (sibling p "lock") with lock_path. destruct (cur_dir w !! lock_path) as [i|] eqn:E'.
      * by split.
      * split; [|by apply lookup_insert_eq]. apply ext_alloc_lock; [done|done|].
        by destruct Hw as [vs ->].
    + intros k w Hw. by apply ext_sched.
  - intros f. eapply (triple_bind _ _ _ _ (λ _ w, ext w0 w ∧ locked f w)).
    + apply triple_map_err. apply (triple_try_lock f _ (λ w, ext w0 w ∧ locked f w)).
      * intros vs w [Hx Hl]. split; [by apply schedule_free_ext|done].
      * intros w [Hx Hl]. split; [by apply ext_locks|]. split; [done|]. simpl. set_solver.
      * by intros w [].
    + intros []. by apply triple_ret.
Qed.

(** While the lock is held nobody else gets it, and trying changes nothing. *)
Lemma lock_file_busy {E} (busy : E) inj l w0 :
  locked l w0 → triple (sched w0) (lock_file busy inj p) (λ _ _, False) (sched w0).
Proof.
  intros [Hl Hin]. unfold lock_file.
  eapply (triple_bind _ _ _ _ (λ f w, f_ino f = f_ino l ∧ sched w0 w)).
  - apply triple_map_err, triple_syscall; [apply schedule_free_sched| |done].
    intros w [vs ->]. change (cur_dir _ !! _) with (cur_dir w0 !! lock_path). rewrite Hl.
    split; [done|by exists vs].
  - intros f. apply triple_pure. intros Hf.
    eapply (triple_bind _ _ _ _ (λ _ _, False)); [|by intros ? w []].
    apply triple_map_err. intros w [vs ->]. unfold try_lock, syscall. rewrite Hf.
    destruct vs as [|[|k|k] vs]; simpl; [|..|by exists vs|by exists vs];
      rewrite (bool_decide_eq_true_2 (f_ino l ∈ w_locks w0)) by done;
      [by exists []|by exists vs].
Qed.

(** ** Replacing the file *)

Section replace.
Context (l : option file) (w0 : world) (Ψ : option (list bytes) → Prop).

(** The lock, if there is one, is held and the disk shows [Ψ]. *)
Definition held (w : world) : Prop :=
  wf_world w ∧ locked_if l w ∧ same_log w0 w ∧ entries Ψ w.

(** [t] is the temporary file. *)
Definition writing (t : nat) (w : world) : Prop := held w ∧ cur_dir w !! tmp_path = Some t.

(** [t] is the file and has one version. *)
Definition renamed (t : nat) (b : bytes) (w : world) : Prop :=
  held w ∧ cur_dir w !! p = Some t ∧ versions w t = [b].

Definition stable (w : world) : Prop := wf_world w ∧ same_log w0 w ∧ entries Ψ w.

Lemma held_stable w : held w → stable w.
Proof. by intros (? & ? & ? & ?). Qed.

Lemma stable_unlock f w : stable w → stable (unlock f w).
Proof. intros ([] & [] & ?). split_and!; try done; by split. Qed.

Lemma schedule_free_held : schedule_free held.
Proof.
  intros vs w ([] & Hl & [] & ?). split_and!; [by split| |by split|done]. by apply (locked_if_same l w).
Qed.

Lemma schedule_free_writing t : schedule_free (writing t).
Proof. intros vs w [Hr Ht]. split; [by apply schedule_free_held|done]. Qed.

Lemma schedule_free_renamed t b : schedule_free (renamed t b).
Proof. intros vs w [Hr Ht]. split; [by apply schedule_free_held|done]. Qed.

(** Whatever is written into the temporary file, the file is untouched. *)
Lemma writing_nodes t h w : writing t w → writing t (with_nodes (<[t := h]> (w_nodes w)) w).
Proof.
  intros [(Hw & Hl & Hs & He) Ht]. split; [|done]. pose proof (cur_in_dirs w Hw) as Hcur.
  split_and!; [|done|done|].
  - destruct Hw as [? Hen Hi ? ?]. split; simpl; try done. intros i. rewrite lookup_insert.
    case_decide; [|apply Hi]. subst. intros _. by eapply Hen.
  - intros d Hd. specialize (He d Hd). unfold shown, versions in *. simpl.
    destruct (d !! p) as [i|] eqn:Hi; [|done]. simpl in *.
    rewrite lookup_insert_ne; [done|]. intros ->. by eapply (ww_cur w Hw).
Qed.

Lemma writing_push t c w : writing t w → writing t (push_node t c w).
Proof. apply writing_nodes. Qed.

Lemma held_alloc w :
  held w → cur_dir w !! tmp_path = None → writing (w_next w) (snd (alloc_file tmp_path w)).
Proof.
  intros (Hw & Hl & Hs & He) Ht. pose proof (cur_in_dirs w Hw) as Hcur.
  pose proof tmp_ne_p. pose proof lock_ne_tmp. destruct Hw as [? Hen Hi Htmp Hct].
  assert (E : cur_dir (snd (alloc_file tmp_path w)) = <[tmp_path := w_next w]> (cur_dir w))
    by done.
  split; [split_and!; try done|by rewrite E, lookup_insert_eq].
  - split; rewrite ?E, ?lookup_insert_eq; [done|..].
    + intros d q i [->|Hd]%elem_of_cons Hq; [|specialize (Hen _ _ _ Hd Hq); simpl; lia].
      rewrite lookup_insert in Hq. case_decide; simpl; [simplify_eq; lia|].
      specialize (Hen _ _ _ Hcur Hq). lia.
    + simpl. intros i. rewrite lookup_insert. case_decide; [lia|]. intros Hx. specialize (Hi i Hx). lia.
    + intros d i [->|Hd]%elem_of_cons; [|by apply Htmp].
      rewrite lookup_insert_eq, lookup_insert_ne by done.
      intros Hq [= <-]. specialize (Hen _ _ _ Hcur Hq). lia.
    + intros d i [->|Hd]%elem_of_cons; [rewrite lookup_insert_ne by done|];
        intros Hq [= <-]; [specialize (Hen _ _ _ Hcur Hq)|specialize (Hen _ _ _ Hd Hq)]; lia.
  - apply (locked_if_same l w); [|done|exact Hl]. by rewrite E, lookup_insert_ne.
  - intros d Hd.
    assert (∃ d0, d0 ∈ w_dirs w ∧ d !! p = d0 !! p) as (d0 & Hd0 & Ed).
    { apply elem_of_cons in Hd as [->|Hd]; [|by exists d]. exists (cur_dir w).
      by rewrite lookup_insert_ne. }
    specialize (He d0 Hd0). unfold shown, versions in *. rewrite Ed.
    destruct (d0 !! p) as [i|] eqn:Hi0; [|done]. simpl in *.
    rewrite lookup_insert_ne; [done|]. specialize (Hen _ _ _ Hd0 Hi0). lia.
Qed.

Lemma writing_rename t b w :
  Ψ (Some [b]) → writing t w → versions w t = [b] →
  renamed t b (push_dir (<[p := t]> (delete tmp_path (cur_dir w))) w).
Proof.
  intros Hb [(Hw & Hl & Hs & He) Ht] Hv. pose proof (cur_in_dirs w Hw) as Hcur.
  pose proof tmp_ne_p. pose proof lock_ne_p. pose proof lock_ne_tmp.
  destruct Hw as [? Hen Hi Htmp Hct]. set (d' := <[p := t]> (delete tmp_path (cur_dir w))).
  assert (Hp : d' !! p = Some t) by apply lookup_insert_eq.
  assert (Hn : d' !! tmp_path = None) by (unfold d'; by rewrite lookup_insert_ne, lookup_delete_eq).
  split; [split_and!; [| |done|]|by rewrite cur_dir_push].
  - split; rewrite ?cur_dir_push, ?Hn; [done| |done| |done].
    + simpl. intros d q i [->|Hd]%elem_of_cons Hq; [|by eapply Hen].
      apply lookup_insert_Some in Hq as [[_ <-]|[_ [_ Hq]%lookup_delete_Some]]; by eapply Hen.
    + intros d i [->|Hd]%elem_of_cons; [|by apply Htmp]. by rewrite Hn.
  - apply (locked_if_same l w); [|done|exact Hl].
    unfold d'. by rewrite cur_dir_push, lookup_insert_ne, lookup_delete_ne.
  - intros d [->|Hd]%elem_of_cons; [|by apply He]. unfold shown. rewrite Hp. simpl.
    unfold versions in *. simpl. by rewrite Hv.
Qed.

Lemma renamed_sync t b w :
  renamed t b w →
  renamed t b (with_dirs [cur_dir w] w) ∧
  ∀ d, d ∈ w_dirs (with_dirs [cur_dir w] w) → d !! p = Some t.
Proof.
  intros [(Hw & Hl & Hs & He) [Hp Hv]]. pose proof (cur_in_dirs w Hw) as Hcur. split.
  - split; [|done]. destruct Hw as [? Hen Hi Htmp Hct]. split_and!; [|done|done|].
    + split; [done| |done|..].
      * intros d q i ->%list_elem_of_singleton. by apply Hen.
      * intros d i ->%list_elem_of_singleton. by apply Htmp.
      * intros d i ->%list_elem_of_singleton. by apply Hct.
    + intros d ->%list_elem_of_singleton. by apply He.
  - by intros d ->%list_elem_of_singleton.
Qed.

Lemma triple_open_tmp :
  triple held (open_truncate tmp_path)
    (λ f w, f_pos f = 0%nat ∧ writing (f_ino f) w ∧ content w (f_ino f) = []) held.
Proof.
  apply triple_syscall; [apply schedule_free_held| |done].
  intros w Hw. destruct (cur_dir w !! tmp_path) as [t|] eqn:E; simpl.
  - split_and!; [done|by apply writing_push|apply content_push].
  - split_and!; [done|by apply held_alloc|apply content_push].
Qed.

(** The replacement: on success the one thing the disk can show is the new
    content; cut short anywhere it is what it was before, or the new content. *)
Lemma replace_file_ok {E} (inj : io_error → E) b :
  Ψ (Some [b]) →
  triple held (replace_file inj p b)
    (λ f w, renamed (f_ino f) b w ∧ ∀ d, d ∈ w_dirs w → d !! p = Some (f_ino f)) held.
Proof.
  intros Hb. assert (HR : ∀ t w, writing t w → held w) by (by intros t w []).
  eapply triple_bind; [apply triple_map_err, triple_open_tmp|]. intros f.
  apply triple_pure. intros Hpos.
  eapply triple_bind; [apply triple_map_err, (triple_write_all _ _ _
    (λ f' w, f_ino f' = f_ino f ∧ writing (f_ino f) w ∧ content w (f_ino f) = b))|].
  { apply schedule_free_and; [apply schedule_free_writing|by intros vs w]. }
  { intros w [Hw Hc]. split_and!; [done|by apply writing_push|].
    rewrite content_push, Hpos, Hc. apply write_at_whole. simpl. lia. }
  { intros k w [Hw _]. eapply HR. by apply writing_push. }
  intros f'. apply triple_pure. intros Hf'. rewrite <-Hf'. clear Hf' Hpos f.
  eapply triple_bind; [apply triple_map_err, (triple_sync_file _ _
    (λ w, writing (f_ino f') w ∧ versions w (f_ino f') = [b]))|].
  { apply schedule_free_and; [apply schedule_free_writing|by intros vs w]. }
  { intros w [Hw Hc]. split; [by apply writing_nodes|]. by rewrite versions_sync, Hc. }
  { intros w [Hw _]. by eapply HR. }
  intros []. eapply (triple_bind _ _ _ _ (λ _, renamed (f_ino f') b)).
  { apply triple_map_err, triple_syscall.
    - apply schedule_free_and; [apply schedule_free_writing|by intros vs w].
    - intros w [Hw Hv]. change (sibling p "tmp") with tmp_path. rewrite (proj2 Hw).
      by apply writing_rename.
    - intros k w [Hw _]. by eapply HR. }
  intros []. eapply triple_bind; [eapply triple_fail;
    [apply triple_map_err, triple_open_dir, schedule_free_renamed|]|].
  { by intros w []. }
  intros []. eapply (triple_bind _ _ _ _
    (λ _ w, renamed (f_ino f') b w ∧ ∀ d, d ∈ w_dirs w → d !! p = Some (f_ino f'))).
  { apply triple_map_err, triple_syscall; [apply schedule_free_renamed|..].
    - intros w Hw. by apply renamed_sync.
    - by intros k w []. }
  intros []. by apply triple_ret.
Qed.
End replace.

(** What the disk can show after a replacement that succeeded. *)
Lemma renamed_entries l w0 Ψ t b w :
  renamed l w0 Ψ t b w → (∀ d, d ∈ w_dirs w → d !! p = Some t) →
  entries (λ o, o = Some [b]) w.
Proof. intros [_ [_ Hv]] Hd d Hin. unfold shown. rewrite Hd by done. simpl. by rewrite Hv. Qed.

(** When no call fails the replacement is made. *)
Lemma quiet_replace {E} (inj : io_error → E) b w :
  w_verdicts w = [] → ∃ f w', replace_file inj p b w = (Done f, w') ∧ w_verdicts w' = [].
Proof.
  intros Hq. unfold replace_file, mbind, io_bind, io_map_err, open_truncate, syscall. rewrite Hq.
  assert (Hrest : ∀ f w1, w_verdicts w1 = [] → is_Some (cur_dir w1 !! sibling p "tmp") →
    ∃ g w', (f ← io_map_err inj (write_all f b);
             _ ← io_map_err inj (sync_file f);
             _ ← io_map_err inj (rename (sibling p "tmp") p);
             _ ← io_map_err inj open_dir; _ ← io_map_err inj sync_dir; mret f) w1 = (Done g, w') ∧
            w_verdicts w' = []).
  { intros f w1 Hq1 [i Hi].
    unfold mbind, io_bind, io_map_err, write_all, sync_file, rename, open_dir, sync_dir, syscall.
    rewrite Hq1. cbn -[sibling]. rewrite Hq1. cbn -[sibling]. rewrite Hq1. cbn -[sibling].
    unfold cur_dir in *. cbn -[sibling]. rewrite Hi. cbn -[sibling]. rewrite Hq1. cbn -[sibling].
    rewrite Hq1. cbn -[sibling]. eauto. }
  destruct (cur_dir w !! sibling p "tmp") as [i|] eqn:E1.
  - apply (Hrest (File i 0)); [done|]. by exists i.
  - apply (Hrest (File (w_next w) 0)); [done|]. exists (w_next w). apply lookup_insert_eq.
Qed.

Lemma same_log_refl w : same_log w w.
Proof. done. Qed.

Lemma ext_held l Ψ w0 w :
  wf_world w0 → entries Ψ w0 → ext w0 w → locked l w → held (Some l) w0 Ψ w.
Proof. intros Hw He Hx Hl. split_and!; [apply Hx|done|apply Hx|by eapply ext_entries]. Qed.

Lemma ext_stable Ψ w0 w : wf_world w0 → entries Ψ w0 → ext w0 w → stable w0 Ψ w.
Proof. intros Hw He Hx. split_and!; [apply Hx|apply Hx|by eapply ext_entries]. Qed.

Lemma wf_blank : wf_world (World [∅] ∅ 0 ∅ [] true 0 []).
Proof.
  split; simpl; [done|..]; try (by intros d i ->%list_elem_of_singleton).
  - by intros d q i ->%list_elem_of_singleton.
  - intros i []. by rewrite lookup_empty in H.
Qed.
(** A replacement that reports success is durable, whatever the world was. *)
Lemma replace_durable {E} (inj : io_error → E) b w f w' :
  replace_file inj p b w = (Done f, w') → file_at w' p = Some b ∧ entries (λ o, o = Some [b]) w'.
Proof.
  unfold replace_file, mbind, io_bind.
  destruct (io_map_err inj (open_truncate _) w) as [[f1|e|] w1] eqn:E1; [|done..].
  destruct (io_map_err inj (write_all f1 b) w1) as [[g|e|] w2] eqn:E2; [|done..].
  destruct (io_map_err inj (sync_file g) w2) as [[[]|e|] w3] eqn:E3; [|done..].
  destruct (io_map_err inj (rename _ p) w3) as [[[]|e|] w4] eqn:E4; [|done..].
  destruct (io_map_err inj open_dir w4) as [[[]|e|] w5] eqn:E5; [|done..].
  destruct (io_map_err inj sync_dir w5) as [[[]|e|] w6] eqn:E6; [|done..]. intros [= <- <-].
  apply io_map_err_done, syscall_done in E1 as [v1 E1], E2 as [v2 E2], E3 as [v3 E3], E4 as [v4 E4],
    E5 as [v5 E5], E6 as [v6 E6]. cbv beta zeta in E2, E3, E4, E5, E6.
  assert (H1 : cur_dir w1 !! sibling p "tmp" = Some (f_ino f1) ∧ f_pos f1 = 0%nat ∧
    content w1 (f_ino f1) = []).
  { destruct (cur_dir (with_verdicts v1 w) !! sibling p "tmp") as [i|] eqn:Ei; simplify_eq/=.
    - by rewrite content_push.
    - split_and!; [apply lookup_insert_eq|done|exact (content_push (w_next w) [] (with_verdicts v1 w))]. }
  destruct H1 as (Hp & Hf & Hc).
  assert (H2 : content w2 (f_ino f1) = b ∧ cur_dir w2 = cur_dir w1 ∧ f_ino g = f_ino f1).
  { injection E2 as <- <-. split_and!; [|done|done]. rewrite content_push.
    change (content (with_verdicts v2 w1) (f_ino f1)) with (content w1 (f_ino f1)).
    rewrite Hf, Hc. apply write_at_whole. simpl. lia. }
  destruct H2 as (Hb & Hd & Hg).
  assert (H3 : versions w3 (f_ino f1) = [b] ∧ cur_dir w3 = cur_dir w1).
  { injection E3 as <-. rewrite Hg, <-Hb, <-Hd. split; [exact (versions_sync _ (with_verdicts v3 w2))|done]. }
  destruct H3 as (Hv & Hd3).
  assert (H4 : cur_dir w4 !! p = Some (f_ino f1) ∧ versions w4 (f_ino f1) = [b]).
  { change (cur_dir (with_verdicts v4 w3)) with (cur_dir w3) in E4. rewrite Hd3, Hp in E4.
    injection E4 as <-. split; [apply lookup_insert_eq|exact Hv]. }
  destruct H4 as (Hp4 & Hv4). injection E5 as <-. injection E6 as <-. split.
  - change ((content w4 <$> cur_dir w4 !! p) = Some b). rewrite Hp4. simpl. unfold content. by rewrite Hv4.
  - intros d ->%list_elem_of_singleton.
    change ((versions w4 <$> cur_dir w4 !! p) = Some [b]). by rewrite Hp4; simpl; rewrite Hv4.
Qed.
End atomic.
