(* ===== verification/SlotCounter.v ===== *)
(** * Durable slot allocation for one XMSS key (src/state/slot_counter.rs)

    The two-record journal, its recovery, the legacy textual formats, and the
    operations of [AtomicSlotCounter], over the operating system of [Fs]. *)
From S2P Require Import Prelude Fs External.

Open Scope Z_scope.

Section slot_counter.
Context `{HH : Hashes} `{XX : Xmss}.

(** ** Journal records *)

Definition RECORD_SIZE : nat := 128.
Definition JOURNAL_SLOT_SIZE : nat := Z.to_nat 4096.
Definition JOURNAL_SIZE : nat := JOURNAL_SLOT_SIZE * 2.
Definition CHECKSUM_OFFSET : nat := 96.
Definition JOURNAL_MAGIC : bytes := ascii_bytes (str "DROTSL03").

Record JournalRecord := mkJournalRecord {
  jr_generation : Z;
  jr_next_free : Z;
  jr_key_tag : bytes;
}.

Definition encode_record (record : JournalRecord) : bytes :=
  let b := replicate RECORD_SIZE Byte.x00 in
  let b := overwrite 0 JOURNAL_MAGIC b in
  let b := overwrite 8 (u64_le (jr_generation record)) b in
  let b := overwrite 16 (u64_le (jr_next_free record)) b in
  let b := overwrite 24 (jr_key_tag record) b in
  let checksum := sha3_256 (slice 0 CHECKSUM_OFFSET b) in
  overwrite CHECKSUM_OFFSET checksum b.

Definition decode_record (b : bytes) (slot : nat) : result (option JournalRecord) string :=
  if negb (length b =? RECORD_SIZE)%nat then Err "wrong record length"%string
  else if forallb (λ x, bool_decide (x = Byte.x00)) b then Ok None
  else if negb (bool_decide (slice 0 8 b = JOURNAL_MAGIC)) then Err "wrong journal magic"%string
  else if existsb (λ x, negb (bool_decide (x = Byte.x00))) (slice 56 (CHECKSUM_OFFSET - 56) b)
  then Err "non-zero reserved bytes"%string
  else
    let expected := sha3_256 (slice 0 CHECKSUM_OFFSET b) in
    if negb (bool_decide (drop CHECKSUM_OFFSET b = expected)) then Err "checksum mismatch"%string
    else
      let generation := le_val (slice 8 8 b) in
      if negb (generation mod 2 =? Z.of_nat slot)
      then Err "generation is stored in the wrong journal slot"%string
      else
        let next_free := le_val (slice 16 8 b) in
        let key_tag := slice 24 32 b in
        Ok (Some (mkJournalRecord generation next_free key_tag)).

(** ** Errors *)

Inductive AtomicSlotCounterError :=
| Exhausted (next : Z) (end_ : Z)
| AlreadySpent (requested : Z) (next : Z)
| State (m : string)
| Busy
| Io (e : io_error).

(** [Display]. *)
Definition display_counter_error `{OsText} (e : AtomicSlotCounterError) : string :=
  match e with
  | Exhausted next end_ =>
      "slot window exhausted (next " +:+ pretty next +:+ " > end " +:+ pretty end_ +:+
      "); re-key required"
  | AlreadySpent requested next =>
      "slot " +:+ pretty requested +:+ " already spent (next free " +:+ pretty next +:+
      "); abstaining from this round"
  | State m => "unusable slot state: " +:+ m
  | Busy => "another process holds this key"
  | Io e => "slot state I/O failed: " +:+ os_text e
  end.

(** ** Installation and locking *)

Definition install_journal (p : path) (key_tag : bytes) (next_free : Z) :
    io AtomicSlotCounterError file :=
  let tmp := sibling p "tmp" in
  let image := overwrite 0 (encode_record (mkJournalRecord 0 next_free key_tag))
                 (replicate JOURNAL_SIZE Byte.x00) in
  f ← io_map_err Io (open_truncate tmp);
  f ← io_map_err Io (write_all f image);
  _ ← io_map_err Io (sync_file f);
  _ ← io_map_err Io (rename tmp p);
  _ ← io_map_err Io open_dir;
  _ ← io_map_err Io sync_dir;
  mret f.

Definition acquire_lock (state_path : path) : io AtomicSlotCounterError file :=
  let lock_path := sibling state_path "lock" in
  f ← io_map_err Io (open_create lock_path);
  _ ← io_map_err (λ e, match e with TryWouldBlock => Busy | TryError e => Io e end) (try_lock f);
  mret f.

Definition key_fingerprint (pk : XmssPublicKey) : bytes := sha3_256 (xmss_pk_ssz pk).

Definition key_fingerprint_hex (key_tag : bytes) : rstr := hex key_tag.

(** ** Legacy textual state *)

Definition display_int_error (e : IntErrorKind) : string :=
  match e with
  | IntEmpty => "cannot parse integer from empty string"
  | InvalidDigit => "invalid digit found in string"
  | PosOverflow => "number too large to fit in target type"
  end.

Definition parse_legacy (s : rstr) (key_tag : bytes) : result (Z * bool) AtomicSlotCounterError :=
  let '(s, unversioned) :=
    match strip_prefix (str "v2 ") s with
    | Some versioned => (versioned, false)
    | None => (s, true)
    end in
  match split_whitespace s with
  | [] => Err (State "empty state file")
  | [_] => Err (State "missing slot counter")
  | fp :: next :: rest =>
      if negb (bool_decide (fp = key_fingerprint_hex key_tag))
      then Err (State "state file belongs to a different key")
      else
        match parse_unsigned u64_max next with
        | Err e => Err (State ("unparseable slot counter: " +:+ display_int_error e))
        | Ok next =>
            match rest with
            | _ :: _ => Err (State "unexpected trailing data in state file")
            | [] => Ok (next, unversioned)
            end
        end
  end.

(** ** Recovery *)

(** One round of the loop over the two slots: valid records and reasons. *)
Definition scan_slot (b : bytes) (acc : list JournalRecord * list string) (slot : nat) :
    list JournalRecord * list string :=
  let start := (slot * JOURNAL_SLOT_SIZE)%nat in
  match decode_record (slice start RECORD_SIZE b) slot with
  | Ok (Some record) => (acc.1 ++ [record], acc.2)
  | Ok None => acc
  | Err reason => (acc.1, acc.2 ++ [("record " +:+ pretty slot +:+ ": " +:+ reason)%string])
  end.

Definition outside_window (next : Z) (slot_end : Z) : string :=
  "persisted next slot " +:+ pretty next +:+ " is outside this key's window ending at "
    +:+ pretty slot_end.

Definition recover_journal (b : bytes) (key_tag : bytes) (slot_end : Z) :
    result JournalRecord AtomicSlotCounterError :=
  if negb (length b =? JOURNAL_SIZE)%nat
  then Err (State ("journal has length " +:+ pretty (length b) +:+ ", expected 8192"))
  else
    let '(records, invalid) := foldl (scan_slot b) ([], []) [0%nat; 1%nat] in
    match records with
    | [] =>
        let detail := match invalid with
                      | [] => "both records are empty"%string
                      | _ => String.concat "; " invalid
                      end in
        Err (State ("journal contains no valid record (" +:+ detail +:+ ")"))
    | _ =>
        if existsb (λ r, negb (bool_decide (jr_key_tag r = key_tag))) records
        then Err (State "journal belongs to a different key or mixes keys")
        else
          let records := sort_by_key jr_generation records in
          if match records with
             | [older; newer] =>
                 negb (jr_generation newer =? wrapping_add_u64 (jr_generation older) 1)
                 || (jr_next_free newer <=? jr_next_free older)
             | _ => false
             end
          then Err (State "journal records are not one monotonic generation apart")
          else
            match last records with
            | None => Err (State "at least one record")
            | Some current =>
                let one_past_end := slot_end + 1 in
                if one_past_end <? jr_next_free current
                then Err (State (outside_window (jr_next_free current) slot_end))
                else Ok current
            end
    end.

(** ** The counter *)

Record AtomicSlotCounter := mkCounter {
  state_file : file;
  key_tag : bytes;
  generation : Z;
  next : Z;
  end_ : Z;
  lock : file;
}.

Definition create (p : path) (pk : XmssPublicKey) (slot_start slot_end : Z) :
    io AtomicSlotCounterError AtomicSlotCounter :=
  let key_tag := key_fingerprint pk in
  lock ← acquire_lock p;
  drop_lock_on_err lock (
    exists_ ← path_exists p;
    if (exists_ : bool)
    then throw (State (display_path p +:+ " already exists; refusing to reset a live counter"))
    else
      state_file ← install_journal p key_tag slot_start;
      mret (mkCounter state_file key_tag 0 slot_start slot_end lock)).

Definition cannot_read (p : path) : AtomicSlotCounterError :=
  State ("cannot read " +:+ display_path p).

Definition open (p : path) (pk : XmssPublicKey) (slot_end : Z) :
    io AtomicSlotCounterError AtomicSlotCounter :=
  let key_tag := key_fingerprint pk in
  lock ← acquire_lock p;
  drop_lock_on_err lock (
    state_file ← io_map_err (λ _, cannot_read p) (open_rw p);
    raw ← io_map_err (λ _, cannot_read p) (read_to_end state_file);
    if (length raw =? JOURNAL_SIZE)%nat then
      current ← lift (recover_journal raw key_tag slot_end);
      mret (mkCounter state_file key_tag (jr_generation current) (jr_next_free current)
              slot_end lock)
    else
      raw ← lift (ok_or (from_utf8 raw) (State "state is neither a journal nor UTF-8"));
      '(next, unversioned) ← lift (parse_legacy raw key_tag);
      let one_past_end := slot_end + 1 in
      if one_past_end <? next then throw (State (outside_window next slot_end))
      else if unversioned && (slot_end =? u32_max) && (next =? u32_max) then
        throw (State "legacy state at u32::MAX is ambiguous; refusing to risk slot reuse")
      else
        state_file ← install_journal p key_tag next;
        mret (mkCounter state_file key_tag 0 next slot_end lock)).

(** The cursor of [state_file] is not kept on failure: every use seeks first. *)
Definition persist_next (c : AtomicSlotCounter) (next_free : Z) :
    io AtomicSlotCounterError AtomicSlotCounter :=
  generation ← lift (ok_or (checked_add_u64 (generation c) 1)
                       (State "journal generation exhausted"));
  let slot := Z.to_nat (generation mod 2) in
  let b := encode_record (mkJournalRecord generation next_free (key_tag c)) in
  f ← io_map_err Io (seek (state_file c) (slot * JOURNAL_SLOT_SIZE));
  f ← io_map_err Io (write_all f b);
  _ ← io_map_err Io (sync_file f);
  mret (mkCounter f (key_tag c) generation (next c) (end_ c) (lock c)).

Definition next_slot (c : AtomicSlotCounter) : Z := next c.

(** [(end + 1).saturating_sub(next)]. *)
Definition remaining (c : AtomicSlotCounter) : Z := Z.max 0 (end_ c + 1 - next c).

Definition with_next_slot (c : AtomicSlotCounter) (target : Z) : AtomicSlotCounter :=
  mkCounter (state_file c) (key_tag c) (generation c) target (end_ c) (lock c).

(** [&mut self] operations return the slot and the counter afterwards; on [Err]
    the counter is the one before the call. *)
Definition reserve (c : AtomicSlotCounter) :
    io AtomicSlotCounterError (Z * AtomicSlotCounter) :=
  if end_ c <? next c then throw (Exhausted (next c) (end_ c))
  else
    let slot := next c in
    let target := next c + 1 in
    c ← persist_next c target;
    mret (slot, with_next_slot c target).

Definition reserve_at (c : AtomicSlotCounter) (requested : Z) :
    io AtomicSlotCounterError (Z * AtomicSlotCounter) :=
  if (end_ c <? next c) || (end_ c <? requested)
  then throw (Exhausted (Z.max (next c) requested) (end_ c))
  else if requested <? next c then throw (AlreadySpent requested (next c))
  else
    let target := requested + 1 in
    c ← persist_next c target;
    mret (requested, with_next_slot c target).

(** ** Well-formed records *)

Definition wf_record (r : JournalRecord) : Prop :=
  is_u64 (jr_generation r) ∧ is_u64 (jr_next_free r) ∧ length (jr_key_tag r) = 32%nat.

(** The slot a generation is stored in, and the record bytes of a slot. *)
Definition slot_of (g : Z) : nat := Z.to_nat (g mod 2).
Definition region (slot : nat) (b : bytes) : bytes :=
  slice (slot * JOURNAL_SLOT_SIZE) RECORD_SIZE b.
Definition record_at (b : bytes) (slot : nat) : result (option JournalRecord) string :=
  decode_record (region slot b) slot.

(** A journal whose slot for [r]'s generation holds the image of [r], and a file
    all of whose unsynced versions do. *)
Definition good (r : JournalRecord) (c : bytes) : Prop :=
  length c = JOURNAL_SIZE ∧ region (slot_of (jr_generation r)) c = encode_record r.
Definition holds (i : nat) (r : JournalRecord) (w : world) : Prop :=
  versions w i ≠ [] ∧ Forall (good r) (versions w i).

(** The record a running counter stands for. *)
Definition counter_record (c : AtomicSlotCounter) : JournalRecord :=
  mkJournalRecord (generation c) (next c) (key_tag c).

(** A counter as its operations keep it: representable record, u32 window. *)
Definition wf_counter (c : AtomicSlotCounter) : Prop :=
  wf_record (counter_record c) ∧ is_u32 (end_ c).

(** [c'] is [c] after [slot] was handed out, with the record of [c'] being the
    only one the state file can show. *)
Record handed_out (w0 : world) (c : AtomicSlotCounter) (slot : Z) (c' : AtomicSlotCounter)
    (w : world) : Prop := {
  ho_frame : same_but (f_ino (state_file c)) w0 w;
  ho_slot : next c ≤ slot ≤ end_ c;
  ho_next : next c' = slot + 1;
  ho_key : key_tag c' = key_tag c;
  ho_end : end_ c' = end_ c;
  ho_lock : lock c' = lock c;
  ho_file : f_ino (state_file c') = f_ino (state_file c);
  ho_wf : wf_counter c';
  ho_holds : holds (f_ino (state_file c)) (counter_record c') w;
}.

(** What recovery promises: [cur] is stored in the slot of its generation, it
    belongs to this key and window, and a valid record in the other slot is its
    immediate predecessor. *)
Definition is_current (b : bytes) (k : bytes) (slot_end : Z) (cur : JournalRecord) : Prop :=
  length b = JOURNAL_SIZE ∧
  record_at b (slot_of (jr_generation cur)) = Ok (Some cur) ∧
  jr_key_tag cur = k ∧
  jr_next_free cur ≤ slot_end + 1 ∧
  ∀ old, record_at b (1 - slot_of (jr_generation cur)) = Ok (Some old) →
    jr_key_tag old = k ∧ jr_generation cur = jr_generation old + 1 ∧
    jr_next_free old < jr_next_free cur.

Lemma journal_sizes : JOURNAL_SIZE = (JOURNAL_SLOT_SIZE + JOURNAL_SLOT_SIZE)%nat ∧
  (RECORD_SIZE < JOURNAL_SLOT_SIZE)%nat.
Proof. unfold JOURNAL_SIZE, RECORD_SIZE, JOURNAL_SLOT_SIZE. lia. Qed.

#[global] Opaque JOURNAL_SLOT_SIZE JOURNAL_SIZE.

(** ** The record codec *)

(** The 96 bytes the checksum covers. *)
Definition header (r : JournalRecord) : bytes :=
  JOURNAL_MAGIC ++ u64_le (jr_generation r) ++ u64_le (jr_next_free r) ++ jr_key_tag r ++
  replicate 40 Byte.x00.

Lemma length_header r : length (jr_key_tag r) = 32%nat → length (header r) = CHECKSUM_OFFSET.
Proof.
  intros Hk. unfold header, u64_le. rewrite !length_app, !length_le_bytes, Hk. reflexivity.
Qed.

Lemma encode_record_eq r :
  length (jr_key_tag r) = 32%nat → encode_record r = header r ++ sha3_256 (header r).
Proof.
  intros Hk. unfold encode_record.
  change (replicate RECORD_SIZE Byte.x00) with
    (replicate 8 Byte.x00 ++ replicate 8 Byte.x00 ++ replicate 8 Byte.x00 ++
     replicate 32 Byte.x00 ++ replicate 40 Byte.x00 ++ replicate 32 Byte.x00).
  set (z8 := replicate 8 Byte.x00). set (z32 := replicate 32 Byte.x00).
  set (z40 := replicate 40 Byte.x00).
  set (g := u64_le (jr_generation r)). set (n := u64_le (jr_next_free r)).
  rewrite (overwrite_mid 0 [] JOURNAL_MAGIC z8 _ eq_refl eq_refl : overwrite 0 _ (z8 ++ _) = _).
  change ([] ++ JOURNAL_MAGIC ++ ?x) with (JOURNAL_MAGIC ++ x).
  rewrite (overwrite_mid 8 JOURNAL_MAGIC g z8) by apply length_le_bytes || done.
  rewrite (app_assoc JOURNAL_MAGIC g), (overwrite_mid 16 (JOURNAL_MAGIC ++ g) n z8) by done.
  rewrite (app_assoc (JOURNAL_MAGIC ++ g) n),
    (overwrite_mid 24 ((JOURNAL_MAGIC ++ g) ++ n) (jr_key_tag r) z32) by done.
  assert (((JOURNAL_MAGIC ++ g) ++ n) ++ jr_key_tag r ++ z40 ++ z32 = header r ++ z32) as ->
    by (unfold header; by rewrite <-!app_assoc).
  rewrite slice_app_l, slice_all by (by rewrite ?length_header).
  rewrite <-(app_nil_r z32), (overwrite_mid CHECKSUM_OFFSET (header r)).
  - by rewrite app_nil_r.
  - by apply length_header.
  - apply sha3_256_length.
Qed.

Lemma length_encode_record r :
  length (jr_key_tag r) = 32%nat → length (encode_record r) = RECORD_SIZE.
Proof.
  intros Hk. by rewrite encode_record_eq, length_app, length_header, sha3_256_length.
Qed.

Lemma existsb_nonzero (l : bytes) :
  existsb (λ x, negb (bool_decide (x = Byte.x00))) l = false ↔ l = replicate (length l) Byte.x00.
Proof.
  induction l as [|x l IH]; simpl; [done|].
  rewrite orb_false_iff, IH, negb_false_iff, bool_decide_eq_true. split.
  - intros [-> Hl]. by f_equal.
  - intros [= -> Hl]. by rewrite <-Hl.
Qed.

Lemma le_val_slice_u64 off (b : bytes) : (off + 8 ≤ length b)%nat → is_u64 (le_val (slice off 8 b)).
Proof.
  intros Hl. pose proof (le_val_range (slice off 8 b)) as Hr.
  rewrite length_slice in Hr by done. unfold is_u64, u64_max. simpl in Hr. lia.
Qed.

Lemma u64_le_of_val l : length l = 8%nat → u64_le (le_val l) = l.
Proof. apply le_bytes_le_val. Qed.

Lemma record_slices (m g n k z c : bytes) :
  length m = 8%nat → length g = 8%nat → length n = 8%nat → length k = 32%nat → length z = 40%nat →
  let b := m ++ g ++ n ++ k ++ z ++ c in
  slice 0 8 b = m ∧ slice 8 8 b = g ∧ slice 16 8 b = n ∧ slice 24 32 b = k ∧ slice 56 40 b = z.
Proof.
  intros Hm Hg Hn Hk Hz. cbv zeta. split_and!.
  - by apply (slice_mid 0 8 [] m).
  - by apply (slice_mid 8 8 m g).
  - rewrite (app_assoc m g). apply (slice_mid 16 8 (m ++ g)); [rewrite length_app; lia|done].
  - rewrite (app_assoc m g), (app_assoc _ n).
    apply (slice_mid 24 32 ((m ++ g) ++ n)); [rewrite !length_app; lia|done].
  - rewrite (app_assoc m g), (app_assoc _ n), (app_assoc _ k).
    apply (slice_mid 56 40 (((m ++ g) ++ n) ++ k)); [rewrite !length_app; lia|done].
Qed.

(** A complete record image decodes to the record it was made from. *)
Lemma decode_encode_record r :
  wf_record r → decode_record (encode_record r) (slot_of (jr_generation r)) = Ok (Some r).
Proof.
  destruct r as [g n k]. intros (Hg & Hn & Hk). simpl in *.
  set (r := mkJournalRecord g n k). unfold decode_record.
  rewrite length_encode_record by done. change (negb (RECORD_SIZE =? RECORD_SIZE)%nat) with false.
  rewrite encode_record_eq by done. set (c := sha3_256 (header r)).
  assert (Hs0 : slice 0 CHECKSUM_OFFSET (header r ++ c) = header r).
  { rewrite slice_app_l; [|by rewrite length_header]. apply slice_all. by apply length_header. }
  assert (Hd : drop CHECKSUM_OFFSET (header r ++ c) = c).
  { apply drop_app_length'. by rewrite length_header. }
  change (forallb _ (header r ++ c)) with false. cbv iota.
  assert (Hm : header r ++ c = JOURNAL_MAGIC ++ u64_le g ++ u64_le n ++ k ++ replicate 40 Byte.x00 ++ c).
  { unfold header. simpl. by rewrite <-!app_assoc. }
  rewrite Hs0, Hd. fold c. rewrite !(bool_decide_eq_true_2 (c = c)) by done.
  destruct (record_slices JOURNAL_MAGIC (u64_le g) (u64_le n) k (replicate 40 Byte.x00) c)
    as (E1 & E2 & E3 & E4 & E5); try done.
  rewrite Hm, E1, E2, E3, E4. change (CHECKSUM_OFFSET - 56)%nat with 40%nat. rewrite E5.
  rewrite bool_decide_eq_true_2 by done. cbn [negb].
  rewrite (proj2 (existsb_nonzero _)) by done.
  rewrite !u64_le_val by done. rewrite (proj2 (Z.eqb_eq _ _)); [done|].
  unfold slot_of. rewrite Z2Nat.id; [done|]. apply Z.mod_pos_bound. lia.
Qed.

(** The only image that decodes to a record is its canonical one, in the slot
    its generation names. *)
Lemma decode_record_canonical b slot r :
  decode_record b slot = Ok (Some r) →
  b = encode_record r ∧ wf_record r ∧ jr_generation r mod 2 = Z.of_nat slot.
Proof.
  unfold decode_record. intros Hdec.
  destruct (length b =? RECORD_SIZE)%nat eqn:Hl; [apply Nat.eqb_eq in Hl|done].
  cbn [negb] in Hdec. destruct (forallb _ b); [done|].
  destruct (bool_decide _) eqn:Hm; [|done]; cbn [negb] in Hdec.
  destruct (existsb _ _) eqn:Hz; [done|].
  destruct (bool_decide (drop _ _ = _)) eqn:Hc; [|done]; cbn [negb] in Hdec.
  destruct (_ =? _) eqn:Hg; [|done]; cbn [negb] in Hdec. boolify.
  injection Hdec as <-. apply existsb_nonzero in Hz.
  assert (length b = 128%nat) as Hl' by done.
  rewrite length_slice in Hz by (change (CHECKSUM_OFFSET - 56)%nat with 40%nat; lia).
  change (CHECKSUM_OFFSET - 56)%nat with 40%nat in Hz.
  set (r := mkJournalRecord _ _ _).
  assert (Hk : length (jr_key_tag r) = 32%nat) by (apply length_slice; lia).
  assert (Hh : header r = slice 0 CHECKSUM_OFFSET b).
  { unfold header, r. cbn [jr_generation jr_next_free jr_key_tag]. rewrite !u64_le_of_val by (apply length_slice; lia).
    rewrite <-Hm, <-Hz. change CHECKSUM_OFFSET with (8 + (8 + (8 + (32 + 40))))%nat.
    by rewrite !slice_add. }
  split_and!; [|repeat split; try apply le_val_slice_u64; try lia; done|done].
  rewrite encode_record_eq by done. rewrite Hh, <-Hc. symmetry. apply (take_drop CHECKSUM_OFFSET).
Qed.

(** ** Recovery *)

Lemma slot_of_cases g : slot_of g = 0%nat ∧ g mod 2 = 0 ∨ slot_of g = 1%nat ∧ g mod 2 = 1.
Proof.
  unfold slot_of. pose proof (Z.mod_pos_bound g 2 ltac:(lia)) as Hm.
  assert (g mod 2 = 0 ∨ g mod 2 = 1) as [->| ->] by lia; auto.
Qed.

Lemma slot_of_succ g : slot_of (g + 1) = (1 - slot_of g)%nat.
Proof.
  unfold slot_of. rewrite Z.add_mod by lia. pose proof (Z.mod_pos_bound g 2 ltac:(lia)) as Hm.
  assert (g mod 2 = 0 ∨ g mod 2 = 1) as [->| ->] by lia; reflexivity.
Qed.

Lemma slot_of_lt g : (slot_of g < 2)%nat.
Proof. destruct (slot_of_cases g) as [[-> _]|[-> _]]; lia. Qed.

Lemma record_at_canonical b s r :
  record_at b s = Ok (Some r) →
  region s b = encode_record r ∧ wf_record r ∧ jr_generation r mod 2 = Z.of_nat s.
Proof. apply decode_record_canonical. Qed.

Lemma record_at_slot b s r : record_at b s = Ok (Some r) → s = slot_of (jr_generation r).
Proof. intros (_ & _ & Hg)%record_at_canonical. unfold slot_of. lia. Qed.

Lemma record_at_wf b s r : record_at b s = Ok (Some r) → wf_record r.
Proof. by intros (_ & Hwf & _)%record_at_canonical. Qed.

(** Two valid records never share a generation, and the successor test of
    [recover_journal] never overflows. *)
Lemma two_records_gen b r0 r1 :
  record_at b 0 = Ok (Some r0) → record_at b 1 = Ok (Some r1) →
  jr_generation r0 ≠ jr_generation r1.
Proof.
  intros (_ & _ & H0)%record_at_canonical (_ & _ & H1)%record_at_canonical E.
  rewrite E in H0. lia.
Qed.

Lemma successor_exact a b :
  is_u64 a → is_u64 b → a < b → wrapping_add_u64 a 1 = a + 1.
Proof.
  unfold is_u64, u64_max, wrapping_add_u64, wrap_u64. intros. apply Z.mod_small. lia.
Qed.

Lemma scan_slot_record b acc s :
  scan_slot b acc s =
    match record_at b s with
    | Ok (Some record) => (acc.1 ++ [record], acc.2)
    | Ok None => acc
    | Err reason => (acc.1, acc.2 ++ [("record " +:+ pretty s +:+ ": " +:+ reason)%string])
    end.
Proof. done. Qed.

(** [recover_journal] once the valid records are known. *)
Lemma recover_journal_one b k e s r :
  (s < 2)%nat → length b = JOURNAL_SIZE → record_at b s = Ok (Some r) →
  (∀ old, record_at b (1 - s) ≠ Ok (Some old)) →
  recover_journal b k e =
    if negb (bool_decide (jr_key_tag r = k))
    then Err (State "journal belongs to a different key or mixes keys")
    else if e + 1 <? jr_next_free r
    then Err (State (outside_window (jr_next_free r) e)) else Ok r.
Proof.
  intros Hs Hl Hr Ho. unfold recover_journal. rewrite Hl, Nat.eqb_refl. cbn [negb foldl].
  rewrite !scan_slot_record.
  destruct s as [|[|s]]; [| |lia]; cbn [Nat.sub] in Ho; rewrite Hr;
    [destruct (record_at b 1) as [[o|]|] eqn:E1|destruct (record_at b 0) as [[o|]|] eqn:E0];
    try (by destruct (Ho o)); simpl; rewrite orb_false_r; by destruct (negb _).
Qed.

Lemma recover_journal_two b k e older newer :
  length b = JOURNAL_SIZE →
  record_at b (slot_of (jr_generation older)) = Ok (Some older) →
  record_at b (slot_of (jr_generation newer)) = Ok (Some newer) →
  jr_generation older < jr_generation newer →
  slot_of (jr_generation newer) = (1 - slot_of (jr_generation older))%nat →
  recover_journal b k e =
    if negb (bool_decide (jr_key_tag older = k ∧ jr_key_tag newer = k))
    then Err (State "journal belongs to a different key or mixes keys")
    else if negb (jr_generation newer =? jr_generation older + 1)
            || (jr_next_free newer <=? jr_next_free older)
    then Err (State "journal records are not one monotonic generation apart")
    else if e + 1 <? jr_next_free newer
    then Err (State (outside_window (jr_next_free newer) e)) else Ok newer.
Proof.
  intros Hl Ho Hn Hlt Hs. unfold recover_journal. rewrite Hl, Nat.eqb_refl. cbn [negb foldl].
  rewrite !scan_slot_record.
  assert (Hw : wrapping_add_u64 (jr_generation older) 1 = jr_generation older + 1).
  { apply record_at_wf in Ho as [? _], Hn as [? _]. by eapply successor_exact. }
  assert (Hk : existsb (λ r, negb (bool_decide (jr_key_tag r = k))) [older; newer] =
    negb (bool_decide (jr_key_tag older = k ∧ jr_key_tag newer = k))).
  { simpl. rewrite orb_false_r, bool_decide_and. by destruct (bool_decide _), (bool_decide _). }
  assert (Hk' : existsb (λ r, negb (bool_decide (jr_key_tag r = k))) [newer; older] =
    existsb (λ r, negb (bool_decide (jr_key_tag r = k))) [older; newer]).
  { simpl. rewrite !orb_false_r. apply orb_comm. }
  destruct (slot_of_cases (jr_generation older)) as [[E _]|[E _]];
    rewrite E in Ho, Hs; simpl in Hs; rewrite Hs in Hn; rewrite Ho, Hn; cbn [fst snd app].
  - rewrite Hk. destruct (negb (bool_decide _)); [done|]. simpl.
    rewrite (proj2 (Z.leb_le _ _)) by lia. by rewrite Hw.
  - rewrite Hk', Hk. destruct (negb (bool_decide _)); [done|]. simpl.
    rewrite (proj2 (Z.leb_gt _ _)) by lia. by rewrite Hw.
Qed.

Lemma valid_or_not b s : (∃ r, record_at b s = Ok (Some r)) ∨ (∀ r, record_at b s ≠ Ok (Some r)).
Proof. destruct (record_at b s) as [[r|]|]; naive_solver. Qed.

Lemma recover_journal_none b k e cur :
  (∀ r, record_at b 0 ≠ Ok (Some r)) → (∀ r, record_at b 1 ≠ Ok (Some r)) →
  recover_journal b k e ≠ Ok cur.
Proof.
  intros H0 H1. unfold recover_journal. destruct (negb _); [done|]. cbn [foldl].
  rewrite !scan_slot_record.
  destruct (record_at b 0) as [[r|]|]; [by destruct (H0 r)| |];
    (destruct (record_at b 1) as [[r|]|]; [by destruct (H1 r)|done|done]).
Qed.

Lemma recover_journal_length b k e cur : recover_journal b k e = Ok cur → length b = JOURNAL_SIZE.
Proof.
  unfold recover_journal. destruct (length b =? JOURNAL_SIZE)%nat eqn:E; [|done].
  intros _. by apply Nat.eqb_eq.
Qed.

Lemma slot_of_other a b : slot_of a ≠ slot_of b → slot_of a = (1 - slot_of b)%nat.
Proof. pose proof (slot_of_lt a). pose proof (slot_of_lt b). lia. Qed.

Lemma recover_spec_one b k e s r cur :
  (s < 2)%nat → length b = JOURNAL_SIZE → record_at b s = Ok (Some r) →
  (∀ old, record_at b (1 - s) ≠ Ok (Some old)) →
  recover_journal b k e = Ok cur ↔ is_current b k e cur.
Proof.
  intros Hs Hl Hr Ho. rewrite (recover_journal_one b k e s r) by done.
  pose proof (record_at_slot _ _ _ Hr) as Es. split.
  - repeat case_match; boolify; try done. intros [= <-]. subst s.
    split_and!; try done; try lia. intros old Hold. by destruct (Ho old).
  - intros (_ & Hc & Hk & He & _).
    destruct (decide (slot_of (jr_generation cur) = s)) as [E|E].
    + rewrite E, Hr in Hc. injection Hc as ->.
      rewrite bool_decide_eq_true_2 by done. simpl. by rewrite (proj2 (Z.ltb_ge _ _)) by lia.
    + rewrite Es in E. apply slot_of_other in E. rewrite E, <-Es in Hc. by destruct (Ho cur).
Qed.

Lemma recover_spec_two b k e o n cur :
  length b = JOURNAL_SIZE →
  record_at b (slot_of (jr_generation o)) = Ok (Some o) →
  record_at b (slot_of (jr_generation n)) = Ok (Some n) →
  jr_generation o < jr_generation n →
  slot_of (jr_generation n) ≠ slot_of (jr_generation o) →
  recover_journal b k e = Ok cur ↔ is_current b k e cur.
Proof.
  intros Hl Ho Hn Hlt Hs. pose proof (slot_of_other _ _ Hs) as Hno.
  pose proof (slot_of_other _ _ (not_eq_sym Hs)) as Hon.
  rewrite (recover_journal_two b k e o n) by done. split.
  - repeat case_match; boolify; try done. intros [= <-]. split_and!; try tauto; try lia.
    intros old. rewrite <-Hon, Ho. intros [= <-]. split_and!; try tauto; lia.
  - intros (_ & Hc & Hk & He & Hold).
    destruct (decide (slot_of (jr_generation cur) = slot_of (jr_generation n))) as [E|E].
    + assert (cur = n) as -> by (rewrite E in Hc; congruence).
      rewrite <-Hon in Hold. destruct (Hold o Ho) as (Hko & Hg & Hlt').
      rewrite bool_decide_eq_true_2 by done. simpl.
      by rewrite (proj2 (Z.eqb_eq _ _)), (proj2 (Z.leb_gt _ _)), (proj2 (Z.ltb_ge _ _)) by lia.
    + apply slot_of_other in E. rewrite <-Hon in E.
      assert (cur = o) as -> by (rewrite E in Hc; congruence).
      rewrite <-Hno in Hold. destruct (Hold n Hn) as (_ & Hg & _). lia.
Qed.

Lemma recover_journal_current b k e cur :
  recover_journal b k e = Ok cur ↔ is_current b k e cur.
Proof.
  destruct (decide (length b = JOURNAL_SIZE)) as [Hl|Hl].
  2:{ split; [by intros ?%recover_journal_length|by intros [? _]]. }
  destruct (valid_or_not b 0) as [[r0 H0]|H0], (valid_or_not b 1) as [[r1 H1]|H1].
  - pose proof (record_at_slot _ _ _ H0) as E0. pose proof (record_at_slot _ _ _ H1) as E1.
    pose proof (two_records_gen _ _ _ H0 H1). rewrite E0 in H0. rewrite E1 in H1.
    destruct (decide (jr_generation r0 < jr_generation r1));
      [apply (recover_spec_two b k e r0 r1)|apply (recover_spec_two b k e r1 r0)];
      (done || lia).
  - by apply (recover_spec_one b k e 0%nat r0); [lia|..].
  - by apply (recover_spec_one b k e 1%nat r1); [lia|..].
  - split; [by intros ?%recover_journal_none|].
    intros (_ & Hc & _). destruct (slot_of_cases (jr_generation cur)) as [[E _]|[E _]];
      rewrite E in Hc; [by destruct (H0 cur)|by destruct (H1 cur)].
Qed.

(** C4 Recovery is exactly its specification: [recover_journal] returns [cur]
    precisely when [cur] is the newest valid record of a full-size journal, it
    carries this key and lies in the window, and a second valid record is its
    immediate predecessor with a strictly smaller frontier. *)
Theorem recover_journal_spec b k e cur :
  recover_journal b k e = Ok cur ↔ is_current b k e cur.
Proof. apply recover_journal_current. Qed.

Lemma recovery_mono b k e r cur :
  wf_record r → region (slot_of (jr_generation r)) b = encode_record r →
  recover_journal b k e = Ok cur → jr_next_free r ≤ jr_next_free cur.
Proof.
  intros Hwf Hr (Hl & Hc & Hk & He & Hold)%recover_journal_current.
  assert (Ha : record_at b (slot_of (jr_generation r)) = Ok (Some r)).
  { unfold record_at. rewrite Hr. by apply decode_encode_record. }
  destruct (decide (slot_of (jr_generation r) = slot_of (jr_generation cur))) as [E|E].
  - rewrite E in Ha. assert (r = cur) as -> by congruence. lia.
  - apply slot_of_other in E. rewrite E in Ha. apply Hold in Ha as (_ & _ & ?). lia.
Qed.

(** Recovery never moves the frontier back: as long as one record slot holds
    the intact image of [r], whatever bytes the other slot holds (a torn write,
    garbage, even a forged record), recovery refuses or resumes at or above
    [r]'s frontier. *)
Theorem recovery_never_regresses b k e r cur :
  wf_record r → region (slot_of (jr_generation r)) b = encode_record r →
  recover_journal b k e = Ok cur → jr_next_free r ≤ jr_next_free cur.
Proof. apply recovery_mono. Qed.

(** A torn write is survived: if the intact record [r] lies in the window and
    the other slot does not hold a valid record, recovery resumes at [r]. *)
Theorem recovery_survives_torn_write b k e r :
  wf_record r → length b = JOURNAL_SIZE →
  region (slot_of (jr_generation r)) b = encode_record r →
  jr_key_tag r = k → jr_next_free r ≤ e + 1 →
  (∀ o, record_at b (1 - slot_of (jr_generation r)) ≠ Ok (Some o)) →
  recover_journal b k e = Ok r.
Proof.
  intros Hwf Hl Hr Hk He Ho. apply recover_journal_current. split_and!; try done.
  - unfold record_at. rewrite Hr. by apply decode_encode_record.
  - intros old Hold. by destruct (Ho old).
Qed.

(** ** The legacy formats *)

Lemma parse_legacy_u64 s k n b : parse_legacy s k = Ok (n, b) → is_u64 n.
Proof.
  unfold parse_legacy. intros H. repeat case_match; try done.
  all: injection H as -> _; by eapply parse_unsigned_range.
Qed.

(** ** The durable write *)

Lemma region_bound s : (s < 2)%nat → (s * JOURNAL_SLOT_SIZE + RECORD_SIZE ≤ JOURNAL_SIZE)%nat.
Proof. destruct journal_sizes as [-> ?]. destruct s as [|[|]]; lia. Qed.

Lemma length_write_region s b c :
  (s < 2)%nat → (length b ≤ RECORD_SIZE)%nat → length c = JOURNAL_SIZE →
  length (write_at (s * JOURNAL_SLOT_SIZE) b c) = JOURNAL_SIZE.
Proof.
  intros Hs Hb Hc. pose proof (region_bound s Hs).
  rewrite write_at_overwrite, length_overwrite by lia. done.
Qed.

Lemma region_write_same s b c :
  (s < 2)%nat → length b = RECORD_SIZE → length c = JOURNAL_SIZE →
  region s (write_at (s * JOURNAL_SLOT_SIZE) b c) = b.
Proof.
  intros Hs Hb Hc. pose proof (region_bound s Hs).
  rewrite write_at_overwrite by lia. unfold region. rewrite <-Hb. apply slice_overwrite_same. lia.
Qed.

Lemma region_write_other s s' b c :
  (s < 2)%nat → (s' < 2)%nat → s ≠ s' → (length b ≤ RECORD_SIZE)%nat → length c = JOURNAL_SIZE →
  region s' (write_at (s * JOURNAL_SLOT_SIZE) b c) = region s' c.
Proof.
  intros Hs Hs' Hne Hb Hc. pose proof (region_bound s Hs). destruct journal_sizes as [_ ?].
  rewrite write_at_overwrite by lia. unfold region. apply slice_overwrite_disjoint; [lia|].
  destruct s as [|[|]], s' as [|[|]]; lia.
Qed.

(** Writing (a prefix of) the next generation leaves the current one intact. *)
Lemma good_write r b c :
  (length b ≤ RECORD_SIZE)%nat → good r c →
  good r (write_at (slot_of (jr_generation r + 1) * JOURNAL_SLOT_SIZE) b c).
Proof.
  intros Hb [Hl Hr]. pose proof (slot_of_lt (jr_generation r)).
  rewrite slot_of_succ. split; [apply length_write_region; lia|].
  rewrite region_write_other; [done|lia..|done].
Qed.

Lemma good_write_new r r' c :
  length (encode_record r') = RECORD_SIZE → jr_generation r' = jr_generation r + 1 → good r c →
  good r' (write_at (slot_of (jr_generation r + 1) * JOURNAL_SLOT_SIZE) (encode_record r') c).
Proof.
  intros Hb Hg [Hl _]. pose proof (slot_of_lt (jr_generation r + 1)).
  split; [apply length_write_region; lia|]. rewrite Hg. by apply region_write_same.
Qed.

Lemma holds_schedule_free i r : schedule_free (holds i r).
Proof. by intros vs w Hw. Qed.
#[local] Hint Resolve holds_schedule_free : drot.

Lemma holds_content i r w : holds i r w → good r (content w i).
Proof. intros [Hn Hf]. rewrite Forall_forall in Hf. by apply Hf, content_in_versions. Qed.

Lemma holds_push i r c w : good r c → holds i r w → holds i r (push_node i c w).
Proof.
  intros Hg [Hn Hf]. unfold holds. rewrite versions_push. case_decide; [|done].
  split; [done|by constructor].
Qed.

Lemma holds_sync i r w :
  good r (content w i) → holds i r (with_nodes (<[i := [content w i]]> (w_nodes w)) w).
Proof. intros Hg. unfold holds. rewrite versions_sync. split; [done|by constructor]. Qed.

Lemma checked_add_u64_Some a b c : checked_add_u64 a b = Some c → c = a + b ∧ a + b ≤ u64_max.
Proof. unfold checked_add_u64. destruct (Z.leb_spec (a + b) u64_max); naive_solver. Qed.

(** The one durable write: while it is in progress, and if it fails or is cut
    short, every version of the file keeps the current record; when it returns,
    the file has one version and it holds the new record. *)
Lemma persist_next_triple w0 c i target :
  length (key_tag c) = 32%nat → f_ino (state_file c) = i → 
  triple (λ w, same_but i w0 w ∧ holds i (counter_record c) w)
    (persist_next c target)
    (λ c' w, same_but i w0 w ∧ generation c' = generation c + 1 ∧ generation c + 1 ≤ u64_max ∧
       key_tag c' = key_tag c ∧ next c' = next c ∧ end_ c' = end_ c ∧ lock c' = lock c ∧
       f_ino (state_file c') = i ∧
       holds i (mkJournalRecord (generation c + 1) target (key_tag c)) w)
    (λ w, same_but i w0 w ∧ holds i (counter_record c) w).
Proof.
  intros Hk Hi. set (r := counter_record c).
  unfold persist_next. apply triple_bind_lift; [|done].
  intros g Hg. destruct (checked_add_u64 _ _) eqn:E; [|done]. injection Hg as ->.
  apply checked_add_u64_Some in E as [-> Hmax]. set (g := generation c + 1).
  set (r' := mkJournalRecord g target (key_tag c)).
  assert (Hlen : length (encode_record r') = RECORD_SIZE) by by apply length_encode_record.
  assert (Hsf : schedule_free (λ w, same_but i w0 w ∧ holds i r w)) by eauto with drot.
  eapply triple_bind; [by apply triple_map_err, triple_seek|]. intros f.
  apply triple_pure. intros ->. rewrite Hi.
  eapply triple_bind; [apply triple_map_err, (triple_write_all _ _ _
    (λ f w, f_ino f = i ∧ same_but i w0 w ∧ holds i r w ∧ good r' (content w i)))|].
  - done.
  - intros w [Hs Hh]. cbn [f_ino f_pos]. rewrite firstn_all. split_and!; [done|..].
    + by apply same_but_push.
    + apply holds_push; [|done]. apply (good_write r); [lia|by apply holds_content].
    + rewrite content_push. apply (good_write_new r); [done..|by apply holds_content].
  - intros k w [Hs Hh]. split; [by apply same_but_push|].
    apply holds_push; [|done]. apply (good_write r); [|by apply holds_content].
    rewrite length_take. lia.
  - intros f'. apply triple_pure. intros Hf'.
    eapply triple_bind; [apply triple_map_err, (triple_sync_file _ _
      (λ w, same_but i w0 w ∧ holds i r' w))|].
    + apply schedule_free_and; [eauto with drot|]. apply schedule_free_and; [eauto with drot|by intros vs w].
    + intros w (Hs & Hh & Hg). rewrite Hf'. split; [by apply same_but_sync|by apply holds_sync].
    + tauto.
    + intros []. apply triple_ret. intros w []. done.
Qed.

(** ** Handing out slots *)

Lemma persist_handed_out w0 c slot :
  wf_counter c → next c ≤ slot ≤ end_ c →
  triple (λ w, same_but (f_ino (state_file c)) w0 w ∧
               holds (f_ino (state_file c)) (counter_record c) w)
    (c' ← persist_next c (slot + 1); mret (slot, with_next_slot c' (slot + 1)))
    (λ '(slot', c') w, slot' = slot ∧ handed_out w0 c slot' c' w)
    (λ w, same_but (f_ino (state_file c)) w0 w ∧
          holds (f_ino (state_file c)) (counter_record c) w).
Proof.
  intros [(Hg & Hn & Hk) He] Hslot. simpl in Hk.
  eapply triple_bind; [by apply persist_next_triple|].
  intros c'. apply triple_ret. intros w (? & Hg' & Hm & Hk' & ? & ? & ? & Hf & Hh).
  split; [done|]. destruct c' as [f k g n e l]; simpl in *. subst.
  split; simpl; try done; [].
  unfold wf_counter, wf_record, is_u64, is_u32, u64_max, u32_max, counter_record in *.
  simpl in *. split_and!; (done || lia).
Qed.

(** The two ways to take a slot, from the counter's own state. *)
Definition counter_on_disk (w0 : world) (c : AtomicSlotCounter) (w : world) : Prop :=
  same_but (f_ino (state_file c)) w0 w ∧ holds (f_ino (state_file c)) (counter_record c) w.

Lemma reserve_ok w0 c :
  wf_counter c →
  triple (counter_on_disk w0 c) (reserve c)
    (λ '(slot, c') w, slot = next c ∧ handed_out w0 c slot c' w) (counter_on_disk w0 c).
Proof.
  intros Hwf. unfold reserve. destruct (Z.ltb_spec (end_ c) (next c)) as [Hx|Hx].
  { by apply triple_throw. }
  apply (persist_handed_out w0 c (next c)); [done|lia].
Qed.

Lemma reserve_at_ok w0 c requested :
  wf_counter c →
  triple (counter_on_disk w0 c) (reserve_at c requested)
    (λ '(slot, c') w, slot = requested ∧ handed_out w0 c slot c' w) (counter_on_disk w0 c).
Proof.
  intros Hwf. unfold reserve_at. destruct (_ || _) eqn:Hx; [by apply triple_throw|].
  destruct (requested <? next c) eqn:Hr; [by apply triple_throw|]. boolify.
  apply (persist_handed_out w0 c requested); [done|lia].
Qed.

(** C5 Burn before use: whatever the operating system does to the calls of
    [reserve] or [reserve_at], either the slot asked for, at or above the
    frontier and inside the window, is handed out and the state file can only
    show the record past it, or nothing is handed out and every version of the
    state file still shows the old record. *)
Theorem burn_before_use w0 c :
  wf_counter c →
  triple (counter_on_disk w0 c) (reserve c)
    (λ '(slot, c') w, slot = next c ∧ handed_out w0 c slot c' w) (counter_on_disk w0 c) ∧
  (∀ requested, triple (counter_on_disk w0 c) (reserve_at c requested)
    (λ '(slot, c') w, slot = requested ∧ handed_out w0 c slot c' w) (counter_on_disk w0 c)).
Proof. intros Hwf. split; [by apply reserve_ok|intros; by apply reserve_at_ok]. Qed.

(** Refusals: past the window the answer is [Exhausted], below the frontier it
    is [AlreadySpent], and neither touches the disk; otherwise [reserve_at] goes
    to the durable write of the frontier just above the request. *)
Theorem reserve_at_cases c requested w :
  (end_ c < next c ∨ end_ c < requested →
     reserve_at c requested w = (Failed (Exhausted (Z.max (next c) requested) (end_ c)), w)) ∧
  (next c ≤ end_ c → requested ≤ end_ c → requested < next c →
     reserve_at c requested w = (Failed (AlreadySpent requested (next c)), w)) ∧
  (next c ≤ requested ≤ end_ c →
     reserve_at c requested w =
       (c' ← persist_next c (requested + 1);
        mret (requested, with_next_slot c' (requested + 1))) w).
Proof.
  unfold reserve_at. split_and!.
  - intros Hx. replace (_ || _) with true; [done|].
    symmetry. rewrite orb_true_iff, !Z.ltb_lt. done.
  - intros H1 H2 H3. rewrite (proj2 (Z.ltb_ge _ _)), (proj2 (Z.ltb_ge _ requested)) by done.
    simpl. by rewrite (proj2 (Z.ltb_lt _ _)).
  - intros Hx. rewrite (proj2 (Z.ltb_ge (end_ c) (next c))),
      (proj2 (Z.ltb_ge (end_ c) requested)) by lia.
    simpl. by rewrite (proj2 (Z.ltb_ge requested (next c))) by lia.
Qed.

(** ** Widths *)

(** Whatever a call does, what it returns is built by the code. *)
Lemma triple_any {E A} (m : io E A) : triple (λ _, True) m (λ _ _, True) (λ _, True).
Proof. intros w _. by destruct (m w) as [[|e|] w']. Qed.

Lemma triple_bind_any {E A B} (m : io E A) (k : A → io E B) Q :
  (∀ a, triple (λ _, True) (k a) Q (λ _, True)) → triple (λ _, True) (m ≫= k) Q (λ _, True).
Proof. intros H. eapply triple_bind; [apply triple_any|done]. Qed.

Lemma persist_next_fields c target :
  triple (λ _, True) (persist_next c target)
    (λ c' _, generation c' = generation c + 1 ∧ generation c + 1 ≤ u64_max ∧ key_tag c' = key_tag c ∧
       end_ c' = end_ c) (λ _, True).
Proof.
  unfold persist_next. apply triple_bind_lift; [|done]. intros g Hg.
  destruct (checked_add_u64 _ _) eqn:E; [|done]. injection Hg as ->.
  apply checked_add_u64_Some in E as [-> ?]. do 3 (apply triple_bind_any; intros ?). by apply triple_ret.
Qed.

Lemma handed_typed c slot :
  wf_counter c → next c ≤ slot ≤ end_ c →
  triple (λ _, True) (c' ← persist_next c (slot + 1); mret (slot, with_next_slot c' (slot + 1)))
    (λ '(slot', c') _, wf_counter c' ∧ is_u32 slot' ∧ slot' = slot ∧ next c' = slot + 1) (λ _, True).
Proof.
  intros [(Hg & Hn & Hk) He] Hslot. eapply triple_bind; [apply persist_next_fields|]. intros c'.
  apply triple_ret. intros w (Hg' & Hm & Hk' & He').
  unfold wf_counter, wf_record, is_u64, is_u32, u64_max, u32_max, counter_record in *.
  simpl in *. rewrite Hg', Hk', He'. split_and!; (done || lia).
Qed.

Lemma fresh_typed f key next_free slot_end l :
  is_u64 next_free → is_u32 slot_end → wf_counter (mkCounter f (key_fingerprint key) 0 next_free slot_end l).
Proof. intros Hn He. split; [|done]. split_and!; [done|done|apply sha3_256_length]. Qed.

Lemma create_typed p key slot_start slot_end :
  is_u32 slot_start → is_u32 slot_end →
  triple (λ _, True) (create p key slot_start slot_end) (λ c _, wf_counter c) (λ _, True).
Proof.
  intros Hs He. unfold create. apply triple_bind_any. intros l.
  eapply triple_drop_lock; [|done..]. apply triple_bind_any. intros [|]; [by apply triple_throw|].
  apply triple_bind_any. intros f. apply triple_ret. intros w _.
  apply fresh_typed; [|done]. unfold is_u64, is_u32, u64_max, u32_max in *. lia.
Qed.

Lemma open_typed p key slot_end :
  is_u32 slot_end → triple (λ _, True) (open p key slot_end) (λ c _, wf_counter c) (λ _, True).
Proof.
  intros He. unfold open. apply triple_bind_any. intros l.
  eapply triple_drop_lock; [|done..]. do 2 (apply triple_bind_any; intros ?). destruct (_ =? _)%nat.
  - apply triple_bind_lift; [|done]. intros cur (_ & Hr & Hk & _)%recover_journal_current.
    apply record_at_wf in Hr as (? & ? & _). apply triple_ret. intros w _.
    split; [|done]. split_and!; [done|done|apply sha3_256_length].
  - apply triple_bind_lift; [|done]. intros raw _. apply triple_bind_lift; [|done]. intros [n b] Hp.
    apply parse_legacy_u64 in Hp. repeat (case_match; [by apply triple_throw|]).
    apply triple_bind_any. intros f. apply triple_ret. intros w _. by apply fresh_typed.
Qed.

(** C28 Counters are well typed: whatever the calls do, a counter that [create],
    [open], [reserve] or [reserve_at] returns has a representable journal record
    (a [u64] generation and frontier, a 32-byte tag) and a [u32] window, and the
    slot handed out is a [u32], so that no conversion or addition of the module
    wraps. *)
Theorem counter_well_typed p key :
  (∀ slot_start slot_end, is_u32 slot_start → is_u32 slot_end →
     triple (λ _, True) (create p key slot_start slot_end) (λ c _, wf_counter c) (λ _, True)) ∧
  (∀ slot_end, is_u32 slot_end →
     triple (λ _, True) (open p key slot_end) (λ c _, wf_counter c) (λ _, True)) ∧
  (∀ c, wf_counter c → triple (λ _, True) (reserve c)
     (λ '(slot, c') _, wf_counter c' ∧ is_u32 slot ∧ slot = next c ∧ next c' = slot + 1) (λ _, True)) ∧
  (∀ c requested, wf_counter c → triple (λ _, True) (reserve_at c requested)
     (λ '(slot, c') _, wf_counter c' ∧ is_u32 slot ∧ slot = requested ∧ next c' = slot + 1) (λ _, True)).
Proof.
  split_and!; [by intros; apply create_typed|by intros; apply open_typed|intros c Hc|intros c requested Hc].
  - unfold reserve. destruct (Z.ltb_spec (end_ c) (next c)); [by apply triple_throw|].
    eapply triple_weaken; [apply (handed_typed c (next c)); [done|lia]|done| |done].
    by intros [s c'] w (? & ? & -> & ->).
  - unfold reserve_at. destruct (_ || _) eqn:Hx; [by apply triple_throw|].
    destruct (requested <? next c) eqn:Hr; [by apply triple_throw|]. boolify.
    eapply triple_weaken; [apply (handed_typed c requested); [done|lia]|done| |done].
    by intros [s c'] w (? & ? & -> & ->).
Qed.

End slot_counter.
