(* ===== verification/Signer.v ===== *)
(** * A committee member (src/node/signer.rs)

    One XMSS key pair and its slot counter.  [&mut self] methods return the node
    afterwards together with their [Result], because a failed signature leaves
    the counter advanced; only process death leaves no node. *)
From S2P Require Import Prelude Fs External SlotCounter.

Open Scope Z_scope.

Section signer.
Context `{HH : Hashes} `{XX : Xmss}.

Inductive SignerNodeError :=
| Slot (e : AtomicSlotCounterError)
| Sign (m : string).

(** [Display]. *)
Definition display_signer_error `{OsText} (e : SignerNodeError) : string :=
  match e with
  | Slot e => display_counter_error e
  | Sign m => "signing failed: " +:+ m
  end.

Record SignerNode := mkSignerNode {
  pk : XmssPublicKey;
  sk : XmssSecretKey;
  a_slot_counter : AtomicSlotCounter;
}.

Record SignAtTimings := mkSignAtTimings { t_reserve : nat; t_crypto : nat }.

Definition with_counter (s : SignerNode) (c : AtomicSlotCounter) : SignerNode :=
  mkSignerNode (pk s) (sk s) c.

Definition node_next_slot (s : SignerNode) : Z := next_slot (a_slot_counter s).
Definition remaining_slots (s : SignerNode) : Z := remaining (a_slot_counter s).

(** [leanvm::xmss::sign] with fresh randomness; the application of the secret
    key to (slot, message) is recorded in the world. *)
Definition leanvm_sign (sk : XmssSecretKey) (message : bytes) (slot : Z) :
    io Empty_set (result XmssSignature string) := λ w,
  let rng := w_entropy w in
  (Done (xmss_sign rng sk message slot),
   with_signed ((slot, message) :: w_signed w) (with_entropy (S rng) w)).

Definition at_slot (e : string) (slot : Z) : SignerNodeError :=
  Sign (e +:+ " at slot " +:+ pretty slot).

Definition sign (s : SignerNode) (message : bytes) :
    io Empty_set (result (Z * XmssSignature) SignerNodeError * SignerNode) :=
  io_catch (reserve (a_slot_counter s)) (λ r,
    match r with
    | Err e => mret (Err (Slot e), s)
    | Ok (slot, c) =>
        let s := with_counter s c in
        signature ← leanvm_sign (sk s) message slot;
        match signature with
        | Err e => mret (Err (at_slot e slot), s)
        | Ok signature => mret (Ok (slot, signature), s)
        end
    end).

(** [measure.then(Instant::now)]. *)
Definition instant (measure : bool) : io Empty_set (option nat) :=
  if measure then t ← draw; mret (Some t) else mret None.

Definition elapsed (start : option nat) : io Empty_set (option nat) :=
  match start with
  | Some t0 => t ← draw; mret (Some (t - t0)%nat)
  | None => mret None
  end.

Definition sign_at_inner (s : SignerNode) (message : bytes) (slot : Z) (measure : bool) :
    io Empty_set (result (XmssSignature * option SignAtTimings) SignerNodeError * SignerNode) :=
  reserve_start ← instant measure;
  io_catch (reserve_at (a_slot_counter s) slot) (λ r,
    match r with
    | Err e => mret (Err (Slot e), s)
    | Ok (_, c) =>
        let s := with_counter s c in
        reserve ← elapsed reserve_start;
        crypto_start ← instant measure;
        signature ← leanvm_sign (sk s) message slot;
        match signature with
        | Err e => mret (Err (at_slot e slot), s)
        | Ok signature =>
            crypto ← elapsed crypto_start;
            let timings :=
              match reserve, crypto with
              | Some reserve, Some crypto => Some (mkSignAtTimings reserve crypto)
              | _, _ => None
              end in
            mret (Ok (signature, timings), s)
        end
    end).

Definition sign_at (s : SignerNode) (message : bytes) (slot : Z) :
    io Empty_set (result XmssSignature SignerNodeError * SignerNode) :=
  '(r, s) ← sign_at_inner s message slot false;
  mret (let? x := r in Ok (fst x), s).

(** [timings.expect(..)]: [sign_at_inner] always has timings when asked. *)
Definition sign_at_timed (s : SignerNode) (message : bytes) (slot : Z) :
    io Empty_set (result (XmssSignature * option SignAtTimings) SignerNodeError * SignerNode) :=
  sign_at_inner s message slot true.

(** ** What one signing call does *)

(** The node keeps its key, and its counter and the disk are related by [Q]. *)
Definition counter_state (s : SignerNode) (w : world) : Prop :=
  wf_counter (a_slot_counter s) ∧
  holds (f_ino (state_file (a_slot_counter s))) (counter_record (a_slot_counter s)) w.

(** Between [w0] and [w] only the state file changed, the node moved from [s] to
    [s'], and the key was applied exactly to [log], all of it at or above the old
    frontier and below the new one. *)
Record signed_step (w0 : world) (s s' : SignerNode) (log : list (Z * bytes)) (w : world) :
    Prop := {
  ss_dirs : w_dirs w = w_dirs w0;
  ss_next : w_next w = w_next w0;
  ss_locks : w_locks w = w_locks w0;
  ss_stat : w_stat_ok w = w_stat_ok w0;
  ss_nodes : ∀ j, j ≠ f_ino (state_file (a_slot_counter s)) → w_nodes w !! j = w_nodes w0 !! j;
  ss_signed : w_signed w = log ++ w_signed w0;
  ss_state : counter_state s' w;
  ss_file : f_ino (state_file (a_slot_counter s')) = f_ino (state_file (a_slot_counter s));
  ss_lock : lock (a_slot_counter s') = lock (a_slot_counter s);
  ss_key : key_tag (a_slot_counter s') = key_tag (a_slot_counter s);
  ss_mono : next (a_slot_counter s) ≤ next (a_slot_counter s');
  ss_fresh : match log with
             | [] => True
             | [(slot, _)] => next (a_slot_counter s) ≤ slot ∧ next (a_slot_counter s') = slot + 1
             | _ => False
             end;
}.

Lemma signed_step_idle w0 s w :
  wf_counter (a_slot_counter s) →
  same_but (f_ino (state_file (a_slot_counter s))) w0 w →
  holds (f_ino (state_file (a_slot_counter s))) (counter_record (a_slot_counter s)) w →
  signed_step w0 s s [] w.
Proof. intros Hwf [] Hh. by split. Qed.

Lemma triple_instant P R b : entropy_free P → triple P (instant b) (λ _, P) R.
Proof. intros HP w Hw. destruct b; simpl; [by apply HP|done]. Qed.

Lemma triple_elapsed P R t0 : entropy_free P → triple P (elapsed t0) (λ _, P) R.
Proof. intros HP w Hw. destruct t0; simpl; [by apply HP|done]. Qed.

Lemma entropy_free_handed_out w0 c slot c' : entropy_free (handed_out w0 c slot c').
Proof. intros n w [[] ? ? ? ? ? ? ? ?]. by split. Qed.

Lemma entropy_free_signed_step w0 s s' log : entropy_free (signed_step w0 s s' log).
Proof. intros n w []. by split. Qed.

Lemma entropy_free_on_disk w0 c : entropy_free (counter_on_disk w0 c).
Proof. by intros n w [[] ?]. Qed.

(** After the reservation, applying the key records one fresh slot. *)
Lemma triple_leanvm_sign w0 s c' message slot R :
  triple (handed_out w0 (a_slot_counter s) slot c')
    (leanvm_sign (sk s) message slot)
    (λ _ w, signed_step w0 s (with_counter s c') [(slot, message)] w)
    R.
Proof.
  intros w [[] ? ? ? ? ? Hf ? Hh]. split; simpl; try done; [by rewrite sb_signed| |lia|lia].
  split; [done|]. simpl. by rewrite Hf.
Qed.

(** What the result of a call says about the slots it used. *)
Definition spent {A} (s s' : SignerNode) (slot : Z) (message : bytes)
    (r : result A SignerNodeError) (log : list (Z * bytes)) : Prop :=
  match r with
  | Ok _ | Err (Sign _) => log = [(slot, message)] ∧ next (a_slot_counter s') = slot + 1
  | Err (Slot _) => log = [] ∧ s' = s
  end.

Lemma sign_step w0 s message :
  wf_counter (a_slot_counter s) →
  triple (λ w, w = w0 ∧ counter_state s w) (sign s message)
    (λ '(r, s') w, ∃ log, signed_step w0 s s' log w ∧
       spent s s' (next (a_slot_counter s)) message r log ∧
       (∀ slot sig, r = Ok (slot, sig) → slot = next (a_slot_counter s)))
    (λ w, signed_step w0 s s [] w).
Proof.
  intros Hwf. unfold sign.
  apply (triple_pre (counter_on_disk w0 (a_slot_counter s))); [by intros w [-> []]|].
  eapply triple_catch; [by apply (reserve_ok w0)|by intros w []; apply signed_step_idle|..].
  - intros [slot c]. apply triple_pure. intros ->.
    eapply triple_bind; [apply (triple_leanvm_sign w0 s c)|].
    intros [sig|e]; apply triple_ret; intros w Hw; (eexists; split_and!;
      [exact Hw|split; [done|by apply ss_fresh in Hw as []]|congruence]).
  - intros e. apply triple_ret. intros w [? ?]. exists [].
    split_and!; [by apply signed_step_idle|done|done].
Qed.

Lemma sign_at_inner_step w0 s message slot b :
  wf_counter (a_slot_counter s) →
  triple (λ w, w = w0 ∧ counter_state s w) (sign_at_inner s message slot b)
    (λ '(r, s') w, ∃ log, signed_step w0 s s' log w ∧ spent s s' slot message r log)
    (λ w, signed_step w0 s s [] w).
Proof.
  intros Hwf. unfold sign_at_inner.
  apply (triple_pre (counter_on_disk w0 (a_slot_counter s))); [by intros w [-> []]|].
  eapply triple_bind; [apply triple_instant, entropy_free_on_disk|]. intros t0.
  eapply triple_catch; [by apply (reserve_at_ok w0)|by intros w []; apply signed_step_idle|..].
  2:{ intros e. apply triple_ret. intros w [? ?]. exists []. split; [by apply signed_step_idle|done]. }
  intros [slot' c]. apply triple_pure. intros ->.
  eapply triple_bind; [apply triple_elapsed, entropy_free_handed_out|]. intros t1.
  eapply triple_bind; [apply triple_instant, entropy_free_handed_out|]. intros t2.
  eapply triple_bind; [apply (triple_leanvm_sign w0 s c)|].
  assert (Hspent : ∀ w, signed_step w0 s (with_counter s c) [(slot, message)] w →
    ∃ log, signed_step w0 s (with_counter s c) log w ∧ log = [(slot, message)] ∧
      next c = slot + 1).
  { intros w Hw. exists [(slot, message)]. by pose proof (ss_fresh _ _ _ _ _ Hw) as []. }
  intros [sig|e]; [|by apply triple_ret].
  eapply triple_bind; [apply triple_elapsed, entropy_free_signed_step|]. intros t3.
  by apply triple_ret.
Qed.

Lemma sign_at_step w0 s message slot :
  wf_counter (a_slot_counter s) →
  triple (λ w, w = w0 ∧ counter_state s w) (sign_at s message slot)
    (λ '(r, s') w, ∃ log, signed_step w0 s s' log w ∧ spent s s' slot message r log)
    (λ w, signed_step w0 s s [] w).
Proof.
  intros Hwf. eapply triple_bind; [by apply (sign_at_inner_step w0)|].
  intros [[[]|[]] s']; by apply triple_ret.
Qed.

(** A signing call burns what it uses: under any schedule of failures [sign]
    applies the key to at most one slot, the node's own next one, after the file
    shows that slot as spent; a signature that leanVM refuses stays spent, and an
    allocator refusal applies the key to nothing and leaves the node as it was. *)
Theorem sign_burns w0 s message :
  wf_counter (a_slot_counter s) →
  triple (λ w, w = w0 ∧ counter_state s w) (sign s message)
    (λ '(r, s') w, ∃ log, signed_step w0 s s' log w ∧
       spent s s' (next (a_slot_counter s)) message r log ∧
       (∀ slot sig, r = Ok (slot, sig) → slot = next (a_slot_counter s)))
    (λ w, signed_step w0 s s [] w).
Proof. apply sign_step. Qed.

(** C7 The same for the protocol-chosen slot.  Under any schedule of failures
    [sign_at] applies the key at exactly the requested slot, once, after the file
    shows that slot as spent, and leaves the counter one past it, whether leanVM
    then signs or refuses ([Ok], [Err (Sign _)]); or it answers [Err (Slot _)]
    because the counter issued nothing, and then the key was not applied and the
    node is the one before the call.  So only the [Sign] variant of
    [SignerNodeError] leaves the counter advanced, although the comment on the type
    says that both do. *)
Theorem sign_at_burns w0 s message slot :
  wf_counter (a_slot_counter s) →
  triple (λ w, w = w0 ∧ counter_state s w) (sign_at s message slot)
    (λ '(r, s') w, ∃ log, signed_step w0 s s' log w ∧ spent s s' slot message r log)
    (λ w, signed_step w0 s s [] w).
Proof. apply sign_at_step. Qed.
End signer.
