(* ===== verification/SlotSystem.v ===== *)
(** * One key, many processes, crashes and power loss

    The processes of a machine that share one state file: they create or open
    the counter, sign, are dropped or die inside a call, the operating system
    writes back or loses its caches.  The transition relation runs the code of
    [SlotCounter] and [Signer]; the invariant is that no guarded execution applies the
    key to one slot twice. *)
From S2P Require Import Prelude Fs External Instances Atomic SlotCounter Signer.
From stdpp Require Import relations.

Open Scope Z_scope.

Section system.
Context `{HH : Hashes} `{XX : Xmss}.
Context (p : path) (key : XmssPublicKey).

Record sys := Sys { s_world : world; s_procs : gmap nat SignerNode }.

(** ** The steps *)

(** A process that dies inside [create] or [open] releases what it locked. *)
Definition started (pid : nat) (sk : XmssSecretKey) (st : sys)
    (r : outcome AtomicSlotCounterError AtomicSlotCounter * world) : sys :=
  match r with
  | (Done c, w) => Sys w (<[pid := mkSignerNode key sk c]> (s_procs st))
  | (Failed _, w) => Sys w (s_procs st)
  | (Halted, w) => Sys (with_locks (w_locks (s_world st)) w) (s_procs st)
  end.

Definition sys_create (pid : nat) (sk : XmssSecretKey) (slot_start slot_end : Z) (st : sys) : sys :=
  started pid sk st (create p key slot_start slot_end (s_world st)).

Definition sys_open (pid : nat) (sk : XmssSecretKey) (slot_end : Z) (st : sys) : sys :=
  started pid sk st (open p key slot_end (s_world st)).

(** A signing call of the running node [pid]; death releases the node's lock. *)
Definition called {A} (pid : nat) (call : SignerNode → io Empty_set (A * SignerNode)) (st : sys) :
    sys :=
  match s_procs st !! pid with
  | None => st
  | Some s =>
      match call s (s_world st) with
      | (Done (_, s'), w) => Sys w (<[pid := s']> (s_procs st))
      | (Failed _, w) => Sys w (s_procs st)
      | (Halted, w) => Sys (unlock (lock (a_slot_counter s)) w) (delete pid (s_procs st))
      end
  end.

Definition sys_sign (pid : nat) (message : bytes) : sys → sys :=
  called pid (λ s, sign s message).
Definition sys_sign_at (pid : nat) (message : bytes) (slot : Z) : sys → sys :=
  called pid (λ s, sign_at s message slot).

Definition sys_drop (pid : nat) (st : sys) : sys :=
  match s_procs st !! pid with
  | None => st
  | Some s => Sys (unlock (lock (a_slot_counter s)) (s_world st)) (delete pid (s_procs st))
  end.

(** Nothing about the state file is waiting to be written: every directory a
    power loss could leave has the same entry, every version of the file is the
    current one. *)
Definition settled (w : world) : Prop :=
  (∀ d, d ∈ w_dirs w → d !! p = cur_dir w !! p) ∧
  (∀ i, cur_dir w !! p = Some i → Forall (λ c, c = content w i) (versions w i)).

#[export] Instance settled_dec w : Decision (settled w).
Proof.
  unfold settled. apply and_dec.
  - destruct (decide (Forall (λ d, d !! p = cur_dir w !! p) (w_dirs w))) as [H|H];
      rewrite Forall_forall in H; [by left|by right].
  - destruct (cur_dir w !! p) as [i|]; [|by left].
    destruct (decide (Forall (λ c, c = content w i) (versions w i))) as [H|H];
      [left; by intros ? [= <-]|right; naive_solver].
Defined.

(** One step.  [stat_answers]: [create] runs only where [Path::exists] can read
    the metadata; [settled_first]: [open] runs only on a settled state file. *)
Inductive step (stat_answers settled_first : Prop) : sys → sys → Prop :=
| step_schedule vs st :
    step stat_answers settled_first st (Sys (with_verdicts vs (s_world st)) (s_procs st))
| step_stat b st :
    step stat_answers settled_first st (Sys (with_stat b (s_world st)) (s_procs st))
| step_create pid sk slot_start slot_end st :
    s_procs st !! pid = None → is_u32 slot_start → is_u32 slot_end →
    (stat_answers → w_stat_ok (s_world st) = true) →
    step stat_answers settled_first st (sys_create pid sk slot_start slot_end st)
| step_open pid sk slot_end st :
    s_procs st !! pid = None → is_u32 slot_end → (settled_first → settled (s_world st)) →
    step stat_answers settled_first st (sys_open pid sk slot_end st)
| step_sign pid message st :
    step stat_answers settled_first st (sys_sign pid message st)
| step_sign_at pid message slot st :
    step stat_answers settled_first st (sys_sign_at pid message slot st)
| step_drop pid st : step stat_answers settled_first st (sys_drop pid st)
| step_writeback st :
    step stat_answers settled_first st (Sys (written_back (s_world st)) (s_procs st))
| step_power_loss w st :
    power_loss (s_world st) w → step stat_answers settled_first st (Sys w ∅).

(** The steps under both guards: every [create] finds the metadata of the state
    file readable, every [open] a state file that nothing is waiting to be written
    to.  The code enforces neither, and [guards_needed] shows that neither can be
    left out. *)
Definition guarded_step : sys → sys → Prop := step True True.

(** ** The invariant *)

(** One past the latest slot of a log, and logs whose slots only grow. *)
Definition frontier (log : list (Z * bytes)) : Z :=
  match log with [] => 0 | (slot, _) :: _ => slot + 1 end.

Definition decreasing (log : list (Z * bytes)) : Prop :=
  StronglySorted (λ a b, b.1 < a.1) log.

(** Some opening of a file with contents [c] would resume at [n]. *)
Definition stands_for (c : bytes) (n : Z) : Prop :=
  (∃ e cur, recover_journal c (key_fingerprint key) e = Ok cur ∧ jr_next_free cur = n) ∨
  (∃ s b, length c ≠ JOURNAL_SIZE ∧ from_utf8 c = Some s ∧
          parse_legacy s (key_fingerprint key) = Ok (n, b)).

Definition safe (f : Z) (c : bytes) : Prop := ∀ n, stands_for c n → f ≤ n.

(** A file with unsynced versions [h] cannot be opened below [f], now or after a
    power loss. *)
Definition protects (f : Z) (h : list bytes) : Prop :=
  (∃ r, wf_record r ∧ f ≤ jr_next_free r ∧ h ≠ [] ∧ Forall (good r) h) ∨
  (∃ c, h = [c] ∧ safe f c).

(** What the disk may show once the key was used at the slots of [log]. *)
Definition covers (log : list (Z * bytes)) (o : option (list bytes)) : Prop :=
  log ≠ [] → ∃ h, o = Some h ∧ protects (frontier log) h.

Definition covered (w : world) : Prop := entries p (covers (w_signed w)) w.

(** Counter [c] is the one state the disk can show. *)
Record ready (c : AtomicSlotCounter) (w : world) : Prop := {
  rd_wf : wf_counter c;
  rd_entry : ∀ d, d ∈ w_dirs w → d !! p = Some (f_ino (state_file c));
  rd_holds : holds (f_ino (state_file c)) (counter_record c) w;
  rd_frontier : frontier (w_signed w) ≤ next c;
}.

Definition live (s : SignerNode) (w : world) : Prop :=
  ready (a_slot_counter s) w ∧ locked p (lock (a_slot_counter s)) w.

Record inv (st : sys) : Prop := {
  inv_world : wf_world p (s_world st);
  inv_covers : covered (s_world st);
  inv_log : decreasing (w_signed (s_world st));
  inv_procs : s_procs st = ∅ ∨
              ∃ pid s, s_procs st = {[pid := s]} ∧ live s (s_world st);
}.

(** Where an execution may start: no process, and either the key was never used
    or what is on disk already stands above every slot used so far. *)
Record initial (st : sys) : Prop := {
  in_procs : s_procs st = ∅;
  in_world : wf_world p (s_world st);
  in_log : decreasing (w_signed (s_world st));
  in_covers : covered (s_world st);
}.

(** ** What protects the frontier *)

Lemma good_safe f r c : wf_record r → f ≤ jr_next_free r → good r c → safe f c.
Proof.
  intros Hwf Hf [Hl Hr] n [(e & cur & Hrec & <-)|(s & b & Hn & _)]; [|done].
  pose proof (recovery_mono _ _ _ _ _ Hwf Hr Hrec). lia.
Qed.

Lemma protects_safe f c h : protects f (c :: h) → safe f c.
Proof.
  intros [(r & Hwf & Hf & _ & Hg)|(c' & [= -> ->] & Hs)]; [|done].
  inversion Hg; subst. by eapply good_safe.
Qed.

Lemma good_torn r h m : Forall (good r) h → torn h m → good r m.
Proof.
  intros Hg Ht. rewrite Forall_forall in Hg. split.
  - eapply torn_length; [done|]. intros c Hc. by apply Hg.
  - eapply torn_slice; [done|]. intros c Hc. by apply Hg.
Qed.

Lemma covers_tearable log : tearable (covers log).
Proof.
  intros h m Hc Ht Hne. destruct (Hc Hne) as (h' & [= <-] & Hp). exists [m]. split; [done|].
  destruct Hp as [(r & Hwf & Hf & Hn & Hg)|(c & -> & Hs)].
  - left. exists r. split_and!; [done..|]. constructor; [by eapply good_torn|constructor].
  - right. exists c. split; [|done]. f_equal. apply list_eq. intros k.
    destruct (Ht k) as (c' & ->%list_elem_of_singleton & ->). done.
Qed.

Lemma ready_covered c w : ready c w → covered w.
Proof.
  intros [Hwf He [Hn Hh] Hf] d Hd _. unfold shown. rewrite He by done. eexists. split; [done|].
  left. exists (counter_record c). split_and!; [apply Hwf|done..].
Qed.

Lemma stable_covered w0 w : stable p w0 (covers (w_signed w0)) w → covered w.
Proof. intros (_ & [E _] & He). unfold covered. by rewrite E. Qed.

(** The state the disk shows first. *)
Lemma covered_current w i :
  wf_world p w → covered w → cur_dir w !! p = Some i → versions w i ≠ [] →
  w_signed w ≠ [] → safe (frontier (w_signed w)) (content w i).
Proof.
  intros Hw Hc Hi Hn Hne. destruct (Hc _ (cur_in_dirs p w Hw) Hne) as (h & Hh & Hp).
  unfold shown in Hh. rewrite Hi in Hh. injection Hh as <-. unfold content.
  destruct (versions w i); [done|]. by eapply protects_safe.
Qed.

(** ** Installing a journal *)

(** The first record of a journal that starts at [n], and the file it is in. *)
Definition first_record (n : Z) : JournalRecord := mkJournalRecord 0 n (key_fingerprint key).
Definition image (n : Z) : bytes :=
  overwrite 0 (encode_record (first_record n)) (replicate JOURNAL_SIZE Byte.x00).

Lemma install_journal_eq n :
  install_journal p (key_fingerprint key) n = replace_file Io p (image n).
Proof. reflexivity. Qed.

Lemma length_key_fingerprint : length (key_fingerprint key) = 32%nat.
Proof. apply sha3_256_length. Qed.

Lemma good_image n : good (first_record n) (image n).
Proof.
  pose proof length_key_fingerprint as Hk. destruct journal_sizes as [Hs Hlt].
  assert (length (encode_record (first_record n)) = RECORD_SIZE) as Hl
    by by apply length_encode_record.
  unfold good, image. rewrite length_overwrite, length_replicate by (rewrite length_replicate; lia).
  split; [done|]. change (slot_of _) with 0%nat. unfold region.
  rewrite Nat.mul_0_l, <-Hl. apply slice_overwrite_same. rewrite length_replicate. lia.
Qed.

Lemma wf_first_record n : is_u64 n → wf_record (first_record n).
Proof. intros. split_and!; [done|done|apply length_key_fingerprint]. Qed.

(** The outcome of [create] and [open]. *)
Definition opened (w0 : world) (c : AtomicSlotCounter) (w : world) : Prop :=
  wf_world p w ∧ w_signed w = w_signed w0 ∧ ready c w ∧ locked p (lock c) w.

Lemma covers_image log n : is_u64 n → frontier log ≤ n → covers log (Some [image n]).
Proof.
  intros Hn Hf _. eexists. split; [done|]. left. exists (first_record n).
  split_and!; [by apply wf_first_record|done..|]. constructor; [apply good_image|constructor].
Qed.

Lemma install_ok l w0 n e :
  is_u64 n → is_u32 e → frontier (w_signed w0) ≤ n →
  triple (held p (Some l) w0 (covers (w_signed w0)))
    (f ← install_journal p (key_fingerprint key) n;
     mret (mkCounter f (key_fingerprint key) 0 n e l))
    (opened w0) (stable p w0 (covers (w_signed w0))).
Proof.
  intros Hn He Hf. rewrite install_journal_eq.
  eapply triple_bind; [eapply triple_fail;
    [apply replace_file_ok; by apply covers_image|apply held_stable]|].
  intros f. apply triple_ret. intros w [[(Hw & Hl & [Hs _] & _) [Hp Hv]] Hd].
  split_and!; [done..| |done]. split; simpl; [|done| |by rewrite Hs].
  - split; [|done]. by apply wf_first_record.
  - split; simpl; rewrite Hv; [done|]. constructor; [apply good_image|constructor].
Qed.

(** ** Creating and opening *)

Lemma triple_path_exists {E A} q (k : bool → io E A) P Q R :
  (∀ b, triple (λ w, P w ∧ w_stat_ok w && bool_decide (is_Some (cur_dir w !! q)) = b) (k b) Q R) →
  triple P (path_exists q ≫= k) Q R.
Proof. intros Hk w Hw. by apply (Hk _ w). Qed.

Lemma u32_u64 n : is_u32 n → is_u64 n.
Proof. unfold is_u64, is_u32, u64_max, u32_max. lia. Qed.

Lemma create_ok w0 slot_start slot_end :
  wf_world p w0 → covered w0 → w_stat_ok w0 = true → is_u32 slot_start → is_u32 slot_end →
  triple (sched w0) (create p key slot_start slot_end)
    (opened w0) (stable p w0 (covers (w_signed w0))).
Proof.
  intros Hw0 Hc0 Hstat Hs He. unfold create.
  eapply triple_bind; [eapply triple_fail; [by apply (lock_file_ok p Busy Io)|]|].
  { intros w. by apply ext_stable. }
  intros l. eapply triple_drop_lock; [|intros w; apply stable_unlock|done].
  apply triple_path_exists. intros [|].
  { apply triple_throw. intros w [[] _]. by apply ext_stable. }
  intros w [[Hx Hl] Hno]. rewrite (proj2 (ex_log _ _ _ Hx)), Hstat in Hno. simpl in Hno. boolify.
  apply (install_ok l w0 slot_start slot_end (u32_u64 _ Hs) He); [|by apply ext_held].
  unfold frontier. destruct (w_signed w0) as [|] eqn:E; [apply Hs|].
  destruct (ext_entries _ _ _ _ Hw0 Hx Hc0 _ (cur_in_dirs p w (ex_world _ _ _ Hx)))
    as (h & Hh & _); [by rewrite E|].
  unfold shown in Hh. destruct (cur_dir w !! p); [by destruct Hno|done].
Qed.

(** A settled file that recovers to [cur] is the one state the disk can show. *)
Lemma settled_ready w f l e cur :
  wf_world p w → covered w → settled w → cur_dir w !! p = Some (f_ino f) → is_u32 e →
  recover_journal (content w (f_ino f)) (key_fingerprint key) e = Ok cur →
  ready (mkCounter f (key_fingerprint key) (jr_generation cur) (jr_next_free cur) e l) w.
Proof.
  intros Hw Hc [Hd Hv] Hp He Hrec. pose proof Hrec as (Hl & Hat & Hk & _)%recover_journal_current.
  apply record_at_canonical in Hat as (Hreg & Hwf & _).
  assert (Hr : counter_record (mkCounter f (key_fingerprint key) (jr_generation cur)
    (jr_next_free cur) e l) = cur) by (destruct cur; unfold counter_record; simpl in *; congruence).
  assert (Hn : versions w (f_ino f) ≠ []).
  { intros Hn. unfold content in Hl. rewrite Hn in Hl. destruct journal_sizes as [Hs ?].
    simpl in Hl. lia. }
  split; [split; [by rewrite Hr|done]|..].
  - intros d Hin. by rewrite Hd.
  - rewrite Hr. split; [done|].
    eapply Forall_impl; [by apply Hv|]. intros c ->. by split.
  - simpl. destruct (decide (w_signed w = [])) as [->|Hne]; [apply Hwf|].
    eapply covered_current; [done..|]. left. by exists e, cur.
Qed.

(** A settled legacy file may be migrated at the number it names. *)
Lemma legacy_frontier w i s n b :
  wf_world p w → covered w → cur_dir w !! p = Some i →
  length (content w i) ≠ JOURNAL_SIZE → from_utf8 (content w i) = Some s →
  parse_legacy s (key_fingerprint key) = Ok (n, b) → frontier (w_signed w) ≤ n.
Proof.
  intros Hw Hc Hp Hlen Hutf Hparse.
  assert (versions w i ≠ []) as Hn.
  { intros Hn. unfold content in Hutf. rewrite Hn in Hutf. by injection Hutf as <-. }
  destruct (decide (w_signed w = [])) as [->|Hne]; [by eapply parse_legacy_u64|].
  eapply covered_current; [done..|]. right. by exists s, b.
Qed.

Lemma ext_settled w0 w : wf_world p w0 → ext p w0 w → settled w0 → settled w.
Proof.
  intros Hw0 Hx [Hd Hv]. split.
  - intros d (d0 & Hd0 & ->)%(ex_dirs _ _ _ Hx). rewrite (ex_cur _ _ _ Hx). by apply Hd.
  - intros i Hi. rewrite (ex_cur _ _ _ Hx) in Hi. specialize (Hv i Hi).
    assert (versions w i = versions w0 i) as E
      by (eapply ext_versions; eauto using cur_in_dirs).
    unfold content. rewrite E. exact Hv.
Qed.

Lemma open_ok w0 slot_end :
  wf_world p w0 → covered w0 → settled w0 → is_u32 slot_end →
  triple (sched w0) (open p key slot_end) (opened w0) (stable p w0 (covers (w_signed w0))).
Proof.
  intros Hw0 Hc0 Hset He. unfold open.
  eapply triple_bind; [eapply triple_fail; [by apply (lock_file_ok p Busy Io)|]|].
  { intros w. by apply ext_stable. }
  intros l. eapply triple_drop_lock; [|intros w; apply stable_unlock|done].
  set (P := λ w, held p (Some l) w0 (covers (w_signed w0)) w ∧ settled w).
  assert (HP : schedule_free P).
  { intros vs w [Hh Hs]. split; [by apply schedule_free_held|done]. }
  assert (HR : ∀ w, P w → stable p w0 (covers (w_signed w0)) w).
  { intros w [Hh _]. by eapply held_stable. }
  apply (triple_pre P).
  { intros w [Hx Hl]. split; [by apply ext_held|by eapply ext_settled]. }
  eapply triple_bind; [eapply triple_fail; [by apply triple_map_err, triple_open_rw|done]|].
  intros f. apply triple_pure. intros Hpos.
  eapply triple_bind; [eapply triple_fail; [apply triple_map_err, triple_read_to_end|]|].
  { intros vs w [? ?]. split; [done|]. by apply HP. } { by intros w [_ ?%HR]. }
  intros raw. rewrite Hpos. change (drop 0 ?c) with c.
  assert (Hcov : ∀ w, P w → covered w).
  { intros w [(_ & _ & [E _] & Hen) _]. unfold covered. by rewrite E. }
  destruct (length raw =? JOURNAL_SIZE)%nat eqn:Hlen.
  - apply triple_bind_lift; [|by intros w (_ & _ & ?%HR)].
    intros cur Hcur. apply triple_ret. intros w (-> & Hp & HPw). pose proof (Hcov w HPw).
    destruct HPw as [(Hw & Hl & [Hs _] & _) Hst].
    split_and!; [done..| |done]. by eapply settled_ready.
  - apply triple_bind_lift; [|by intros w (_ & _ & ?%HR)]. intros s Hs.
    apply triple_bind_lift; [|by intros w (_ & _ & ?%HR)]. intros [n b] Hparse.
    case_match; [apply triple_throw; by intros w (_ & _ & ?%HR)|].
    case_match; [apply triple_throw; by intros w (_ & _ & ?%HR)|].
    intros w (-> & Hp & HPw). apply Nat.eqb_neq in Hlen.
    destruct (from_utf8 _) eqn:Hutf; [|done]. injection Hs as ->.
    assert (Hfr := legacy_frontier w _ s n b (proj1 (proj1 HPw)) (Hcov w HPw) Hp Hlen Hutf Hparse).
    destruct HPw as [Hh _]. pose proof Hh as (_ & _ & [E _] & _). rewrite E in Hfr.
    apply (install_ok l w0 n slot_end); [by eapply parse_legacy_u64|done..].
Qed.

Lemma create_busy l w0 slot_start slot_end :
  locked p l w0 → triple (sched w0) (create p key slot_start slot_end) (λ _ _, False) (sched w0).
Proof.
  intros Hl. eapply triple_bind; [by apply (lock_file_busy p Busy Io l)|]. by intros ? w [].
Qed.

Lemma open_busy l w0 slot_end :
  locked p l w0 → triple (sched w0) (open p key slot_end) (λ _ _, False) (sched w0).
Proof.
  intros Hl. eapply triple_bind; [by apply (lock_file_busy p Busy Io l)|]. by intros ? w [].
Qed.

(** ** Every step keeps the invariant *)

Lemma live_sched s w0 w : live s w0 → sched w0 w → live s w.
Proof. intros [[] []] [vs ->]. by split; split. Qed.

Lemma live_locks_back s w0 w : live s w0 → sched w0 w → live s (with_locks (w_locks w0) w).
Proof. intros [[] []] [vs ->]. by split; split. Qed.

Lemma inv_sched w procs st :
  inv st → sched (s_world st) w → s_procs st = procs → inv (Sys w procs).
Proof.
  intros [Hw Hc Hlog Hp] [vs ->] <-. split; [by apply schedule_free_wf|done..|]. simpl.
  destruct Hp as [|(pid & s & -> & Hs)]; [by left|]. right. exists pid, s. split; [done|].
  eapply live_sched; [done|by exists vs].
Qed.

Lemma stable_inv w ls st :
  inv st → stable p (s_world st) (covers (w_signed (s_world st))) w →
  inv (Sys (with_locks ls w) ∅).
Proof.
  intros Hinv Hst. pose proof (stable_covered _ _ Hst) as Hc. destruct Hst as (Hw & [E _] & _).
  split; simpl; [by apply wf_locks|done|rewrite E; apply Hinv|by left].
Qed.

Lemma started_inv pid sk st m :
  inv st →
  triple (sched (s_world st)) m (opened (s_world st))
    (stable p (s_world st) (covers (w_signed (s_world st)))) →
  (∀ l, locked p l (s_world st) →
     triple (sched (s_world st)) m (λ _ _, False) (sched (s_world st))) →
  inv (started pid sk st (m (s_world st))).
Proof.
  intros Hinv Hok Hbusy. pose proof (sched_refl (s_world st)) as Hw.
  destruct (inv_procs _ Hinv) as [Hp|(pid' & s & Hp & Hs)].
  - specialize (Hok _ Hw). destruct (m (s_world st)) as [[c|e|] w]; simpl in *; rewrite Hp.
    + destruct Hok as (Hwf & Hlog & Hr & Hl).
      split; simpl; [done|by eapply ready_covered|rewrite Hlog; apply Hinv|].
      right. by exists pid, (mkSignerNode key sk c).
    + pose proof (stable_inv w (w_locks w) st Hinv Hok) as Hi. by destruct w.
    + by apply (stable_inv w _ st).
  - specialize (Hbusy (lock (a_slot_counter s)) (proj2 Hs) _ Hw).
    destruct (m (s_world st)) as [[c|e|] w]; [done|by eapply inv_sched|].
    destruct (inv_sched w _ st Hinv Hbusy eq_refl) as [Hwf Hc Hlog _].
    split; [by apply wf_locks|done..|]. simpl.
    right. exists pid', s. split; [done|]. by apply live_locks_back.
Qed.

(** A signing call of the live node, completed or cut short. *)
Lemma signed_step_inv s s' log w0 w :
  wf_world p w0 → decreasing (w_signed w0) → live s w0 → signed_step w0 s s' log w →
  wf_world p w ∧ decreasing (w_signed w) ∧ live s' w.
Proof.
  intros Hw0 Hlog [Hr [Hl Hin]] [Hd Hn Hlk _ Hnodes Hs Hst Hf Hlo _ Hm Hfr].
  pose proof (ww_entries _ _ Hw0) as He. pose proof (cur_in_dirs p w0 Hw0) as Hcur.
  assert (Ec : cur_dir w = cur_dir w0) by (unfold cur_dir; by rewrite Hd).
  split_and!.
  - destruct Hw0 as [? _ Hi Htmp Hct]. split; rewrite ?Hd, ?Hn, ?Ec; try done.
    intros i Hsome. destruct (decide (i = f_ino (state_file (a_slot_counter s)))) as [->|Hne].
    + eapply He, Hr; done.
    + apply Hi. by rewrite <-Hnodes.
  - rewrite Hs. destruct log as [|[slot m] [|]]; [done| |done].
    destruct Hfr as [Hge _]. pose proof (rd_frontier _ _ Hr) as Hfr. simpl.
    constructor; [done|]. unfold frontier in Hfr.
    destruct (w_signed w0) as [|[slot0 m0] log0]; [constructor|].
    inversion Hlog as [|?? _ Hall]; subst. constructor; simpl; [lia|].
    eapply Forall_impl; [exact Hall|]. simpl. lia.
  - split; [split|split].
    + apply Hst.
    + rewrite Hd, Hf. apply Hr.
    + apply Hst.
    + pose proof (rd_frontier _ _ Hr) as Hfr0. unfold frontier in *. rewrite Hs.
      destruct log as [|[slot m] [|]]; simpl; [|lia|done]. destruct (w_signed w0) as [|[] ?]; lia.
    + by rewrite Ec, Hlo.
    + by rewrite Hlo, Hlk.
Qed.

Lemma called_inv {A} pid (call : SignerNode → io Empty_set (A * SignerNode)) st :
  inv st →
  (∀ s, wf_counter (a_slot_counter s) →
     triple (λ w, w = s_world st ∧ counter_state s w) (call s)
       (λ '(_, s') w, ∃ log, signed_step (s_world st) s s' log w)
       (λ w, signed_step (s_world st) s s [] w)) →
  inv (called pid call st).
Proof.
  intros Hinv Hcall. unfold called.
  destruct (s_procs st !! pid) as [s|] eqn:Hpid; [|done].
  destruct (inv_procs _ Hinv) as [Hp|(pid' & s' & Hp & Hs)];
    rewrite Hp in Hpid; [by apply lookup_empty_Some in Hpid|].
  apply lookup_singleton_Some in Hpid as [<- ->].
  pose proof Hs as [[Hwf _ Hh _] _].
  specialize (Hcall s Hwf (s_world st) (conj eq_refl (conj Hwf Hh))).
  assert (Hstep : ∀ s' log w, signed_step (s_world st) s s' log w →
    wf_world p w ∧ decreasing (w_signed w) ∧ live s' w).
  { intros s1 log w. apply signed_step_inv; [apply Hinv|apply Hinv|done]. }
  destruct (call s (s_world st)) as [[[a s1]|[]|] w].
  - destruct Hcall as (log & (Hw & Hlog & Hl)%Hstep).
    split; [done|eapply ready_covered, Hl|done|].
    right. exists pid', s1. simpl. by rewrite Hp, insert_singleton_eq.
  - apply Hstep in Hcall as (Hw & Hlog & Hl%proj1%ready_covered).
    split; [by apply wf_locks|done|done|]. left. simpl. by rewrite Hp, delete_singleton_eq.
Qed.

Lemma drop_inv pid st : inv st → inv (sys_drop pid st).
Proof.
  intros Hinv. unfold sys_drop. destruct (s_procs st !! pid) as [s|] eqn:Hpid; [|done].
  destruct Hinv as [Hw Hc Hlog [Hp|(pid' & s' & Hp & _)]];
    rewrite Hp in Hpid; [by apply lookup_empty_Some in Hpid|].
  apply lookup_singleton_Some in Hpid as [<- ->].
  split; [by apply wf_locks|done|done|]. left. simpl. by rewrite Hp, delete_singleton_eq.
Qed.

Lemma holds_written_back i r w : holds i r w → holds i r (written_back w).
Proof.
  unfold holds. rewrite versions_written_back. intros [Hn Hf]. split.
  - by destruct (versions w i).
  - by apply Forall_take.
Qed.

Lemma writeback_inv st : inv st → inv (Sys (written_back (s_world st)) (s_procs st)).
Proof.
  intros [Hw Hc Hlog Hp]. pose proof (cur_in_dirs _ _ Hw) as Hcur. split; simpl.
  - by apply wf_written_back.
  - apply entries_written_back; [done|apply covers_tearable|done].
  - done.
  - destruct Hp as [|(pid & s & Hp & [[Hwf He Hh Hf] Hl])]; [by left|]. right. exists pid, s.
    split; [done|]. split; [split|exact Hl].
    + done.
    + intros d ->%list_elem_of_singleton. by apply He.
    + by apply holds_written_back.
    + exact Hf.
Qed.

Lemma power_loss_inv st w : inv st → power_loss (s_world st) w → inv (Sys w ∅).
Proof.
  intros [Hw Hc Hlog _] Hpl. split; simpl; [by eapply wf_power_loss| | |by left].
  - unfold covered. rewrite (pl_signed _ _ Hpl).
    eapply entries_power_loss; [apply covers_tearable|done..].
  - by rewrite (pl_signed _ _ Hpl).
Qed.

Lemma step_inv st st' : inv st → guarded_step st st' → inv st'.
Proof.
  intros Hinv Hstep. pose proof Hinv as [Hw Hc Hlog Hp]. destruct Hstep.
  - eapply inv_sched; [done|by eexists|done].
  - split; [by destruct Hw|done|done|].
    destruct Hp as [|(pid & s & ? & [[] []])]; [by left|]. right. exists pid, s. by split_and!.
  - apply (started_inv pid sk st (create p key slot_start slot_end)); [done| |].
    + apply create_ok; auto.
    + intros l. by apply create_busy.
  - apply (started_inv pid sk st (open p key slot_end)); [done| |].
    + apply open_ok; auto.
    + intros l. by apply open_busy.
  - apply called_inv; [done|]. intros s Hs.
    eapply triple_weaken; [by apply (sign_step (s_world st))|done| |done].
    intros [r s'] w (log & ? & _). by exists log.
  - apply called_inv; [done|]. intros s Hs.
    eapply triple_weaken; [by apply (sign_at_step (s_world st))|done| |done].
    intros [r s'] w (log & ? & _). by exists log.
  - by apply drop_inv.
  - by apply writeback_inv.
  - by eapply power_loss_inv.
Qed.

Lemma reachable_inv st0 st : initial st0 → rtc guarded_step st0 st → inv st.
Proof.
  intros [Hp Hw Hlog Hc] Hrtc.
  assert (inv st0) as Hinv by (split; [done..|by left]).
  clear Hp Hw Hlog Hc. induction Hrtc; [done|]. eauto using step_inv.
Qed.

(** C1 No slot is ever used twice, under two guards: every [create] runs where
    the metadata of the state file can be read, and every [open] on a state file
    with nothing waiting to be written back.  In every execution that keeps them,
    of processes that create, open, sign, are dropped or killed in the middle of a
    call, with any failure of any call, cache write-backs and power losses that
    tear the files, the slots the key was applied to are strictly increasing in
    time.  The code enforces neither guard, and without either one slots are used
    twice ([guards_needed]). *)
Theorem no_slot_reuse st0 st :
  initial st0 → rtc guarded_step st0 st →
  decreasing (w_signed (s_world st)) ∧ NoDup (fst <$> w_signed (s_world st)).
Proof.
  intros Hi Hrtc. pose proof (inv_log _ (reachable_inv _ _ Hi Hrtc)) as Hlog.
  split; [done|]. clear -Hlog. induction Hlog as [|a l _ IH Ha]; [constructor|].
  constructor; [|done]. intros (b & E & Hb)%list_elem_of_fmap. rewrite Forall_forall in Ha.
  specialize (Ha b Hb). lia.
Qed.

(** C8 One holder: in every execution under the two guards of [guarded_step],
    that [create] runs where the metadata of the state file can be read and [open]
    on a state file with nothing waiting to be written back, at most one process
    runs with the key at any moment, and then its counter is the only state the
    disk can show, now or after a power loss. *)
Theorem one_holder st0 st pid pid' s s' :
  initial st0 → rtc guarded_step st0 st →
  s_procs st !! pid = Some s → s_procs st !! pid' = Some s' →
  pid = pid' ∧ s = s' ∧ ready (a_slot_counter s) (s_world st).
Proof.
  intros Hi Hrtc H1 H2. destruct (inv_procs _ (reachable_inv _ _ Hi Hrtc))
    as [Hp|(q & s0 & Hp & Hr & _)]; rewrite Hp in H1, H2; [by apply lookup_empty_Some in H1|].
  apply lookup_singleton_Some in H1 as [<- <-], H2 as [<- <-]. done.
Qed.
End system.

(** ** Concrete executions *)

#[local] Existing Instance toy_hashes.
#[local] Existing Instance toy_xmss.

Definition toy_sys : sys := Sys blank_world ∅.
Definition toy_message : bytes := ascii_bytes (str "status list").

Lemma toy_initial : initial toy_path Byte.x07 toy_sys.
Proof. split; [done|apply wf_blank|apply SSorted_nil|by intros d _ []]. Qed.

Definition go_create (st : sys) : sys := sys_create toy_path Byte.x07 1 Byte.x07 10 20 st.
Definition go_open (st : sys) : sys := sys_open toy_path Byte.x07 2 Byte.x07 20 st.
Definition go_verdicts (vs : list verdict) (st : sys) : sys :=
  Sys (with_verdicts vs (s_world st)) (s_procs st).
Definition go_stat (b : bool) (st : sys) : sys := Sys (with_stat b (s_world st)) (s_procs st).

(** Power loss: directory version [dv] survives, and of every file the first
    [off] bytes of its oldest version and the rest of its newest. *)
Definition go_power (dv off : nat) (st : sys) : sys := Sys (reboot dv off (s_world st)) ∅.

Definition slots (st : sys) : list Z := reverse (fst <$> w_signed (s_world st)).

(** Follow an execution written with the functions above, last step first. *)
Ltac by_eval := vm_compute; reflexivity.
Ltac run :=
  match goal with
  | |- rtc _ _ toy_sys => apply rtc_refl
  | |- rtc _ _ (sys_sign _ _ ?st) => apply (rtc_r _ st); [run|apply step_sign]
  | |- rtc _ _ (sys_sign_at _ _ _ ?st) => apply (rtc_r _ st); [run|apply step_sign_at]
  | |- rtc _ _ (sys_drop _ ?st) => apply (rtc_r _ st); [run|apply step_drop]
  | |- rtc _ _ (go_verdicts _ ?st) => apply (rtc_r _ st); [run|apply step_schedule]
  | |- rtc _ _ (go_stat _ ?st) => apply (rtc_r _ st); [run|apply step_stat]
  | |- rtc _ _ (go_power _ _ ?st) =>
      apply (rtc_r _ st); [run|apply step_power_loss, power_loss_reboot; by_eval]
  | |- rtc _ _ (go_create ?st) =>
      apply (rtc_r _ st); [run|apply step_create; [by_eval|done|done|intros H; try (destruct H; fail); by_eval]]
  | |- rtc _ _ (go_open ?st) =>
      apply (rtc_r _ st); [run|apply step_open; [by_eval|done|
        intros H; try (destruct H; fail); apply (bool_decide_eq_true_1 (settled _ _)); by_eval]]
  end.

(** Create, sign, be killed 40 bytes into the next record write, lose power,
    start again, sign twice more. *)
Definition run_crash : sys :=
  sys_sign_at 2 toy_message 14 (sys_sign 2 toy_message (go_open (go_power 0 0
    (sys_sign 1 toy_message (go_verdicts [Proceed; Kill 40]
      (sys_sign 1 toy_message (go_create toy_sys))))))).

Example run_crash_slots : slots run_crash = [10; 11; 14].
Proof. vm_compute. reflexivity. Qed.


Lemma no_slot_reuse_witness :
  ∃ st, slots st = [10; 11; 14] ∧ decreasing (w_signed (s_world st)) ∧
        NoDup (fst <$> w_signed (s_world st)).
Proof.
  exists run_crash. split; [vm_compute; reflexivity|].
  apply (@no_slot_reuse toy_hashes toy_xmss toy_path Byte.x07 toy_sys); [apply toy_initial|].
  unfold run_crash. run.
Defined.

Definition run_restart : sys :=
  sys_sign 2 toy_message (go_open (sys_drop 1 (sys_sign 1 toy_message (go_create toy_sys)))).

Definition holds (pid : nat) (st : sys) : bool :=
  match s_procs st !! pid with Some _ => true | None => false end.

Lemma one_holder_witness :
  holds 2 run_restart = true ∧
  (∀ s s', s_procs run_restart !! 2%nat = Some s → s_procs run_restart !! 2%nat = Some s' →
           (2 = 2)%nat ∧ s = s' ∧ ready toy_path (a_slot_counter s) (s_world run_restart)).
Proof.
  split; [vm_compute; reflexivity|]. intros s s' E E'.
  apply (fun H => @one_holder toy_hashes toy_xmss toy_path Byte.x07 toy_sys run_restart
           2%nat 2%nat s s' toy_initial H E E').
  clear. unfold run_restart. run.
Defined.

(** *** What the two guards of the theorem are for *)

(** [create] where [stat] does not answer: [Path::exists] says [false] and the
    live counter is replaced by a fresh one. *)
Definition run_stat : sys :=
  sys_sign 1 toy_message (go_create (go_stat false (sys_drop 1
    (sys_sign 1 toy_message (go_create toy_sys))))).

(** A process dies in the sync of its second record; the next one trusts the
    record it reads from the cache, does not sync it, and dies in the write of a
    third; the power loss leaves only the initial record. *)
Definition run_cached : sys :=
  sys_sign 2 toy_message (go_open (go_power 0 4096
    (sys_sign 2 toy_message (go_verdicts [Proceed; Kill 9]
      (go_open (sys_sign 1 toy_message (go_verdicts [Proceed; Proceed; Kill 0]
        (sys_sign 1 toy_message (go_create toy_sys))))))))).

(** A process dies in [create] after the rename and before the directory sync;
    the next one opens the journal and signs; the power loss undoes the rename. *)
Definition run_renamed : sys :=
  sys_sign 1 toy_message (go_create (go_power 1 0 (sys_sign 2 toy_message (go_open
    (go_create (go_verdicts (replicate 7 Proceed ++ [Kill 0]) toy_sys)))))).

(** C29 Both guards of [guarded_step] are needed: [create] run where the state
    file's metadata cannot be read resets a live counter, and [open] run on a
    state that is still in the operating system's caches hands out again, after
    a power loss, a slot that was used; also when only the directory entry of
    the file was cached. *)
Theorem guards_needed :
  (rtc (step toy_path Byte.x07 False True) toy_sys run_stat ∧ slots run_stat = [10; 10]) ∧
  (rtc (step toy_path Byte.x07 True False) toy_sys run_cached ∧ slots run_cached = [10; 10]) ∧
  (rtc (step toy_path Byte.x07 True False) toy_sys run_renamed ∧ slots run_renamed = [10; 10]).
Proof.
  split; [|split]; (split; [|by_eval]).
  - unfold run_stat. run.
  - unfold run_cached. run.
  - unfold run_renamed. run.
Qed.
