(* ===== verification/SlotRuns.v ===== *)
(** * Slot counters and signer nodes when no call fails

    In a world whose operating system completes every call, [create] over a
    fresh path makes the counter it describes and touches no other file, and
    [sign_at] at a slot of the node's window that is not spent yet returns a
    signature.  With these a process that keeps many nodes in one directory runs
    to its end. *)
From S2P Require Import Prelude Fs External Atomic SlotCounter Signer SlotSystem.

Open Scope Z_scope.

(** ** One call that completes *)

Lemma run_bind {E A B} (m : io E A) (k : A → io E B) a w w' :
  m w = (Done a, w') → (m ≫= k) w = k a w'.
Proof. intros H. unfold mbind, io_bind. by rewrite H. Qed.

Lemma run_map_err {E F A} (f : E → F) (m : io E A) a w w' :
  m w = (Done a, w') → io_map_err f m w = (Done a, w').
Proof. intros H. unfold io_map_err. by rewrite H. Qed.

Lemma run_syscall {E A} (inj : io_error → E) partial (op : world → result A E * world) a w w' :
  w_verdicts w = [] → op w = (Ok a, w') → syscall inj partial op w = (Done a, w').
Proof. intros Hq H. unfold syscall. by rewrite Hq, H. Qed.

Lemma run_write f b w :
  w_verdicts w = [] →
  write_all f b w = (Done (File (f_ino f) (f_pos f + length b)),
    push_node (f_ino f) (write_at (f_pos f) b (content w (f_ino f))) w).
Proof. intros Hq. apply run_syscall; [done|]. by rewrite firstn_all. Qed.

Lemma run_rename p q i w :
  w_verdicts w = [] → cur_dir w !! p = Some i →
  rename p q w = (Done tt, push_dir (<[q := i]> (delete p (cur_dir w))) w).
Proof. intros Hq Hp. apply run_syscall; [done|]. by rewrite Hp. Qed.

(** [?] on a call that completes. *)
Ltac run_call lem := erewrite run_bind by (apply run_map_err; lem); cbv beta.

(** The name is gone, whatever was under it. *)
Lemma remove_file_run p w :
  w_verdicts w = [] →
  ∃ r w', (∀ F B (k : result unit io_error → io F B), io_catch (remove_file p) k w = k r w') ∧
    w_verdicts w' = [] ∧ cur_dir w' = delete p (cur_dir w) ∧ w_next w' = w_next w ∧ w_locks w' = w_locks w ∧
    w_signed w' = w_signed w ∧ w_nodes w' = w_nodes w.
Proof.
  intros Hq. destruct (cur_dir w !! p) as [i|] eqn:E.
  - exists (Ok tt), (push_dir (delete p (cur_dir w)) w). split; [|done]. intros F B k.
    unfold io_catch, remove_file, syscall. by rewrite Hq, E.
  - exists (Err NotFound), w. split.
    + intros F B k. unfold io_catch, remove_file, syscall. by rewrite Hq, E.
    + split_and!; try done. by rewrite delete_id.
Qed.

(** From [w] to [w'] the file [p] was replaced through a fresh temporary file: one
    version of the directory is left. *)
Record replaced (p : path) (b : bytes) (w w' : world) : Prop := {
  rp_calls : w_verdicts w' = [];
  rp_dirs : w_dirs w' = [<[p := w_next w]> (delete (sibling p "tmp") (cur_dir w))];
  rp_next : w_next w' = S (w_next w);
  rp_locks : w_locks w' = w_locks w;
  rp_signed : w_signed w' = w_signed w;
  rp_new : w_nodes w' !! w_next w = Some [b];
  rp_old : ∀ i, i ≠ w_next w → w_nodes w' !! i = w_nodes w !! i;
}.

Lemma replace_run {E} (inj : io_error → E) p b w :
  w_verdicts w = [] → cur_dir w !! sibling p "tmp" = None →
  ∃ w', replace_file inj p b w = (Done (File (w_next w) (length b)), w') ∧ replaced p b w w'.
Proof.
  intros Hq Ht. unfold replace_file. set (t := w_next w). set (w1 := snd (alloc_file (sibling p "tmp") w)).
  assert (Ho : open_truncate (sibling p "tmp") w = (Done (File t 0), w1))
    by (apply run_syscall; [done|by rewrite Ht]).
  run_call ltac:(exact Ho). run_call ltac:(by apply run_write). cbn [f_ino f_pos].
  set (w2 := push_node t _ w1).
  assert (Hs : sync_file (File t (0 + length b)) w2 =
    (Done tt, with_nodes (<[t := [content w2 t]]> (w_nodes w2)) w2)) by by apply run_syscall.
  run_call ltac:(exact Hs). set (w3 := with_nodes _ w2).
  assert (Hc3 : cur_dir w3 = <[sibling p "tmp" := t]> (cur_dir w)) by done.
  run_call ltac:(apply run_rename; [done|rewrite Hc3; apply lookup_insert_eq]).
  run_call ltac:(by apply run_syscall). run_call ltac:(by apply run_syscall).
  eexists _. split; [done|]. split; try done.
  - rewrite Hc3. simpl. unfold cur_dir at 1. simpl. by rewrite delete_insert_eq.
  - simpl. rewrite lookup_insert_eq. do 2 f_equal. unfold w2. rewrite content_push.
    unfold w1, alloc_file, write_at. simpl. unfold content, versions. simpl. rewrite lookup_insert_eq. simpl.
    rewrite drop_nil. apply app_nil_r.
  - intros i Hi. simpl. by rewrite !lookup_insert_ne.
Qed.

Lemma replaced_dir p b w w' : replaced p b w w' → cur_dir w' = <[p := w_next w]> (delete (sibling p "tmp") (cur_dir w)).
Proof. intros H. unfold cur_dir at 1. by rewrite (rp_dirs _ _ _ _ H). Qed.

(** The lock is a fresh file. *)
Lemma lock_run {E} (busy : E) inj p w :
  w_verdicts w = [] → w_next w ∉ w_locks w → cur_dir w !! sibling p "lock" = None →
  lock_file busy inj p w = (Done (File (w_next w) 0),
    with_locks ({[w_next w]} ∪ w_locks w) (snd (alloc_file (sibling p "lock") w))).
Proof.
  intros Hq Hn Hl. unfold lock_file, mbind, io_bind, io_map_err, open_create, syscall. rewrite Hq, Hl.
  simpl. unfold try_lock, syscall. simpl. rewrite Hq. by rewrite bool_decide_eq_false_2.
Qed.

(** A replacement in another directory leaves the file, its lock and its temporary
    file as they were. *)
Lemma replaced_frame p q b w w' Ψ :
  replaced q b w w' → p.1 ≠ q.1 → wf_world p w → entries p Ψ w →
  wf_world p w' ∧ entries p Ψ w' ∧ ∀ x, x.1 = p.1 → cur_dir w' !! x = cur_dir w !! x.
Proof.
  intros Hr Hne Hw He. pose proof (replaced_dir _ _ _ _ Hr) as Hc. destruct Hr as [_ Hds Hnx _ _ _ Hold].
  pose proof (cur_in_dirs p w Hw) as Hcur. destruct Hw as [_ Hen Hno Htmp Hct].
  assert (Hsame : ∀ x, x.1 = p.1 → cur_dir w' !! x = cur_dir w !! x).
  { intros x Hx. rewrite Hc, lookup_insert_ne, lookup_delete_ne; [done|..]; intros <-; by apply Hne. }
  assert (Hd : ∀ d, d ∈ w_dirs w' → d = cur_dir w').
  { intros d. rewrite Hds, Hc. by intros ->%list_elem_of_singleton. }
  split_and!; [split|..|done].
  - by rewrite Hds.
  - intros d x i ->%Hd. rewrite Hc, Hnx. intros [[_ <-]|[_ [_ Hi]%lookup_delete_Some]]%lookup_insert_Some; [lia|].
    specialize (Hen _ _ _ Hcur Hi). lia.
  - intros i. rewrite Hnx. destruct (decide (i = w_next w)) as [->|Hi]; [lia|]. rewrite Hold by done.
    intros H%Hno. lia.
  - intros d i ->%Hd. rewrite !Hsame by done. by apply Htmp.
  - intros d i ->%Hd. rewrite !Hsame by done. by apply Hct.
  - intros d ->%Hd. unfold shown. rewrite Hsame by done. specialize (He _ Hcur). unfold shown in He.
    destruct (cur_dir w !! p) as [i|] eqn:Ei; [|done]. simpl in *. unfold versions. rewrite Hold; [done|].
    specialize (Hen _ _ _ Hcur Ei). lia.
Qed.

Section slot_runs.
Context `{HH : Hashes} `{XX : Xmss}.

(** ** Creating a counter *)

(** From [w] to [w'] the file [p] and its lock appeared, with the two next inodes. *)
Record installed (p : path) (w w' : world) (c : AtomicSlotCounter) (pk : XmssPublicKey)
    (slot_start slot_end : Z) : Prop := {
  is_calls : w_verdicts w' = [];
  is_counter : key_tag c = key_fingerprint pk ∧ generation c = 0 ∧ next c = slot_start ∧ end_ c = slot_end;
  is_file : f_ino (state_file c) = S (w_next w) ∧ f_ino (lock c) = w_next w;
  is_next : w_next w' = S (S (w_next w));
  is_locks : w_locks w' = {[w_next w]} ∪ w_locks w;
  is_signed : w_signed w' = w_signed w;
  is_old : ∀ i, (i < w_next w)%nat → w_nodes w' !! i = w_nodes w !! i;
  is_dir : ∀ q, q ≠ p → q ≠ sibling p "lock" → q ≠ sibling p "tmp" → cur_dir w' !! q = cur_dir w !! q;
  is_tmp : cur_dir w' !! sibling p "tmp" = None;
  is_holds : SlotCounter.holds (S (w_next w)) (first_record pk slot_start) w';
}.

(** The journal is written to a fresh temporary file and renamed. *)
Lemma install_run p key_tag next_free w :
  let t := w_next w in
  let image := overwrite 0 (encode_record (mkJournalRecord 0 next_free key_tag))
                 (replicate JOURNAL_SIZE Byte.x00) in
  w_verdicts w = [] → cur_dir w !! sibling p "tmp" = None →
  ∃ f w', install_journal p key_tag next_free w = (Done f, w') ∧ f_ino f = t ∧
    w_verdicts w' = [] ∧ w_next w' = S t ∧ w_locks w' = w_locks w ∧ w_signed w' = w_signed w ∧
    w_dirs w' = [<[p := t]> (delete (sibling p "tmp") (cur_dir w))] ∧ versions w' t = [image] ∧
    ∀ i, i ≠ t → w_nodes w' !! i = w_nodes w !! i.
Proof.
  intros t image Hq Ht. change (install_journal p key_tag next_free) with (replace_file Io p image).
  destruct (replace_run Io p image w Hq Ht) as (w' & E & Hr).
  destruct Hr as [? ? ? ? ? Hnew ?]. eexists _, w'. split; [exact E|]. split_and!; try done.
  unfold versions, t. by rewrite Hnew.
Qed.

Lemma create_run_dir p pk slot_start slot_end w :
  w_verdicts w = [] → w_next w ∉ w_locks w → cur_dir w !! p = None →
  cur_dir w !! sibling p "lock" = None → cur_dir w !! sibling p "tmp" = None →
  ∃ c w', create p pk slot_start slot_end w = (Done c, w') ∧ installed p w w' c pk slot_start slot_end ∧
    w_dirs w' = [<[p := S (w_next w)]> (delete (sibling p "tmp") (<[sibling p "lock" := w_next w]> (cur_dir w)))] ∧
    (∀ i, is_Some (w_nodes w' !! i) → is_Some (w_nodes w !! i) ∨ (i < w_next w')%nat).
Proof.
  intros Hq Hn Hp Hl Ht. pose proof (sibling_ne p "lock") as Hpl. pose proof (sibling_ne p "tmp") as Hpt.
  assert (Hlt : sibling p "lock" ≠ sibling p "tmp") by (by intros ?%sibling_suffix_inj).
  assert (Hi : good (first_record pk slot_start) (image pk slot_start)) by apply good_image.
  unfold create, mbind, io_bind. change (acquire_lock p) with (lock_file Busy Io p). rewrite lock_run by done.
  set (w1 := with_locks _ _).
  assert (Hc1 : cur_dir w1 = <[sibling p "lock" := w_next w]> (cur_dir w)) by done.
  unfold drop_lock_on_err, path_exists. rewrite Hc1, lookup_insert_ne, Hp by done. rewrite andb_false_r.
  destruct (install_run p (key_fingerprint pk) slot_start w1) as
    (f & w' & -> & Hf & Hq' & Hnx & Hlk & Hsg & Hds & Hv & Hold); [done|by rewrite Hc1, lookup_insert_ne|].
  eexists _, w'. split; [done|]. rewrite Hc1 in Hds. split; [|split; [exact Hds|]].
  2:{ intros i Hsome. rewrite Hnx. simpl. destruct (decide (i = S (w_next w))) as [->|]; [right; lia|].
    rewrite Hold in Hsome by done. simpl in Hsome. destruct (decide (i = w_next w)) as [->|]; [right; lia|].
    rewrite lookup_insert_ne in Hsome by done. by left. }
  assert (Hd : cur_dir w' = <[p := S (w_next w)]> (delete (sibling p "tmp") (<[sibling p "lock" := w_next w]> (cur_dir w))))
    by (unfold cur_dir at 1; by rewrite Hds).
  split; simpl; try done.
  - intros i Hlt'. rewrite Hold by (simpl; lia). simpl. apply lookup_insert_ne. lia.
  - intros q H1 H2 H3. by rewrite Hd, lookup_insert_ne, lookup_delete_ne, lookup_insert_ne.
  - by rewrite Hd, lookup_insert_ne, lookup_delete_eq.
  - change (w_next w1) with (S (w_next w)) in Hv. split; rewrite Hv; [done|]. by constructor.
Qed.

Lemma create_run p pk slot_start slot_end w :
  w_verdicts w = [] → w_next w ∉ w_locks w → cur_dir w !! p = None →
  cur_dir w !! sibling p "lock" = None → cur_dir w !! sibling p "tmp" = None →
  ∃ c w', create p pk slot_start slot_end w = (Done c, w') ∧ installed p w w' c pk slot_start slot_end.
Proof.
  intros. destruct (create_run_dir p pk slot_start slot_end w) as (c & w' & E & Hi & _); [done..|].
  by exists c, w'.
Qed.

(** ** Signing *)

Lemma persist_next_run c next_free w :
  w_verdicts w = [] → generation c + 1 ≤ u64_max →
  ∃ f w', persist_next c next_free w =
      (Done (mkCounter f (key_tag c) (generation c + 1) (next c) (end_ c) (lock c)), w') ∧
    w_verdicts w' = [] ∧ w_entropy w' = w_entropy w.
Proof.
  intros Hq Hg. unfold persist_next, checked_add_u64. rewrite (proj2 (Z.leb_le _ _)) by done.
  cbn [ok_or]. rewrite lift_Ok. cbv beta.
  erewrite run_bind by (by apply run_map_err, run_syscall). cbv beta.
  run_call ltac:(by apply run_write). run_call ltac:(by apply run_syscall). by eexists _, _.
Qed.

(** A node whose key signs at every slot of its window. *)
Definition signs_at (s : SignerNode) (slot : Z) : Prop :=
  ∀ rng m, ∃ sig, xmss_sign rng (sk s) m slot = Ok sig ∧ xmss_verify (pk s) m sig slot = true.

(** What a signing call returns and leaves, the timings apart. *)
Record signed_run (s : SignerNode) (message : bytes) (slot : Z) (w : world) (sig : XmssSignature)
    (s' : SignerNode) (w' : world) : Prop := {
  sr_made : ∃ rng, xmss_sign rng (sk s) message slot = Ok sig;
  sr_verifies : xmss_verify (pk s) message sig slot = true;
  sr_calls : w_verdicts w' = [];
  sr_step : signed_step w s s' [(slot, message)] w';
  sr_keys : pk s' = pk s ∧ sk s' = sk s;
  sr_counter : next (a_slot_counter s') = slot + 1 ∧ end_ (a_slot_counter s') = end_ (a_slot_counter s) ∧
    generation (a_slot_counter s') = generation (a_slot_counter s) + 1;
}.

(** Reading the clock, or not. *)
Definition ticked (tick : bool) (w : world) : world :=
  if tick then with_entropy (S (w_entropy w)) w else w.

Lemma instant_run b w : ∃ t, instant b w = (Done t, ticked b w) ∧ (is_Some t ↔ b = true).
Proof. destruct b; eexists; (split; [done|]); split; (done || by intros []). Qed.

Lemma elapsed_run t w b : (is_Some t ↔ b = true) →
  ∃ d, elapsed t w = (Done d, ticked b w) ∧ (is_Some d ↔ b = true).
Proof.
  intros H. destruct t as [t|], b; try (by destruct H as [H1 H2]; (discriminate H1 || by destruct (H2 eq_refl)));
    eexists; (split; [done|]); split; (done || by intros []).
Qed.

Lemma sign_at_inner_run s message slot measure w :
  w_verdicts w = [] → counter_state s w → signs_at s slot →
  next (a_slot_counter s) ≤ slot ≤ end_ (a_slot_counter s) →
  generation (a_slot_counter s) + 1 ≤ u64_max →
  ∃ sig timings s' w', sign_at_inner s message slot measure w = (Done (Ok (sig, timings), s'), w') ∧
    (is_Some timings ↔ measure = true) ∧ signed_run s message slot w sig s' w'.
Proof.
  intros Hq Hst Hsig Hn Hg. set (c := a_slot_counter s).
  set (w0 := ticked measure w). destruct (instant_run measure w) as (t0 & E0 & H0). fold w0 in E0.
  assert (Hq0 : w_verdicts w0 = []) by by destruct measure.
  destruct (persist_next_run c (slot + 1) w0 Hq0 Hg) as (f & w1 & Hp & Hq1 & _).
  set (c' := with_next_slot (mkCounter f (key_tag c) (generation c + 1) (next c) (end_ c) (lock c)) (slot + 1)).
  assert (E : ∃ sig timings w', sign_at_inner s message slot measure w =
      (Done (Ok (sig, timings), with_counter s c'), w') ∧ (is_Some timings ↔ measure = true) ∧
      w_verdicts w' = [] ∧ ∃ rng, xmss_sign rng (sk s) message slot = Ok sig).
  { pose proof (proj2 (proj2 (reserve_at_cases c slot w0)) Hn) as Hr.
    unfold mbind, io_bind in Hr. rewrite Hp in Hr.
    change (reserve_at c slot w0 = (Done (slot, c'), w1)) in Hr.
    destruct (elapsed_run t0 w1 measure H0) as (d1 & E1 & H1).
    destruct (instant_run measure (ticked measure w1)) as (t2 & E2 & H2). set (w2 := ticked measure (ticked measure w1)) in E2.
    destruct (Hsig (w_entropy w2) message) as (sig & Hs & _).
    set (w3 := with_signed ((slot, message) :: w_signed w2) (with_entropy (S (w_entropy w2)) w2)).
    destruct (elapsed_run t2 w3 measure H2) as (d3 & E3 & H3).
    exists sig, (match d1, d3 with Some reserve, Some crypto => Some (mkSignAtTimings reserve crypto) | _, _ => None end),
      (ticked measure w3). split_and!.
    - unfold sign_at_inner. erewrite run_bind by exact E0. cbv beta. unfold io_catch. fold c. rewrite Hr.
      cbv beta iota zeta. erewrite run_bind by exact E1. cbv beta. erewrite run_bind by exact E2. cbv beta.
      unfold leanvm_sign. change (sk (with_counter s c')) with (sk s).
      unfold mbind at 1, io_bind at 1. fold w3. rewrite Hs. by erewrite run_bind by exact E3.
    - destruct d1, d3, measure; naive_solver.
    - by destruct measure.
    - by eexists. }
  destruct E as (sig & timings & w' & E & Ht & Hq' & rng & Hmade).
  exists sig, timings, (with_counter s c'), w'. split; [done|]. split; [done|].
  destruct (Hsig rng message) as (sig' & Hs' & Hv). rewrite Hs' in Hmade. injection Hmade as ->.
  pose proof (sign_at_inner_step w s message slot measure (proj1 Hst) w (conj eq_refl Hst)) as H.
  rewrite E in H. destruct H as (log & Hstep & -> & _). split; try done. by exists rng.
Qed.

Lemma sign_at_run s message slot w :
  w_verdicts w = [] → counter_state s w → signs_at s slot →
  next (a_slot_counter s) ≤ slot ≤ end_ (a_slot_counter s) →
  generation (a_slot_counter s) + 1 ≤ u64_max →
  ∃ sig s' w', sign_at s message slot w = (Done (Ok sig, s'), w') ∧ signed_run s message slot w sig s' w'.
Proof.
  intros Hq Hst Hsig Hn Hg.
  destruct (sign_at_inner_run s message slot false w) as (sig & timings & s' & w' & E & _ & H); [done..|].
  exists sig, s', w'. split; [|done]. unfold sign_at. by erewrite run_bind by exact E.
Qed.
End slot_runs.
