(* ===== verification/Freshness.v ===== *)
(** * The verifier's anti-rollback state (src/state/freshness.rs)

    [HighWaterMark]: the highest version accepted under one anchor, kept in a
    locked, atomically replaced text file. *)
From S2P Require Import Prelude Fs External Instances Atomic.

Open Scope Z_scope.

Section freshness.
Context `{HH : Hashes}.

(** ** Data *)

(** [Decision::Accepted] and [Decision::Stale]. *)
Inductive GateDecision := Accepted | Stale (high_water : Z).

Inductive HighWaterMarkError :=
| HState (m : string)
| HBusy
| HIo (e : io_error).

(** [Display]. *)
Definition display_mark_error `{OsText} (e : HighWaterMarkError) : string :=
  match e with
  | HState m => "unusable high-water mark: " +:+ m
  | HBusy => "another process holds this high-water mark"
  | HIo e => "high-water mark I/O failed: " +:+ os_text e
  end.

Record HighWaterMark := mkHighWaterMark {
  hw_path : path;
  hw_fingerprint : rstr;
  hw_current : Z;
  hw_have : bool;
  hw_lock : file;
}.

(** [current()]. *)
Definition current (m : HighWaterMark) : option Z :=
  if hw_have m then Some (hw_current m) else None.

Definition fingerprint (anchor : bytes) : rstr := hex (sha3_256 anchor).

Definition parse (s : rstr) (fingerprint : rstr) : result (Z * bool) string :=
  match split_whitespace s with
  | [] => Err "empty state file"%string
  | [_] => Err "missing freshness value"%string
  | fp :: value :: rest =>
      match rest with
      | _ :: _ => Err "trailing data in state file"%string
      | [] =>
          if negb (bool_decide (fp = fingerprint))
          then Err "state file belongs to a different anchor"%string
          else if bool_decide (value = str "none") then Ok (0, false)
          else match parse_unsigned u32_max value with
               | Err _ => Err "unparseable freshness value"%string
               | Ok version => Ok (version, true)
               end
      end
  end.

(** The line [persist] writes. *)
Definition mark_line (fingerprint : rstr) (version : option Z) : rstr :=
  let value := match version with None => str "none" | Some v => decimal v end in
  fingerprint ++ [32] ++ value ++ [10].

(** ** Operations *)

Definition mark_acquire_lock (p : path) : io HighWaterMarkError file :=
  let lock_path := sibling p "lock" in
  f ← io_map_err HIo (open_create lock_path);
  _ ← io_map_err (λ e, match e with TryWouldBlock => HBusy | TryError e => HIo e end) (try_lock f);
  mret f.

(** [drop(f)] before the rename closes a file nobody locked. *)
Definition persist (m : HighWaterMark) (version : option Z) : io HighWaterMarkError unit :=
  let line := mark_line (hw_fingerprint m) version in
  let tmp := sibling (hw_path m) "tmp" in
  f ← io_map_err HIo (open_truncate tmp);
  f ← io_map_err HIo (write_all f (ascii_bytes line));
  _ ← io_map_err HIo (sync_file f);
  _ ← io_map_err HIo (rename tmp (hw_path m));
  _ ← io_map_err HIo open_dir;
  _ ← io_map_err HIo sync_dir;
  mret tt.

Definition mark_create (p : path) (anchor : bytes) : io HighWaterMarkError HighWaterMark :=
  lock ← mark_acquire_lock p;
  drop_lock_on_err lock (
    let fingerprint := fingerprint anchor in
    io_catch (symlink_metadata p) (λ r,
      match r with
      | Ok _ => throw (HState (display_path p +:+ " already exists; refusing to reset freshness state"))
      | Err OtherError => throw (HIo OtherError)
      | Err NotFound =>
          let mark := mkHighWaterMark p fingerprint 0 false lock in
          _ ← persist mark None;
          mret mark
      end)).

Definition mark_open (p : path) (anchor : bytes) : io HighWaterMarkError HighWaterMark :=
  lock ← mark_acquire_lock p;
  drop_lock_on_err lock (
    let fingerprint := fingerprint anchor in
    b ← io_map_err (λ _, HState ("cannot read " +:+ display_path p)) (fs_read p);
    raw ← lift (ok_or (from_utf8 b) (HState (display_path p +:+ " is not UTF-8")));
    '(current, have) ← lift (map_err HState (parse raw fingerprint));
    mret (mkHighWaterMark p fingerprint current have lock)).

(** The match guard of [load_from_trusted_source]. *)
Definition valid_state (b : bytes) (fingerprint : rstr) : bool :=
  match from_utf8 b with Some raw => is_ok (parse raw fingerprint) | None => false end.

Definition load_from_trusted_source (p : path) (anchor : bytes) (authenticated_latest_version : Z) :
    io HighWaterMarkError HighWaterMark :=
  lock ← mark_acquire_lock p;
  drop_lock_on_err lock (
    let fingerprint := fingerprint anchor in
    let recover :=
      let mark := mkHighWaterMark p fingerprint authenticated_latest_version true lock in
      _ ← persist mark (Some authenticated_latest_version);
      mret mark in
    io_catch (fs_read p) (λ r,
      match r with
      | Ok b =>
          if valid_state b fingerprint
          then throw (HState (display_path p +:+ " contains valid state; refusing trusted-source recovery"))
          else recover
      | Err NotFound => recover
      | Err OtherError => throw (HIo OtherError)
      end)).

(** [&mut self]: the decision and the mark afterwards; on [Err] the mark is the
    one before the call. *)
Definition try_advance (m : HighWaterMark) (version : Z) :
    io HighWaterMarkError (GateDecision * HighWaterMark) :=
  if hw_have m && (version <=? hw_current m) then mret (Stale (hw_current m), m)
  else
    _ ← persist m (Some version);
    mret (Accepted, mkHighWaterMark (hw_path m) (hw_fingerprint m) version true (hw_lock m)).

(** ** The text format *)

Definition wf_version (version : option Z) : Prop :=
  match version with Some v => is_u32 v | None => True end.

Lemma fingerprint_plain anchor : plain_str (fingerprint anchor) ∧ fingerprint anchor ≠ [].
Proof.
  split; [apply hex_plain|]. apply hex_nonempty. intros E.
  pose proof (sha3_256_length anchor) as Hl. by rewrite E in Hl.
Qed.

Lemma none_plain : plain_str (str "none").
Proof.
  change (str "none") with [110; 111; 110; 101].
  repeat (apply Forall_cons_2; [lia|]). apply Forall_nil_2.
Qed.

Lemma value_plain version :
  wf_version version →
  let value := match version with None => str "none" | Some v => decimal v end in
  plain_str value ∧ value ≠ [].
Proof.
  destruct version as [v|]; simpl; intros Hv.
  - split; [apply decimal_plain, Hv|apply decimal_nonempty].
  - split; [|done]. apply none_plain.
Qed.

Lemma mark_line_tokens fp version :
  plain_str fp → fp ≠ [] → wf_version version →
  split_whitespace (mark_line fp version) =
    [fp; match version with None => str "none" | Some v => decimal v end].
Proof.
  intros Hp Hn Hv. destruct (value_plain version Hv) as [Hvp Hvn]. unfold mark_line. simpl.
  rewrite split_ws_token by done. by rewrite split_ws_token.
Qed.

Lemma decimal_not_none v : 0 ≤ v → decimal v ≠ str "none".
Proof.
  intros Hv%decimal_digits E. rewrite E in Hv. inversion Hv. lia.
Qed.

Lemma parse_mark_line fp version :
  plain_str fp → fp ≠ [] → wf_version version →
  parse (mark_line fp version) fp =
    Ok (default 0 version, match version with Some _ => true | None => false end).
Proof.
  intros Hp Hn Hv. unfold parse. rewrite mark_line_tokens by done.
  rewrite bool_decide_eq_true_2 by done. cbn [negb].
  destruct version as [v|]; [|by rewrite bool_decide_eq_true_2].
  rewrite bool_decide_eq_false_2 by (apply decimal_not_none, Hv).
  rewrite parse_decimal; [done|exact Hv|done].
Qed.

Lemma mark_line_ascii fp version : plain_str fp → wf_version version → ascii_str (mark_line fp version).
Proof.
  intros Hp Hv. unfold mark_line. repeat apply Forall_app_2.
  - by apply plain_ascii.
  - apply Forall_cons_2; [lia|apply Forall_nil_2].
  - apply plain_ascii. by apply value_plain.
  - apply Forall_cons_2; [lia|apply Forall_nil_2].
Qed.

(** What opening a file with contents [b] gives. *)
Definition read_mark (b : bytes) (anchor : bytes) : result (option Z) string :=
  match from_utf8 b with
  | None => Err "not UTF-8"%string
  | Some raw => let? x := parse raw (fingerprint anchor) in
                Ok (if snd x then Some (fst x) else None)
  end.

Lemma read_written anchor version :
  wf_version version →
  read_mark (ascii_bytes (mark_line (fingerprint anchor) version)) anchor = Ok version.
Proof.
  intros Hv. destruct (fingerprint_plain anchor) as [Hp Hn]. unfold read_mark.
  rewrite from_utf8_ascii by (by apply mark_line_ascii). rewrite parse_mark_line by done.
  by destruct version.
Qed.

Lemma parse_u32 raw fp v have : parse raw fp = Ok (v, have) → is_u32 v.
Proof.
  unfold parse. intros H. repeat case_match; try done; simplify_eq/=; [done|].
  by eapply parse_unsigned_range.
Qed.

(** What [persist] writes, [open] reads back, for every version and for the
    empty mark; and a file written under one anchor is refused under any other,
    unless the two anchors collide under SHA3-256. *)
Theorem mark_roundtrip anchor version :
  wf_version version →
  read_mark (ascii_bytes (mark_line (fingerprint anchor) version)) anchor = Ok version ∧
  ∀ anchor' v, read_mark (ascii_bytes (mark_line (fingerprint anchor) version)) anchor' = Ok v →
    anchor' = anchor ∨ collides sha3_256 anchor anchor'.
Proof.
  intros Hv. split; [by apply read_written|]. intros anchor' v Hr.
  destruct (fingerprint_plain anchor) as [Hp Hn]. unfold read_mark in Hr.
  rewrite from_utf8_ascii in Hr by (by apply mark_line_ascii).
  unfold parse in Hr. rewrite mark_line_tokens in Hr by done.
  destruct (bool_decide (fingerprint anchor = fingerprint anchor')) eqn:E; [|done].
  apply bool_decide_eq_true in E. apply (inj hex) in E.
  destruct (hash_eq_or_collides sha3_256 _ _ E) as [->|?]; [by left|by right].
Qed.
End freshness.
