(* ===== verification/FreshnessSystem.v ===== *)
(** * Rollback protection across processes, crashes and power loss

    The verifier processes of a machine that share one mark file under one
    anchor.  Unlike the slot counter no step needs a guard: every replacement
    syncs the directory before a version counts as accepted. *)
From S2P Require Import Prelude Fs External Instances Atomic Freshness.
From stdpp Require Import relations.

Open Scope Z_scope.

Section gate_system.
Context `{HH : Hashes}.
Context (p : path) (anchor : bytes).

(** [g_accepted]: the versions [try_advance] answered [Accepted] to, latest first. *)
Record gate := Gate {
  g_world : world;
  g_procs : gmap nat HighWaterMark;
  g_accepted : list Z;
}.

(** ** The steps *)

Definition gate_started (pid : nat) (g : gate)
    (r : outcome HighWaterMarkError HighWaterMark * world) : gate :=
  match r with
  | (Done m, w) => Gate w (<[pid := m]> (g_procs g)) (g_accepted g)
  | (Failed _, w) => Gate w (g_procs g) (g_accepted g)
  | (Halted, w) => Gate (with_locks (w_locks (g_world g)) w) (g_procs g) (g_accepted g)
  end.

Definition gate_create (pid : nat) (g : gate) : gate :=
  gate_started pid g (mark_create p anchor (g_world g)).
Definition gate_open (pid : nat) (g : gate) : gate :=
  gate_started pid g (mark_open p anchor (g_world g)).
Definition gate_load (pid : nat) (version : Z) (g : gate) : gate :=
  gate_started pid g (load_from_trusted_source p anchor version (g_world g)).

Definition log_decision (d : GateDecision) (version : Z) (accepted : list Z) : list Z :=
  match d with Accepted => version :: accepted | Stale _ => accepted end.

Definition gate_advance (pid : nat) (version : Z) (g : gate) : gate :=
  match g_procs g !! pid with
  | None => g
  | Some m =>
      match try_advance m version (g_world g) with
      | (Done (d, m'), w) =>
          Gate w (<[pid := m']> (g_procs g)) (log_decision d version (g_accepted g))
      | (Failed _, w) => Gate w (g_procs g) (g_accepted g)
      | (Halted, w) => Gate (unlock (hw_lock m) w) (delete pid (g_procs g)) (g_accepted g)
      end
  end.

Definition gate_drop (pid : nat) (g : gate) : gate :=
  match g_procs g !! pid with
  | None => g
  | Some m => Gate (unlock (hw_lock m) (g_world g)) (delete pid (g_procs g)) (g_accepted g)
  end.

Inductive gate_step : gate → gate → Prop :=
| gs_schedule vs g :
    gate_step g (Gate (with_verdicts vs (g_world g)) (g_procs g) (g_accepted g))
| gs_stat b g : gate_step g (Gate (with_stat b (g_world g)) (g_procs g) (g_accepted g))
| gs_create pid g : g_procs g !! pid = None → gate_step g (gate_create pid g)
| gs_open pid g : g_procs g !! pid = None → gate_step g (gate_open pid g)
| gs_load pid version g :
    g_procs g !! pid = None → is_u32 version → gate_step g (gate_load pid version g)
| gs_advance pid version g : is_u32 version → gate_step g (gate_advance pid version g)
| gs_drop pid g : gate_step g (gate_drop pid g)
| gs_writeback g : gate_step g (Gate (written_back (g_world g)) (g_procs g) (g_accepted g))
| gs_power_loss w g : power_loss (g_world g) w → gate_step g (Gate w ∅ (g_accepted g)).

(** ** The invariant *)

(** The mark [o] stands at or above every accepted version. *)
Definition at_least (accepted : list Z) (o : option Z) : Prop :=
  match accepted with [] => True | last :: _ => ∃ v, o = Some v ∧ last ≤ v end.

(** What the disk may show once [accepted] was accepted. *)
Definition remembers (accepted : list Z) (o : option (list bytes)) : Prop :=
  accepted ≠ [] → ∃ b v, o = Some [b] ∧ read_mark b anchor = Ok v ∧ at_least accepted v.

(** A running mark of this file: locked, and not below what was accepted. *)
Record running (accepted : list Z) (m : HighWaterMark) (w : world) : Prop := {
  ru_path : hw_path m = p;
  ru_fingerprint : hw_fingerprint m = fingerprint anchor;
  ru_locked : locked p (hw_lock m) w;
  ru_current : at_least accepted (current m);
}.

Record gate_inv (g : gate) : Prop := {
  gi_world : wf_world p (g_world g);
  gi_disk : entries p (remembers (g_accepted g)) (g_world g);
  gi_log : StronglySorted (λ a b, b < a) (g_accepted g);
  gi_procs : g_procs g = ∅ ∨
             ∃ pid m, g_procs g = {[pid := m]} ∧ running (g_accepted g) m (g_world g);
}.

Record gate_initial (g : gate) : Prop := {
  ini_world : wf_world p (g_world g);
  ini_procs : g_procs g = ∅;
  ini_accepted : g_accepted g = [];
}.

Lemma remembers_tearable accepted : tearable (remembers accepted).
Proof.
  intros h m Hr Ht Hne. destruct (Hr Hne) as (b & v & [= ->] & Hb & Hv). exists m, v.
  split_and!; [done| |done]. replace m with b; [done|]. apply list_eq. intros k.
  destruct (Ht k) as (c & ->%list_elem_of_singleton & ->). done.
Qed.

Lemma remembers_line accepted v :
  wf_version v → at_least accepted v →
  remembers accepted (Some [ascii_bytes (mark_line (fingerprint anchor) v)]).
Proof. intros Hv Ha _. eexists _, v. split_and!; [done|by apply read_written|done]. Qed.

Lemma remembers_weaken accepted b v o :
  read_mark b anchor = Ok v → at_least accepted v → o = Some [b] → remembers accepted o.
Proof. intros Hb Hv -> _. by exists b, v. Qed.

(** ** The operations *)

(** [persist] is a replacement of the file by the new line. *)
Lemma persist_replace m version w :
  persist m version w =
  (_ ← replace_file HIo (hw_path m) (ascii_bytes (mark_line (hw_fingerprint m) version)); mret tt) w.
Proof.
  unfold persist, replace_file, mbind, io_bind.
  repeat match goal with |- context [match ?x with _ => _ end] => destruct x; try reflexivity end.
Qed.

Lemma persist_ok l w0 m version Ψ :
  hw_path m = p → Ψ (Some [ascii_bytes (mark_line (hw_fingerprint m) version)]) →
  triple (held p (Some l) w0 Ψ) (persist m version)
    (λ _ w, held p (Some l) w0 Ψ w ∧
       entries p (λ o, o = Some [ascii_bytes (mark_line (hw_fingerprint m) version)]) w)
    (held p (Some l) w0 Ψ).
Proof.
  intros <- Hb. pose proof (replace_file_ok (hw_path m) (Some l) w0 Ψ HIo _ Hb) as Hrep.
  intros w Hw. specialize (Hrep w Hw). revert Hrep. rewrite persist_replace.
  unfold mbind at 1, io_bind at 1.
  destruct (replace_file _ _ _ w) as [[f|e|] w']; [|done..].
  intros [Hr Hd]. split; [apply Hr|by eapply renamed_entries].
Qed.

Definition gate_opened (accepted : list Z) (m : HighWaterMark) (w : world) : Prop :=
  wf_world p w ∧ entries p (remembers accepted) w ∧ running accepted m w.

(** What the file shows first, if anything was accepted. *)
Lemma remembers_current accepted w :
  wf_world p w → entries p (remembers accepted) w → accepted ≠ [] →
  ∃ i v, cur_dir w !! p = Some i ∧ read_mark (content w i) anchor = Ok v ∧ at_least accepted v.
Proof.
  intros Hw He Hne. destruct (He _ (cur_in_dirs p w Hw) Hne) as (b & v & Hs & Hb & Hv).
  unfold shown in Hs. destruct (cur_dir w !! p) as [i|]; [|done]. injection Hs as Hs.
  exists i, v. split_and!; [done| |done]. unfold content. by rewrite Hs.
Qed.

Lemma at_least_nil o : at_least [] o.
Proof. done. Qed.

(** Writing the first mark, when nothing was accepted yet. *)
Lemma first_mark_ok l w0 accepted version :
  wf_version version → accepted = [] →
  let m := mkHighWaterMark p (fingerprint anchor) (default 0 version)
             (match version with Some _ => true | None => false end) l in
  triple (held p (Some l) w0 (remembers accepted)) (_ ← persist m version; mret m)
    (gate_opened accepted) (stable p w0 (remembers accepted)).
Proof.
  intros Hv -> m. eapply triple_bind; [eapply triple_fail;
    [apply (persist_ok l w0 m); [done|by apply remembers_line]|apply held_stable]|].
  intros []. apply triple_ret. intros w [(Hw & Hl & _ & He) _]. split_and!; [done..|].
  by split.
Qed.

Lemma mark_create_ok w0 accepted :
  wf_world p w0 → entries p (remembers accepted) w0 →
  triple (sched w0) (mark_create p anchor)
    (gate_opened accepted) (stable p w0 (remembers accepted)).
Proof.
  intros Hw0 He0. unfold mark_create.
  eapply triple_bind; [eapply triple_fail; [by apply (lock_file_ok p HBusy HIo)|]|].
  { intros w. by apply ext_stable. }
  intros l. eapply triple_drop_lock; [|intros w; apply stable_unlock|done].
  apply (triple_pre (held p (Some l) w0 (remembers accepted))); [intros w []; by apply ext_held|].
  apply triple_catch_metadata;
    [apply schedule_free_held|apply held_stable|apply triple_throw, held_stable..|].
  intros w [Hh Hn].
  assert (accepted = []) as Hnil.
  { destruct accepted as [|v a]; [done|]. destruct Hh as (Hw & _ & _ & He).
    destruct (remembers_current _ w Hw He) as (i & ? & Hi & _); [done|congruence]. }
  by apply (first_mark_ok l w0 accepted None).
Qed.

(** [load_from_trusted_source] goes past its checks only when nothing was ever
    accepted: a disk that remembers an accepted version shows a valid mark. *)
Lemma load_ok w0 accepted version :
  wf_world p w0 → entries p (remembers accepted) w0 → is_u32 version →
  triple (sched w0) (load_from_trusted_source p anchor version)
    (gate_opened accepted) (stable p w0 (remembers accepted)).
Proof.
  intros Hw0 He0 Hv. unfold load_from_trusted_source.
  eapply triple_bind; [eapply triple_fail; [by apply (lock_file_ok p HBusy HIo)|]|].
  { intros w. by apply ext_stable. }
  intros l. eapply triple_drop_lock; [|intros w; apply stable_unlock|done].
  apply (triple_pre (held p (Some l) w0 (remembers accepted))); [intros w []; by apply ext_held|].
  apply triple_catch_read; [apply schedule_free_held|apply held_stable| |apply triple_throw, held_stable|].
  - intros b. destruct (valid_state b _) eqn:Hval;
      [apply triple_throw; intros w []; by eapply held_stable|].
    intros w [Hh (i & Hi & ->)].
    assert (accepted = []) as Hnil.
    { destruct accepted as [|v a]; [done|]. destruct Hh as (Hw & _ & _ & He).
      destruct (remembers_current _ w Hw He) as (j & u & Hj & Hr & _); [done|].
      assert (j = i) as -> by congruence. unfold read_mark, valid_state in *.
      destruct (from_utf8 _); [|done]. by destruct (parse _ _). }
    by apply (first_mark_ok l w0 accepted (Some version)).
  - intros w [Hh Hn].
    assert (accepted = []) as Hnil.
    { destruct accepted as [|v a]; [done|]. destruct Hh as (Hw & _ & _ & He).
      destruct (remembers_current _ w Hw He) as (i & ? & Hi & _); [done|congruence]. }
    by apply (first_mark_ok l w0 accepted (Some version)).
Qed.

Lemma triple_fs_read q P :
  schedule_free P →
  triple P (fs_read q) (λ b w, (∃ i, cur_dir w !! q = Some i ∧ b = content w i) ∧ P w) P.
Proof.
  intros HP. apply triple_syscall; [done| |done]. intros w Hw.
  destruct (cur_dir w !! q) as [i|] eqn:E; [|done]. split; [by exists i|done].
Qed.

Lemma mark_open_ok w0 accepted :
  wf_world p w0 → entries p (remembers accepted) w0 →
  triple (sched w0) (mark_open p anchor)
    (gate_opened accepted) (stable p w0 (remembers accepted)).
Proof.
  intros Hw0 He0. unfold mark_open.
  eapply triple_bind; [eapply triple_fail; [by apply (lock_file_ok p HBusy HIo)|]|].
  { intros w. by apply ext_stable. }
  intros l. eapply triple_drop_lock; [|intros w; apply stable_unlock|done].
  apply (triple_pre (held p (Some l) w0 (remembers accepted))); [intros w []; by apply ext_held|].
  eapply triple_bind; [eapply triple_fail;
    [apply triple_map_err, triple_fs_read, schedule_free_held|apply held_stable]|].
  assert (HR : ∀ φ w, (φ w) ∧ held p (Some l) w0 (remembers accepted) w → stable p w0 (remembers accepted) w)
    by (intros φ w [_ Hh]; by eapply held_stable).
  intros b. apply triple_bind_lift; [|apply HR]. intros raw Hraw.
  apply triple_bind_lift; [|apply HR]. intros [v have] Hparse. apply triple_ret.
  intros w [(i & Hi & ->) (Hw & Hl & _ & He)]. split_and!; [done..|]. split; try done.
  destruct accepted as [|a acc]; [done|].
  destruct (remembers_current _ w Hw He) as (j & u & Hj & Hr & Hge); [done|].
  assert (j = i) as -> by congruence. unfold read_mark in Hr.
  destruct (from_utf8 _); [|done]. injection Hraw as ->.
  destruct (parse raw _) as [[v' have']|]; [|done]. simplify_eq/=. exact Hge.
Qed.

(** One offer to a running mark. *)
Lemma try_advance_ok w0 accepted m version :
  is_u32 version →
  triple (λ w, wf_world p w ∧ entries p (remembers accepted) w ∧ running accepted m w ∧ w = w0)
    (try_advance m version)
    (λ '(d, m') w, let accepted' := log_decision d version accepted in
       wf_world p w ∧ entries p (remembers accepted') w ∧ running accepted' m' w ∧
       (d = Accepted → ∀ v, current m = Some v → v < version))
    (λ w, wf_world p w ∧ entries p (remembers accepted) w ∧ running accepted m w).
Proof.
  intros Hv. unfold try_advance. destruct (_ && _) eqn:Hst.
  { apply triple_ret. intros w (? & ? & ? & _). by split_and!. }
  intros w (Hw & He & Hr & ->). pose proof Hr as [Hp Hf Hl Hc].
  assert (Hlt : ∀ v, current m = Some v → v < version).
  { unfold current. destruct (hw_have m); [|done]. simpl in Hst. boolify. naive_solver. }
  assert (Hge : at_least accepted (Some version)).
  { destruct accepted as [|a acc]; [done|]. destruct Hc as (v & Hv' & Hle). exists version.
    split; [done|]. specialize (Hlt v Hv'). lia. }
  assert (Hnew : remembers (version :: accepted)
    (Some [ascii_bytes (mark_line (hw_fingerprint m) (Some version))])).
  { rewrite Hf. apply remembers_line; [done|]. exists version. split; [done|lia]. }
  assert (Hold : remembers accepted
    (Some [ascii_bytes (mark_line (hw_fingerprint m) (Some version))])).
  { rewrite Hf. by apply remembers_line. }
  pose proof (persist_ok (hw_lock m) w0 m (Some version) (remembers accepted) Hp Hold) as Hper.
  assert (Hheld : held p (Some (hw_lock m)) w0 (remembers accepted) w0) by done.
  revert Hheld. refine (triple_bind _ _ _ _ _ _ _ _ w0); [eapply triple_fail; [exact Hper|]|].
  { intros w (? & ? & _ & ?). by split_and!. }
  intros []. apply triple_ret. intros w [(Hw' & Hl' & _ & _) Hen]. simpl. split_and!; [done| | |done].
  - intros d Hd. by rewrite (Hen d Hd).
  - split; [done..|]. exists version. split; [done|lia].
Qed.

Lemma create_gate_busy l w0 :
  locked p l w0 → triple (sched w0) (mark_create p anchor) (λ _ _, False) (sched w0).
Proof. intros Hl. eapply triple_bind; [by apply (lock_file_busy p HBusy HIo l)|]. by intros ? w []. Qed.
Lemma open_gate_busy l w0 :
  locked p l w0 → triple (sched w0) (mark_open p anchor) (λ _ _, False) (sched w0).
Proof. intros Hl. eapply triple_bind; [by apply (lock_file_busy p HBusy HIo l)|]. by intros ? w []. Qed.
Lemma load_gate_busy l w0 v :
  locked p l w0 → triple (sched w0) (load_from_trusted_source p anchor v) (λ _ _, False) (sched w0).
Proof. intros Hl. eapply triple_bind; [by apply (lock_file_busy p HBusy HIo l)|]. by intros ? w []. Qed.

(** ** Every step keeps the invariant *)

Lemma running_sched accepted m w0 w : running accepted m w0 → sched w0 w → running accepted m w.
Proof. intros [? ? [] ?] [vs ->]. by split. Qed.

Lemma gate_inv_sched g w :
  gate_inv g → sched (g_world g) w → gate_inv (Gate w (g_procs g) (g_accepted g)).
Proof.
  intros [Hw He Hlog Hp] Hs. pose proof Hs as [vs ->]. split; [by apply schedule_free_wf|done..|].
  destruct Hp as [|(pid & m & ? & Hm)]; [by left|]. right. exists pid, m. split; [done|].
  by eapply running_sched.
Qed.

Lemma gate_started_inv pid g m :
  gate_inv g →
  triple (sched (g_world g)) m (gate_opened (g_accepted g))
    (stable p (g_world g) (remembers (g_accepted g))) →
  (∀ l, locked p l (g_world g) →
     triple (sched (g_world g)) m (λ _ _, False) (sched (g_world g))) →
  gate_inv (gate_started pid g (m (g_world g))).
Proof.
  intros Hinv Hok Hbusy. pose proof (sched_refl (g_world g)) as Hw.
  destruct (gi_procs _ Hinv) as [Hp|(pid' & m' & Hp & Hm)].
  - specialize (Hok _ Hw). destruct (m (g_world g)) as [[c|e|] w]; simpl in *; rewrite Hp.
    + destruct Hok as (Hwf & He & Hr). split; [done..|apply Hinv|]. right. by exists pid, c.
    + destruct Hok as (Hwf & _ & He). split; [done..|apply Hinv|by left].
    + destruct Hok as (Hwf & _ & He). split; [by apply wf_locks|done|apply Hinv|by left].
  - specialize (Hbusy (hw_lock m') (ru_locked _ _ _ Hm) _ Hw).
    destruct (m (g_world g)) as [[c|e|] w]; [done|by apply gate_inv_sched|].
    destruct (gate_inv_sched g w Hinv Hbusy) as [Hwf He Hlog _].
    split; [by apply wf_locks|done..|]. right. exists pid', m'. split; [done|].
    destruct Hbusy as [vs ->]. destruct Hm as [? ? [] ?]. by split.
Qed.

Lemma gate_advance_inv pid version g :
  gate_inv g → is_u32 version → gate_inv (gate_advance pid version g).
Proof.
  intros Hinv Hv. unfold gate_advance.
  destruct (g_procs g !! pid) as [m|] eqn:Hpid; [|done].
  pose proof Hinv as [Hw He Hlog [Hp|(pid' & m' & Hp & Hm)]];
    rewrite Hp in Hpid; [by apply lookup_empty_Some in Hpid|].
  apply lookup_singleton_Some in Hpid as [<- ->]. rewrite Hp.
  pose proof (try_advance_ok (g_world g) (g_accepted g) m version Hv (g_world g)
    (conj Hw (conj He (conj Hm eq_refl)))) as Hadv.
  destruct (try_advance m version (g_world g)) as [[[d m']|e|] w].
  - destruct Hadv as (Hw' & He' & Hm' & Hlt). split; simpl; [done..| |].
    + destruct d; [|done]. simpl. constructor; [done|]. specialize (Hlt eq_refl).
      destruct (g_accepted g) as [|a acc]; [constructor|].
      destruct (ru_current _ _ _ Hm) as (v & Hv' & Hle). specialize (Hlt v Hv').
      inversion Hlog as [|?? _ Hall]; subst. constructor; [lia|].
      eapply Forall_impl; [exact Hall|]. simpl. lia.
    + right. exists pid', m'. by rewrite insert_singleton_eq.
  - destruct Hadv as (Hw' & He' & Hm'). split; simpl; [done..|]. right. by exists pid', m.
  - destruct Hadv as (Hw' & He' & _). split; simpl; [by apply wf_locks|done..|].
    left. by rewrite delete_singleton_eq.
Qed.

Lemma gate_step_inv g g' : gate_inv g → gate_step g g' → gate_inv g'.
Proof.
  intros Hinv Hstep. pose proof Hinv as [Hw He Hlog Hp]. destruct Hstep.
  - apply gate_inv_sched; [done|by eexists].
  - split; [by destruct Hw|done..|]. destruct Hp as [|(q & m & ? & [? ? [] ?])]; [by left|].
    right. by exists q, m.
  - apply gate_started_inv; [done|by apply mark_create_ok|intros l; apply create_gate_busy].
  - apply gate_started_inv; [done|by apply mark_open_ok|intros l; apply open_gate_busy].
  - apply (gate_started_inv pid g (load_from_trusted_source p anchor version));
      [done|by apply load_ok|intros l; apply load_gate_busy].
  - by apply gate_advance_inv.
  - unfold gate_drop. destruct (g_procs g !! pid) as [m|] eqn:Hpid; [|done].
    destruct Hp as [Hp|(q & m' & Hp & _)]; rewrite Hp in Hpid |- *;
      [by apply lookup_empty_Some in Hpid|]. apply lookup_singleton_Some in Hpid as [<- ->].
    split; [by apply wf_locks|done..|]. left. apply delete_singleton_eq.
  - split; simpl; [by apply wf_written_back|..|done|].
    + apply entries_written_back; [done|apply remembers_tearable|done].
    + destruct Hp as [|(q & m & ? & [? ? [] ?])]; [by left|]. right. by exists q, m.
  - split; simpl; [by eapply wf_power_loss| |done|by left].
    eapply entries_power_loss; [apply remembers_tearable|done..].
Qed.

Lemma gate_reachable g0 g : gate_initial g0 → rtc gate_step g0 g → gate_inv g.
Proof.
  intros [Hw Hp Ha] Hrtc. assert (gate_inv g0) as Hinv.
  { split; [done| |rewrite Ha; constructor|by left]. intros d _. rewrite Ha. by intros []. }
  clear Hw Hp Ha. induction Hrtc; [done|]. eauto using gate_step_inv.
Qed.

(** C2 No rollback: in every execution of verifier processes that create, open,
    recover, offer versions, are dropped or killed in the middle of a call, with
    any failure of any call, cache write-backs and power losses, the versions
    that were accepted are strictly increasing in time, and whatever the disk
    shows afterwards reads back as a mark not below the last of them. *)
Theorem no_rollback g0 g :
  gate_initial g0 → rtc gate_step g0 g →
  StronglySorted (λ a b, b < a) (g_accepted g) ∧
  entries p (remembers (g_accepted g)) (g_world g).
Proof.
  intros Hi Hrtc. destruct (gate_reachable _ _ Hi Hrtc) as [_ He Hlog _]. done.
Qed.

(** One offer: a version is accepted only when it is strictly above the mark;
    by then the file shows it and nothing else; a stale answer, a failure and
    process death leave a disk that still remembers everything accepted. *)
Theorem advance_persists_first w0 accepted m version :
  is_u32 version →
  triple (λ w, wf_world p w ∧ entries p (remembers accepted) w ∧ running accepted m w ∧ w = w0)
    (try_advance m version)
    (λ '(d, m') w, let accepted' := log_decision d version accepted in
       wf_world p w ∧ entries p (remembers accepted') w ∧ running accepted' m' w ∧
       (d = Accepted → ∀ v, current m = Some v → v < version))
    (λ w, wf_world p w ∧ entries p (remembers accepted) w ∧ running accepted m w).
Proof. apply try_advance_ok. Qed.
End gate_system.

(** ** Concrete executions *)

#[local] Existing Instance toy_hashes.

Definition toy_anchor : bytes := ascii_bytes (str "anchor-A").
Definition toy_gate : gate := Gate blank_world ∅ [].

Lemma toy_gate_initial : gate_initial toy_path toy_gate.
Proof. split; [apply wf_blank|done..]. Qed.

Definition run_create : gate := gate_create toy_path toy_anchor 1 toy_gate.
Definition run_accept : gate := gate_advance 1 42 run_create.

(** Killed after the rename and before the directory sync. *)
Definition run_kill : gate :=
  gate_advance 1 50 (Gate (with_verdicts (replicate 5 Proceed ++ [Kill 0]) (g_world run_accept))
    (g_procs run_accept) (g_accepted run_accept)).

(** The power loss undoes the rename; the file is opened; 42 is stale, 43 is not. *)
Definition run_again : gate :=
  gate_advance 2 43 (gate_advance 2 42 (gate_open toy_path toy_anchor 2
    (Gate (reboot 1 0 (g_world run_kill)) ∅ (g_accepted run_kill)))).

Lemma no_rollback_witness :
  g_accepted run_again = [43; 42] ∧ StronglySorted (λ a b, b < a) (g_accepted run_again) ∧
  entries toy_path (remembers toy_anchor (g_accepted run_again)) (g_world run_again).
Proof.
  split; [vm_compute; reflexivity|].
  apply (@no_rollback toy_hashes toy_path toy_anchor toy_gate); [apply toy_gate_initial|].
  unfold run_again, run_kill, run_accept, run_create.
  eapply rtc_r; [|by apply gs_advance]. eapply rtc_r; [|by apply gs_advance].
  eapply rtc_r; [|apply gs_open; vm_compute; reflexivity].
  eapply rtc_r; [|apply gs_power_loss, power_loss_reboot; vm_compute; reflexivity].
  eapply rtc_r; [|by apply gs_advance]. eapply rtc_r; [|apply gs_schedule].
  eapply rtc_r; [|by apply gs_advance]. eapply rtc_r; [|by apply gs_create]. apply rtc_refl.
Defined.
