(* ===== verification/FreshnessRuns.v ===== *)
(** * The verifier's mark when no call fails

    The operations of the high-water mark in a world whose operating system
    completes every call and where nobody else holds the lock: they all return,
    with the decision the mark and the version determine, and the file then
    shows the mark on every version of the disk. *)
From S2P Require Import Prelude Fs External Instances Atomic SlotCounter Freshness FreshnessSystem SlotRuns.

Open Scope Z_scope.

Section runs.
Context `{HH : Hashes}.
Context (p : path) (anchor : bytes).

(** ** The states *)

(** Every version of the disk shows a file that reads back as [o]. *)
Definition marks (o : option Z) (x : option (list bytes)) : Prop :=
  ∃ b, x = Some [b] ∧ read_mark b anchor = Ok o.

(** Nobody holds the lock, and creating its file makes no held inode. *)
Definition unlocked (w : world) : Prop :=
  match cur_dir w !! sibling p "lock" with
  | Some i => i ∉ w_locks w
  | None => w_next w ∉ w_locks w
  end.

(** Nobody has the mark open, and it stands at [o]. *)
Record resting (o : option Z) (w : world) : Prop := {
  re_world : wf_world p w;
  re_calls : w_verdicts w = [];
  re_free : unlocked w;
  re_disk : entries p (marks o) w;
}.

(** [m] is open and stands at [o], and so does the disk. *)
Record holding (o : option Z) (m : HighWaterMark) (w : world) : Prop := {
  ho_world : wf_world p w;
  ho_calls : w_verdicts w = [];
  ho_mark : running p anchor [] m w;
  ho_current : current m = o;
  ho_disk : entries p (marks o) w;
}.

(** Closing the mark: the lock is released. *)
Lemma holding_drop o m w : holding o m w → resting o (unlock (hw_lock m) w).
Proof.
  intros [Hw Hq [_ _ [Hl _] _] _ Hd]. split; [by apply wf_locks|done| |done].
  unfold unlocked. change (cur_dir (unlock (hw_lock m) w)) with (cur_dir w).
  unfold lock_path in Hl. rewrite Hl. unfold unlock, with_locks. simpl. set_solver.
Qed.

(** ** The calls return *)

Lemma quiet_lock {E} (busy : E) inj w :
  w_verdicts w = [] → unlocked w →
  ∃ l w', lock_file busy inj p w = (Done l, w') ∧ w_verdicts w' = [].
Proof.
  intros Hq Hu. unfold unlocked in Hu. unfold lock_file, mbind, io_bind, io_map_err, open_create, syscall.
  rewrite Hq. destruct (cur_dir w !! sibling p "lock") as [i|]; simpl;
    unfold try_lock, syscall; simpl; rewrite Hq; rewrite bool_decide_eq_false_2 by done; eauto.
Qed.

Lemma quiet_persist m version w :
  w_verdicts w = [] → ∃ w', persist m version w = (Done tt, w') ∧ w_verdicts w' = [].
Proof.
  intros Hq. destruct (quiet_replace (hw_path m) HIo
    (ascii_bytes (mark_line (hw_fingerprint m) version)) w Hq) as (f & w' & E & Hq').
  exists w'. rewrite persist_replace. unfold mbind, io_bind. by rewrite E.
Qed.

(** Writing the mark, whatever the disk showed before. *)
Lemma persist_marks m version w o :
  w_verdicts w = [] → wf_world p w → running p anchor [] m w → wf_version version →
  entries p o w →
  ∃ w', persist m version w = (Done tt, w') ∧ w_verdicts w' = [] ∧ wf_world p w' ∧
    locked p (hw_lock m) w' ∧ entries p (marks version) w'.
Proof.
  intros Hq Hw [Hp Hf Hl _] Hv Ho. destruct (quiet_persist m version w Hq) as (w' & E & Hq').
  exists w'. split; [done|]. split; [done|].
  pose proof (persist_ok p (hw_lock m) w m version (λ _, True) Hp I w) as H.
  rewrite E in H. destruct H as ((Hw' & Hl' & _) & He); [by split_and!|].
  split_and!; [done|done|]. intros d Hd. specialize (He d Hd). simpl in He. rewrite He. eexists.
  split; [done|]. rewrite Hf. by apply read_written.
Qed.

(** Through a fresh temporary file, the mark is exactly replaced. *)
Lemma persist_run m version w :
  w_verdicts w = [] → cur_dir w !! sibling (hw_path m) "tmp" = None →
  ∃ b w', persist m version w = (Done tt, w') ∧ replaced (hw_path m) b w w'.
Proof.
  intros Hq Ht. set (b := ascii_bytes (mark_line (hw_fingerprint m) version)).
  destruct (replace_run HIo (hw_path m) b w Hq Ht) as (w' & E & Hr). exists b, w'. split; [|done].
  rewrite persist_replace. by erewrite run_bind by exact E.
Qed.

(** ** The operations *)

Lemma quiet_create w :
  wf_world p w → w_verdicts w = [] → unlocked w → cur_dir w !! p = None →
  ∃ m w', mark_create p anchor w = (Done m, w') ∧ holding None m w'.
Proof.
  intros Hw Hq Hu Hn. unfold mark_create.
  destruct (quiet_lock HBusy HIo w Hq Hu) as (l & w1 & E & Hq1).
  pose proof (lock_file_ok p HBusy HIo w Hw w (sched_refl w)) as H. rewrite E in H. destruct H as [Hx Hl].
  change (mark_acquire_lock p) with (lock_file HBusy HIo p).
  unfold mbind at 1, io_bind at 1. rewrite E. unfold drop_lock_on_err, io_catch, symlink_metadata, syscall.
  rewrite Hq1, (ex_cur _ _ _ Hx), Hn.
  set (m := mkHighWaterMark p (fingerprint anchor) 0 false l).
  destruct (persist_marks m None w1 (λ _, True)) as (w' & Ep & Hq' & Hw' & Hl' & He);
    [done|apply Hx|by split|done|done|].
  exists m, w'. unfold mbind, io_bind. rewrite Ep. split; [done|]. by split.
Qed.

Lemma quiet_open o w :
  resting o w → ∃ m w', mark_open p anchor w = (Done m, w') ∧ holding o m w'.
Proof.
  intros [Hw Hq Hu He]. unfold mark_open. destruct (quiet_lock HBusy HIo w Hq Hu) as (l & w1 & E & Hq1).
  pose proof (lock_file_ok p HBusy HIo w Hw w (sched_refl w)) as H. rewrite E in H. destruct H as [Hx Hl].
  change (mark_acquire_lock p) with (lock_file HBusy HIo p).
  unfold mbind at 1, io_bind at 1. rewrite E.
  apply (ext_entries p _ _ _ Hw Hx) in He.
  destruct (He _ (cur_in_dirs p w1 (ex_world _ _ _ Hx))) as (b & Hs & Hr). unfold shown in Hs.
  destruct (cur_dir w1 !! p) as [i|] eqn:Hi; [|done]. injection Hs as Hs.
  unfold drop_lock_on_err, mbind at 1, io_bind at 1, io_map_err at 1, fs_read, syscall. rewrite Hq1, Hi.
  unfold content. rewrite Hs. unfold read_mark in Hr. destruct (from_utf8 b) as [raw|]; [|done].
  destruct (parse raw (fingerprint anchor)) as [[v have]|] eqn:Ep; [|done]. cbn.
  unfold mbind, io_bind, lift. cbn. rewrite Ep. cbn. eexists _, w1. split; [done|].
  split; [apply Hx|done|by split|by simplify_eq/=|done].
Qed.

(** Provisioning takes a lock file and the mark itself, and nothing else. *)
Lemma create_mark_run w :
  w_verdicts w = [] → w_next w ∉ w_locks w → cur_dir w !! p = None →
  cur_dir w !! sibling p "lock" = None → cur_dir w !! sibling p "tmp" = None →
  ∃ m b w', mark_create p anchor w = (Done m, w') ∧ hw_path m = p ∧ current m = None ∧
    let w1 := with_locks ({[w_next w]} ∪ w_locks w) (snd (alloc_file (sibling p "lock") w)) in
    replaced p b w1 w'.
Proof.
  intros Hq Hn Hp Hl Ht. set (w1 := with_locks _ _).
  pose proof (sibling_ne p "lock") as Hpl. pose proof (sibling_ne p "tmp") as Hpt.
  assert (Hlt : sibling p "lock" ≠ sibling p "tmp") by (by intros ?%sibling_suffix_inj).
  assert (Hc1 : cur_dir w1 = <[sibling p "lock" := w_next w]> (cur_dir w)) by done.
  unfold mark_create. change (mark_acquire_lock p) with (lock_file HBusy HIo p).
  erewrite run_bind by by apply lock_run. fold w1.
  unfold drop_lock_on_err, io_catch, symlink_metadata, syscall. change (w_verdicts w1) with (w_verdicts w).
  rewrite Hq, Hc1, lookup_insert_ne, Hp by done.
  set (m := mkHighWaterMark p (fingerprint anchor) 0 false (File (w_next w) 0)).
  destruct (persist_run m None w1) as (b & w' & E & Hr); [done|by rewrite Hc1, lookup_insert_ne|].
  exists m, b, w'. split; [|done]. fold m. unfold mbind, io_bind. by rewrite E.
Qed.

(** A newer version replaces the mark, and nothing else. *)
Lemma advance_run m v w :
  w_verdicts w = [] → cur_dir w !! sibling (hw_path m) "tmp" = None →
  (∀ x, current m = Some x → x < v) →
  ∃ m' b w', try_advance m v w = (Done (Accepted, m'), w') ∧ hw_path m' = hw_path m ∧ current m' = Some v ∧
    replaced (hw_path m) b w w'.
Proof.
  intros Hq Ht Hlt. destruct (persist_run m (Some v) w Hq Ht) as (b & w' & E & Hr).
  unfold try_advance, current in *. destruct (hw_have m && (v <=? hw_current m)) eqn:Hst.
  { apply andb_true_iff in Hst as [Hh Hle%Z.leb_le]. rewrite Hh in Hlt. specialize (Hlt _ eq_refl). lia. }
  erewrite run_bind by exact E. by eexists _, b, w'.
Qed.

(** An older one moves nothing. *)
Lemma advance_stale m x v w : current m = Some x → v ≤ x → try_advance m v w = (Done (Stale x, m), w).
Proof.
  unfold current, try_advance. destruct (hw_have m); [|done]. intros [= <-] Hle.
  by rewrite (proj2 (Z.leb_le _ _)).
Qed.

(** The decision is the mark's, and an accepted version is on the disk. *)
Lemma quiet_advance o m w version :
  holding o m w → is_u32 version →
  match o with
  | Some v => version ≤ v
  | None => False
  end ∧ try_advance m version w = (Done (Stale (hw_current m), m), w) ∨
  (∀ v, o = Some v → v < version) ∧
  ∃ m' w', try_advance m version w = (Done (Accepted, m'), w') ∧ holding (Some version) m' w'.
Proof.
  intros [Hw Hq Hr Hc He] Hv. unfold try_advance, current in *.
  destruct (hw_have m && (version <=? hw_current m)) eqn:Hst.
  - left. apply andb_true_iff in Hst as [Hh Hle%Z.leb_le]. rewrite Hh in Hc. subst o. done.
  - right. split.
    { intros v ->. destruct (hw_have m); [|done]. injection Hc as <-.
      by apply Z.leb_gt in Hst. }
    destruct (persist_marks m (Some version) w (marks o)) as (w' & Ep & Hq' & Hw' & Hl' & He'); [done..|].
    unfold mbind, io_bind. rewrite Ep. eexists _, w'. split; [done|]. destruct Hr. by split.
Qed.
End runs.
