(* ===== verification/Seats.v ===== *)
(** * Seats: member lists, bitmaps and (index, signature) pairs

    The plumbing that the XMSS and the ML-DSA records share: the duplicate test
    over encoded keys, the seat of a key, the set bits of a bitmap, and the
    sorting of collected pairs. *)
From S2P Require Import Prelude External.
From stdpp Require Import sorting.

Open Scope Z_scope.

(** ** Member lists *)

Section duplicates.
Context {K : Type} (enc : K → bytes).

(** [any(|member| !seen.insert(..))]. *)
Fixpoint insert_seen (seen : gset bytes) (members : list K) : bool :=
  match members with
  | [] => false
  | member :: members' =>
      let b := enc member in
      if bool_decide (b ∈ seen) then true else insert_seen ({[b]} ∪ seen) members'
  end.

Lemma insert_seen_spec seen l :
  insert_seen seen l = false ↔
  NoDup (enc <$> l) ∧ ∀ m, m ∈ l → enc m ∉ seen.
Proof.
  revert seen. induction l as [|m l IH]; intros seen; simpl.
  - split; [|done]. intros _. split; [constructor|]. intros m []%elem_of_nil.
  - case_bool_decide as Hm.
    + split; [done|]. intros [_ Hs]. destruct (Hs m); [apply list_elem_of_here|done].
    + rewrite IH, NoDup_cons, list_elem_of_fmap. split.
      * intros [Hn Hs]. split_and!; [|done|].
        -- intros (m' & E & Hm'). apply (Hs m' Hm'). rewrite <-E. set_solver.
        -- intros m' [->|Hm']%elem_of_cons; [done|]. specialize (Hs m' Hm'). set_solver.
      * intros [[Hm' Hn] Hs]. split; [done|]. intros m' Hin [E%elem_of_singleton|E]%elem_of_union.
        -- apply Hm'. exists m'. split; [by symmetry|done].
        -- apply (Hs m'); [by apply list_elem_of_further|done].
Qed.

(** The duplicate test is exact where the encoding separates keys. *)
Lemma insert_seen_nodup `{!Inj (=) (=) enc} l : insert_seen ∅ l = false ↔ NoDup l.
Proof.
  rewrite insert_seen_spec. split.
  - intros [Hn _]. by eapply NoDup_fmap_1.
  - intros Hn. split; [by apply NoDup_fmap_2|]. set_solver.
Qed.

End duplicates.

Section positions.
Context {K : Type} `{EqDecision K}.

(** [iter().position(|pk| pk == member)]. *)
Fixpoint position (member : K) (l : list K) : option nat :=
  match l with
  | [] => None
  | pk :: l' => if bool_decide (pk = member) then Some 0%nat else S <$> position member l'
  end.

Lemma position_spec m l i : NoDup l → position m l = Some i ↔ l !! i = Some m.
Proof.
  intros Hn. revert i. induction Hn as [|pk l Hni _ IH]; intros i; simpl; [done|].
  case_bool_decide as E.
  - subst. destruct i as [|i]; simpl; [done|]. split; [done|].
    intros Hi%list_elem_of_lookup_2. done.
  - rewrite fmap_Some. destruct i as [|i]; simpl.
    + split; [by intros (? & _ & ?)|by intros [= ?]].
    + setoid_rewrite IH. naive_solver.
Qed.

Lemma position_None m l : NoDup l → position m l = None ↔ m ∉ l.
Proof.
  intros Hn. rewrite eq_None_not_Some. apply not_iff_compat. rewrite list_elem_of_lookup.
  unfold is_Some. by setoid_rewrite position_spec.
Qed.
End positions.

(** ** Bitmaps and pairs *)

(** [iter().enumerate().filter_map(|(i, set)| set.then_some(i))]. *)
Definition then_some (x : nat * bool) : option nat := if snd x then Some (fst x) else None.
Definition set_indices (bits : list bool) : list nat := omap then_some (imap pair bits).

(** The pairs' sorting key. *)
Definition pair_index {A} (e : nat * A) : Z := Z.of_nat (fst e).

(** [None] where [set] on an index out of range would panic. *)
Definition set_bits `{BitListOps} (bits : BitList) (indices : list nat) : option BitList :=
  foldl (λ acc i, b ← acc; bl_set b i true) (Some bits) indices.

(** ** The set bits of a bit string *)

Lemma set_indices_cons b bits :
  set_indices (b :: bits) = (if b then [0%nat] else []) ++ (S <$> set_indices bits).
Proof.
  unfold set_indices. rewrite imap_cons. cbn [omap list_omap].
  assert (E : imap (pair ∘ S) bits = prod_map S id <$> imap pair bits).
  { rewrite fmap_imap. apply imap_ext. done. }
  rewrite E. assert (∀ l, omap then_some (prod_map S id <$> l) = S <$> omap then_some l) as ->.
  { intros l. induction l as [|[i []] l IH]; [done|simpl; unfold then_some at 1; simpl; by f_equal|].
    simpl. unfold then_some at 1. exact IH. }
  by destruct b.
Qed.

Lemma elem_of_set_indices bits i : i ∈ set_indices bits ↔ bits !! i = Some true.
Proof.
  revert i. induction bits as [|b bits IH]; intros i; [by rewrite elem_of_nil|].
  rewrite set_indices_cons, elem_of_app, list_elem_of_fmap. setoid_rewrite IH.
  destruct i as [|i]; simpl.
  - destruct b; [rewrite list_elem_of_singleton|rewrite elem_of_nil]; naive_solver.
  - destruct b; [rewrite list_elem_of_singleton|rewrite elem_of_nil]; naive_solver.
Qed.

Lemma set_indices_sorted bits : StronglySorted lt (set_indices bits).
Proof.
  induction bits as [|b bits IH]; [constructor|]. rewrite set_indices_cons.
  assert (StronglySorted lt (S <$> set_indices bits)) as HS.
  { clear -IH. induction IH as [|x l _ IH Hx]; simpl; [constructor|]. constructor; [done|].
    apply Forall_fmap. eapply Forall_impl; [exact Hx|]. simpl. lia. }
  destruct b; simpl; [|done]. constructor; [done|]. apply Forall_fmap, Forall_true. simpl. lia.
Qed.

Lemma length_set_indices bits : length (set_indices bits) = length (filter Is_true bits).
Proof.
  induction bits as [|b bits IH]; [done|]. rewrite set_indices_cons, length_app, length_fmap, IH.
  by destruct b.
Qed.

Lemma sorted_lt_unique (l k : list nat) :
  StronglySorted lt l → StronglySorted lt k → (∀ i, i ∈ l ↔ i ∈ k) → l = k.
Proof.
  intros Hl. revert k. induction Hl as [|a l _ IH Ha]; intros k Hk He.
  - destruct k as [|b k]; [done|]. specialize (He b). set_solver.
  - destruct Hk as [|b k Hk Hb]; [specialize (He a); set_solver|].
    rewrite Forall_forall in Ha, Hb.
    assert (a = b) as ->.
    { destruct (decide (a = b)) as [|Hne]; [done|].
      assert (a ∈ k) as Hak by (specialize (He a); set_solver).
      assert (b ∈ l) as Hbl by (specialize (He b); set_solver).
      specialize (Ha b Hbl). specialize (Hb a Hak). lia. }
    f_equal. apply IH; [done|]. intros i. specialize (He i). rewrite !elem_of_cons in He.
    split; intros Hi; [specialize (Ha i Hi)|specialize (Hb i Hi)]; destruct He as [H1 H2];
      [destruct (H1 (or_intror Hi))|destruct (H2 (or_intror Hi))]; (done || lia).
Qed.

(** ** Pairs in index order *)

Section pairs.
Context {Sg : Type}.

Lemma sorted_indices (l : list (nat * Sg)) :
  StronglySorted (key_lt pair_index) l → StronglySorted lt (fst <$> l).
Proof.
  induction 1 as [|x l _ IH Hx]; simpl; constructor; [done|]. apply Forall_fmap.
  eapply Forall_impl; [exact Hx|]. intros y. unfold key_lt, pair_index. simpl. lia.
Qed.

Lemma sorted_nodup (l : list (nat * Sg)) :
  StronglySorted (key_le pair_index) l →
  any_adjacent (λ a b, pair_index a =? pair_index b) l = false ↔ NoDup (fst <$> l).
Proof.
  intros Hs. rewrite any_adjacent_dup by done. split.
  - intros Hl%sorted_indices. clear Hs. induction Hl as [|i l' _ IH Hi]; constructor; [|done].
    intros Hin. rewrite Forall_forall in Hi. specialize (Hi i Hin). lia.
  - induction Hs as [|x l _ IH Hx]; intros Hn; constructor; inversion Hn as [|?? Hni Hn']; subst;
      [by apply IH|]. rewrite Forall_forall in Hx |- *. intros y Hy. specialize (Hx y Hy).
    unfold key_le, key_lt, pair_index in *.
    assert (x.1 ≠ y.1) by (intros E; apply Hni; rewrite E; by apply list_elem_of_fmap_2). lia.
Qed.

Lemma last_bound (l : list (nat * Sg)) n x :
  StronglySorted (key_le pair_index) l → last l = Some x → (x.1 < n)%nat →
  Forall (λ y, y.1 < n)%nat l.
Proof.
  intros Hs. induction Hs as [|y l _ IH Hy]; intros Hlast Hx; [constructor|].
  destruct l as [|z l].
  - injection Hlast as ->. by repeat constructor.
  - specialize (IH Hlast Hx). constructor; [|done].
    inversion IH; subst. inversion Hy as [|?? Hyz _]; subst.
    unfold key_le, pair_index in Hyz. lia.
Qed.

Lemma zip_fst_snd {A B} (l : list (A * B)) : zip (fst <$> l) (snd <$> l) = l.
Proof. induction l as [|[] l IH]; simpl; [done|by f_equal]. Qed.

(** The order in which the pairs were collected does not matter. *)
Lemma sort_perm (l k : list (nat * Sg)) :
  l ≡ₚ k → NoDup (fst <$> l) → sort_by_key pair_index l = sort_by_key pair_index k.
Proof.
  intros Hp Hnd.
  assert (∀ m, m ≡ₚ l → StronglySorted (key_lt pair_index) (sort_by_key pair_index m)) as Hs.
  { intros m Hm. apply any_adjacent_dup; [apply sort_by_key_sorted|].
    apply sorted_nodup; [apply sort_by_key_sorted|]. by rewrite sort_by_key_perm, Hm. }
  eapply (StronglySorted_unique_strong (key_lt pair_index)); [|by apply Hs|by apply Hs|].
  - intros x y _ _. unfold key_lt. lia.
  - by rewrite !sort_by_key_perm.
Qed.

(** There are at most [n] distinct indices below [n]. *)
Lemma distinct_below n (l : list (nat * Sg)) :
  NoDup (fst <$> l) → Forall (λ x, x.1 < n)%nat l → (length l ≤ n)%nat.
Proof.
  intros Hnd Hb. assert (Hs : fst <$> l ⊆+ seq 0 n).
  { apply NoDup_submseteq; [done|]. intros i Hi. apply elem_of_seq.
    apply list_elem_of_fmap in Hi as (x & -> & Hx). rewrite Forall_forall in Hb.
    specialize (Hb x Hx). lia. }
  apply submseteq_length in Hs. by rewrite length_fmap, length_seq in Hs.
Qed.

(** The two tests on the sorted pairs together are the test on the pairs. *)
Lemma last_test (l : list (nat * Sg)) n :
  match last (sort_by_key pair_index l) with Some x => (n <=? x.1)%nat | None => false end = false ↔
  Forall (λ x, x.1 < n)%nat l.
Proof.
  rewrite <-(sort_by_key_perm pair_index l) at 2.
  destruct (last (sort_by_key pair_index l)) as [x|] eqn:E.
  - rewrite Nat.leb_gt. split.
    + intros Hx. by eapply last_bound; [apply sort_by_key_sorted|..].
    + apply last_Some in E as [k ->]. rewrite Forall_app, Forall_cons. naive_solver.
  - apply last_None in E. by rewrite E.
Qed.
End pairs.

(** ** Setting the named bits *)

Section bit_laws.
Context `{BLL : BitListLaws}.

Lemma set_bits_Some bits idx :
  Forall (λ i, i < bl_len bits)%nat idx →
  ∃ bits', set_bits bits idx = Some bits' ∧ bl_len bits' = bl_len bits ∧
    ∀ i, bl_iter bits' !! i = Some true ↔ i ∈ idx ∨ bl_iter bits !! i = Some true.
Proof.
  unfold set_bits. revert bits. induction idx as [|j idx IH]; intros bits Hall; simpl.
  - exists bits. split_and!; [done..|]. intros i. rewrite elem_of_nil. naive_solver.
  - inversion Hall as [|?? Hj Hidx]; subst.
    destruct (bl_set_Some bits j true Hj) as (bits1 & -> & Hit).
    assert (bl_len bits1 = bl_len bits) as Hl by (by rewrite !bl_len_iter, Hit, length_insert).
    destruct (IH bits1) as (bits' & -> & Hl' & Hi); [by rewrite Hl|].
    exists bits'. split_and!; [done|congruence|]. intros i. rewrite Hi, Hit, elem_of_cons.
    rewrite bl_len_iter in Hj. destruct (decide (i = j)) as [->|Hne].
    + rewrite list_lookup_insert_eq by done. naive_solver.
    + rewrite list_lookup_insert_ne by done. naive_solver.
Qed.

(** Distinct indices in range make a bitmap that names exactly them. *)
Lemma pack_ok {Sg} n (l : list (nat * Sg)) :
  StronglySorted (key_lt pair_index) l → Forall (λ x, x.1 < n)%nat l → (n ≤ 2048)%nat →
  ∃ bits bits', bl_with_capacity n = Some bits ∧ set_bits bits (fst <$> l) = Some bits' ∧
    bl_len bits' = n ∧ set_indices (bl_iter bits') = fst <$> l.
Proof.
  intros Hlt Hbound Hn. destruct (bl_with_capacity_Some n Hn) as (bits & E & Hbits).
  assert (bl_len bits = n) as Hlen by (by rewrite bl_len_iter, Hbits, length_replicate).
  destruct (set_bits_Some bits (fst <$> l)) as (bits' & E' & Hlen' & Hi).
  { rewrite Hlen. by apply Forall_fmap. }
  exists bits, bits'. split_and!; [done..|congruence|].
  apply sorted_lt_unique; [apply set_indices_sorted|by apply sorted_indices|].
  intros i. rewrite elem_of_set_indices, Hi, Hbits, lookup_replicate. naive_solver.
Qed.

Lemma count_indices bits : bl_num_set_bits bits = length (set_indices (bl_iter bits)).
Proof. by rewrite bl_count_iter, length_set_indices. Qed.

(** Every index a bitmap names is a bit of it. *)
Lemma set_indices_range bits i : i ∈ set_indices (bl_iter bits) → (i < bl_len bits)%nat.
Proof. rewrite elem_of_set_indices, bl_len_iter. apply lookup_lt_Some. Qed.
End bit_laws.

(** ** Signatures at their seats *)

Lemma NoDup_omap_lookup {K} (l : list K) (idx : list nat) :
  NoDup l → NoDup idx → NoDup (omap (λ i, l !! i) idx).
Proof.
  intros Hl Hi. induction Hi as [|i idx Hni _ IH]; simpl; [constructor|].
  destruct (l !! i) as [pk|] eqn:E; [|done]. constructor; [|done].
  intros (j & Hj & E')%list_elem_of_omap. assert (i = j) as -> by (exact (NoDup_lookup l i j pk Hl E E')). done.
Qed.

Lemma length_omap_lookup {K} (l : list K) (idx : list nat) :
  Forall (λ i, i < length l)%nat idx → length (omap (λ i, l !! i) idx) = length idx.
Proof.
  induction 1 as [|i idx Hi _ IH]; simpl; [done|].
  destruct (lookup_lt_is_Some_2 l i Hi) as [pk ->]. simpl. by f_equal.
Qed.

Lemma sorted_lt_nodup (l : list nat) : StronglySorted lt l → NoDup l.
Proof.
  induction 1 as [|i l _ IH Hi]; constructor; [|done]. intros Hin.
  rewrite Forall_forall in Hi. specialize (Hi i Hin). lia.
Qed.

(** Set bits paired with signatures that each satisfy [P] for the key of the
    seat: as many distinct members as bits. *)
Lemma seated {K Sg} (ms : list K) (idx : list nat) (sigs : list Sg) (P : K → Sg → Prop) :
  NoDup ms → StronglySorted lt idx → length idx = length sigs →
  Forall (λ i, i < length ms)%nat idx →
  Forall (λ x, ∃ pk, ms !! x.1 = Some pk ∧ P pk x.2) (zip idx sigs) →
  ∃ pks, NoDup pks ∧ length pks = length idx ∧
    ∀ pk, pk ∈ pks → pk ∈ ms ∧ ∃ sig, sig ∈ sigs ∧ P pk sig.
Proof.
  intros Hms Hidx Hlen Hin Hall. exists (omap (λ i, ms !! i) idx). split_and!.
  - apply NoDup_omap_lookup; [done|by apply sorted_lt_nodup].
  - by apply length_omap_lookup.
  - intros pk (i & Hi & Hpk)%list_elem_of_omap. split; [by eapply list_elem_of_lookup_2|].
    apply list_elem_of_lookup in Hi as [k Hk].
    destruct (lookup_lt_is_Some_2 sigs k) as [sig Hsig].
    { rewrite <-Hlen. by eapply lookup_lt_Some. }
    rewrite Forall_lookup in Hall. destruct (Hall k (i, sig)) as (pk' & E & HP).
    { rewrite lookup_zip_with. by rewrite Hk, Hsig. }
    simpl in *. simplify_eq. exists sig. split; [by eapply list_elem_of_lookup_2|done].
Qed.

(** The keys of the named seats, collected with their signatures. *)
Lemma collect_seats {K Sg} (ms : list K) (pairs : list (nat * Sg)) :
  Forall (λ x, x.1 < length ms)%nat pairs →
  ∃ raws, collect_results (λ '(i, signature),
      let? pk := ok_or (ms !! i) "index out of bounds"%string in Ok (pk, signature)) pairs = Ok raws ∧
    length raws = length pairs ∧ fst <$> raws = omap (λ i, ms !! i) (fst <$> pairs) ∧
    ∀ r, r ∈ raws → ∃ i, ms !! i = Some r.1 ∧ (i, r.2) ∈ pairs.
Proof.
  induction 1 as [|[i sig] pairs Hi _ (raws & E & Hl & Hf & Hin)].
  { exists []. split_and!; try done. intros r Hr. by apply elem_of_nil in Hr. }
  simpl in Hi. apply lookup_lt_is_Some in Hi as [pk Hpk]. exists ((pk, sig) :: raws). split_and!.
  - cbn [collect_results]. rewrite Hpk. simpl. by rewrite E.
  - simpl. by rewrite Hl.
  - simpl. rewrite Hpk. by f_equal.
  - intros r [->|Hr]%elem_of_cons; [exists i; split; [done|apply list_elem_of_here]|].
    destruct (Hin r Hr) as (j & ? & ?). exists j. split; [done|by apply list_elem_of_further].
Qed.

Lemma lookups_omap {K} (ms : list K) (idx : list nat) :
  Forall (λ i, i < length ms)%nat idx → (λ i, ms !! i) <$> idx = Some <$> omap (λ i, ms !! i) idx.
Proof.
  induction 1 as [|i idx Hi _ IH]; [done|]. apply lookup_lt_is_Some in Hi as [pk Hpk].
  simpl. rewrite Hpk. simpl. by f_equal.
Qed.
