(* ===== verification/StatusLists.v ===== *)
(** * Published status-list records (src/protocol/status_list.rs)

    The two wire records, their canonical encodings, and the message the
    committee signs.  The SSZ codec of the two wire schemas, the bit list and
    leanVM's aggregate are interfaces of [External]. *)
From S2P Require Import Prelude External Instances Seats.
From stdpp Require Import sorting.

Open Scope Z_scope.

Section status_lists.
Context `{HH : Hashes} `{XX : Xmss} `{VM : !LeanVm} `{BL : BitListOps}.

(** ** Data *)

Inductive Algorithms := WotsXmss.
#[export] Instance Algorithms_eq_dec : EqDecision Algorithms.
Proof. solve_decision. Defined.

Record RawStatusListWire := mkRawWire {
  rw_alg : Z;
  rw_status_list : list bytes;
  rw_version : Z;
  rw_signers : BitList;
  rw_signatures : list XmssSignature;
}.

Record SnarkStatusListWire := mkSnarkWire {
  sw_alg : Z;
  sw_status_list : list bytes;
  sw_version : Z;
  sw_zk_proof : bytes;
}.

(** The values the two schemas can express: [u8], [[u8; 32]], [u32]. *)
Definition wf_entries (l : list bytes) : Prop := Forall (λ e, length e = 32%nat) l.
Definition wf_raw_wire (w : RawStatusListWire) : Prop :=
  0 ≤ rw_alg w < 256 ∧ wf_entries (rw_status_list w) ∧ is_u32 (rw_version w).
Definition wf_snark_wire (w : SnarkStatusListWire) : Prop :=
  0 ≤ sw_alg w < 256 ∧ wf_entries (sw_status_list w) ∧ is_u32 (sw_version w).

Context `{SR : !Ssz RawStatusListWire} `{SS : !Ssz SnarkStatusListWire}.

Definition algorithm_tag (alg : Algorithms) : Z :=
  match alg with WotsXmss => 1 end.

Definition algorithm_from_tag (tag : Z) : result Algorithms string :=
  if tag =? 1 then Ok WotsXmss
  else if tag =? 0 then Err "status-list algorithm tag 0 is retired"%string
  else Err ("unknown status-list algorithm tag " +:+ pretty tag)%string.

Definition hash_any (data : bytes) : bytes := sha3_256 data.

(** ** The signed message *)

Definition MESSAGE_FORMAT : Z := 2.
Definition DOMAIN_CONTEXT : bytes :=
  ascii_bytes (str "decentralized-root-of-trust/status-list-domain").
Definition MESSAGE_CONTEXT : bytes :=
  ascii_bytes (str "decentralized-root-of-trust/status-list-message").

Definition Domain : Type := bytes.

(** [Domain::new]: what the hasher was fed, in order. *)
Definition domain_preimage (anchor_fingerprint : bytes) (alg : Algorithms) : bytes :=
  DOMAIN_CONTEXT ++ u32_le MESSAGE_FORMAT ++ [byte_of_Z (algorithm_tag alg)] ++ anchor_fingerprint.
Definition domain_new (anchor_fingerprint : bytes) (alg : Algorithms) : Domain :=
  blake2s_256 (domain_preimage anchor_fingerprint alg).

Definition message_preimage (domain : Domain) (list : list bytes) (version : Z) : bytes :=
  MESSAGE_CONTEXT ++ domain ++ u32_le version ++ u64_le (Z.of_nat (length list)) ++ mjoin list.

Definition status_list_message (domain : Domain) (list : list bytes) (version : Z) : bytes :=
  blake2s_256 (message_preimage domain list version).

(** ** The SNARK-attested record *)

Record SnarkStatusList := mkSnarkStatusList {
  sn_alg : Algorithms;
  sn_status_list : list bytes;
  sn_version : Z;
  sn_zk_proof : bytes;
}.

Definition proof (s : SnarkStatusList) : result AggregateSignature string :=
  let? value := map_err (λ e, ("proof not deserializable: " +:+ e)%string)
                  (agg_from_bytes (sn_zk_proof s)) in
  if negb (bool_decide (agg_to_bytes value = sn_zk_proof s))
  then Err "proof is not canonically encoded"%string
  else Ok value.

Record DecodedSnarkStatusList := mkDecoded {
  record : SnarkStatusList;
  aggregate : AggregateSignature;
}.

Definition decode (s : SnarkStatusList) : result DecodedSnarkStatusList string :=
  let? aggregate := proof s in Ok (mkDecoded s aggregate).

Definition snark_to_bytes (s : SnarkStatusList) : bytes :=
  as_ssz_bytes (mkSnarkWire (algorithm_tag (sn_alg s)) (sn_status_list s) (sn_version s)
                  (sn_zk_proof s)).

Definition snark_from_bytes (b : bytes) : result SnarkStatusList string :=
  let? value := map_err (λ e, ("SNARK status list is not valid SSZ: " +:+ e)%string)
                  (from_ssz_bytes (A := SnarkStatusListWire) b) in
  let? alg := algorithm_from_tag (sw_alg value) in
  Ok (mkSnarkStatusList alg (sw_status_list value) (sw_version value) (sw_zk_proof value)).

(** ** The raw record *)

Record StatusList := mkStatusList {
  sl_alg : Algorithms;
  sl_status_list : list bytes;
  sl_version : Z;
  sl_signers : BitList;
  sl_signatures : list XmssSignature;
}.

Definition signer_slots (s : StatusList) : nat := bl_len (sl_signers s).
Definition signer_count (s : StatusList) : nat := bl_num_set_bits (sl_signers s).

Definition signer_indices (s : StatusList) : list nat := set_indices (bl_iter (sl_signers s)).

(** [StatusList::new]; the panic of [expect] is the [Err] it names, and
    [status_list_new_ok] shows it is never reached. *)
Definition status_list_new (alg : Algorithms) (status_list : list bytes) (version : Z)
    (n_members : nat) (signatures : list (nat * XmssSignature)) : result StatusList string :=
  let signatures := sort_by_key pair_index signatures in
  if any_adjacent (λ a b, pair_index a =? pair_index b) signatures
  then Err "duplicate signer index"%string
  else
    let? _ := match last signatures with
              | Some (i, _) =>
                  if (n_members <=? i)%nat
                  then Err ("signer index " +:+ pretty i +:+ " outside a committee of " +:+
                            pretty n_members)%string
                  else Ok tt
              | None => Ok tt
              end in
    let? signers := ok_or (bl_with_capacity n_members)
      ("committee of " +:+ pretty n_members +:+ " exceeds the ceiling of 2048")%string in
    let? signers := ok_or (set_bits signers (fst <$> signatures))
      "index bounded by n_members above"%string in
    Ok (mkStatusList alg status_list version signers (snd <$> signatures)).

Definition to_bytes (s : StatusList) : bytes :=
  as_ssz_bytes (mkRawWire (algorithm_tag (sl_alg s)) (sl_status_list s) (sl_version s)
                  (sl_signers s) (sl_signatures s)).

Definition from_bytes (b : bytes) : result StatusList string :=
  let? value := map_err (λ e, ("raw status list is not valid SSZ: " +:+ e)%string)
                  (from_ssz_bytes (A := RawStatusListWire) b) in
  let? alg := algorithm_from_tag (rw_alg value) in
  let value := mkStatusList alg (rw_status_list value) (rw_version value) (rw_signers value)
                 (rw_signatures value) in
  if negb (signer_count value =? length (sl_signatures value))%nat
  then Err ("bitmap names " +:+ pretty (signer_count value) +:+ " signers but " +:+
            pretty (length (sl_signatures value)) +:+ " signatures are present")%string
  else Ok value.

(** ** [Display] *)

Definition newline : string := String (Ascii.ascii_of_nat 10) "".

Definition write_hex (b : bytes) : string :=
  String.string_of_list_byte (ascii_bytes (hex b)).

Definition display_algorithm (alg : Algorithms) : string :=
  match alg with WotsXmss => "WOTS-XMSS-BLAKE2s" end.

Definition write_common (alg : Algorithms) (version : Z) (entries : list bytes) : string :=
  "  alg        : " +:+ display_algorithm alg +:+ newline +:+
  "  version    : " +:+ pretty version +:+ newline +:+
  "  status_list: " +:+ pretty (length entries) +:+ " entr" +:+
  (if (length entries =? 1)%nat then "y" else "ies") +:+ newline +:+
  String.concat ""
    (imap (λ i entry, "      [" +:+ pretty i +:+ "] 0x" +:+ write_hex entry +:+ newline) entries).

Definition display_snark_status_list (s : SnarkStatusList) : string :=
  "SnarkStatusList {" +:+ newline +:+
  write_common (sn_alg s) (sn_version s) (sn_status_list s) +:+
  "  proof      : " +:+ pretty (length (sn_zk_proof s)) +:+ " bytes 0x" +:+
  write_hex (sn_zk_proof s) +:+ newline +:+ "}".

Definition display_status_list (s : StatusList) : string :=
  "StatusList {" +:+ newline +:+
  write_common (sl_alg s) (sl_version s) (sl_status_list s) +:+
  "  signers    : " +:+ pretty (signer_count s) +:+ " of " +:+
  pretty (bl_len (sl_signers s)) +:+ " members [" +:+ newline +:+ "      " +:+
  String.concat ", " (pretty <$> signer_indices s) +:+ newline +:+ "  ]" +:+ newline +:+
  "  signatures : " +:+ pretty (length (sl_signatures s)) +:+ newline +:+ "}".

(** ** The constructor *)

Section bit_laws.
Context `{BLL : !BitListLaws}.

(** What the two public bounds and distinctness mean. *)
Definition acceptable (n_members : nat) (signatures : list (nat * XmssSignature)) : Prop :=
  NoDup (fst <$> signatures) ∧ Forall (λ x, x.1 < n_members)%nat signatures ∧
  (n_members ≤ 2048)%nat.

(** The bitmap and the signatures name exactly the given pairs, in index order. *)
Definition canonical (n_members : nat) (signatures : list (nat * XmssSignature)) (r : StatusList) :
    Prop :=
  signer_slots r = n_members ∧ signer_count r = length (sl_signatures r) ∧
  zip (signer_indices r) (sl_signatures r) = sort_by_key pair_index signatures.

Lemma signer_count_indices r : signer_count r = length (signer_indices r).
Proof. apply count_indices. Qed.

Lemma match_iff {A E} (X : result A E) (P P' : Prop) (Q : A → Prop) (Q' : E → Prop) :
  (P ↔ P') → match X with Ok r => P' ∧ Q r | Err e => ¬ P' ∧ Q' e end →
  match X with Ok r => P ∧ Q r | Err e => ¬ P ∧ Q' e end.
Proof. destruct X; tauto. Qed.

(** Past the checks, the construction succeeds and is canonical. *)
Lemma built_ok alg list version n l signatures :
  l = sort_by_key pair_index signatures →
  StronglySorted (key_lt pair_index) l → NoDup (fst <$> l) →
  Forall (λ x, x.1 < n)%nat l → (n ≤ 2048)%nat →
  match (let? signers := ok_or (bl_with_capacity n)
           ("committee of " +:+ pretty n +:+ " exceeds the ceiling of 2048")%string in
         let? signers := ok_or (set_bits signers (fst <$> l))
           "index bounded by n_members above"%string in
         Ok (mkStatusList alg list version signers (snd <$> l))) with
  | Ok r => (NoDup (fst <$> l) ∧ Forall (λ x, x.1 < n)%nat l ∧ (n ≤ 2048)%nat) ∧
            canonical n signatures r ∧
            sl_alg r = alg ∧ sl_status_list r = list ∧ sl_version r = version
  | Err e => ¬ (NoDup (fst <$> l) ∧ Forall (λ x, x.1 < n)%nat l ∧ (n ≤ 2048)%nat) ∧
             e ≠ "index bounded by n_members above"%string
  end.
Proof.
  intros El Hlt Hdup Hbound Hn.
  destruct (pack_ok n l Hlt Hbound Hn) as (bits & bits' & -> & E & Hlen & Hidx).
  cbn [ok_or result_bind]. rewrite E. cbn [ok_or result_bind]. split; [done|]. split; [|done].
  split_and!; [exact Hlen| |].
  - rewrite signer_count_indices. unfold signer_indices. simpl. by rewrite Hidx, !length_fmap.
  - unfold signer_indices. simpl. by rewrite Hidx, zip_fst_snd, El.
Qed.

Lemma status_list_new_ok alg list version n_members signatures :
  match status_list_new alg list version n_members signatures with
  | Ok r => acceptable n_members signatures ∧ canonical n_members signatures r ∧
            sl_alg r = alg ∧ sl_status_list r = list ∧ sl_version r = version
  | Err e => ¬ acceptable n_members signatures ∧ e ≠ "index bounded by n_members above"%string
  end.
Proof.
  unfold status_list_new, acceptable. cbv zeta.
  set (l := sort_by_key pair_index signatures).
  assert (Hperm : l ≡ₚ signatures) by apply sort_by_key_perm.
  assert (Hs : StronglySorted (key_le pair_index) l) by apply sort_by_key_sorted.
  eapply (match_iff _ _ (NoDup (fst <$> l) ∧ Forall (λ x, x.1 < n_members)%nat l ∧
    (n_members ≤ 2048)%nat)); [by rewrite Hperm|]. destruct (any_adjacent _ l) eqn:Hdup.
  { split; [|done]. intros (H & _). apply sorted_nodup in H; [congruence|done]. }
  pose proof Hdup as Hlt%any_adjacent_dup; [|done]. apply sorted_nodup in Hdup; [|done].
  pose proof (last_test signatures n_members) as Hlast. fold l in Hlast.
  rewrite <-Hperm in Hlast.
  destruct (last l) as [[i s]|]; simpl in Hlast; [destruct (n_members <=? i)%nat|];
    cbn [result_bind].
  { split; [|done]. intros (_ & H' & _). by apply Hlast in H'. }
  all: assert (Hbound := proj1 Hlast eq_refl).
  all: destruct (decide (n_members ≤ 2048)%nat) as [Hn|Hn];
    [|rewrite bl_with_capacity_None by lia; cbn [ok_or result_bind];
      split; [intros (_ & _ & ?); lia|done]].
  all: by apply built_ok.
Qed.

(** [StatusList::new] accepts exactly distinct indices inside a committee of a
    supported size, and what it builds is canonical: as many slots as members,
    as many set bits as signatures, and bit and signature paired in index order
    as the caller paired them; no call reaches the [expect]. *)
Theorem status_list_new_spec alg list version n_members signatures :
  match status_list_new alg list version n_members signatures with
  | Ok r => acceptable n_members signatures ∧ canonical n_members signatures r ∧
            sl_alg r = alg ∧ sl_status_list r = list ∧ sl_version r = version
  | Err e => ¬ acceptable n_members signatures ∧ e ≠ "index bounded by n_members above"%string
  end.
Proof. apply status_list_new_ok. Qed.

(** C35 The record depends on the set of collected pairs only: two collections
    that are permutations of each other build the same record, or are refused
    with the same error. *)
Theorem status_list_new_perm alg list version n l k :
  l ≡ₚ k → status_list_new alg list version n l = status_list_new alg list version n k.
Proof.
  intros Hp. unfold status_list_new. cbv zeta.
  destruct (decide (NoDup (fst <$> l))) as [Hnd|Hnd]; [by rewrite (sort_perm l k)|].
  destruct (any_adjacent _ (sort_by_key pair_index l)) eqn:El,
    (any_adjacent _ (sort_by_key pair_index k)) eqn:Ek; [done|..].
  all: (apply sorted_nodup in El; [|apply sort_by_key_sorted]) ||
       (apply sorted_nodup in Ek; [|apply sort_by_key_sorted]);
    destruct Hnd; rewrite ?sort_by_key_perm in *; (exact El || by rewrite Hp).
Qed.
End bit_laws.

(** ** Round trips *)

Section codec.
Context `{LR : !SszLaws RawStatusListWire wf_raw_wire}.
Context `{LS : !SszLaws SnarkStatusListWire wf_snark_wire}.

Definition wf_status_list (s : StatusList) : Prop :=
  wf_entries (sl_status_list s) ∧ is_u32 (sl_version s) ∧
  signer_count s = length (sl_signatures s).

Definition wf_snark_status_list (s : SnarkStatusList) : Prop :=
  wf_entries (sn_status_list s) ∧ is_u32 (sn_version s).

Lemma algorithm_tag_roundtrip alg : algorithm_from_tag (algorithm_tag alg) = Ok alg.
Proof. by destruct alg. Qed.

Lemma algorithm_from_tag_Ok tag alg : algorithm_from_tag tag = Ok alg → tag = algorithm_tag alg.
Proof.
  unfold algorithm_from_tag. destruct (Z.eqb_spec tag 1) as [->|]; [by destruct alg|].
  by destruct (tag =? 0).
Qed.

Lemma raw_codec s b :
  (wf_status_list s → from_bytes (to_bytes s) = Ok s) ∧
  (from_bytes b = Ok s → to_bytes s = b ∧ wf_status_list s).
Proof.
  split.
  - intros (He & Hv & Hc). unfold from_bytes, to_bytes.
    rewrite (ssz_from_as (wf := wf_raw_wire)) by (split_and!; [by destruct (sl_alg s)|by destruct (sl_alg s)|done|done]).
    simpl. rewrite algorithm_tag_roundtrip. simpl. destruct s; simpl in *.
    unfold signer_count in *. simpl in *. by rewrite Hc, Nat.eqb_refl.
  - unfold from_bytes. intros (w & Hw & Hrest)%result_bind_Ok.
    destruct (from_ssz_bytes b) as [w'|] eqn:E; [|done]. injection Hw as ->.
    apply result_bind_Ok in Hrest as (alg & Ha & Hrest). apply algorithm_from_tag_Ok in Ha.
    destruct (_ =? _)%nat eqn:Hc; [|done]. injection Hrest as <-.
    pose proof (ssz_from_wf (wf := wf_raw_wire) _ _ E) as (_ & He & Hv). apply Nat.eqb_eq in Hc. split.
    + rewrite <-(ssz_as_from (wf := wf_raw_wire) _ _ E). unfold to_bytes. simpl. f_equal. destruct w; simpl in *. by f_equal.
    + by split_and!.
Qed.

(** C32 The raw record has exactly one wire form: every well-formed record decodes
    from its encoding, a byte string that decodes is the encoding of what it
    decodes to, and that is a well-formed record whose bitmap names as many
    members as there are signatures. *)
Theorem status_list_roundtrip s b :
  (wf_status_list s → from_bytes (to_bytes s) = Ok s) ∧
  (from_bytes b = Ok s → to_bytes s = b ∧ wf_status_list s).
Proof. apply raw_codec. Qed.

Lemma snark_codec s b :
  (wf_snark_status_list s → snark_from_bytes (snark_to_bytes s) = Ok s) ∧
  (snark_from_bytes b = Ok s → snark_to_bytes s = b ∧ wf_snark_status_list s) ∧
  (∀ d, decode s = Ok d → record d = s ∧ agg_to_bytes (aggregate d) = sn_zk_proof s).
Proof.
  split_and!.
  - intros (He & Hv). unfold snark_from_bytes, snark_to_bytes.
    rewrite (ssz_from_as (wf := wf_snark_wire)) by (split_and!; [by destruct (sn_alg s)|by destruct (sn_alg s)|done|done]).
    simpl. rewrite algorithm_tag_roundtrip. by destruct s.
  - unfold snark_from_bytes. intros (w & Hw & Hrest)%result_bind_Ok.
    destruct (from_ssz_bytes b) as [w'|] eqn:E; [|done]. injection Hw as ->.
    apply result_bind_Ok in Hrest as (alg & Ha & Hrest). apply algorithm_from_tag_Ok in Ha.
    injection Hrest as <-. pose proof (ssz_from_wf (wf := wf_snark_wire) _ _ E) as (_ & He & Hv).
    split; [|done].
    rewrite <-(ssz_as_from (wf := wf_snark_wire) _ _ E). unfold snark_to_bytes. simpl.
    destruct w; simpl in *. by rewrite <-Ha.
  - unfold decode, proof. intros d (a & (v & _ & Hv)%result_bind_Ok & [= <-])%result_bind_Ok.
    destruct (negb _) eqn:E; [done|]. injection Hv as ->. by boolify.
Qed.

(** The same for the SNARK record; and a decoded proof is the canonical
    encoding of the aggregate it decodes to. *)
Theorem snark_status_list_roundtrip s b :
  (wf_snark_status_list s → snark_from_bytes (snark_to_bytes s) = Ok s) ∧
  (snark_from_bytes b = Ok s → snark_to_bytes s = b ∧ wf_snark_status_list s) ∧
  (∀ d, decode s = Ok d → record d = s ∧ agg_to_bytes (aggregate d) = sn_zk_proof s).
Proof. apply snark_codec. Qed.
End codec.

(** ** The message framing *)

Lemma message_preimage_inj d d' l l' v v' :
  length d = 32%nat → length d' = 32%nat → wf_entries l → wf_entries l' →
  is_u32 v → is_u32 v' →
  message_preimage d l v = message_preimage d' l' v' → d = d' ∧ l = l' ∧ v = v'.
Proof.
  unfold message_preimage. intros Hd Hd' Hl Hl' Hv Hv' E.
  apply app_inv_head in E. apply app_inj_1 in E as [-> E]; [|congruence].
  apply app_inj_1 in E as [Ev E]; [|unfold u32_le; by rewrite !length_le_bytes].
  apply u32_le_inj in Ev as ->; [|done..].
  apply app_inj_1 in E as [_ E]; [|unfold u64_le; by rewrite !length_le_bytes].
  by apply (mjoin_fixed_inj 32) in E as ->; [|lia|..].
Qed.

Lemma domain_new_length fp alg : length (domain_new fp alg) = 32%nat.
Proof. apply blake2s_256_length. Qed.

Lemma domain_new_inj fp fp' alg alg' :
  domain_new fp alg = domain_new fp' alg' →
  (fp = fp' ∧ alg = alg') ∨ collides blake2s_256 (domain_preimage fp alg) (domain_preimage fp' alg').
Proof.
  intros [E|?]%hash_eq_or_collides; [|by right]. left.
  apply app_inv_head, app_inv_head in E. simpl in E. injection E as _ E.
  split; [done|]. by destruct alg, alg'.
Qed.

(** The signed message is unambiguous: one message stands for one domain, list
    and version, or BLAKE2s collides on the two preimages.  In particular a reordered, truncated or
    renumbered list is another message. *)
Theorem status_list_message_binds d d' l l' v v' :
  length d = 32%nat → length d' = 32%nat → wf_entries l → wf_entries l' →
  is_u32 v → is_u32 v' →
  status_list_message d l v = status_list_message d' l' v' →
  (d = d' ∧ l = l' ∧ v = v') ∨
  collides blake2s_256 (message_preimage d l v) (message_preimage d' l' v').
Proof.
  intros Hd Hd' Hl Hl' Hv Hv' [E|?]%hash_eq_or_collides; [|by right].
  left. by apply message_preimage_inj in E.
Qed.
End status_lists.
