(* ===== verification/Committees.v ===== *)
(** * The trust anchor (src/protocol/committee.rs)

    Who the members are, the threshold, and the slot of every round. *)
From S2P Require Import Prelude External Instances Seats StatusLists.

Open Scope Z_scope.

(** [crate::protocol::MAX_COMMITTEE_SIZE]. *)
Definition MAX_COMMITTEE_SIZE : nat := Z.to_nat 2048.

Section committees.
Context `{HH : Hashes} `{XX : Xmss}.

Record CommitteeWire := mkCommitteeWire {
  cw_members : list XmssPublicKey;
  cw_t : Z;
  cw_genesis_slot : Z;
}.

Definition wf_committee_wire (w : CommitteeWire) : Prop := is_u64 (cw_t w) ∧ is_u32 (cw_genesis_slot w).

Context `{SC : !Ssz CommitteeWire}.

Definition COMMITTEE_FIXED_WIRE_BYTES : Z := 4 + 8 + 4.
Definition XMSS_PUBLIC_KEY_WIRE_BYTES : Z := 32.
Definition MAX_COMMITTEE_WIRE_BYTES : Z :=
  COMMITTEE_FIXED_WIRE_BYTES + Z.of_nat MAX_COMMITTEE_SIZE * XMSS_PUBLIC_KEY_WIRE_BYTES.

(** [t] is a [usize] of a 64-bit target. *)
Record Committee := mkCommittee {
  members : list XmssPublicKey;
  t : Z;
  genesis_slot : Z;
  c_fingerprint : bytes;
}.

Definition has_duplicate_members (members : list XmssPublicKey) : bool := insert_seen xmss_pk_ssz ∅ members.

Definition ensure_member_count_is_supported (n : nat) : result unit string :=
  if (MAX_COMMITTEE_SIZE <? n)%nat
  then Err ("anchor names " +:+ pretty n +:+ " members, above the ceiling of 2048")%string
  else Ok tt.

Definition fingerprint_bytes (b : bytes) : bytes := sha3_256 b.

Definition fingerprint_of (members : list XmssPublicKey) (t genesis_slot : Z) : bytes :=
  fingerprint_bytes (as_ssz_bytes (mkCommitteeWire members t genesis_slot)).

(** [(1..=members.len()).contains(&t)]. *)
Definition threshold_ok (t : Z) (n : nat) : bool := (1 <=? t) && (t <=? Z.of_nat n).

(** [Committee::new]; its three panics are the errors. *)
Definition committee_new (members : list XmssPublicKey) (t genesis_slot : Z) :
    result Committee string :=
  if negb (threshold_ok t (length members))
  then Err ("threshold " +:+ pretty t +:+ " outside 1..=" +:+ pretty (length members) +:+
            " for this committee")%string
  else if negb (length members <=? MAX_COMMITTEE_SIZE)%nat
  then Err ("anchor names " +:+ pretty (length members) +:+
            " members, above the ceiling of 2048")%string
  else if has_duplicate_members members
  then Err "committee members must have distinct public keys"%string
  else Ok (mkCommittee members t genesis_slot (fingerprint_of members t genesis_slot)).

Definition index_of (c : Committee) (member : XmssPublicKey) : option nat :=
  position member (members c).

Definition threshold (c : Committee) : Z := t c.

Definition slot_for (c : Committee) (version : Z) : option Z :=
  checked_add_u32 (genesis_slot c) version.

Definition committee_to_bytes (c : Committee) : bytes :=
  as_ssz_bytes (mkCommitteeWire (members c) (t c) (genesis_slot c)).

(** [usize::try_from(u64)] on a 64-bit target. *)
Definition usize_of_u64 (v : Z) : result Z unit := if v <=? u64_max then Ok v else Err tt.

Definition committee_from_bytes (b : bytes) : result Committee string :=
  if MAX_COMMITTEE_WIRE_BYTES <? Z.of_nat (length b)
  then Err ("anchor wire size " +:+ pretty (length b) +:+
            " B is above the ceiling of 65552 B for 2048 members")%string
  else
    let? value := map_err (λ e, ("committee is not valid SSZ: " +:+ e)%string)
                    (from_ssz_bytes (A := CommitteeWire) b) in
    let? t := map_err (λ _, ("anchor threshold " +:+ pretty (cw_t value) +:+ " too large")%string)
                (usize_of_u64 (cw_t value)) in
    let? _ := ensure_member_count_is_supported (length (cw_members value)) in
    if negb (threshold_ok t (length (cw_members value)))
    then Err ("anchor threshold " +:+ pretty t +:+ " outside 1..=" +:+
              pretty (length (cw_members value)))%string
    else if has_duplicate_members (cw_members value)
    then Err "anchor contains duplicate member public keys"%string
    else Ok (mkCommittee (cw_members value) t (cw_genesis_slot value) (fingerprint_bytes b)).

Definition domain (c : Committee) (alg : Algorithms) : Domain := domain_new (c_fingerprint c) alg.

Definition message_for (c : Committee) (alg : Algorithms) (list : list bytes) (version : Z) :
    bytes := status_list_message (domain c alg) list version.

(** ** Well-formed anchors *)

Record wf_committee (c : Committee) : Prop := {
  wc_threshold : 1 ≤ t c ≤ Z.of_nat (length (members c));
  wc_size : (length (members c) ≤ MAX_COMMITTEE_SIZE)%nat;
  wc_distinct : NoDup (members c);
  wc_genesis : is_u32 (genesis_slot c);
  wc_fingerprint : c_fingerprint c = fingerprint_of (members c) (t c) (genesis_slot c);
}.

(** The duplicate test is exact. *)
Lemma has_duplicate_members_spec l : has_duplicate_members l = false ↔ NoDup l.
Proof. apply insert_seen_nodup, xmss_pk_ssz_inj. Qed.

Lemma threshold_ok_spec v n : threshold_ok v n = true ↔ 1 ≤ v ≤ Z.of_nat n.
Proof. unfold threshold_ok. rewrite andb_true_iff, !Z.leb_le. done. Qed.

Lemma committee_new_ok ms v genesis c :
  is_u32 genesis →
  committee_new ms v genesis = Ok c ↔
  wf_committee c ∧ members c = ms ∧ t c = v ∧ genesis_slot c = genesis.
Proof.
  intros Hg. unfold committee_new. split.
  - destruct (threshold_ok _ _) eqn:Ht; [|done].
    destruct (_ <=? _)%nat eqn:Hn; [|done]. destruct (has_duplicate_members ms) eqn:Hd; [done|].
    intros [= <-]. split; [|done]. apply threshold_ok_spec in Ht. apply Nat.leb_le in Hn.
    by split; [| |apply has_duplicate_members_spec| |].
  - intros ([Ht Hn Hd _ Hf] & <- & <- & <-).
    rewrite (proj2 (threshold_ok_spec _ _)), (proj2 (Nat.leb_le _ _)),
      (proj2 (has_duplicate_members_spec _)) by done.
    simpl. rewrite <-Hf. by destruct c.
Qed.

(** Distinct keys and a threshold in range make an anchor. *)
Lemma committee_of ms (k : nat) genesis :
  NoDup ms → (1 ≤ k ≤ length ms)%nat → (length ms ≤ MAX_COMMITTEE_SIZE)%nat → is_u32 genesis →
  ∃ c, committee_new ms (Z.of_nat k) genesis = Ok c ∧ wf_committee c ∧ members c = ms ∧
    t c = Z.of_nat k ∧ genesis_slot c = genesis.
Proof.
  intros Hnd Hk Hn Hg.
  set (c := mkCommittee ms (Z.of_nat k) genesis (fingerprint_of ms (Z.of_nat k) genesis)).
  assert (Hc : wf_committee c) by (split; [simpl; lia|done..]).
  exists c. split; [by apply committee_new_ok|done].
Qed.

(** Building an anchor: [Committee::new] returns exactly when the threshold
    lies in 1..=N, the committee is not above the ceiling and no key occurs
    twice; the anchor it returns is well formed and carries the fingerprint of
    its own canonical encoding. *)
Theorem committee_new_spec ms v genesis c :
  is_u32 genesis →
  committee_new ms v genesis = Ok c ↔
  wf_committee c ∧ members c = ms ∧ t c = v ∧ genesis_slot c = genesis.
Proof. apply committee_new_ok. Qed.

(** *** The wire form *)

Section wire.
Context `{LC : !SszLaws CommitteeWire wf_committee_wire}.
(** SSZ fixes the layout: an offset, a [u64], a [u32], then 32 bytes a member. *)
Context (ssz_size : ∀ w : CommitteeWire,
  Z.of_nat (length (as_ssz_bytes w)) = 16 + 32 * Z.of_nat (length (cw_members w))).

Lemma wf_committee_wire_of c :
  wf_committee c → wf_committee_wire (mkCommitteeWire (members c) (t c) (genesis_slot c)).
Proof.
  intros [Ht Hn _ Hg _]. split; [|done]. unfold is_u64, u64_max.
  assert (Hm : MAX_COMMITTEE_SIZE = Z.to_nat 2048) by done. simpl. lia.
Qed.

Lemma committee_to_bytes_inj c c' :
  wf_committee c → wf_committee c' → committee_to_bytes c = committee_to_bytes c' → c = c'.
Proof.
  intros Hc Hc' E. apply (as_ssz_inj (wf := wf_committee_wire)) in E;
    [|by apply wf_committee_wire_of..]. injection E as Em Et Eg.
  pose proof (wc_fingerprint _ Hc). pose proof (wc_fingerprint _ Hc').
  destruct c, c'. simpl in *. congruence.
Qed.

Lemma committee_from_to c : wf_committee c → committee_from_bytes (committee_to_bytes c) = Ok c.
Proof.
  intros Hc. pose proof (wf_committee_wire_of _ Hc) as Hw. destruct Hc as [Ht Hn Hd Hg Hf].
  unfold committee_from_bytes, committee_to_bytes.
  rewrite (proj2 (Z.ltb_ge _ _)); [|rewrite ssz_size; unfold MAX_COMMITTEE_WIRE_BYTES,
    COMMITTEE_FIXED_WIRE_BYTES, XMSS_PUBLIC_KEY_WIRE_BYTES; simpl; lia].
  rewrite (ssz_from_as (wf := wf_committee_wire)) by done. simpl.
  unfold usize_of_u64. rewrite (proj2 (Z.leb_le _ _)) by apply Hw. simpl.
  unfold ensure_member_count_is_supported. rewrite (proj2 (Nat.ltb_ge _ _)) by done. simpl.
  rewrite (proj2 (threshold_ok_spec _ _)), (proj2 (has_duplicate_members_spec _)) by done.
  simpl. unfold fingerprint_of in Hf. rewrite <-Hf. by destruct c.
Qed.

Lemma committee_from_bytes_ok b c :
  committee_from_bytes b = Ok c → wf_committee c ∧ committee_to_bytes c = b.
Proof.
  unfold committee_from_bytes. destruct (_ <? _); [done|].
  intros (w & Hw & (v & Hv & ([] & Hm & Hrest)%result_bind_Ok)%result_bind_Ok)%result_bind_Ok.
  destruct (from_ssz_bytes b) as [w'|] eqn:E; [|done]. injection Hw as ->.
  unfold usize_of_u64 in Hv. destruct (_ <=? _) in Hv; [|done]. injection Hv as <-.
  unfold ensure_member_count_is_supported in Hm. destruct (_ <? _)%nat eqn:Hn; [done|].
  destruct (threshold_ok _ _) eqn:Ht; [|done]. destruct (has_duplicate_members _) eqn:Hd; [done|].
  injection Hrest as <-. apply Nat.ltb_ge in Hn. apply threshold_ok_spec in Ht.
  apply has_duplicate_members_spec in Hd.
  pose proof (ssz_from_wf (wf := wf_committee_wire) _ _ E) as [_ Hg].
  pose proof (ssz_as_from (wf := wf_committee_wire) _ _ E) as Eb.
  assert (as_ssz_bytes (mkCommitteeWire (cw_members w) (cw_t w) (cw_genesis_slot w)) = b) as Eb'.
  { rewrite <-Eb. by destruct w. }
  split; [|done]. split; try done. simpl. unfold fingerprint_of. by rewrite Eb'.
Qed.

(** C33 One wire form per anchor: [Committee::from_bytes] accepts a byte string
    exactly when it is the encoding of a well-formed anchor, and returns that
    anchor, with the fingerprint that [Committee::new] would have computed. *)
Theorem committee_wire_canonical b c :
  committee_from_bytes b = Ok c ↔ wf_committee c ∧ committee_to_bytes c = b.
Proof.
  split; [apply committee_from_bytes_ok|]. intros [Hc <-]. by apply committee_from_to.
Qed.

Lemma fingerprint_identifies c c' :
  wf_committee c → wf_committee c' → c_fingerprint c = c_fingerprint c' →
  c = c' ∨ collides sha3_256 (committee_to_bytes c) (committee_to_bytes c').
Proof.
  intros Hc Hc' E. rewrite (wc_fingerprint _ Hc), (wc_fingerprint _ Hc') in E.
  apply hash_eq_or_collides in E as [E|?]; [left|by right].
  by apply committee_to_bytes_inj.
Qed.

(** The hash inputs behind the messages of two statements, one of which must
    collide if the messages are equal and the statements are not. *)
Definition message_clash (c c' : Committee) (alg alg' : Algorithms) (l l' : list bytes) (v v' : Z) : Prop :=
  collides sha3_256 (committee_to_bytes c) (committee_to_bytes c') ∨
  collides blake2s_256 (domain_preimage (c_fingerprint c) alg) (domain_preimage (c_fingerprint c') alg') ∨
  collides blake2s_256 (message_preimage (domain c alg) l v) (message_preimage (domain c' alg') l' v').

(** Within one anchor, only the statements differ. *)
Definition statement_clash (c : Committee) (l : list bytes) (v : Z) (l' : list bytes) (v' : Z) : Prop :=
  collides blake2s_256 (message_preimage (domain c WotsXmss) l v) (message_preimage (domain c WotsXmss) l' v').

Lemma message_for_inj c l l' v v' :
  wf_entries l → wf_entries l' → is_u32 v → is_u32 v' →
  message_for c WotsXmss l v = message_for c WotsXmss l' v' → (l = l' ∧ v = v') ∨ statement_clash c l v l' v'.
Proof.
  intros Hl Hl' Hv Hv' [E|?]%hash_eq_or_collides; [|by right]. left.
  apply message_preimage_inj in E as (_ & ? & ?); try done; apply domain_new_length.
Qed.

Lemma message_binds c c' alg alg' l l' v v' :
  wf_committee c → wf_committee c' → wf_entries l → wf_entries l' → is_u32 v → is_u32 v' →
  message_for c alg l v = message_for c' alg' l' v' →
  (c = c' ∧ alg = alg' ∧ l = l' ∧ v = v') ∨ message_clash c c' alg alg' l l' v v'.
Proof.
  intros Hc Hc' Hl Hl' Hv Hv' E. unfold message_clash. apply hash_eq_or_collides in E as [E|?]; [|tauto].
  apply message_preimage_inj in E as (E & -> & ->); try done; try apply domain_new_length.
  apply domain_new_inj in E as [[E ->]|?]; [|tauto].
  destruct (fingerprint_identifies c c' Hc Hc' E) as [->|?]; tauto.
Qed.

(** C34 A message belongs to one anchor and one statement: if two well-formed
    anchors derive the same message, they are the same anchor and the algorithm,
    list and version agree, or SHA3-256 collides on the two anchors, or BLAKE2s
    on their domains or on the two statements; a signature made for one committee
    is not evidence for another. *)
Theorem message_binds_anchor c c' alg alg' l l' v v' :
  wf_committee c → wf_committee c' → wf_entries l → wf_entries l' → is_u32 v → is_u32 v' →
  message_for c alg l v = message_for c' alg' l' v' →
  (c = c' ∧ alg = alg' ∧ l = l' ∧ v = v') ∨ message_clash c c' alg alg' l l' v v'.
Proof. apply message_binds. Qed.
End wire.

(** *** Seats and slots *)

(** Seats: [index_of] names the one seat a key sits at, and nothing for a key
    that is not a member; two keys never share a seat. *)
Theorem index_of_spec c m i :
  wf_committee c →
  (index_of c m = Some i ↔ members c !! i = Some m) ∧ (index_of c m = None ↔ m ∉ members c).
Proof.
  intros Hc. pose proof (wc_distinct _ Hc) as Hn. unfold index_of.
  split; [exact (position_spec m _ i Hn)|exact (position_None m _ Hn)].
Qed.

Lemma slot_for_Some c v s : slot_for c v = Some s → s = genesis_slot c + v ∧ s ≤ u32_max.
Proof.
  unfold slot_for, checked_add_u32. destruct (Z.leb_spec (genesis_slot c + v) u32_max); [|done].
  by intros [= <-].
Qed.

(** One slot per round: the slot of a version exists exactly when genesis plus
    version is a [u32], it is then their sum, and distinct versions have distinct
    slots, so no two rounds ever share one. *)
Theorem slot_for_spec c v v' s :
  (slot_for c v = Some s ↔ s = genesis_slot c + v ∧ genesis_slot c + v ≤ u32_max) ∧
  (slot_for c v = Some s → slot_for c v' = Some s → v = v').
Proof.
  unfold slot_for, checked_add_u32.
  destruct (Z.leb_spec (genesis_slot c + v) u32_max), (Z.leb_spec (genesis_slot c + v') u32_max);
    (split; [split; [intros [=]; lia|intros []; (lia || f_equal; lia)]|intros [=] [=]; lia]).
Qed.
End committees.
