(* ===== verification/Verifiers.v ===== *)
(** * The two verification predicates and the SNARK prover
    (src/node/raw_verifier.rs, snark_verifier.rs, snark_prover.rs)

    Both predicates decide the same question: did at least [t] distinct members
    of this anchor sign this list at this version, at the slot the anchor
    derives for it. *)
From S2P Require Import Prelude External Instances Seats StatusLists Committees.

Open Scope Z_scope.

Section verifiers.
Context `{HH : Hashes} `{XX : Xmss} `{VM : !LeanVm} `{BL : BitListOps}.
Context `{SR : !Ssz RawStatusListWire} `{SS : !Ssz SnarkStatusListWire} `{SC : !Ssz CommitteeWire}.

(** ** The raw predicate *)

Inductive VerifierError := SignatureVerificationError | NoCommittee | NotAMemberOfCommittee.

Record VerifierNode := mkVerifierNode { v_committee : Committee }.

(** [VerifierNode::verify]. *)
Definition verify (v : VerifierNode) (pub_key : XmssPublicKey) (signature : XmssSignature)
    (message : bytes) (slot : Z) : result unit VerifierError :=
  if negb (bool_decide (pub_key ∈ members (v_committee v))) then Err NotAMemberOfCommittee
  else if xmss_verify pub_key message signature slot then Ok tt
  else Err SignatureVerificationError.

(** One signature against the key its bit names; [false] where [members[i]] would
    panic, which [indices_in_range] excludes. *)
Definition signature_ok (ms : list XmssPublicKey) (message : bytes) (slot : Z)
    (x : nat * XmssSignature) : bool :=
  match ms !! x.1 with Some pk => xmss_verify pk message x.2 slot | None => false end.

Definition verify_status_list (v : VerifierNode) (s : StatusList) : bool :=
  let ms := members (v_committee v) in
  let n := length ms in
  if threshold (v_committee v) =? 0 then false
  else if negb (signer_slots s =? n)%nat then false
  else
    let count := signer_count s in
    if (Z.of_nat count <? threshold (v_committee v)) ||
       negb (count =? length (sl_signatures s))%nat
    then false
    else
      match slot_for (v_committee v) (sl_version s) with
      | None => false
      | Some slot =>
          let message := message_for (v_committee v) (sl_alg s) (sl_status_list s) (sl_version s) in
          forallb (signature_ok ms message slot) (zip (signer_indices s) (sl_signatures s))
      end.

(** ** The SNARK predicate *)

Record PQSNARKVerifierModule := mkSnarkVerifier {
  sv_committee : Committee;
  status_list_last_version : Z;
}.

Definition check (v : PQSNARKVerifierModule) (s : SnarkStatusList) (agg : AggregateSignature) : bool :=
  match agg_sphincs_signers agg with
  | _ :: _ => false
  | [] =>
      match agg_xmss_signers agg with
      | [(slot, message, pubkeys)] =>
          if negb (forallb (λ pk, bool_decide (pk ∈ members (sv_committee v))) pubkeys) then false
          else if negb (bool_decide (message =
                  status_list_message (domain (sv_committee v) (sn_alg s)) (sn_status_list s)
                    (sn_version s))) then false
          else if negb (bool_decide (slot_for (sv_committee v) (sn_version s) = Some slot)) then false
          else if Z.of_nat (length pubkeys) <? threshold (sv_committee v) then false
          else agg_verify agg
      | _ => false
      end
  end.

Definition snark_verify (v : PQSNARKVerifierModule) (s : SnarkStatusList) : bool :=
  match proof s with Ok agg => check v s agg | Err _ => false end.

Definition verify_decoded (v : PQSNARKVerifierModule) (d : DecodedSnarkStatusList) : bool :=
  check v (record d) (aggregate d).

Definition is_newer (v : PQSNARKVerifierModule) (s : SnarkStatusList) : bool :=
  status_list_last_version v <? sn_version s.

(** ** The prover *)

(** [PQSNARKProverModule::aggregate]; the panic of [expect] is the error. *)
Definition prover_aggregate (raws : list (XmssPublicKey * XmssSignature)) (message : bytes)
    (slot : Z) (log_inv_rate : nat) : result bytes string :=
  let xmss := (λ '(public, signature), (public, slot, message, signature)) <$> raws in
  let? a := map_err (λ e, ("aggregation failed: " +:+ e)%string) (lean_aggregate xmss log_inv_rate) in
  Ok (agg_to_bytes a).

Definition make_proof (c : Committee) (alg : Algorithms)
    (raws : list (XmssPublicKey * XmssSignature)) (status_list_elem : list bytes) (version : Z)
    (log_inv_rate : nat) : result bytes string :=
  let? slot := ok_or (slot_for c version) "version has no slot under this anchor"%string in
  let message := message_for c alg status_list_elem version in
  prover_aggregate raws message slot log_inv_rate.

(** ** What authorizes an update *)

(** At least [t] distinct members, each with a signature on this statement at the
    slot of its version. *)
Definition quorum (c : Committee) (alg : Algorithms) (list : list bytes) (version : Z)
    (signed : XmssPublicKey → bytes → Z → Prop) : Prop :=
  ∃ slot (pks : Datatypes.list XmssPublicKey),
    slot_for c version = Some slot ∧ NoDup pks ∧ threshold c ≤ Z.of_nat (length pks) ∧
    ∀ pk, pk ∈ pks → pk ∈ members c ∧ signed pk (message_for c alg list version) slot.

(** ** The raw predicate decides the quorum *)

Section raw.
Context `{BLL : !BitListLaws}.

Definition valid_signature (sigs : list XmssSignature) (pk : XmssPublicKey) (m : bytes) (slot : Z) :
    Prop := ∃ sig, sig ∈ sigs ∧ xmss_verify pk m sig slot = true.

(** What [verify_status_list] checks, in one statement. *)
Lemma verify_status_list_true c s :
  verify_status_list (mkVerifierNode c) s = true ↔
  threshold c ≠ 0 ∧ signer_slots s = length (members c) ∧
  threshold c ≤ Z.of_nat (signer_count s) ∧ signer_count s = length (sl_signatures s) ∧
  ∃ slot, slot_for c (sl_version s) = Some slot ∧
    Forall (λ x, signature_ok (members c)
      (message_for c (sl_alg s) (sl_status_list s) (sl_version s)) slot x = true)
      (zip (signer_indices s) (sl_signatures s)).
Proof.
  unfold verify_status_list. simpl.
  destruct (Z.eqb_spec (threshold c) 0) as [|Ht]; [naive_solver|].
  destruct (Nat.eqb_spec (signer_slots s) (length (members c))) as [Hs|]; simpl; [|naive_solver].
  destruct (Z.ltb_spec (Z.of_nat (signer_count s)) (threshold c)); simpl; [split; [done|lia]|].
  destruct (Nat.eqb_spec (signer_count s) (length (sl_signatures s))); simpl; [|naive_solver].
  destruct (slot_for c (sl_version s)) as [slot|]; [|naive_solver].
  rewrite forallb_forall. setoid_rewrite <-list_elem_of_In. setoid_rewrite Forall_forall. naive_solver.
Qed.

(** Every index a record names is a bit of its bitmap: [members[i]] is in range
    once the bitmap has the committee's width. *)
Lemma indices_in_range s i : i ∈ signer_indices s → (i < signer_slots s)%nat.
Proof. apply set_indices_range. Qed.

Lemma verified_quorum c s :
  wf_committee c → verify_status_list (mkVerifierNode c) s = true →
  quorum c (sl_alg s) (sl_status_list s) (sl_version s) (valid_signature (sl_signatures s)).
Proof.
  intros Hc (_ & Hn & Ht & Hcount & slot & Hslot & Hall)%verify_status_list_true.
  destruct (seated (members c) (signer_indices s) (sl_signatures s)
    (λ pk sig, xmss_verify pk (message_for c (sl_alg s) (sl_status_list s) (sl_version s)) sig slot
      = true)) as (pks & Hnd & Hlen & Hpks).
  - apply Hc.
  - apply set_indices_sorted.
  - by rewrite <-signer_count_indices.
  - apply Forall_forall. intros i Hi. rewrite <-Hn. by apply indices_in_range.
  - eapply Forall_impl; [exact Hall|]. intros [i sig]. unfold signature_ok. simpl.
    destruct (members c !! i); naive_solver.
  - exists slot, pks. split_and!; [done..| |exact Hpks].
    by rewrite Hlen, <-signer_count_indices.
Qed.

(** C3 The raw predicate authorizes only what a quorum signed: if
    [verify_status_list] says yes, at least [t] distinct members of this anchor
    each have a signature in the record that verifies on exactly this algorithm,
    list and version under this anchor, at the slot the anchor derives. *)
Theorem raw_sound c s :
  wf_committee c → verify_status_list (mkVerifierNode c) s = true →
  quorum c (sl_alg s) (sl_status_list s) (sl_version s) (valid_signature (sl_signatures s)).
Proof. apply verified_quorum. Qed.

Lemma quorum_verified c alg list version pairs slot :
  wf_committee c → slot_for c version = Some slot →
  NoDup (fst <$> pairs) → threshold c ≤ Z.of_nat (length pairs) →
  Forall (λ x, signature_ok (members c) (message_for c alg list version) slot x = true) pairs →
  ∃ s, status_list_new alg list version (length (members c)) pairs = Ok s ∧
       verify_status_list (mkVerifierNode c) s = true ∧
       sl_alg s = alg ∧ sl_status_list s = list ∧ sl_version s = version ∧
       signer_count s = length (sl_signatures s).
Proof.
  intros Hc Hslot Hnd Ht Hall.
  pose proof (status_list_new_ok alg list version (length (members c)) pairs) as Hnew.
  assert (Hacc : acceptable (length (members c)) pairs).
  { split_and!; [done| |apply Hc]. eapply Forall_impl; [exact Hall|]. intros [i sig] Hok.
    unfold signature_ok in Hok. simpl in *. destruct (members c !! i) eqn:E; [|done].
    by eapply lookup_lt_Some. }
  destruct (status_list_new _ _ _ _ _) as [s|e]; [|by destruct Hnew].
  destruct Hnew as (_ & (Hslots & Hcount & Hzip) & <- & <- & <-). exists s. split; [done|]. split; [|done].
  apply verify_status_list_true.
  assert (Hlen : length (sl_signatures s) = length pairs).
  { rewrite <-(sort_by_key_perm pair_index pairs), <-Hzip, length_zip_with.
    rewrite <-signer_count_indices, Hcount. lia. }
  split_and!; [|done|by rewrite Hcount, Hlen|done|].
  - pose proof (wc_threshold _ Hc). unfold threshold. lia.
  - exists slot. split; [done|]. by rewrite Hzip, sort_by_key_perm.
Qed.

(** An honest quorum is accepted: signatures of distinct seats, at least [t] of
    them, each valid for its seat's key on the anchor's message at the anchor's
    slot, make a record that verifies, whatever order they were collected in. *)
Theorem raw_complete c alg list version pairs slot :
  wf_committee c → slot_for c version = Some slot →
  NoDup (fst <$> pairs) → threshold c ≤ Z.of_nat (length pairs) →
  Forall (λ x, signature_ok (members c) (message_for c alg list version) slot x = true) pairs →
  ∃ s, status_list_new alg list version (length (members c)) pairs = Ok s ∧
       verify_status_list (mkVerifierNode c) s = true.
Proof.
  intros Hc Hslot Hnd Ht Hall. edestruct quorum_verified as (s & ? & ? & _); eauto.
Qed.

(** One signature: a stranger is refused for membership whatever it signed, a
    member for its signature, and only a member's valid signature passes. *)
Theorem verify_spec c pk sig m slot :
  verify (mkVerifierNode c) pk sig m slot =
    if decide (pk ∈ members c)
    then (if xmss_verify pk m sig slot then Ok tt else Err SignatureVerificationError)
    else Err NotAMemberOfCommittee.
Proof.
  unfold verify. simpl.
  destruct (decide _); [by rewrite bool_decide_eq_true_2|by rewrite bool_decide_eq_false_2].
Qed.
End raw.

(** ** The SNARK predicate decides the same quorum *)

Lemma check_true c last s agg :
  check (mkSnarkVerifier c last) s agg = true ↔
  agg_sphincs_signers agg = [] ∧
  ∃ slot pks,
    agg_xmss_signers agg =
      [(slot, message_for c (sn_alg s) (sn_status_list s) (sn_version s), pks)] ∧
    (∀ pk, pk ∈ pks → pk ∈ members c) ∧ slot_for c (sn_version s) = Some slot ∧
    threshold c ≤ Z.of_nat (length pks) ∧ agg_verify agg = true.
Proof.
  unfold check. simpl. destruct (agg_sphincs_signers agg); [|by split; [|intros []]].
  destruct (agg_xmss_signers agg) as [|[[slot m] pks] [|]];
    [by split; [|intros (_ & ? & ? & ? & _)]| |by split; [|intros (_ & ? & ? & ? & _)]].
  assert (Hm : forallb (λ pk, bool_decide (pk ∈ members c)) pks = true ↔
    ∀ pk, pk ∈ pks → pk ∈ members c).
  { rewrite forallb_forall. setoid_rewrite <-list_elem_of_In. by setoid_rewrite bool_decide_eq_true. }
  split.
  - destruct (forallb _ pks); simpl; [|done]. case_bool_decide; simpl; [|done].
    case_bool_decide; simpl; [|done].
    destruct (Z.ltb_spec (Z.of_nat (length pks)) (threshold c)); [done|]. intros Hv. subst m.
    split; [done|]. exists slot, pks. split_and!; [done|by apply Hm|done|lia|done].
  - intros (_ & slot' & pks' & [= <- -> <-] & Hmem & Hslot & Ht & Hv).
    rewrite (proj2 Hm Hmem), !bool_decide_eq_true_2 by done. simpl.
    by rewrite (proj2 (Z.ltb_ge _ _)) by done.
Qed.

(** What leanVM documents about an aggregate that verifies: each group lists its
    keys once, and each listed key signed the group's message at its slot. *)
Definition agg_attests (attested : XmssPublicKey → bytes → Z → Prop) : Prop :=
  ∀ a slot m pks, agg_verify a = true → (slot, m, pks) ∈ agg_xmss_signers a →
    NoDup pks ∧ ∀ pk, pk ∈ pks → attested pk m slot.

Lemma snark_verified_quorum attested c last s :
  agg_attests attested → snark_verify (mkSnarkVerifier c last) s = true →
  quorum c (sn_alg s) (sn_status_list s) (sn_version s) attested.
Proof.
  intros Hatt. unfold snark_verify. destruct (proof s) as [agg|]; [|done].
  intros (_ & slot & pks & Hg & Hmem & Hslot & Ht & Hv)%check_true.
  assert (Hin : (slot, message_for c (sn_alg s) (sn_status_list s) (sn_version s), pks)
    ∈ agg_xmss_signers agg) by (rewrite Hg; apply list_elem_of_here).
  destruct (Hatt _ _ _ _ Hv Hin) as [Hnd Hs].
  exists slot, pks. split_and!; [done..|]. intros pk Hpk. split; [by apply Hmem|by apply Hs].
Qed.

(** C9 The SNARK predicate authorizes the same statement: if [verify] says yes and
    leanVM's aggregates attest what they list, a quorum of distinct members of
    this anchor signed exactly this algorithm, list and version at the derived
    slot.  The two published forms refine one specification. *)
Theorem snark_sound attested c last s :
  agg_attests attested → snark_verify (mkSnarkVerifier c last) s = true →
  quorum c (sn_alg s) (sn_status_list s) (sn_version s) attested.
Proof. apply snark_verified_quorum. Qed.

(** What leanVM documents about aggregating valid signatures of distinct keys on
    one message at one slot. *)
Definition aggregates : Prop :=
  ∀ (raws : list (XmssPublicKey * XmssSignature)) m slot rate,
    is_u32 slot → length m = 32%nat → raws ≠ [] → NoDup (fst <$> raws) →
    Forall (λ x, xmss_verify x.1 m x.2 slot = true) raws →
    ∃ a pks, lean_aggregate ((λ '(public, signature), (public, slot, m, signature)) <$> raws) rate
               = Ok a ∧
      agg_from_bytes (agg_to_bytes a) = Ok a ∧ agg_sphincs_signers a = [] ∧
      agg_xmss_signers a = [(slot, m, pks)] ∧ pks ≡ₚ fst <$> raws ∧ agg_verify a = true.

Lemma quorum_proved c alg raws list version slot rate :
  aggregates → wf_committee c → is_u32 version → slot_for c version = Some slot →
  NoDup (fst <$> raws) → threshold c ≤ Z.of_nat (length raws) →
  Forall (λ x, x.1 ∈ members c ∧ xmss_verify x.1 (message_for c alg list version) x.2 slot = true)
    raws →
  ∃ b, make_proof c alg raws list version rate = Ok b ∧ ∀ last,
    let s := mkSnarkStatusList alg list version b in
    snark_verify (mkSnarkVerifier c last) s = true ∧
    ∃ d, decode s = Ok d ∧ verify_decoded (mkSnarkVerifier c last) d = true.
Proof.
  intros Hagg Hc Hver Hslot Hnd Ht Hall.
  assert (Hs32 : is_u32 slot).
  { pose proof (wc_genesis _ Hc). unfold slot_for, checked_add_u32, is_u32 in *.
    destruct (Z.leb_spec (genesis_slot c + version) u32_max); [|done]. injection Hslot as <-. lia. }
  assert (Hne : raws ≠ []).
  { intros ->. pose proof (wc_threshold _ Hc). unfold threshold in Ht. simpl in Ht. lia. }
  destruct (Hagg raws (message_for c alg list version) slot rate Hs32
    (blake2s_256_length _) Hne Hnd) as
    (a & pks & Ha & Hrt & Hsp & Hg & Hp & Hv).
  { eapply Forall_impl; [exact Hall|]. by intros x []. }
  exists (agg_to_bytes a). split.
  { unfold make_proof, prover_aggregate. rewrite Hslot. simpl. by rewrite Ha. }
  intros last. set (s := mkSnarkStatusList _ _ _ _). simpl.
  assert (Hproof : proof s = Ok a).
  { unfold proof, s. simpl. rewrite Hrt. simpl. by rewrite bool_decide_eq_true_2. }
  assert (Hcheck : check (mkSnarkVerifier c last) s a = true).
  { apply check_true. split; [done|]. exists slot, pks. split_and!; try done.
    - intros pk. rewrite Hp. intros (x & -> & Hx)%list_elem_of_fmap.
      rewrite Forall_forall in Hall. by apply Hall.
    - by rewrite Hp, length_fmap. }
  split; [unfold snark_verify; by rewrite Hproof|].
  exists (mkDecoded s a). split; [unfold decode; by rewrite Hproof|done].
Qed.

(** The same from signatures filed by seat. *)
Lemma seats_proved c alg pairs list version slot rate :
  aggregates → wf_committee c → is_u32 version → slot_for c version = Some slot →
  NoDup (fst <$> pairs) → threshold c ≤ Z.of_nat (length pairs) →
  Forall (λ x, signature_ok (members c) (message_for c alg list version) slot x = true) pairs →
  ∃ raws b, collect_results (λ '(i, signature),
      let? pk := ok_or (members c !! i) "index out of bounds"%string in Ok (pk, signature)) pairs = Ok raws ∧
    make_proof c alg raws list version rate = Ok b ∧
    ∀ last, snark_verify (mkSnarkVerifier c last) (mkSnarkStatusList alg list version b) = true.
Proof.
  intros Hagg Hc Hver Hslot Hnd Ht Hall.
  destruct (collect_seats (members c) pairs) as (raws & E & Hl & Hf & Hin).
  { eapply Forall_impl; [exact Hall|]. intros [i sig]. unfold signature_ok. simpl.
    destruct (members c !! i) eqn:Ei; [|done]. intros _. by eapply lookup_lt_Some. }
  destruct (quorum_proved c alg raws list version slot rate) as (b & Hb & Hb'); [done..| |rewrite Hl; lia| |].
  { rewrite Hf. apply NoDup_omap_lookup; [apply Hc|done]. }
  { apply Forall_forall. intros [pk sig] (i & Hi & Hx)%Hin. simpl in *.
    split; [by eapply list_elem_of_lookup_2|]. rewrite Forall_forall in Hall.
    specialize (Hall _ Hx). unfold signature_ok in Hall. simpl in Hall. by rewrite Hi in Hall. }
  exists raws, b. split_and!; [done..|]. intros last. apply Hb'.
Qed.

(** The prover produces what the verifier accepts: valid signatures of at least
    [t] distinct members on the anchor's message at the anchor's slot aggregate
    to a proof, and the record that carries it verifies, decoded ahead or not. *)
Theorem make_proof_verifies c last alg raws list version slot rate :
  aggregates → wf_committee c → is_u32 version → slot_for c version = Some slot →
  NoDup (fst <$> raws) → threshold c ≤ Z.of_nat (length raws) →
  Forall (λ x, x.1 ∈ members c ∧ xmss_verify x.1 (message_for c alg list version) x.2 slot = true)
    raws →
  ∃ b, make_proof c alg raws list version rate = Ok b ∧
    let s := mkSnarkStatusList alg list version b in
    snark_verify (mkSnarkVerifier c last) s = true ∧
    ∃ d, decode s = Ok d ∧ verify_decoded (mkSnarkVerifier c last) d = true.
Proof.
  intros Hagg Hc Hv Hslot Hnd Ht Hall. edestruct quorum_proved as (b & ? & ?); eauto.
Qed.
End verifiers.
