(* ===== verification/Nodes.v ===== *)
(** * Relying parties (src/node/mod.rs, raw_node.rs, snark_node.rs)

    Bytes in, verdict out: decode, verify, and only then offer the version to
    the freshness gate.  The two nodes differ in the record form only, and the
    gate is used through an interface, so that what they do to the mark is
    proved once, from what a gate promises. *)
From S2P Require Import Prelude Fs External Instances Atomic Freshness Seats StatusLists Committees.
From S2P Require Import Verifiers.

Open Scope Z_scope.

(** ** The gate a node relies on *)

(** [try_advance] answers [Accepted] only for a version strictly above the mark,
    which then is the mark; [Stale] reports the mark it found and moves nothing;
    it is the answer exactly for versions not above the mark. *)
Class FreshnessGate (G : Type) := {
  gate_current : G → option Z;
  gate_try_advance : G → Z → io HighWaterMarkError (GateDecision * G);
  gate_accepted : ∀ g v w g' w',
    gate_try_advance g v w = (Done (Accepted, g'), w') →
    gate_current g' = Some v ∧ ∀ m, gate_current g = Some m → m < v;
  gate_stale : ∀ g v w m g' w',
    gate_try_advance g v w = (Done (Stale m, g'), w') →
    g' = g ∧ w' = w ∧ gate_current g = Some m ∧ v ≤ m;
  gate_newer : ∀ g v w m g' w',
    (∀ m', gate_current g = Some m' → m' < v) →
    gate_try_advance g v w ≠ (Done (Stale m, g'), w');
}.

Lemma try_advance_accepted m v w m' w' :
  try_advance m v w = (Done (Accepted, m'), w') →
  current m' = Some v ∧ ∀ x, current m = Some x → x < v.
Proof.
  unfold try_advance, mbind, io_bind. destruct (hw_have m && (v <=? hw_current m)) eqn:E; [done|].
  destruct (persist m (Some v) w) as [[a|e|] w1]; try done. intros [= <- _]. split; [done|].
  unfold current. destruct (hw_have m); [|done]. simpl in E. intros x [= <-]. boolify. lia.
Qed.

Lemma try_advance_stale m v w x m' w' :
  try_advance m v w = (Done (Stale x, m'), w') →
  m' = m ∧ w' = w ∧ current m = Some x ∧ v ≤ x.
Proof.
  unfold try_advance, mbind, io_bind. destruct (hw_have m && (v <=? hw_current m)) eqn:E.
  - intros [= <- <- <-]. unfold current. boolify. by rewrite H.
  - by destruct (persist m (Some v) w) as [[a|e|] w1].
Qed.

(** The high-water mark is such a gate. *)
#[export] Instance HighWaterMark_gate : FreshnessGate HighWaterMark.
Proof.
  refine {| gate_current := current; gate_try_advance := try_advance |}.
  - apply try_advance_accepted.
  - apply try_advance_stale.
  - intros g v w m g' w' Hlt E. apply try_advance_stale in E as (_ & _ & Hc & Hle).
    specialize (Hlt m Hc). lia.
Defined.

(** ** The verdict *)

Inductive Outcome :=
| OAccepted (version : Z)
| OStale (version mark : Z)
| Refused.

Definition accepted (o : Outcome) : option Z :=
  match o with OAccepted version => Some version | _ => None end.

(** [Outcome::advance]. *)
Definition advance {G} `{FreshnessGate G} (mark : G) (version : Z) : io Empty_set (Outcome * G) :=
  io_catch (gate_try_advance mark version) (λ r,
    match r with
    | Ok (Accepted, mark) => mret (OAccepted version, mark)
    | Ok (Stale m, mark) => mret (OStale version m, mark)
    | Err _ => mret (Refused, mark)
    end).

Section nodes.
Context `{HH : Hashes} `{XX : Xmss} `{VM : !LeanVm} `{BL : BitListOps}.
Context `{SR : !Ssz RawStatusListWire} `{SS : !Ssz SnarkStatusListWire}.
Context {G : Type} `{GG : !FreshnessGate G}.

(** ** The raw node *)

Record RawNode := mkRawNode { rn_verifier : VerifierNode; rn_mark : G }.

Definition raw_node_new (c : Committee) (mark : G) : RawNode := mkRawNode (mkVerifierNode c) mark.

Definition high_water (n : RawNode) : option Z := gate_current (rn_mark n).

Definition accept_record (n : RawNode) (record : StatusList) : io Empty_set (Outcome * RawNode) :=
  if negb (verify_status_list (rn_verifier n) record) then mret (Refused, n)
  else
    '(o, mark) ← advance (rn_mark n) (sl_version record);
    mret (o, mkRawNode (rn_verifier n) mark).

Definition accept (n : RawNode) (b : bytes) : io Empty_set (Outcome * RawNode) :=
  match from_bytes b with
  | Err _ => mret (Refused, n)
  | Ok record => accept_record n record
  end.

(** ** The SNARK node *)

Record SnarkNode := mkSnarkNode { sn_verifier : PQSNARKVerifierModule; sn_mark : G }.

Definition snark_node_new (c : Committee) (mark : G) : SnarkNode :=
  let last := default 0 (gate_current mark) in
  mkSnarkNode (mkSnarkVerifier c last) mark.

Definition snark_high_water (n : SnarkNode) : option Z := gate_current (sn_mark n).

Definition snark_accept (n : SnarkNode) (b : bytes) : io Empty_set (Outcome * SnarkNode) :=
  match snark_from_bytes b with
  | Err _ => mret (Refused, n)
  | Ok record =>
      if negb (snark_verify (sn_verifier n) record) then mret (Refused, n)
      else
        '(o, mark) ← advance (sn_mark n) (sn_version record);
        mret (o, mkSnarkNode (sn_verifier n) mark)
  end.

(** ** What a verdict means *)

(** The mark [g] became [g'] with verdict [o] on a record of version [v]. *)
Definition gate_verdict (o : Outcome) (v : Z) (g g' : G) : Prop :=
  match o with
  | OAccepted version => version = v ∧ gate_current g' = Some v ∧
                         ∀ m, gate_current g = Some m → m < v
  | OStale version m => version = v ∧ g' = g ∧ gate_current g = Some m ∧ v ≤ m
  | Refused => g' = g
  end.

Lemma advance_verdict g v w :
  match advance g v w with
  | (Done (o, g'), w') => gate_verdict o v g g' ∧
      match o with OStale _ _ => w' = w | _ => True end
  | (Failed _, _) => False
  | (Halted, _) => True
  end.
Proof.
  unfold advance, io_catch. destruct (gate_try_advance g v w) as [[[[|m] g']|e|] w'] eqn:E; simpl.
  - by apply gate_accepted in E as [? ?].
  - by apply gate_stale in E as (-> & -> & ? & ?).
  - done.
  - done.
Qed.

Lemma accept_cases n b w :
  match accept n b w with
  | (Done (o, n'), w') =>
      rn_verifier n' = rn_verifier n ∧
      match from_bytes b with
      | Ok record =>
          if verify_status_list (rn_verifier n) record
          then gate_verdict o (sl_version record) (rn_mark n) (rn_mark n')
          else o = Refused ∧ n' = n ∧ w' = w
      | Err _ => o = Refused ∧ n' = n ∧ w' = w
      end
  | (Failed _, _) => False
  | (Halted, _) => ∃ record, from_bytes b = Ok record ∧
                             verify_status_list (rn_verifier n) record = true
  end.
Proof.
  unfold accept. destruct (from_bytes b) as [record|e]; simpl; [|done].
  unfold accept_record. destruct (verify_status_list _ record) eqn:Hv; simpl; [|done].
  unfold mbind, io_bind. pose proof (advance_verdict (rn_mark n) (sl_version record) w) as Hadv.
  destruct (advance _ _ w) as [[[o g']|e|] w']; simpl; [by destruct Hadv|done|by exists record].
Qed.

(** C6 Verify before advance: a raw node moves its mark only for bytes that are
    the encoding of a record its anchor's quorum signed, strictly newer than the
    mark; a record that does not decode or verify is refused with the node and
    the disk untouched, whatever version it claims; a stale one moves nothing. *)
Theorem accept_verifies_first n b w :
  match accept n b w with
  | (Done (o, n'), w') =>
      rn_verifier n' = rn_verifier n ∧
      match from_bytes b with
      | Ok record =>
          if verify_status_list (rn_verifier n) record
          then gate_verdict o (sl_version record) (rn_mark n) (rn_mark n')
          else o = Refused ∧ n' = n ∧ w' = w
      | Err _ => o = Refused ∧ n' = n ∧ w' = w
      end
  | (Failed _, _) => False
  | (Halted, _) => ∃ record, from_bytes b = Ok record ∧
                             verify_status_list (rn_verifier n) record = true
  end.
Proof. apply accept_cases. Qed.

Lemma snark_accept_cases n b w :
  match snark_accept n b w with
  | (Done (o, n'), w') =>
      sn_verifier n' = sn_verifier n ∧
      match snark_from_bytes b with
      | Ok record =>
          if snark_verify (sn_verifier n) record
          then gate_verdict o (sn_version record) (sn_mark n) (sn_mark n')
          else o = Refused ∧ n' = n ∧ w' = w
      | Err _ => o = Refused ∧ n' = n ∧ w' = w
      end
  | (Failed _, _) => False
  | (Halted, _) => ∃ record, snark_from_bytes b = Ok record ∧
                             snark_verify (sn_verifier n) record = true
  end.
Proof.
  unfold snark_accept. destruct (snark_from_bytes b) as [record|e]; simpl; [|done].
  destruct (snark_verify _ record) eqn:Hv; simpl; [|done].
  unfold mbind, io_bind. pose proof (advance_verdict (sn_mark n) (sn_version record) w) as Hadv.
  destruct (advance _ _ w) as [[[o g']|e|] w']; simpl; [by destruct Hadv|done|by exists record].
Qed.

(** The SNARK node behaves the same over its own record form. *)
Theorem snark_accept_verifies_first n b w :
  match snark_accept n b w with
  | (Done (o, n'), w') =>
      sn_verifier n' = sn_verifier n ∧
      match snark_from_bytes b with
      | Ok record =>
          if snark_verify (sn_verifier n) record
          then gate_verdict o (sn_version record) (sn_mark n) (sn_mark n')
          else o = Refused ∧ n' = n ∧ w' = w
      | Err _ => o = Refused ∧ n' = n ∧ w' = w
      end
  | (Failed _, _) => False
  | (Halted, _) => ∃ record, snark_from_bytes b = Ok record ∧
                             snark_verify (sn_verifier n) record = true
  end.
Proof. apply snark_accept_cases. Qed.

(** ** Feeding a node *)

(** The node after a sequence of deliveries, with the versions it accepted,
    latest first; it stops where the process dies. *)
Fixpoint feed (n : RawNode) (bs : list bytes) (w : world) : list Z * option Z :=
  match bs with
  | [] => ([], high_water n)
  | b :: bs' =>
      match accept n b w with
      | (Done (o, n'), w') =>
          let '(vs, m) := feed n' bs' w' in
          (match accepted o with Some v => v :: vs | None => vs end, m)
      | _ => ([], high_water n)
      end
  end.

Lemma accept_mark n b w o n' w' :
  accept n b w = (Done (o, n'), w') →
  match accepted o with
  | Some v => high_water n' = Some v ∧ ∀ m, high_water n = Some m → m < v
  | None => high_water n' = high_water n
  end.
Proof.
  unfold accept. destruct (from_bytes b) as [record|e]; [|by intros [= <- <- _]].
  unfold accept_record. destruct (negb _); [by intros [= <- <- _]|].
  unfold mbind, io_bind. pose proof (advance_verdict (rn_mark n) (sl_version record) w) as Hadv.
  destruct (advance _ _ w) as [[[o1 g']|e|] w1]; [|done..]. intros [= <- <- _].
  destruct Hadv as [Hadv _]. destruct o1 as [v|v m|]; simpl in *; unfold high_water; simpl.
  - by destruct Hadv as (-> & ? & ?).
  - by destruct Hadv as (_ & -> & _).
  - by subst.
Qed.

(** No replay and no rollback at the node: over any sequence of byte strings,
    hostile or not, on any failing disk, the versions a node accepts are strictly
    increasing and all above the mark it started with. *)
Theorem feed_increasing n bs w :
  StronglySorted Z.lt (fst (feed n bs w)) ∧
  Forall (λ v, ∀ m, high_water n = Some m → m < v) (fst (feed n bs w)).
Proof.
  revert n w. induction bs as [|b bs IH]; intros n w; simpl; [split; constructor|].
  destruct (accept n b w) as [[[o n']|e|] w'] eqn:E; [|split; constructor..].
  apply accept_mark in E. specialize (IH n' w'). destruct (feed n' bs w') as [vs m]. simpl in *.
  destruct IH as [Hs Hall]. destruct (accepted o) as [v|]; [|by rewrite E in Hall].
  destruct E as [Hm Hlt]. rewrite Hm in Hall.
  assert (Hv : Forall (Z.lt v) vs) by (eapply Forall_impl; [exact Hall|]; simpl; auto).
  split; [by constructor|]. constructor; [done|].
  eapply Forall_impl; [exact Hv|]. simpl. intros x Hx m' Hm'. specialize (Hlt m' Hm'). lia.
Qed.
End nodes.
