(* ===== verification/MlStatusLists.v ===== *)
(** * ML-DSA records (mldsa/src/status_list.rs, signer.rs)

    The statement a member signs, the published record and its canonical wire
    form, and the signer.  The second signature system of the program: it has no
    slots, so no durable state; version and anchor are bound by the statement. *)
From S2P Require Import Prelude External Seats.

Open Scope Z_scope.

(** ** Constants *)

Definition ML_MAX_COMMITTEE_SIZE : nat := Z.to_nat 2048.
Definition MAX_RECORD_BYTES : Z := 64 * 1024 * 1024.
Definition SIGNATURE_BYTES : Z := 3309.
Definition ALGORITHM_TAG : Z := 2.
Definition STATEMENT_DOMAIN : bytes :=
  ascii_bytes (str "decentralized-root-of-trust/ml-dsa-65/status-list/v2") ++ [Byte.x00].
Definition STATEMENT_DIGEST_BYTES : nat := 64.
Definition ANCHOR_ID_BYTES : nat := 48.

(** What the operating system's generator answers to each request: [None] when
    it fails. *)
Class OsRng := os_random : nat → option nat.

Section ml_status_lists.
Context `{HH : Hashes} `{ML : MlDsa} `{BL : BitListOps}.

(** ** The signer *)

Record MlDsa65Signer := mkMlSigner { signing_key : MlSigningKey }.

(** Randomness is an argument: [None] when the system's generator fails. *)
Definition ml_generate (rng : option nat) : option MlDsa65Signer :=
  mkMlSigner <$> ml_try_generate rng.
Definition from_seed (seed : bytes) : MlDsa65Signer := mkMlSigner (ml_from_seed seed).
Definition export_seed (s : MlDsa65Signer) : bytes := ml_to_seed (signing_key s).
Definition ml_public_key (s : MlDsa65Signer) : MlPublicKey := ml_verifying_key (signing_key s).
Definition ml_sign (s : MlDsa65Signer) (rng : option nat) (message : bytes) : option MlSignature :=
  ml_sign_randomized rng (signing_key s) message [].
Definition ml_verify (pk : MlPublicKey) (message : bytes) (sig : MlSignature) : bool :=
  ml_verify_with_context pk message [] sig.

(** ** The statement *)

Record StatementWire := mkStatementWire {
  st_alg : Z;
  st_anchor_id : bytes;
  st_version : Z;
  st_status_list : list bytes;
}.

Context `{SST : !SszEncode StatementWire}.

Definition statement_preimage (anchor_id : bytes) (list : list bytes) (version : Z) : bytes :=
  STATEMENT_DOMAIN ++ ssz_encode (mkStatementWire ALGORITHM_TAG anchor_id version list).

Definition statement_digest (anchor_id : bytes) (list : list bytes) (version : Z) : bytes :=
  shake256_64 (statement_preimage anchor_id list version).

(** ** The record *)

Record MlStatusListWire := mkMlWire {
  mw_alg : Z;
  mw_status_list : list bytes;
  mw_version : Z;
  mw_signers : BitList;
  mw_signatures : list bytes;
}.

(** The values the schema can express: [u8], [[u8; 32]], [u32], [[u8; 3309]],
    with every offset a [u32]; the last offset is that of the signatures. *)
Definition wf_entries32 (l : list bytes) : Prop := Forall (λ e, length e = 32%nat) l.
Definition wf_ml_wire (w : MlStatusListWire) : Prop :=
  0 ≤ mw_alg w < 256 ∧ wf_entries32 (mw_status_list w) ∧ is_u32 (mw_version w) ∧
  Forall (λ e, length e = Z.to_nat SIGNATURE_BYTES) (mw_signatures w) ∧
  17 + 32 * Z.of_nat (length (mw_status_list w)) + (Z.of_nat (bl_len (mw_signers w)) + 8) / 8
    ≤ u32_max.

Context `{SM : !Ssz MlStatusListWire}.

Record MlDsaStatusList := mkMlStatusList {
  ml_status_list : list bytes;
  ml_version : Z;
  ml_signers : BitList;
  ml_signatures : list MlSignature;
}.

Definition ml_signer_slots (r : MlDsaStatusList) : nat := bl_len (ml_signers r).
Definition ml_signer_count (r : MlDsaStatusList) : nat := bl_num_set_bits (ml_signers r).
Definition ml_signer_indices (r : MlDsaStatusList) : list nat :=
  set_indices (bl_iter (ml_signers r)).

(** [usize] is 64 bits wide. *)
Definition record_len (n_members list_len signature_count : nat) : option Z :=
  l ← checked_mul_u64 (Z.of_nat list_len) 32;
  a ← checked_add_u64 17 l;
  b ← checked_add_u64 a ((Z.of_nat n_members + 8) / 8);
  s ← checked_mul_u64 (Z.of_nat signature_count) SIGNATURE_BYTES;
  checked_add_u64 b s.

Definition check_member_count (n_members : nat) : result unit string :=
  if (1 <=? n_members)%nat && (n_members <=? ML_MAX_COMMITTEE_SIZE)%nat then Ok tt
  else Err ("committee size " +:+ pretty n_members +:+ " outside 1..=2048")%string.

(** [len.is_none_or(|len| len > MAX_RECORD_BYTES)]. *)
Definition over_limit (len : option Z) : bool :=
  match len with Some len => MAX_RECORD_BYTES <? len | None => true end.

(** [MlDsaStatusList::new]; the panic of [expect] is the error it names. *)
Definition ml_status_list_new (status_list : list bytes) (version : Z) (n_members : nat)
    (signatures : list (nat * MlSignature)) : result MlDsaStatusList string :=
  let? _ := check_member_count n_members in
  if (n_members <? length signatures)%nat then Err "more signatures than committee members"%string
  else if over_limit (record_len n_members (length status_list) (length signatures))
  then Err "ML-DSA status list exceeds the record byte limit"%string
  else
    let signatures := sort_by_key pair_index signatures in
    if any_adjacent (λ a b, pair_index a =? pair_index b) signatures
    then Err "duplicate signer index"%string
    else
      let? _ := match last signatures with
                | Some (index, _) =>
                    if (n_members <=? index)%nat
                    then Err ("signer index " +:+ pretty index +:+ " outside committee")%string
                    else Ok tt
                | None => Ok tt
                end in
      let? signers := ok_or (bl_with_capacity n_members)
        "committee bitmap exceeds SSZ limit"%string in
      let? signers := ok_or (set_bits signers (fst <$> signatures))
        "indices checked against bitmap size above"%string in
      Ok (mkMlStatusList status_list version signers (snd <$> signatures)).

Definition ml_wire_of (r : MlDsaStatusList) : MlStatusListWire :=
  mkMlWire ALGORITHM_TAG (ml_status_list r) (ml_version r) (ml_signers r)
    (ml_sig_encode <$> ml_signatures r).

Definition ml_to_bytes (r : MlDsaStatusList) : bytes := as_ssz_bytes (ml_wire_of r).

Definition decode_signature (raw : bytes) : result MlSignature string :=
  let? signature := ok_or (ml_sig_try_from raw) "malformed ML-DSA signature"%string in
  if negb (bool_decide (ml_sig_encode signature = raw))
  then Err "non-canonical ML-DSA signature"%string
  else Ok signature.

Definition ml_from_bytes (b : bytes) : result MlDsaStatusList string :=
  if MAX_RECORD_BYTES <? Z.of_nat (length b)
  then Err "ML-DSA status list exceeds the record byte limit"%string
  else
    let? wire := map_err (λ e, ("invalid ML-DSA status-list SSZ: " +:+ e)%string)
                   (from_ssz_bytes (A := MlStatusListWire) b) in
    if negb (mw_alg wire =? ALGORITHM_TAG)
    then Err ("unexpected status-list algorithm tag " +:+ pretty (mw_alg wire))%string
    else
      let? _ := check_member_count (bl_len (mw_signers wire)) in
      if negb (length (mw_signatures wire) =? bl_num_set_bits (mw_signers wire))%nat
      then Err "bitmap population differs from signature count"%string
      else if negb (bool_decide (as_ssz_bytes wire = b))
      then Err "non-canonical status-list SSZ"%string
      else
        let? signatures := collect_results decode_signature (mw_signatures wire) in
        Ok (mkMlStatusList (mw_status_list wire) (mw_version wire) (mw_signers wire) signatures).

(** ** The constructor *)

Definition ml_size (n_members list_len signature_count : nat) : Z :=
  17 + 32 * Z.of_nat list_len + (Z.of_nat n_members + 8) / 8 +
  SIGNATURE_BYTES * Z.of_nat signature_count.

(** The checked arithmetic gives up only far above the limit. *)
Lemma record_len_fits n l k :
  over_limit (record_len n l k) = false ↔ ml_size n l k ≤ MAX_RECORD_BYTES.
Proof.
  assert (0 ≤ (Z.of_nat n + 8) / 8) by (apply Z.div_pos; lia).
  unfold record_len, over_limit, ml_size, checked_mul_u64, checked_add_u64, MAX_RECORD_BYTES,
    SIGNATURE_BYTES, u64_max in *.
  set (q := (Z.of_nat n + 8) / 8) in *. clearbody q.
  repeat (case_match; simplify_option_eq; try lia).
  all: rewrite ?Z.ltb_ge; lia.
Qed.

Lemma check_member_count_Ok n x :
  check_member_count n = Ok x ↔ (1 ≤ n ≤ ML_MAX_COMMITTEE_SIZE)%nat.
Proof.
  unfold check_member_count. destruct (Nat.leb_spec 1 n), (Nat.leb_spec n ML_MAX_COMMITTEE_SIZE);
    simpl; destruct x; split; (done || (intros; lia)).
Qed.

Definition ml_acceptable (n_members list_len : nat) (signatures : list (nat * MlSignature)) : Prop :=
  (1 ≤ n_members ≤ ML_MAX_COMMITTEE_SIZE)%nat ∧ NoDup (fst <$> signatures) ∧
  Forall (λ x, x.1 < n_members)%nat signatures ∧
  ml_size n_members list_len (length signatures) ≤ MAX_RECORD_BYTES.

(** Slots, bits and signatures say exactly the given pairs, in index order. *)
Definition ml_canonical (n_members : nat) (signatures : list (nat * MlSignature))
    (r : MlDsaStatusList) : Prop :=
  ml_signer_slots r = n_members ∧ ml_signer_count r = length (ml_signatures r) ∧
  zip (ml_signer_indices r) (ml_signatures r) = sort_by_key pair_index signatures.

Section bit_laws.
Context `{BLL : !BitListLaws}.

Lemma ml_count_indices r : ml_signer_count r = length (ml_signer_indices r).
Proof. apply count_indices. Qed.

Lemma ml_new_ok list version n pairs :
  match ml_status_list_new list version n pairs with
  | Ok r => ml_acceptable n (length list) pairs ∧ ml_canonical n pairs r ∧
            ml_status_list r = list ∧ ml_version r = version
  | Err e => ¬ ml_acceptable n (length list) pairs ∧
             e ≠ "indices checked against bitmap size above"%string
  end.
Proof.
  unfold ml_status_list_new, ml_acceptable. cbv zeta.
  destruct (check_member_count n) as [[]|e] eqn:En; cbn [result_bind].
  2: { split; [intros (Hn & _); by rewrite (proj2 (check_member_count_Ok n tt) Hn) in En|].
    unfold check_member_count in En. destruct (_ && _); [done|]. by injection En as <-. }
  apply check_member_count_Ok in En.
  destruct (Nat.ltb_spec n (length pairs)) as [Hlong|Hlong].
  { split; [|done]. intros (_ & Hnd & Hb & _). pose proof (distinct_below n pairs Hnd Hb). lia. }
  destruct (over_limit _) eqn:Ho.
  { split; [|done]. intros (_ & _ & _ & Hs). apply record_len_fits in Hs. congruence. }
  apply record_len_fits in Ho. set (l := sort_by_key pair_index pairs).
  assert (Hperm : l ≡ₚ pairs) by apply sort_by_key_perm.
  assert (Hs : StronglySorted (key_le pair_index) l) by apply sort_by_key_sorted.
  destruct (any_adjacent _ l) eqn:Hdup.
  { split; [|done]. intros (_ & H & _). rewrite <-Hperm in H.
    apply sorted_nodup in H; [congruence|done]. }
  pose proof Hdup as Hlt%any_adjacent_dup; [|done].
  apply sorted_nodup in Hdup; [|done]. rewrite Hperm in Hdup.
  pose proof (last_test pairs n) as Hlast. fold l in Hlast.
  destruct (last l) as [[i sg]|]; simpl in Hlast; [destruct (n <=? i)%nat|]; cbn [result_bind].
  { split; [|done]. intros (_ & _ & H & _). by apply Hlast in H. }
  all: assert (Hbound := proj1 Hlast eq_refl).
  all: destruct (pack_ok n l) as (bits & bits' & -> & E & Hlen & Hidx);
    [done|by rewrite Hperm|unfold ML_MAX_COMMITTEE_SIZE in *; lia|].
  all: cbn [ok_or result_bind]; rewrite E; cbn [ok_or result_bind]; split; [split_and!; (done || lia)|].
  all: split; [|done]; split_and!; [exact Hlen| |].
  all: try (rewrite ml_count_indices; unfold ml_signer_indices; simpl;
    by rewrite Hidx, !length_fmap).
  all: unfold ml_signer_indices; simpl; by rewrite Hidx, zip_fst_snd.
Qed.

(** [MlDsaStatusList::new] accepts exactly a committee of 1 to 2048 members,
    distinct indices inside it and a record that stays within 64 MiB, and what
    it builds pairs each bit with the signature that was given for it; no call
    reaches the [expect], and no length computation that overflows is let
    through. *)
Theorem ml_status_list_new_spec list version n pairs :
  match ml_status_list_new list version n pairs with
  | Ok r => ml_acceptable n (length list) pairs ∧ ml_canonical n pairs r ∧
            ml_status_list r = list ∧ ml_version r = version
  | Err e => ¬ ml_acceptable n (length list) pairs ∧
             e ≠ "indices checked against bitmap size above"%string
  end.
Proof. apply ml_new_ok. Qed.
End bit_laws.

(** ** Round trips *)

Section codec.
Context `{LM : !SszLaws MlStatusListWire wf_ml_wire}.
(** SSZ fixes the size: a tag, a [u32], three offsets, then the three variable
    parts, the bitmap with its sentinel bit. *)
Context (ml_ssz_size : ∀ w : MlStatusListWire, wf_ml_wire w →
  Z.of_nat (length (as_ssz_bytes w)) =
    ml_size (bl_len (mw_signers w)) (length (mw_status_list w)) (length (mw_signatures w))).

Record wf_ml_record (r : MlDsaStatusList) : Prop := {
  wr_entries : wf_entries32 (ml_status_list r);
  wr_version : is_u32 (ml_version r);
  wr_slots : (1 ≤ ml_signer_slots r ≤ ML_MAX_COMMITTEE_SIZE)%nat;
  wr_count : ml_signer_count r = length (ml_signatures r);
  wr_size : ml_size (ml_signer_slots r) (length (ml_status_list r)) (length (ml_signatures r))
              ≤ MAX_RECORD_BYTES;
}.

Lemma wf_ml_wire_of r : wf_ml_record r → wf_ml_wire (ml_wire_of r).
Proof.
  intros [He Hv _ _ Hs]. split_and!; [done..| |].
  - simpl. apply Forall_fmap, Forall_true. intros sg. simpl. by rewrite ml_sig_encode_length.
  - unfold ml_size, MAX_RECORD_BYTES, u32_max, SIGNATURE_BYTES, ml_signer_slots in *. simpl in *. lia.
Qed.

Lemma decode_signature_Ok raw sg : decode_signature raw = Ok sg ↔ ml_sig_encode sg = raw.
Proof.
  unfold decode_signature. split.
  - intros (sg' & Hs & H)%result_bind_Ok. case_bool_decide; simpl in H; [|done]. by simplify_eq.
  - intros <-. rewrite ml_sig_try_from_encode. simpl. by rewrite bool_decide_eq_true_2.
Qed.

Lemma collect_signatures raws sgs :
  collect_results decode_signature raws = Ok sgs ↔ raws = ml_sig_encode <$> sgs.
Proof.
  rewrite collect_results_Ok. split.
  - induction 1 as [|raw sg raws sgs H%decode_signature_Ok _ IH]; [done|]. by rewrite fmap_cons, H, IH.
  - intros ->. apply Forall2_fmap_l, Forall_Forall2_diag, Forall_true. intros sg.
    by apply decode_signature_Ok.
Qed.

Lemma ml_from_to r : wf_ml_record r → ml_from_bytes (ml_to_bytes r) = Ok r.
Proof.
  intros Hr. pose proof (wf_ml_wire_of r Hr) as Hw. destruct Hr as [_ _ Hslots Hcount Hsize].
  unfold ml_from_bytes, ml_to_bytes.
  rewrite (proj2 (Z.ltb_ge _ _)) by (rewrite ml_ssz_size by done; simpl; by rewrite length_fmap).
  rewrite (ssz_from_as (wf := wf_ml_wire)) by done. simpl.
  rewrite (proj2 (check_member_count_Ok _ tt)) by done. simpl.
  unfold ml_signer_count in Hcount. rewrite length_fmap, <-Hcount, Nat.eqb_refl. simpl.
  rewrite bool_decide_eq_true_2 by done. simpl.
  rewrite (proj2 (collect_signatures _ (ml_signatures r)) eq_refl). by destruct r.
Qed.

Lemma ml_from_bytes_ok b r : ml_from_bytes b = Ok r → wf_ml_record r ∧ ml_to_bytes r = b.
Proof.
  unfold ml_from_bytes. destruct (Z.ltb_spec MAX_RECORD_BYTES (Z.of_nat (length b))) as [|Hlen]; [done|].
  intros (w & Hw & H)%result_bind_Ok. destruct (from_ssz_bytes b) as [w'|] eqn:E; [|done].
  injection Hw as ->. destruct (Z.eqb_spec (mw_alg w) ALGORITHM_TAG) as [Ha|]; [|done].
  apply result_bind_Ok in H as ([] & Hn%check_member_count_Ok & H).
  destruct (Nat.eqb_spec (length (mw_signatures w)) (bl_num_set_bits (mw_signers w))) as [Hc|]; [|done].
  case_bool_decide as Hb; simpl in H; [|done]. apply result_bind_Ok in H as (sgs & Hs & [= <-]).
  apply collect_signatures in Hs. pose proof (ssz_from_wf (wf := wf_ml_wire) _ _ E) as Hwf.
  pose proof Hwf as (_ & He & Hv & _). split.
  - split; simpl; [done..| |]; unfold ml_signer_count, ml_signer_slots; simpl;
      rewrite <-(length_fmap ml_sig_encode sgs), <-Hs; [done|].
    by rewrite <-ml_ssz_size, Hb by done.
  - unfold ml_to_bytes, ml_wire_of. simpl. rewrite <-Hs, <-Ha. by destruct w.
Qed.

(** One wire form per ML-DSA record: [from_bytes] accepts a byte string exactly
    when it is the encoding of a well-formed record within the byte limit, and
    returns that record. *)
Theorem ml_record_wire_canonical b r :
  ml_from_bytes b = Ok r ↔ wf_ml_record r ∧ ml_to_bytes r = b.
Proof.
  split; [apply ml_from_bytes_ok|]. intros [Hr <-]. by apply ml_from_to.
Qed.

Lemma ml_new_from_to `{BLL : !BitListLaws} list version n pairs r :
  wf_entries32 list → is_u32 version → ml_status_list_new list version n pairs = Ok r →
  ml_from_bytes (ml_to_bytes r) = Ok r.
Proof.
  intros Hl Hv Hnew. pose proof (ml_new_ok list version n pairs) as H. rewrite Hnew in H.
  destruct H as ((Hn & _ & _ & Hs) & (Hslots & Hcount & Hzip) & <- & <-).
  apply ml_from_to. split; rewrite ?Hslots; try done.
  assert (length (ml_signatures r) = length pairs) as ->; [|done].
  rewrite <-(sort_by_key_perm pair_index pairs), <-Hzip, length_zip_with, <-ml_count_indices. lia.
Qed.

(** C37 What a publisher builds, every reader decodes: a record that [new] returns
    for a list of 32-byte entries and a [u32] version never trips the reader's
    size, tag, population or canonicity checks. *)
Theorem ml_new_decodes `{BLL : !BitListLaws} list version n pairs r :
  wf_entries32 list → is_u32 version → ml_status_list_new list version n pairs = Ok r →
  ml_from_bytes (ml_to_bytes r) = Ok r.
Proof. apply ml_new_from_to. Qed.
End codec.

(** ** What a statement binds *)

Section statement.
(** The layout of the container, which the repository's tests pin byte by byte:
    the list is the only variable field, at offset 57. *)
Context (statement_layout : ∀ w : StatementWire,
  0 ≤ st_alg w < 256 → length (st_anchor_id w) = ANCHOR_ID_BYTES → is_u32 (st_version w) →
  wf_entries32 (st_status_list w) →
  ssz_encode w = [byte_of_Z (st_alg w)] ++ st_anchor_id w ++ u32_le (st_version w) ++
                 u32_le 57 ++ mjoin (st_status_list w)).

Lemma statement_preimage_inj a a' l l' v v' :
  length a = ANCHOR_ID_BYTES → length a' = ANCHOR_ID_BYTES →
  wf_entries32 l → wf_entries32 l' → is_u32 v → is_u32 v' →
  statement_preimage a l v = statement_preimage a' l' v' → a = a' ∧ l = l' ∧ v = v'.
Proof.
  intros Ha Ha' Hl Hl' Hv Hv' E. unfold statement_preimage in E. apply app_inv_head in E.
  rewrite !statement_layout in E by done.
  cbn [st_alg st_anchor_id st_version st_status_list] in E. apply app_inv_head in E.
  apply app_inj_1 in E as [-> E]; [|congruence].
  apply app_inj_1 in E as [Ev E]; [|unfold u32_le; by rewrite !length_le_bytes].
  apply u32_le_inj in Ev as ->; [|done..]. apply app_inv_head in E.
  by apply (mjoin_fixed_inj 32) in E as ->; [|lia|..].
Qed.

Lemma statement_digest_inj a a' l l' v v' :
  length a = ANCHOR_ID_BYTES → length a' = ANCHOR_ID_BYTES →
  wf_entries32 l → wf_entries32 l' → is_u32 v → is_u32 v' →
  statement_digest a l v = statement_digest a' l' v' →
  (a = a' ∧ l = l' ∧ v = v') ∨
  collides shake256_64 (statement_preimage a l v) (statement_preimage a' l' v').
Proof.
  intros Ha Ha' Hl Hl' Hv Hv' [E|?]%hash_eq_or_collides; [left|by right].
  by apply statement_preimage_inj in E.
Qed.
End statement.
End ml_status_lists.
