(* ===== verification/MlCommittees.v ===== *)
(** * The ML-DSA anchor and predicate (mldsa/src/committee.rs, verifier.rs)

    The trust anchor of the ML-DSA committee, the statement it authorizes and
    the quorum predicate over decoded records. *)
From S2P Require Import Prelude External Seats MlStatusLists.

Open Scope Z_scope.

Definition PUBLIC_KEY_BYTES : Z := 1952.
Definition ANCHOR_ID_DOMAIN : bytes :=
  ascii_bytes (str "decentralized-root-of-trust/ml-dsa-65/anchor-id/v1") ++ [Byte.x00].
Definition ML_COMMITTEE_FIXED_WIRE_BYTES : Z := 4 + 8.
Definition ML_MAX_COMMITTEE_WIRE_BYTES : Z :=
  ML_COMMITTEE_FIXED_WIRE_BYTES + Z.of_nat ML_MAX_COMMITTEE_SIZE * PUBLIC_KEY_BYTES.

Section ml_committees.
Context `{HH : Hashes} `{ML : MlDsa} `{BL : BitListOps}.

(** ** Data *)

Record MlCommitteeWire := mkMlCommitteeWire {
  mcw_members : list bytes;
  mcw_threshold : Z;
}.

Definition wf_ml_committee_wire (w : MlCommitteeWire) : Prop :=
  Forall (λ e, length e = Z.to_nat PUBLIC_KEY_BYTES) (mcw_members w) ∧ is_u64 (mcw_threshold w).

Context `{SMC : !Ssz MlCommitteeWire} `{SST : !SszEncode StatementWire}.

Record MlCommittee := mkMlCommittee {
  ml_members : list MlPublicKey;
  ml_threshold : Z;
  ml_anchor_id : bytes;
}.

(** ** Keys *)

Definition encode_public_key (pk : MlPublicKey) : bytes := ml_pk_encode pk.

(** The argument of the code is an array of exactly [PUBLIC_KEY_BYTES] bytes. *)
Definition decode_public_key (b : bytes) : result MlPublicKey string :=
  if negb (Z.of_nat (length b) =? PUBLIC_KEY_BYTES)
  then Err "invalid ML-DSA-65 public-key length"%string
  else
    let public_key := ml_pk_decode b in
    if negb (bool_decide (encode_public_key public_key = b))
    then Err "non-canonical ML-DSA-65 public key"%string
    else Ok public_key.

(** ** Construction *)

Definition validate_members (members : list MlPublicKey) : result unit string :=
  match members with
  | [] => Err "committee must contain at least one member"%string
  | _ =>
      if (ML_MAX_COMMITTEE_SIZE <? length members)%nat
      then Err ("committee names " +:+ pretty (length members) +:+
                " members, above the ceiling of 2048")%string
      else if insert_seen encode_public_key ∅ members
      then Err "committee contains duplicate member public keys"%string
      else Ok tt
  end.

Definition validate_threshold (threshold : Z) (member_count : nat) : result unit string :=
  if negb ((1 <=? threshold) && (threshold <=? Z.of_nat member_count))
  then Err ("committee threshold " +:+ pretty threshold +:+ " outside 1..=" +:+
            pretty member_count)%string
  else Ok tt.

Definition wire_bytes (members : list MlPublicKey) (threshold : Z) : bytes :=
  as_ssz_bytes (mkMlCommitteeWire (encode_public_key <$> members) threshold).

Definition anchor_id_from_canonical_bytes (b : bytes) : bytes := sha3_384 (ANCHOR_ID_DOMAIN ++ b).

Definition ml_committee_new (members : list MlPublicKey) (threshold : Z) :
    result MlCommittee string :=
  let? _ := validate_members members in
  let? _ := validate_threshold threshold (length members) in
  let b := wire_bytes members threshold in
  Ok (mkMlCommittee members threshold (anchor_id_from_canonical_bytes b)).

Definition ml_committee_from_bytes (b : bytes) : result MlCommittee string :=
  if ML_MAX_COMMITTEE_WIRE_BYTES <? Z.of_nat (length b)
  then Err ("committee wire size " +:+ pretty (length b) +:+ " B is above the ceiling of " +:+
            pretty ML_MAX_COMMITTEE_WIRE_BYTES +:+ " B")%string
  else
    let? wire := map_err (λ e, ("invalid ML-DSA committee SSZ: " +:+ e)%string)
                   (from_ssz_bytes (A := MlCommitteeWire) b) in
    let? threshold :=
      (if mcw_threshold wire <=? u64_max then Ok (mcw_threshold wire)
       else Err ("committee threshold " +:+ pretty (mcw_threshold wire) +:+ " is too large")%string) in
    let? members := collect_results decode_public_key (mcw_members wire) in
    let? _ := validate_members members in
    let? _ := validate_threshold threshold (length members) in
    if negb (bool_decide (wire_bytes members threshold = b))
    then Err "non-canonical ML-DSA committee SSZ"%string
    else Ok (mkMlCommittee members threshold (anchor_id_from_canonical_bytes b)).

Definition ml_committee_to_bytes (c : MlCommittee) : bytes :=
  wire_bytes (ml_members c) (ml_threshold c).

Definition member_count (c : MlCommittee) : nat := length (ml_members c).

Definition ml_index_of (c : MlCommittee) (member : MlPublicKey) : option nat :=
  position member (ml_members c).

Definition statement_for (c : MlCommittee) (status_list : list bytes) (version : Z) : bytes :=
  statement_digest (ml_anchor_id c) status_list version.

(** [Committee::statement_preimage]. *)
Definition committee_statement_preimage (c : MlCommittee) (status_list : list bytes) (version : Z) :
    bytes := statement_preimage (ml_anchor_id c) status_list version.

(** ** The predicate *)

Record MlRawVerifier := mkMlVerifier { mlv_committee : MlCommittee }.

(** [false] where [members()[index]] would panic; [ml_verify_in_range] excludes it. *)
Definition ml_signature_ok (members : list MlPublicKey) (statement : bytes)
    (x : nat * MlSignature) : bool :=
  match members !! x.1 with Some pk => ml_verify pk statement x.2 | None => false end.

Definition ml_verify_status_list (v : MlRawVerifier) (record : MlDsaStatusList) : bool :=
  if negb (ml_signer_slots record =? member_count (mlv_committee v))%nat ||
     (Z.of_nat (ml_signer_count record) <? ml_threshold (mlv_committee v)) ||
     negb (ml_signer_count record =? length (ml_signatures record))%nat
  then false
  else
    let statement := statement_for (mlv_committee v) (ml_status_list record) (ml_version record) in
    forallb (ml_signature_ok (ml_members (mlv_committee v)) statement)
      (zip (ml_signer_indices record) (ml_signatures record)).

(** ** Well-formed anchors *)

Record wf_ml_committee (c : MlCommittee) : Prop := {
  wm_threshold : 1 ≤ ml_threshold c ≤ Z.of_nat (member_count c);
  wm_size : (member_count c ≤ ML_MAX_COMMITTEE_SIZE)%nat;
  wm_distinct : NoDup (ml_members c);
  wm_anchor_id : ml_anchor_id c =
    anchor_id_from_canonical_bytes (wire_bytes (ml_members c) (ml_threshold c));
}.

Lemma validate_members_Ok l x :
  validate_members l = Ok x ↔ l ≠ [] ∧ (length l ≤ ML_MAX_COMMITTEE_SIZE)%nat ∧ NoDup l.
Proof.
  rewrite <-(insert_seen_nodup encode_public_key).
  unfold validate_members. destruct l as [|pk l]; [naive_solver|].
  destruct (Nat.ltb_spec ML_MAX_COMMITTEE_SIZE (length (pk :: l))) as [Hl|Hl];
    [split; [done|intros (_ & ? & _); lia]|].
  destruct (insert_seen _ _ _), x; naive_solver.
Qed.

Lemma validate_threshold_Ok v n x : validate_threshold v n = Ok x ↔ 1 ≤ v ≤ Z.of_nat n.
Proof.
  unfold validate_threshold. destruct (Z.leb_spec 1 v), (Z.leb_spec v (Z.of_nat n)), x; simpl;
    split; (done || (intros; lia)).
Qed.

Lemma decode_public_key_Ok b pk : decode_public_key b = Ok pk ↔ encode_public_key pk = b.
Proof.
  unfold decode_public_key, encode_public_key. split.
  - destruct (negb (_ =? _)); [done|]. by case_bool_decide; simpl; [intros [= <-]|].
  - intros <-. rewrite ml_pk_encode_length, ml_pk_decode_encode. simpl.
    by rewrite bool_decide_eq_true_2.
Qed.

Lemma collect_members bs pks :
  collect_results decode_public_key bs = Ok pks ↔ bs = encode_public_key <$> pks.
Proof.
  rewrite collect_results_Ok. split.
  - induction 1 as [|b pk bs pks H%decode_public_key_Ok _ IH]; [done|]. by rewrite fmap_cons, H, IH.
  - intros ->. apply Forall2_fmap_l, Forall_Forall2_diag, Forall_true. intros pk.
    by apply decode_public_key_Ok.
Qed.

Lemma ml_committee_new_ok ms v c :
  ml_committee_new ms v = Ok c ↔ wf_ml_committee c ∧ ml_members c = ms ∧ ml_threshold c = v.
Proof.
  unfold ml_committee_new. split.
  - intros ([] & (_ & Hl & Hd)%validate_members_Ok &
      ([] & Ht%validate_threshold_Ok & [= <-])%result_bind_Ok)%result_bind_Ok. done.
  - intros ([Ht Hl Hd Hf] & <- & <-).
    rewrite (proj2 (validate_members_Ok _ tt)); [|split_and!; [|done..]].
    2:{ intros E. unfold member_count in Ht. rewrite E in Ht. simpl in Ht. lia. }
    simpl. rewrite (proj2 (validate_threshold_Ok _ _ tt)) by done. simpl.
    rewrite <-Hf. by destruct c.
Qed.

(** ** The wire form *)

Section wire.
Context `{LMC : !SszLaws MlCommitteeWire wf_ml_committee_wire}.
(** SSZ fixes the layout: an offset, a [u64], then 1952 bytes a member. *)
Context (ml_committee_size : ∀ w : MlCommitteeWire, wf_ml_committee_wire w →
  Z.of_nat (length (as_ssz_bytes w)) =
    ML_COMMITTEE_FIXED_WIRE_BYTES + PUBLIC_KEY_BYTES * Z.of_nat (length (mcw_members w))).

Lemma wf_ml_committee_wire_of c :
  wf_ml_committee c →
  wf_ml_committee_wire (mkMlCommitteeWire (encode_public_key <$> ml_members c) (ml_threshold c)).
Proof.
  intros [Ht Hn _ _]. split; simpl.
  - apply Forall_fmap, Forall_true. intros pk. simpl. unfold encode_public_key.
    by rewrite ml_pk_encode_length.
  - unfold is_u64, u64_max, member_count in *. assert (ML_MAX_COMMITTEE_SIZE = Z.to_nat 2048) by done.
    simpl. lia.
Qed.

Lemma ml_committee_from_to c :
  wf_ml_committee c → ml_committee_from_bytes (ml_committee_to_bytes c) = Ok c.
Proof.
  intros Hc. pose proof (wf_ml_committee_wire_of _ Hc) as Hw. pose proof Hw as [_ Ht64].
  pose proof (proj2 (ml_committee_new_ok (ml_members c) (ml_threshold c) c)
    (conj Hc (conj eq_refl eq_refl))) as Hnew.
  unfold ml_committee_new in Hnew.
  apply result_bind_Ok in Hnew as ([] & Hm & Hnew). apply result_bind_Ok in Hnew as ([] & Ht & _).
  pose proof (wm_anchor_id _ Hc) as Hf. pose proof (wm_size _ Hc) as Hn.
  unfold ml_committee_from_bytes, ml_committee_to_bytes. rewrite (proj2 (Z.ltb_ge _ _)).
  2:{ unfold wire_bytes. rewrite ml_committee_size by done. simpl. rewrite length_fmap.
    unfold ML_MAX_COMMITTEE_WIRE_BYTES, ML_COMMITTEE_FIXED_WIRE_BYTES, PUBLIC_KEY_BYTES,
      member_count in *. lia. }
  unfold wire_bytes at 1. rewrite (ssz_from_as (wf := wf_ml_committee_wire)) by done. simpl.
  rewrite (proj2 (Z.leb_le _ _)) by apply Ht64. simpl.
  rewrite (proj2 (collect_members _ (ml_members c)) eq_refl). simpl. rewrite Hm. simpl.
  rewrite Ht. simpl. rewrite bool_decide_eq_true_2 by done. simpl. rewrite <-Hf. by destruct c.
Qed.

Lemma ml_committee_from_bytes_ok b c :
  ml_committee_from_bytes b = Ok c → wf_ml_committee c ∧ ml_committee_to_bytes c = b.
Proof.
  unfold ml_committee_from_bytes. destruct (_ <? _); [done|].
  intros (w & Hw & (v & Hv & (ms & Hms & ([] & Hm & ([] & Ht & H)%result_bind_Ok)%result_bind_Ok)
    %result_bind_Ok)%result_bind_Ok)%result_bind_Ok.
  case_bool_decide as Hb; simpl in H; [|done]. injection H as <-.
  apply validate_members_Ok in Hm as (_ & Hl & Hd). apply validate_threshold_Ok in Ht.
  split; [|exact Hb]. split; [exact Ht|exact Hl|exact Hd|]. simpl. by rewrite Hb.
Qed.

(** One wire form per ML-DSA anchor: [Committee::from_bytes] accepts a byte
    string exactly when it is the encoding of a well-formed anchor, and returns
    that anchor with the identifier that [Committee::new] computes. *)
Theorem ml_committee_wire_canonical b c :
  ml_committee_from_bytes b = Ok c ↔ wf_ml_committee c ∧ ml_committee_to_bytes c = b.
Proof.
  split; [apply ml_committee_from_bytes_ok|]. intros [Hc <-]. by apply ml_committee_from_to.
Qed.

Lemma anchor_id_identifies c c' :
  wf_ml_committee c → wf_ml_committee c' → ml_anchor_id c = ml_anchor_id c' →
  c = c' ∨ collides sha3_384 (ANCHOR_ID_DOMAIN ++ ml_committee_to_bytes c)
              (ANCHOR_ID_DOMAIN ++ ml_committee_to_bytes c').
Proof.
  intros Hc Hc' E. rewrite (wm_anchor_id _ Hc), (wm_anchor_id _ Hc') in E.
  apply (hash_eq_or_collides sha3_384) in E as [E|?]; [left|by right]. apply app_inv_head in E.
  pose proof (ml_committee_from_to c Hc) as H. pose proof (ml_committee_from_to c' Hc') as H'.
  unfold ml_committee_to_bytes in *. rewrite E in H. congruence.
Qed.

(** A statement belongs to one anchor, list and version: if the statements two
    well-formed anchors authorize are equal, the anchors, lists and versions are,
    or SHA3-384 collides on the two anchors or SHAKE256 on the two statements; a member's signature for one committee,
    threshold, version or list order is evidence for no other. *)
Theorem statement_binds_anchor c c' l l' v v' :
  (∀ w : StatementWire,
    0 ≤ st_alg w < 256 → length (st_anchor_id w) = ANCHOR_ID_BYTES → is_u32 (st_version w) →
    wf_entries32 (st_status_list w) →
    ssz_encode w = [byte_of_Z (st_alg w)] ++ st_anchor_id w ++ u32_le (st_version w) ++
                   u32_le 57 ++ mjoin (st_status_list w)) →
  wf_ml_committee c → wf_ml_committee c' → wf_entries32 l → wf_entries32 l' →
  is_u32 v → is_u32 v' → statement_for c l v = statement_for c' l' v' →
  (c = c' ∧ l = l' ∧ v = v') ∨
  collides sha3_384 (ANCHOR_ID_DOMAIN ++ ml_committee_to_bytes c) (ANCHOR_ID_DOMAIN ++ ml_committee_to_bytes c') ∨
  collides shake256_64 (committee_statement_preimage c l v) (committee_statement_preimage c' l' v').
Proof.
  intros Hlay Hc Hc' Hl Hl' Hv Hv' E.
  assert (Hlen : ∀ x, wf_ml_committee x → length (ml_anchor_id x) = ANCHOR_ID_BYTES).
  { intros x Hx. rewrite (wm_anchor_id _ Hx). apply sha3_384_length. }
  apply (statement_digest_inj Hlay) in E as [(Ea & -> & ->)|?]; auto.
  destruct (anchor_id_identifies c c' Hc Hc' Ea) as [->|?]; auto.
Qed.
End wire.

(** ** The predicate decides the quorum *)

Section predicate.
Context `{BLL : !BitListLaws}.

(** At least [threshold] distinct members of [c] with a signature among [sigs]
    on the statement of this list and version. *)
Definition ml_quorum (c : MlCommittee) (list : list bytes) (version : Z) (sigs : Datatypes.list MlSignature) :
    Prop :=
  ∃ pks : Datatypes.list MlPublicKey,
    NoDup pks ∧ ml_threshold c ≤ Z.of_nat (length pks) ∧
    ∀ pk, pk ∈ pks → pk ∈ ml_members c ∧
      ∃ sig, sig ∈ sigs ∧ ml_verify pk (statement_for c list version) sig = true.

Lemma ml_verify_true c r :
  ml_verify_status_list (mkMlVerifier c) r = true ↔
  ml_signer_slots r = member_count c ∧ ml_threshold c ≤ Z.of_nat (ml_signer_count r) ∧
  ml_signer_count r = length (ml_signatures r) ∧
  Forall (λ x, ml_signature_ok (ml_members c)
    (statement_for c (ml_status_list r) (ml_version r)) x = true)
    (zip (ml_signer_indices r) (ml_signatures r)).
Proof.
  unfold ml_verify_status_list. simpl.
  destruct (Nat.eqb_spec (ml_signer_slots r) (member_count c)); simpl; [|naive_solver].
  destruct (Z.ltb_spec (Z.of_nat (ml_signer_count r)) (ml_threshold c)); simpl; [split; [done|lia]|].
  destruct (Nat.eqb_spec (ml_signer_count r) (length (ml_signatures r))); simpl; [|naive_solver].
  rewrite forallb_forall. setoid_rewrite <-list_elem_of_In. rewrite Forall_forall. naive_solver.
Qed.

(** A quorum of distinct seats makes a record the predicate accepts. *)
Lemma ml_quorum_verified c list version pairs :
  wf_ml_committee c →
  NoDup (fst <$> pairs) → ml_threshold c ≤ Z.of_nat (length pairs) →
  ml_size (member_count c) (length list) (length pairs) ≤ MAX_RECORD_BYTES →
  Forall (λ x, ml_signature_ok (ml_members c) (statement_for c list version) x = true) pairs →
  ∃ r, ml_status_list_new list version (member_count c) pairs = Ok r ∧
       ml_verify_status_list (mkMlVerifier c) r = true ∧
       ml_status_list r = list ∧ ml_version r = version.
Proof.
  intros Hc Hnd Ht Hs Hall.
  pose proof (ml_new_ok list version (member_count c) pairs) as Hnew.
  assert (Hacc : ml_acceptable (member_count c) (length list) pairs).
  { pose proof (wm_threshold _ Hc). pose proof (wm_size _ Hc).
    split_and!; [lia|lia|done| |done]. eapply Forall_impl; [exact Hall|]. intros [i sig] Hok.
    unfold ml_signature_ok in Hok. simpl in *. destruct (ml_members c !! i) eqn:E; [|done].
    by eapply lookup_lt_Some. }
  destruct (ml_status_list_new _ _ _ _) as [r|e]; [|by destruct Hnew].
  destruct Hnew as (_ & (Hslots & Hcount & Hzip) & <- & <-). exists r. split_and!; [done| |done..].
  assert (Hlen : length (ml_signatures r) = length pairs).
  { rewrite <-(sort_by_key_perm pair_index pairs), <-Hzip, length_zip_with.
    rewrite <-ml_count_indices, Hcount. lia. }
  apply ml_verify_true. split_and!; [done|by rewrite Hcount, Hlen|done|].
  by rewrite Hzip, sort_by_key_perm.
Qed.

(** An accepted record carries a quorum. *)
Lemma ml_verified_quorum c r :
  wf_ml_committee c → ml_verify_status_list (mkMlVerifier c) r = true →
  ml_quorum c (ml_status_list r) (ml_version r) (ml_signatures r).
Proof.
  intros Hc (Hn & Ht & Hcount & Hall)%ml_verify_true.
  destruct (seated (ml_members c) (ml_signer_indices r) (ml_signatures r)
    (λ pk sig, ml_verify pk (statement_for c (ml_status_list r) (ml_version r)) sig = true))
    as (pks & Hnd & Hlen & Hpks).
  - apply Hc.
  - apply set_indices_sorted.
  - by rewrite <-ml_count_indices.
  - apply Forall_forall. intros i Hi. unfold member_count in Hn. rewrite <-Hn.
    by apply set_indices_range.
  - eapply Forall_impl; [exact Hall|]. intros [i sig]. unfold ml_signature_ok. simpl.
    destruct (ml_members c !! i); naive_solver.
  - exists pks. split_and!; [done| |exact Hpks]. by rewrite Hlen, <-ml_count_indices.
Qed.

(** C36 The ML-DSA predicate decides the quorum: it says yes only when at least
    [threshold] distinct members of the anchor signed exactly this list and
    version under this anchor; and an honest quorum of distinct seats, each
    with a signature that verifies, builds a record that passes, in whatever
    order the signatures were collected. *)
Theorem ml_predicate c :
  wf_ml_committee c →
  (∀ r, ml_verify_status_list (mkMlVerifier c) r = true →
        ml_quorum c (ml_status_list r) (ml_version r) (ml_signatures r)) ∧
  (∀ list version pairs,
    NoDup (fst <$> pairs) → ml_threshold c ≤ Z.of_nat (length pairs) →
    ml_size (member_count c) (length list) (length pairs) ≤ MAX_RECORD_BYTES →
    Forall (λ x, ml_signature_ok (ml_members c) (statement_for c list version) x = true) pairs →
    ∃ r, ml_status_list_new list version (member_count c) pairs = Ok r ∧
         ml_verify_status_list (mkMlVerifier c) r = true).
Proof.
  intros Hc. split.
  - intros r. by apply ml_verified_quorum.
  - intros list version pairs Hnd Ht Hs Hall.
    destruct (ml_quorum_verified c list version pairs) as (r & ? & ? & _); [done..|]. by exists r.
Qed.
End predicate.
End ml_committees.
