(* ===== verification/Wire.v ===== *)
(** * The demo network's messages (demo/src/wire.rs)

    Message kinds, framing over a byte stream, and the one-line failure
    messages. *)
From S2P Require Import Prelude Fs External Instances.

Open Scope Z_scope.

(** ** Strings as UTF-8 bytes *)

Definition bytes_string (b : bytes) : string := String.string_of_list_byte b.

Definition utf8_valid (b : bytes) : bool := match from_utf8 b with Some _ => true | None => false end.

(** [String::from_utf8]. *)
Definition string_from_utf8 (b : bytes) : result string unit :=
  if utf8_valid b then Ok (bytes_string b) else Err tt.

(** [String::from_utf8_lossy]: every maximal prefix of a well-formed sequence
    that is not one becomes U+FFFD. *)
Definition replacement : bytes := [Byte.xef; Byte.xbf; Byte.xbd].
Definition cont (lo hi : Z) (b : byte) : bool := cont_byte lo hi (Z_of_byte b).

Fixpoint lossy (fuel : nat) (l : bytes) : bytes :=
  match fuel, l with
  | S fuel, x :: l1 =>
      let a := Z_of_byte x in
      if a <=? 0x7F then x :: lossy fuel l1
      else if (0xC2 <=? a) && (a <=? 0xDF) then
        match l1 with
        | y :: l2 => if cont 0x80 0xBF y then x :: y :: lossy fuel l2
                     else replacement ++ lossy fuel l1
        | [] => replacement
        end
      else if (0xE0 <=? a) && (a <=? 0xEF) then
        let lo := if a =? 0xE0 then 0xA0 else 0x80 in
        let hi := if a =? 0xED then 0x9F else 0xBF in
        match l1 with
        | y :: l2 =>
            if cont lo hi y then
              match l2 with
              | z :: l3 => if cont 0x80 0xBF z then x :: y :: z :: lossy fuel l3
                           else replacement ++ lossy fuel l2
              | [] => replacement
              end
            else replacement ++ lossy fuel l1
        | [] => replacement
        end
      else if (0xF0 <=? a) && (a <=? 0xF4) then
        let lo := if a =? 0xF0 then 0x90 else 0x80 in
        let hi := if a =? 0xF4 then 0x8F else 0xBF in
        match l1 with
        | y :: l2 =>
            if cont lo hi y then
              match l2 with
              | z :: l3 =>
                  if cont 0x80 0xBF z then
                    match l3 with
                    | u :: l4 => if cont 0x80 0xBF u then x :: y :: z :: u :: lossy fuel l4
                                 else replacement ++ lossy fuel l3
                    | [] => replacement
                    end
                  else replacement ++ lossy fuel l2
              | [] => replacement
              end
            else replacement ++ lossy fuel l1
        | [] => replacement
        end
      else replacement ++ lossy fuel l1
  | _, _ => []
  end.

Definition from_utf8_lossy (b : bytes) : string := bytes_string (lossy (length b) b).

(** ** Messages *)

Definition MSG_STATUS_REQUEST : Z := 1.
Definition MSG_PROPOSAL : Z := 2.
Definition MSG_SIGNATURE : Z := 3.
Definition MSG_STATUS_UPDATED : Z := 4.
Definition MSG_FAILURE : Z := 5.
Definition MSG_ROUND_REQUEST : Z := 6.
Definition MSG_ROUND_RESULT : Z := 7.
Definition MAX_FRAME : Z := 8 * 1024 * 1024.
Definition ACTION_VERIFY : Z := 0.
Definition ACTION_ISSUE : Z := 1.
Definition ACTION_REVOKE : Z := 2.

Record StatusRequest := mkStatusRequest { sr_action : Z; sr_data : bytes }.
Record Proposal := mkProposal { p_version : Z; p_list : list bytes }.
Record StatusUpdated := mkStatusUpdated { su_version : Z; su_credential : bytes }.
Record Failure := mkFailure { f_reason : bytes }.
Record SignatureReply `{Xmss} := mkSignatureReply {
  sr_signature : list XmssSignature;
  sr_reason : bytes;
}.
Arguments mkSignatureReply {_}.
Arguments sr_signature {_}.
Arguments sr_reason {_}.
Record MlDsaSignatureReply := mkMlDsaSignatureReply {
  mr_signature : list bytes;
  mr_reason : bytes;
}.

(** The values the schemas can express. *)
Definition wf_status_request (r : StatusRequest) : Prop := 0 ≤ sr_action r < 256.
Definition wf_proposal (p : Proposal) : Prop :=
  is_u32 (p_version p) ∧ Forall (λ e, length e = 32%nat) (p_list p).
Definition wf_status_updated (u : StatusUpdated) : Prop := is_u32 (su_version u).
Definition any_value {A} (_ : A) : Prop := True.

Section failures.
Context `{SF : !Ssz Failure}.

Definition failure_of (reason : string) : bytes := as_ssz_bytes (mkFailure (string_bytes reason)).

Definition failure_text (b : bytes) : string :=
  match from_ssz_bytes (A := Failure) b with
  | Ok f => from_utf8_lossy (f_reason f)
  | Err _ => "undecodable failure message"%string
  end.
End failures.

(** ** Framing *)

(** An in-memory view of one direction of a connection: the bytes still to be
    read; reading past them is the error of [read_exact]. *)
Definition read_exact (n : nat) (stream : bytes) : result (bytes * bytes) string :=
  if (length stream <? n)%nat then Err "failed to fill whole buffer"%string
  else Ok (take n stream, drop n stream).

(** [send]: what is written to the stream. *)
Definition send (kind : Z) (payload : bytes) : result bytes string :=
  if MAX_FRAME <? Z.of_nat (length payload)
  then Err ("outbound frame of " +:+ pretty (length payload) +:+
            " bytes exceeds the 8388608-byte ceiling")%string
  else Ok ([byte_of_Z kind] ++ u32_le (Z.of_nat (length payload)) ++ payload).

(** [recv]: the message and the rest of the stream. *)
Definition recv (stream : bytes) : result (Z * bytes * bytes) string :=
  let? (header, stream) := read_exact 5 stream in
  let len := le_val (drop 1 header) in
  if MAX_FRAME <? len
  then Err ("inbound frame announces " +:+ pretty len +:+
            " bytes, over the 8388608-byte ceiling")%string
  else
    let? (payload, stream) := read_exact (Z.to_nat len) stream in
    Ok (Z_of_byte (default Byte.x00 (head header)), payload, stream).

(** [request]: [connect] is the other side of a connection, or why there is none;
    it answers the bytes it is sent with a stream of its own. *)
Definition request (connect : io string (bytes → io string bytes)) (kind : Z) (payload : bytes) :
    io string (Z * bytes) :=
  peer ← connect;
  framed ← lift (send kind payload);
  stream ← peer framed;
  '(kind, payload, _) ← lift (recv stream);
  mret (kind, payload).

(** ** Facts *)

Lemma bytes_string_bytes s : bytes_string (string_bytes s) = s.
Proof. apply String.string_of_list_byte_of_string. Qed.

Lemma string_bytes_string b : string_bytes (bytes_string b) = b.
Proof. apply String.list_byte_of_string_of_list_byte. Qed.

(** A well-formed string passes through the lossy conversion unchanged. *)
Lemma lossy_valid fuel l s : utf8_from fuel (map Z_of_byte l) = Some s → lossy fuel l = l.
Proof.
  revert l s. induction fuel as [|fuel IH]; intros l s H; [by destruct l|].
  destruct l as [|x l1]; [done|]. cbn [utf8_from lossy map] in *. unfold cont.
  destruct (Z_of_byte x <=? 127).
  { apply fmap_Some in H as (s' & H & _). f_equal. by eapply IH. }
  destruct (_ && (Z_of_byte x <=? 223)).
  { destruct l1 as [|y l2]; [done|]. cbn [map] in H. destruct (cont_byte 128 191 _); [|done].
    apply fmap_Some in H as (s' & H & _). do 2 f_equal. by eapply IH. }
  destruct (_ && (Z_of_byte x <=? 239)).
  { destruct l1 as [|y [|z l3]]; [done..|]. cbn [map] in H.
    destruct (cont_byte _ _ (Z_of_byte y)); [|done]. destruct (cont_byte _ _ (Z_of_byte z)); [|done].
    apply fmap_Some in H as (s' & H & _). do 3 f_equal. by eapply IH. }
  destruct (_ && (Z_of_byte x <=? 244)); [|done].
  destruct l1 as [|y [|z [|u l4]]]; [done..|]. cbn [map] in H.
  destruct (cont_byte _ _ (Z_of_byte y)); [|done]. destruct (cont_byte _ _ (Z_of_byte z)); [|done].
  destruct (cont_byte _ _ (Z_of_byte u)); [|done].
  apply fmap_Some in H as (s' & H & _). do 4 f_equal. by eapply IH.
Qed.

Lemma from_utf8_lossy_valid b : utf8_valid b = true → from_utf8_lossy b = bytes_string b.
Proof.
  unfold utf8_valid, from_utf8_lossy, from_utf8. intros H.
  destruct (utf8_from _ _) as [s|] eqn:E; [|done]. by rewrite (lossy_valid _ _ s E).
Qed.

Lemma read_exact_app n a b : length a = n → read_exact n (a ++ b) = Ok (a, b).
Proof.
  intros <-. unfold read_exact. rewrite length_app, (proj2 (Nat.ltb_ge _ _)) by lia.
  by rewrite take_app_length, drop_app_length.
Qed.

Lemma read_exact_Ok n s a b : read_exact n s = Ok (a, b) → s = a ++ b ∧ length a = n.
Proof.
  unfold read_exact. destruct (Nat.ltb_spec (length s) n); [done|]. intros [= <- <-].
  rewrite take_drop, length_take. split; [done|lia].
Qed.

Lemma send_Ok kind payload framed :
  send kind payload = Ok framed →
  Z.of_nat (length payload) ≤ MAX_FRAME ∧
  framed = [byte_of_Z kind] ++ u32_le (Z.of_nat (length payload)) ++ payload.
Proof.
  unfold send. destruct (Z.ltb_spec MAX_FRAME (Z.of_nat (length payload))); [done|].
  by intros [= <-].
Qed.

Lemma recv_frame kind payload rest :
  0 ≤ kind < 256 → Z.of_nat (length payload) ≤ MAX_FRAME →
  recv (([byte_of_Z kind] ++ u32_le (Z.of_nat (length payload)) ++ payload) ++ rest) =
    Ok (kind, payload, rest).
Proof.
  intros Hk Hp. unfold recv. rewrite app_assoc, <-app_assoc, read_exact_app
    by (unfold u32_le; by rewrite length_app, length_le_bytes).
  cbn [result_bind drop app head default]. rewrite drop_0, u32_le_val
    by (unfold is_u32, u32_max, MAX_FRAME in *; lia).
  rewrite (proj2 (Z.ltb_ge _ _)), Nat2Z.id, read_exact_app by done. cbn [result_bind].
  rewrite <-(Z.mod_small kind 256) at 2 by done. by rewrite <-Z_of_byte_of_Z.
Qed.

Lemma send_recv kind payload :
  0 ≤ kind < 256 → Z.of_nat (length payload) ≤ MAX_FRAME →
  ∃ framed, send kind payload = Ok framed ∧ recv framed = Ok (kind, payload, []).
Proof.
  intros Hk Hp. eexists. split; [unfold send; by rewrite (proj2 (Z.ltb_ge _ _))|].
  rewrite <-(app_nil_r (_ ++ _ ++ payload)). by apply recv_frame.
Qed.

(** C40 Framing: a message that [send] writes is the message [recv] reads, with the
    rest of the stream untouched; [send] refuses exactly payloads above 8 MiB;
    whatever a peer writes, [recv] takes at most five bytes and 8 MiB off the
    stream, and what it returns is what [send] would have written. *)
Theorem framing kind payload rest stream :
  0 ≤ kind < 256 →
  (Z.of_nat (length payload) ≤ MAX_FRAME →
     ∃ framed, send kind payload = Ok framed ∧ recv (framed ++ rest) = Ok (kind, payload, rest)) ∧
  (MAX_FRAME < Z.of_nat (length payload) → is_ok (send kind payload) = false) ∧
  (∀ k p s, recv stream = Ok (k, p, s) →
     ∃ framed, send k p = Ok framed ∧ stream = framed ++ s ∧
       (length framed = 5 + length p)%nat ∧ Z.of_nat (length p) ≤ MAX_FRAME).
Proof.
  intros Hk. split_and!.
  - intros Hp. eexists. split; [|by apply recv_frame].
    unfold send. by rewrite (proj2 (Z.ltb_ge _ _)).
  - intros Hp. unfold send. by rewrite (proj2 (Z.ltb_lt _ _)).
  - intros k p s ([header s1] & [-> Hh]%read_exact_Ok & H)%result_bind_Ok.
    cbv beta iota zeta in H.
    destruct (Z.ltb_spec MAX_FRAME (le_val (drop 1 header))) as [|Hlen]; [done|].
    apply result_bind_Ok in H as ([p' s'] & [-> Hl]%read_exact_Ok & [= <- -> ->]).
    destruct header as [|x header]; [done|]. simpl in Hh, Hlen, Hl |- *. rewrite drop_0 in *.
    assert (0 ≤ le_val header) by apply le_val_range.
    assert (Hp : Z.of_nat (length p) = le_val header) by lia.
    unfold send. rewrite Hp, (proj2 (Z.ltb_ge _ _)) by done. eexists. split; [done|].
    unfold u32_le. rewrite (le_bytes_le_val 4) by lia. rewrite byte_of_Z_of_byte.
    split; [simpl; by rewrite <-app_assoc|]. split; [simpl; rewrite length_app; lia|lia].
Qed.
