(* ===== verification/Credentials.v ===== *)
(** * Credentials and the validity snapshot (demo/src/vc.rs)

    What an entry of the status list stands for: the hash of a credential's
    canonical bytes.  The list is a validity set: issuing adds an entry,
    revoking removes it. *)
From S2P Require Import Prelude Fs External Instances StatusLists Wire.

Open Scope Z_scope.

(** ** JSON values, as [json!] builds them *)

Inductive json :=
| JString (s : string)
| JNumber (n : Z)
| JArray (l : list json)
| JObject (l : list (string * json)).

(** [serde_jcs::to_vec]: the canonical bytes of a value; a value without
    floating-point numbers always has them. *)
Class Jcs := { jcs_to_vec : json → bytes }.

(** [rng.random::<[u8; 16]>()]: the 16 bytes of each draw. *)
Class IdSource := random_id : nat → bytes.

Definition vc_hex (b : bytes) : string := bytes_string (ascii_bytes (hex b)).

Definition credential_json (id : bytes) (subject : string) (version : Z) (issuer_index : nat) : json :=
  JObject [
    ("@context", JArray [JString "https://www.w3.org/ns/credentials/v2"]);
    ("type", JArray [JString "VerifiableCredential"; JString "DemoStatusCredential"]);
    ("id", JString ("urn:uuid:" +:+ vc_hex id));
    ("issuer", JString ("did:demo:committee#member-" +:+ pretty issuer_index));
    ("credentialSubject", JObject [("id", JString subject)]);
    ("credentialStatus", JObject [
      ("type", JString "CommitteeStatusList");
      ("statusListVersion", JNumber version)])]%string.

Section credentials.
Context `{HH : Hashes} `{JC : Jcs} `{IS : IdSource}.

(** [issue]: the identifier is 16 random bytes. *)
Definition issue {E} (subject : string) (version : Z) (issuer_index : nat) : io E bytes :=
  n ← draw;
  let id := random_id n in
  mret (jcs_to_vec (credential_json id subject version issuer_index)).

Definition vc_fingerprint (credential : bytes) : bytes := hash_any credential.

Definition contains (list : list bytes) (entry : bytes) : bool :=
  existsb (λ e, bool_decide (e = entry)) list.

Definition is_valid (list : list bytes) (credential : bytes) : bool :=
  contains list (vc_fingerprint credential).

(** The list afterwards and whether it changed. *)
Definition add_valid (list : list bytes) (credential : bytes) : Datatypes.list bytes * bool :=
  let entry := vc_fingerprint credential in
  if contains list entry then (list, false) else (list ++ [entry], true).

Definition revoke (list : list bytes) (credential : bytes) : Datatypes.list bytes * bool :=
  let entry := vc_fingerprint credential in
  let before := length list in
  let list := List.filter (λ candidate, negb (bool_decide (candidate = entry))) list in
  (list, negb (length list =? before)%nat).

(** ** The snapshot is a set of fingerprints *)

Definition valid_set (list : list bytes) : gset bytes := list_to_set list.

Lemma contains_spec list e : contains list e = bool_decide (e ∈ valid_set list).
Proof.
  unfold contains, valid_set. apply eq_bool_prop_intro. rewrite bool_decide_spec, elem_of_list_to_set.
  rewrite Is_true_true, existsb_exists, list_elem_of_In. setoid_rewrite bool_decide_eq_true.
  naive_solver.
Qed.

Lemma filter_out_set (list : list bytes) e :
  valid_set (List.filter (λ candidate, negb (bool_decide (candidate = e))) list) =
  valid_set list ∖ {[e]}.
Proof.
  apply set_eq. intros x. unfold valid_set.
  rewrite elem_of_difference, !elem_of_list_to_set, elem_of_singleton, !list_elem_of_In, filter_In.
  rewrite negb_true_iff, bool_decide_eq_false. done.
Qed.

Lemma filter_length (f : bytes → bool) (list : list bytes) :
  (length (List.filter f list) ≤ length list)%nat ∧
  (length (List.filter f list) = length list ↔ Forall (λ e, f e = true) list).
Proof.
  induction list as [|x l [IHle IH]]; simpl; [done|]. rewrite Forall_cons.
  destruct (f x); simpl; split; try lia; rewrite ?Nat.succ_inj_wd, ?IH; naive_solver lia.
Qed.

Lemma revoke_changed list c :
  (revoke list c).2 = bool_decide (vc_fingerprint c ∈ valid_set list).
Proof.
  unfold revoke. cbv zeta. simpl. set (e := vc_fingerprint c).
  apply eq_bool_prop_intro. rewrite bool_decide_spec, Is_true_true, negb_true_iff, Nat.eqb_neq.
  rewrite (proj2 (filter_length _ list)). unfold valid_set. rewrite elem_of_list_to_set, Forall_forall.
  split.
  - intros Hn. destruct (decide (e ∈ list)) as [|Hne]; [done|]. destruct Hn. intros x Hx.
    apply negb_true_iff, bool_decide_eq_false. by intros ->.
  - intros He Hall. specialize (Hall e He). by rewrite bool_decide_eq_true_2 in Hall.
Qed.

(** A change, written out. *)
Lemma add_valid_true old c list :
  add_valid old c = (list, true) → hash_any c ∉ old ∧ list = old ++ [hash_any c].
Proof.
  unfold add_valid, vc_fingerprint. cbv zeta. rewrite contains_spec. case_bool_decide as Hc; [done|].
  intros [= <-]. split; [|done]. intros Hin. apply Hc. unfold valid_set. by apply elem_of_list_to_set.
Qed.

Lemma revoke_true old c list :
  revoke old c = (list, true) → hash_any c ∈ old ∧ list = filter (.≠ hash_any c) old.
Proof.
  intros E. pose proof (revoke_changed old c) as H. rewrite E in H. symmetry in H.
  apply bool_decide_eq_true in H. unfold valid_set in H. rewrite elem_of_list_to_set in H.
  split; [done|]. unfold revoke, vc_fingerprint in E. injection E as <- _.
  clear. induction old as [|x old IH]; [done|]. cbn [List.filter]. rewrite filter_cons, <-IH.
  by destruct (decide (x = hash_any c)) as [->|Hx];
    [rewrite bool_decide_eq_true_2, decide_False by naive_solver
    |rewrite bool_decide_eq_false_2, decide_True by done].
Qed.

Lemma add_valid_set list c : valid_set (add_valid list c).1 = {[vc_fingerprint c]} ∪ valid_set list.
Proof.
  unfold add_valid. cbv zeta. rewrite contains_spec. case_bool_decide as Hc; simpl; [set_solver|].
  unfold valid_set. rewrite list_to_set_app_L. set_solver.
Qed.

(** The snapshot refines a set of fingerprints: [is_valid] is membership,
    [add_valid] inserts and [revoke] removes exactly the credential's
    fingerprint, both report whether the set changed, and a list without
    duplicates stays one, so the committee signs each valid credential once. *)
Theorem snapshot_refines_set list c :
  is_valid list c = bool_decide (vc_fingerprint c ∈ valid_set list) ∧
  valid_set (add_valid list c).1 = {[vc_fingerprint c]} ∪ valid_set list ∧
  (add_valid list c).2 = bool_decide (vc_fingerprint c ∉ valid_set list) ∧
  valid_set (revoke list c).1 = valid_set list ∖ {[vc_fingerprint c]} ∧
  (revoke list c).2 = bool_decide (vc_fingerprint c ∈ valid_set list) ∧
  (NoDup list → NoDup (add_valid list c).1 ∧ NoDup (revoke list c).1).
Proof.
  split_and!; [apply contains_spec|apply add_valid_set| |apply filter_out_set|apply revoke_changed|].
  - unfold add_valid. cbv zeta. rewrite contains_spec.
    by case_bool_decide; case_bool_decide.
  - intros Hn. split.
    + unfold add_valid. cbv zeta. rewrite contains_spec. case_bool_decide as Hc; simpl; [done|].
      apply NoDup_app. split_and!; [done| |apply NoDup_singleton].
      intros x Hx ->%list_elem_of_singleton. apply Hc. unfold valid_set.
      by apply elem_of_list_to_set.
    + apply NoDup_ListNoDup, List.NoDup_filter. by apply NoDup_ListNoDup.
Qed.
End credentials.
