(* ===== verification/Params.v ===== *)
(** * Demo parameters (src/params.rs)

    The constants the command-line programs share, the build-time parser of the
    two benchmark overrides, and the two compile-time assertions. *)
From S2P Require Import Prelude.

Open Scope Z_scope.

Definition SLOT : Z := 43.
Definition DEFAULT_N_MEMBERS : Z := 200.
Definition DEFAULT_T : Z := 128.

(** The digits of a parameter; the error is the panic that fails the build. *)
Fixpoint benchmark_digits (b : bytes) (acc : Z) : result Z string :=
  match b with
  | [] => Ok acc
  | d :: b' =>
      if negb ((48 <=? Z_of_byte d) && (Z_of_byte d <=? 57))
      then Err "benchmark parameter must be decimal"%string
      else
        let? acc := ok_or (checked_mul_u64 acc 10) "benchmark parameter overflow"%string in
        let? acc := ok_or (checked_add_u64 acc (Z_of_byte d - 48))
                      "benchmark parameter overflow"%string in
        benchmark_digits b' acc
  end.

Definition benchmark_usize (value : option bytes) (dflt : Z) : result Z string :=
  match value with
  | None => Ok dflt
  | Some [] => Err "benchmark parameter must not be empty"%string
  | Some b => benchmark_digits b 0
  end.

(** [N_MEMBERS] and [T], of the two build-time variables. *)
Definition PARAM_N_MEMBERS (drot_bench_n : option bytes) : result Z string :=
  benchmark_usize drot_bench_n DEFAULT_N_MEMBERS.
Definition PARAM_T (drot_bench_t : option bytes) : result Z string :=
  benchmark_usize drot_bench_t DEFAULT_T.

Definition N_UPDATES : nat := 20.
Definition KEY_SLOTS : Z := 64.
Definition LOG_INV_RATE : nat := 2.

(** The two assertions that fail the build. *)
Definition slots_assertion : bool := Z.of_nat N_UPDATES + 1 <? KEY_SLOTS.
Definition threshold_assertion (t n : Z) : bool := (1 <=? t) && (t <=? n).

(** A build that passes has a window in which every update and the three
    forgeries of the security tests have slots of their own. *)
Lemma forgery_slots_distinct :
  slots_assertion = true ∧
  NoDup (map (λ k, SLOT + Z.of_nat k) (seq 0 N_UPDATES) ++
         [SLOT + Z.of_nat N_UPDATES; SLOT + Z.of_nat N_UPDATES + 1; SLOT + KEY_SLOTS]).
Proof. split; [done|]. apply (bool_decide_unpack _). vm_compute. exact I. Qed.

Lemma benchmark_digits_parse b acc :
  benchmark_digits b acc =
    match parse_digits u64_max acc (map Z_of_byte b) with
    | Ok v => Ok v
    | Err InvalidDigit => Err "benchmark parameter must be decimal"%string
    | Err _ => Err "benchmark parameter overflow"%string
    end.
Proof.
  revert acc. induction b as [|d b IH]; intros acc; [done|]. cbn [benchmark_digits parse_digits map].
  unfold digit_value. destruct (_ && _) eqn:E; cbn [negb]; [|done].
  unfold checked_mul_u64, checked_add_u64.
  apply andb_true_iff in E as [H1 H2]. apply Z.leb_le in H1, H2.
  destruct (Z.leb_spec (acc * 10) u64_max); cbn [ok_or result_bind].
  - destruct (Z.leb_spec (acc * 10 + (Z_of_byte d - 48)) u64_max); cbn [ok_or result_bind];
      [apply IH|done].
  - by rewrite (proj2 (Z.leb_gt _ _)) by lia.
Qed.
