(* ===== verification/Workload.v ===== *)
(** * The benchmark workload (src/bench/workload.rs)

    How the status list changes from version to version and which members sign:
    a partial Fisher-Yates shuffle driven by SplitMix64 over wrapping 64-bit
    arithmetic. *)
From S2P Require Import Prelude.

Open Scope Z_scope.

Definition MAX_LIST_ENTRIES : Z := 2 ^ 20.

(** [list_entries_from_env], of the variable's value; the error is the panic. *)
Definition list_entries_from_env (var : option string) : result (option Z) string :=
  match var with
  | None => Ok None
  | Some raw =>
      if bool_decide (raw = ""%string) then Ok None
      else
        match parse_unsigned u64_max (str raw) with
        | Ok entries =>
            if (1 <=? entries) && (entries <=? MAX_LIST_ENTRIES) then Ok (Some entries)
            else Err ("BENCH_LIST_ENTRIES must be an integer in 1..=1048576, got '" +:+ raw +:+ "'")%string
        | Err _ =>
            Err ("BENCH_LIST_ENTRIES must be an integer in 1..=1048576, got '" +:+ raw +:+ "'")%string
        end
  end.

(** [usize::wrapping_sub(1)] on a 64-bit target. *)
Definition wrapping_pred (version : Z) : Z := wrap_u64 (version - 1).

(** The list of [version] from that of [version - 1]; the entries come from
    [fresh], called for the first time with [k].  The result carries the number of
    the next call; the error is the division by zero of a fixed length 0. *)
Definition advance_list (fresh : nat → bytes) (list : list bytes) (version : Z) (fixed : option nat)
    (k : nat) : result (Datatypes.list bytes * nat) string :=
  match fixed with
  | None => Ok (list ++ [fresh k], S k)
  | Some len =>
      if negb (length list =? len)%nat then Ok (fresh <$> seq k len, (k + len)%nat)
      else if (len =? 0)%nat
      then Err "attempt to calculate the remainder with a divisor of zero"%string
      else Ok (<[Z.to_nat (wrapping_pred version mod Z.of_nat len) := fresh k]> list, S k)
  end.

Definition QUORUM_SELECTION : string := "spread-splitmix64-v1".

Definition line_end : string := String (Ascii.ascii_of_nat 10) "".

Definition workload_manifest (list_entries : option nat) : string :=
  let entries := match list_entries with None => "growing"%string | Some len => pretty len end in
  ("list_entries=" +:+ entries +:+ line_end +:+ "quorum=" +:+ QUORUM_SELECTION +:+ line_end)%string.

(** The smallest and largest list seen. *)
Definition ListSizes : Type := option (nat * nat).

Definition record_size (sizes : ListSizes) (entries : nat) : ListSizes :=
  Some (match sizes with
        | None => (entries, entries)
        | Some (lo, hi) => (Nat.min lo entries, Nat.max hi entries)
        end).

Definition display_sizes (sizes : ListSizes) : string :=
  match sizes with
  | Some (lo, hi) => "list_min=" +:+ pretty lo +:+ " list_max=" +:+ pretty hi
  | None => "list_min=NA list_max=NA"
  end.

(** ** The quorum *)

Definition GAMMA : Z := 0x9E3779B97F4A7C15.

Definition splitmix_seed (version : Z) : Z :=
  Z.lxor GAMMA (wrapping_mul_u64 version 0xD6E8FEB86659FD93).

(** The closure [next]: the new state and the value. *)
Definition splitmix_next (state : Z) : Z * Z :=
  let state := wrapping_add_u64 state GAMMA in
  let z := state in
  let z := wrapping_mul_u64 (Z.lxor z (Z.shiftr z 30)) 0xBF58476D1CE4E5B9 in
  let z := wrapping_mul_u64 (Z.lxor z (Z.shiftr z 27)) 0x94D049BB133111EB in
  (state, Z.lxor z (Z.shiftr z 31)).

(** [Vec::swap]; [None] is its panic. *)
Definition swap {A} (i j : nat) (l : list A) : option (list A) :=
  a ← l !! i; b ← l !! j; Some (<[i := b]> (<[j := a]> l)).

Fixpoint shuffle (count position n : nat) (state : Z) (members : list nat) : option (list nat) :=
  match count with
  | O => Some members
  | S count =>
      let '(state, z) := splitmix_next state in
      let pick := (position + Z.to_nat (z mod Z.of_nat (n - position)))%nat in
      members ← swap position pick members;
      shuffle count (S position) n state members
  end.

Definition quorum_indices (n t : nat) (version : Z) : result (list nat) string :=
  if negb (t <=? n)%nat
  then Err ("quorum " +:+ pretty t +:+ " exceeds committee " +:+ pretty n)%string
  else ok_or (take t <$> shuffle t 0 n (splitmix_seed version) (seq 0 n)) "index out of bounds"%string.

(** The vectors the source pins. *)
Lemma quorum_vectors :
  quorum_indices 10 4 3 = Ok [3; 5; 4; 0]%nat ∧
  quorum_indices 100 5 0 = Ok [0; 2; 20; 51; 46]%nat.
Proof. by vm_compute. Qed.

Lemma swap_perm {A} i j (l l' : list A) : swap i j l = Some l' → l' ≡ₚ l.
Proof.
  unfold swap. intros (a & Ha & (b & Hb & [= <-])%bind_Some)%bind_Some.
  apply Permutation_inj. split; [by rewrite !length_insert|].
  exists (λ k, if decide (k = i) then j else if decide (k = j) then i else k). split.
  - intros x y. repeat case_decide; congruence.
  - pose proof (lookup_lt_Some _ _ _ Ha). pose proof (lookup_lt_Some _ _ _ Hb).
    intros k. repeat case_decide; subst.
    + rewrite list_lookup_insert_eq by (by rewrite length_insert). done.
    + rewrite list_lookup_insert_ne, list_lookup_insert_eq by done. done.
    + by rewrite !list_lookup_insert_ne by done.
Qed.

Lemma shuffle_perm count position n state members :
  length members = n → (position + count ≤ n)%nat →
  ∃ members', shuffle count position n state members = Some members' ∧ members' ≡ₚ members.
Proof.
  revert position state members. induction count as [|count IH]; intros position state members Hl Hn;
    [by exists members|].
  cbn [shuffle]. destruct (splitmix_next state) as [state' z].
  pose proof (Z.mod_pos_bound z (Z.of_nat (n - position)) ltac:(lia)) as Hz.
  set (pick := (position + _)%nat). assert (pick < n)%nat by lia.
  destruct (lookup_lt_is_Some_2 members position ltac:(lia)) as [a Ha].
  destruct (lookup_lt_is_Some_2 members pick ltac:(lia)) as [b Hb].
  destruct (swap position pick members) as [members1|] eqn:E;
    [|unfold swap in E; by rewrite Ha, Hb in E].
  apply swap_perm in E. simpl.
  destruct (IH (S position) state' members1) as (members' & -> & Hp).
  - by rewrite E.
  - lia.
  - exists members'. split; [done|]. by rewrite Hp.
Qed.

Lemma quorum_indices_ok n t version :
  (t ≤ n)%nat → ∃ quorum, quorum_indices n t version = Ok quorum ∧
    length quorum = t ∧ NoDup quorum ∧ Forall (λ i, i < n)%nat quorum.
Proof.
  intros Hle. unfold quorum_indices. rewrite (proj2 (Nat.leb_le _ _)) by done. cbn [negb].
  destruct (shuffle_perm t 0 n (splitmix_seed version) (seq 0 n)) as (members & -> & Hp);
    [apply length_seq|done|].
  exists (take t members). simpl. split_and!; [done|..].
  - rewrite length_take, Hp, length_seq. lia.
  - eapply sublist_NoDup; [|apply sublist_take]. rewrite Hp. apply NoDup_seq.
  - apply Forall_take. rewrite Hp. apply Forall_forall. intros i Hi%elem_of_seq. lia.
Qed.

(** A benchmark quorum is a quorum: for every version, [quorum_indices] returns
    exactly [t] distinct members of the committee, or stops the process when [t]
    exceeds the committee; no index it computes is ever out of range. *)
Theorem quorum_indices_spec n t version :
  match quorum_indices n t version with
  | Ok quorum => (t ≤ n)%nat ∧ length quorum = t ∧ NoDup quorum ∧ Forall (λ i, i < n)%nat quorum
  | Err e => (n < t)%nat ∧ e = ("quorum " +:+ pretty t +:+ " exceeds committee " +:+ pretty n)%string
  end.
Proof.
  destruct (decide (t ≤ n)%nat) as [Hle|Hlt].
  - by destruct (quorum_indices_ok n t version Hle) as (quorum & -> & ?).
  - unfold quorum_indices. rewrite (proj2 (Nat.leb_gt _ _)) by lia. split; [lia|done].
Qed.

Lemma list_entries_range var entries e :
  list_entries_from_env var = Ok entries → entries = Some e → 1 ≤ e ≤ MAX_LIST_ENTRIES.
Proof.
  unfold list_entries_from_env. destruct var as [raw|]; [|by intros [= <-]].
  case_bool_decide; [by intros [= <-]|]. destruct (parse_unsigned _ _) as [x|]; [|done].
  destruct (Z.leb_spec 1 x); simpl; [|done]. destruct (Z.leb_spec x MAX_LIST_ENTRIES); [|done].
  intros [= <-] [= <-]. done.
Qed.

Lemma list_entries_positive var entries :
  list_entries_from_env var = Ok entries → Z.to_nat <$> entries ≠ Some 0%nat.
Proof.
  intros H. destruct entries as [e|]; [|done]. pose proof (list_entries_range _ _ e H eq_refl).
  intros [= E]. lia.
Qed.

(** A list of 32-byte entries stays one. *)
Lemma advance_list_wf f list version fixed k :
  (∀ j, length (f j) = 32%nat) → Forall (λ e, length e = 32%nat) list → fixed ≠ Some 0%nat →
  ∃ list' k', advance_list f list version fixed k = Ok (list', k') ∧
    Forall (λ e, length e = 32%nat) list' ∧
    length list' = match fixed with Some len => len | None => S (length list) end.
Proof.
  intros Hf Hl Hz. unfold advance_list. destruct fixed as [len|].
  - destruct (Nat.eqb_spec (length list) len); cbn [negb].
    + destruct (Nat.eqb_spec len 0) as [->|]; [done|]. eexists _, _. split; [done|].
      split; [by apply Forall_insert|]. by rewrite length_insert.
    + eexists _, _. split; [done|]. split; [apply Forall_fmap, Forall_true, Hf|].
      by rewrite length_fmap, length_seq.
  - eexists _, _. split; [done|]. split; [|rewrite length_app; simpl; lia].
    apply Forall_app. split; [done|]. apply Forall_singleton, Hf.
Qed.

(** The list workload keeps its declared size: a growing list gains one entry
    per version; a fixed one of length [len > 0] has that length from the first
    version on and afterwards changes in one position only. *)
Theorem advance_list_spec fresh list version fixed k :
  match advance_list fresh list version fixed k with
  | Ok (list', k') =>
      match fixed with
      | None => list' = list ++ [fresh k] ∧ k' = S k
      | Some len => length list' = len ∧
          (length list = len →
             k' = S k ∧ ∃ i, (i < len)%nat ∧ list' !! i = Some (fresh k) ∧
               ∀ j, j ≠ i → list' !! j = list !! j)
      end
  | Err _ => fixed = Some 0%nat ∧ list = []
  end.
Proof.
  unfold advance_list. destruct fixed as [len|]; [|done].
  destruct (Nat.eqb_spec (length list) len) as [Hl|Hl]; cbn [negb].
  2:{ rewrite length_fmap, length_seq. done. }
  destruct (Nat.eqb_spec len 0) as [->|Hn]; [split; [done|by apply length_zero_iff_nil]|].
  pose proof (Z.mod_pos_bound (wrapping_pred version) (Z.of_nat len) ltac:(lia)).
  split; [by rewrite length_insert|]. intros _. split; [done|].
  exists (Z.to_nat (wrapping_pred version mod Z.of_nat len)). split_and!; [lia|..].
  - apply list_lookup_insert_eq. lia.
  - intros j Hj. by apply list_lookup_insert_ne.
Qed.
