(* ===== verification/Artifacts.v ===== *)
(** * Directories of artifacts

    The command-line programs exchange records as files of a directory.  One that
    a program reads is what its listing and its reads return; one that a program
    fills is the map of the files it has written, where any write can fail.  File
    names are printable; the listing is in any order, and the programs sort what
    they select from it. *)
From stdpp Require Import sorting.
From S2P Require Import Prelude.

Open Scope Z_scope.

(** A directory that is read: its path, its listing, reading one of its files, and
    whether a name is a regular file. *)
Record Directory := mkDirectory {
  d_path : string;
  d_list : result (list (result string string)) string;
  d_read : string → result bytes string;
  d_is_file : string → bool;
}.

Definition update_name (index : nat) : string := "update-" +:+ two_digits index +:+ ".bin".
Definition raw_update_name (index : nat) : string := "raw-update-" +:+ two_digits index +:+ ".bin".

(** ** The order of paths in one directory *)

Fixpoint rstr_leb (a b : rstr) : bool :=
  match a, b with
  | [], _ => true
  | _ :: _, [] => false
  | x :: a, y :: b => (x <? y) || ((x =? y) && rstr_leb a b)
  end.

Definition name_le (a b : string) : Prop := rstr_leb (str a) (str b) = true.
#[export] Instance name_le_dec : RelDecision name_le.
Proof. intros a b. unfold name_le. apply _. Defined.

Lemma rstr_leb_total a b : rstr_leb a b = true ∨ rstr_leb b a = true.
Proof.
  revert b. induction a as [|x a IH]; intros b; [by left|]. destruct b as [|y b]; [by right|]. simpl.
  destruct (Z.lt_trichotomy x y) as [H|[->|H]].
  - left. by rewrite (proj2 (Z.ltb_lt _ _)).
  - rewrite Z.ltb_irrefl, Z.eqb_refl. apply IH.
  - right. by rewrite (proj2 (Z.ltb_lt _ _)).
Qed.

Lemma rstr_leb_antisym a b : rstr_leb a b = true → rstr_leb b a = true → a = b.
Proof.
  revert b. induction a as [|x a IH]; intros b; destruct b as [|y b]; try done. simpl.
  destruct (Z.ltb_spec x y), (Z.ltb_spec y x), (Z.eqb_spec x y), (Z.eqb_spec y x); try lia; try done.
  simpl. intros ??. subst. f_equal. by apply IH.
Qed.

Lemma rstr_leb_trans a b c : rstr_leb a b = true → rstr_leb b c = true → rstr_leb a c = true.
Proof.
  revert b c. induction a as [|x a IH]; intros b c; [done|]. destruct b as [|y b]; [done|].
  destruct c as [|z c]; [by simpl|]. simpl. rewrite !orb_true_iff, !andb_true_iff, !Z.ltb_lt, !Z.eqb_eq.
  intros [?|[-> ?]] [?|[-> ?]]; [left; lia..|]. right. split; [done|]. by eapply IH.
Qed.

Lemma str_inj a b : str a = str b → a = b.
Proof.
  revert b. induction a as [|x a IH]; intros b; destruct b as [|y b]; try done.
  unfold str in *. simpl. intros E. injection E as Ex Ea. f_equal; [|by apply IH].
  assert (Hn : Ascii.N_of_ascii x = Ascii.N_of_ascii y) by lia.
  by rewrite <-(Ascii.ascii_N_embedding x), <-(Ascii.ascii_N_embedding y), Hn.
Qed.

#[export] Instance name_le_total : Total name_le.
Proof. intros a b. apply rstr_leb_total. Qed.
#[export] Instance name_le_antisym : AntiSymm (=) name_le.
Proof. intros a b Ha Hb. by apply str_inj, rstr_leb_antisym. Qed.
#[export] Instance name_le_trans : Transitive name_le.
Proof. intros a b c. apply rstr_leb_trans. Qed.

(** [artifacts] of the verifier, [fixture_files] of the prover: the names that
    start with [prefix], in order; entries that cannot be read are passed over. *)
Definition files_with (prefix : string) (entries : list (result string string)) : list string :=
  merge_sort name_le (filter (λ name, String.prefix prefix name = true) (omap result_ok entries)).

Lemma files_with_sorted prefix entries names :
  filter (λ name, String.prefix prefix name = true) (omap result_ok entries) ≡ₚ names →
  Sorted name_le names → files_with prefix entries = names.
Proof.
  intros Hp Hs. apply (Sorted_unique name_le); [apply Sorted_merge_sort, _|done|].
  unfold files_with. by rewrite merge_sort_Permutation.
Qed.

Lemma prefix_app p s : String.prefix p (p +:+ s) = true.
Proof. induction p as [|a p IH]; [by destruct s|]. simpl. by destruct (Ascii.ascii_dec a a). Qed.

(** ** Writing *)

Abbreviation Files := (gmap string bytes).

(** Which writes fail, and with what: [write] panics then. *)
Class Disk := write_error : string → option string.

Definition write `{Disk} (dir name : string) (b : bytes) (files : Files) : result Files string :=
  match write_error name with
  | Some e => Err ("cannot write " +:+ dir +:+ "/" +:+ name +:+ ": " +:+ e)%string
  | None => Ok (<[name := b]> files)
  end.

(** A directory that holds exactly these files, listed in some order. *)
Definition holds (d : Directory) (files : Files) : Prop :=
  (∃ names, d_list d = Ok (Ok <$> names) ∧ NoDup names ∧ ∀ name, name ∈ names ↔ is_Some (files !! name)) ∧
  (∀ name, match files !! name with Some b => d_read d name = Ok b | None => is_ok (d_read d name) = false end) ∧
  ∀ name, d_is_file d name = bool_decide (is_Some (files !! name)).

Lemma holds_read d files name b : holds d files → files !! name = Some b → d_read d name = Ok b.
Proof. intros (_ & H & _) E. specialize (H name). by rewrite E in H. Qed.

Lemma holds_is_file d files name : holds d files → is_Some (files !! name) → d_is_file d name = true.
Proof. intros (_ & _ & H) Hs. rewrite H. by apply bool_decide_eq_true. Qed.

Lemma omap_result_ok {A E} (l : list A) : omap (result_ok (E := E)) (Ok <$> l) = l.
Proof. induction l as [|a l IH]; [done|]. simpl. by f_equal. Qed.

(** The names with a prefix, of a directory that holds [files]. *)
Lemma holds_files_with d files prefix names :
  holds d files → NoDup names → Sorted name_le names →
  (∀ name, name ∈ names ↔ is_Some (files !! name) ∧ String.prefix prefix name = true) →
  ∃ entries, d_list d = Ok entries ∧ files_with prefix entries = names.
Proof.
  intros ((all & -> & Hnd & Hall) & _) Hn Hs Hnames. exists (Ok <$> all). split; [done|].
  apply files_with_sorted; [|done]. rewrite omap_result_ok. apply NoDup_Permutation.
  - by apply NoDup_filter.
  - done.
  - intros name. rewrite list_elem_of_filter, Hall, Hnames. naive_solver.
Qed.

Lemma holds_elem d files prefix entries name :
  holds d files → d_list d = Ok entries →
  name ∈ files_with prefix entries ↔ is_Some (files !! name) ∧ String.prefix prefix name = true.
Proof.
  intros ((all & Hl & _ & Hall) & _) E. rewrite Hl in E. injection E as <-. unfold files_with.
  rewrite merge_sort_Permutation, list_elem_of_filter, omap_result_ok, Hall. tauto.
Qed.
