(* ===== verification/MlFixture.v ===== *)
(** * The ML-DSA fixture (mldsa/src/bin/mldsa_fixture.rs, support/mod.rs)

    What the ML-DSA measurement programs share, and the process that generates a
    committee's keys, signs every update with a quorum spread over the members and
    writes the records, with one control signed by an outsider, into a new
    directory.  Printing is left out; a panic is an error. *)
From S2P Require Import Prelude External Seats MlStatusLists MlCommittees Workload Artifacts.

Open Scope Z_scope.

(** ** The programs' shared helpers *)

Definition MAX_UPDATES : nat := 64.
Definition ENTRY_DOMAIN : bytes :=
  ascii_bytes (str "decentralized-root-of-trust/ml-dsa-benchmark-entry/v1") ++ [Byte.x00].

(** [parse_count]; [usize] is 64 bits wide. *)
Definition parse_count (text name : string) (max : nat) : result nat string :=
  match parse_unsigned u64_max (str text) with
  | Err _ => Err (name +:+ " must be a positive decimal integer")%string
  | Ok value =>
      if (1 <=? value) && (value <=? Z.of_nat max) then Ok (Z.to_nat value)
      else Err (name +:+ " must lie in 1..=" +:+ pretty max)%string
  end.

(** [{index:05}]. *)
Fixpoint zeros (n : nat) : string :=
  match n with O => ""%string | S n => String (Ascii.ascii_of_nat 48) (zeros n) end.
Definition five_digits (index : nat) : string :=
  let text := pretty index in zeros (5 - String.length text) +:+ text.

Definition ml_update_name (index : nat) : string := "update-" +:+ five_digits index +:+ ".ssz".

(** The text of [manifest.txt]. *)
Definition ml_manifest (n t updates : nat) : rstr :=
  str "N=" ++ decimal (Z.of_nat n) ++ 10 :: str "t=" ++ decimal (Z.of_nat t) ++
  10 :: str "updates=" ++ decimal (Z.of_nat updates) ++ [10].

Section ml_fixture.
Context `{HH : Hashes} `{ML : MlDsa} `{BL : BitListOps}.
Context `{SM : !Ssz MlStatusListWire} `{SMC : !Ssz MlCommitteeWire} `{SST : !SszEncode StatementWire}.
Context `{RG : OsRng} `{DK : Disk}.

(** The hash is always over 32 bits of the index. *)
Definition ml_fingerprint (index : Z) : bytes := sha3_256 (ENTRY_DOMAIN ++ u32_le index).

(** The same list policy as the XMSS programs'; [next_entry] numbers the entries. *)
Definition ml_advance_list (list : list bytes) (version : nat) (fixed : option nat) (next_entry : nat) :
    result (Datatypes.list bytes * nat) string :=
  advance_list (λ index, ml_fingerprint (Z.of_nat index)) list (Z.of_nat version) fixed next_entry.

(** ** The fixture *)

(** [create_new]: the file must not exist. *)
Definition write_new (dir name : string) (b : bytes) (files : Files) : result Files string :=
  match files !! name with
  | Some _ => Err ("cannot create " +:+ dir +:+ "/" +:+ name +:+ ": File exists")%string
  | None => write dir name b files
  end.

(** The draws are numbered from [k]; a result carries the number of the next. *)
Definition generate_signer (what : string) (k : nat) : result (MlDsa65Signer * nat) string :=
  let? signer := ok_or (ml_generate (os_random k)) what in Ok (signer, S k).

Fixpoint generate_signers (n k : nat) : result (list MlDsa65Signer * nat) string :=
  match n with
  | O => Ok ([], k)
  | S n =>
      let? (signer, k) := generate_signer "ML-DSA key generation failed" k in
      let? (signers, k) := generate_signers n k in
      Ok (signer :: signers, k)
  end.

Fixpoint sign_seats (signers : list MlDsa65Signer) (indices : list nat) (message : bytes) (k : nat) :
    result (list (nat * MlSignature) * nat) string :=
  match indices with
  | [] => Ok ([], k)
  | index :: indices =>
      let? signer := ok_or (signers !! index) "index out of bounds"%string in
      let? signature := ok_or (ml_sign signer (os_random k) message) "ML-DSA signing failed"%string in
      let? (rest, k) := sign_seats signers indices message (S k) in
      Ok ((index, signature) :: rest, k)
  end.

Definition signed_record (c : MlCommittee) (signers : list MlDsa65Signer) (list : list bytes)
    (version k : nat) : result (MlDsaStatusList * nat) string :=
  let message := statement_for c list (Z.of_nat version) in
  let? indices := quorum_indices (member_count c) (Z.to_nat (ml_threshold c)) (Z.of_nat version) in
  let? (signatures, k) := sign_seats signers indices message k in
  let? record := map_err (λ e, "fixture record construction failed: " +:+ e)%string
                   (ml_status_list_new list (Z.of_nat version) (member_count c) signatures) in
  Ok (record, k).

(** [count] updates from [version] on; [entry] numbers the entries, [k] the draws. *)
Fixpoint write_updates (outdir : string) (c : MlCommittee) (signers : list MlDsa65Signer)
    (fixed : option nat) (count version entry k : nat) (list : list bytes) (first : option bytes)
    (files : Files) : result (option bytes * Files * nat) string :=
  match count with
  | O => Ok (first, files, k)
  | S count =>
      let? (list, entry) := ml_advance_list list version fixed entry in
      let? (record, k) := signed_record c signers list version k in
      let first := if (version =? 0)%nat then Some (ml_to_bytes record) else first in
      let? files := write_new outdir (ml_update_name version) (ml_to_bytes record) files in
      write_updates outdir c signers fixed count (S version) entry k list first files
  end.

Definition ml_indexed_signatures (record : MlDsaStatusList) : list (nat * MlSignature) :=
  zip (ml_signer_indices record) (ml_signatures record).

(** The first record with its first signature replaced by an outsider's. *)
Definition outsider_control (c : MlCommittee) (n : nat) (first : option bytes) (k : nat) :
    result (MlDsaStatusList * nat) string :=
  let? b := ok_or first "at least one update is required"%string in
  let? first := map_err (λ e, "first fixture record did not decode: " +:+ e)%string (ml_from_bytes b) in
  let message := statement_for c (ml_status_list first) (ml_version first) in
  let? (outsider, k) := generate_signer "outsider key generation failed" k in
  let? signature := ok_or (ml_sign outsider (os_random k) message) "outsider signing failed"%string in
  let? signatures := match ml_indexed_signatures first with
                     | [] => Err "index out of bounds"%string
                     | (first_index, _) :: others => Ok ((first_index, signature) :: others)
                     end in
  let? record := map_err (λ e, "outsider control construction failed: " +:+ e)%string
                   (ml_status_list_new (ml_status_list first) (ml_version first) n signatures) in
  Ok (record, S k).

(** [main], of the command line, of what creating the directory answers and of the
    value of BENCH_LIST_ENTRIES. *)
Definition ml_fixture_main (args : list string) (create_dir : string → option string)
    (var : option string) : result Files string :=
  match args with
  | [_; outdir; n; t; updates] =>
      let? n := parse_count n "N" ML_MAX_COMMITTEE_SIZE in
      let? threshold := parse_count t "t" n in
      let? updates := parse_count updates "updates" MAX_UPDATES in
      let? _ := match create_dir outdir with
                | Some e => Err ("cannot create new fixture directory: " +:+ e)%string
                | None => Ok tt
                end in
      let? (signers, k) := generate_signers n 0 in
      let? c := map_err (λ e, "invalid committee: " +:+ e)%string
                  (ml_committee_new (ml_public_key <$> signers) (Z.of_nat threshold)) in
      let? files := write_new outdir "anchor.ssz" (ml_committee_to_bytes c) ∅ in
      let? entries := list_entries_from_env var in
      let entries := Z.to_nat <$> entries in
      let? (first, files, k) := write_updates outdir c signers entries updates 0 0 k [] None files in
      let? (outsider_record, _) := outsider_control c n first k in
      let? files := write_new outdir "attack-outsider.ssz" (ml_to_bytes outsider_record) files in
      let? files := write_new outdir "workload.txt" (string_bytes (workload_manifest entries)) files in
      write_new outdir "manifest.txt" (ascii_bytes (ml_manifest n threshold updates)) files
  | _ => Err "usage: mldsa_fixture <new-output-dir> <N> <t> <updates>"%string
  end.

(** ** What the fixture holds *)

(** The key a draw generates. *)
Definition key_at (k : nat) : option MlPublicKey := ml_public_key <$> ml_generate (os_random k).

(** A record of [t] signatures of seats of [c] on its own statement, of a list no
    longer than the workload's limit. *)
Record honest_record (c : MlCommittee) (t : nat) (version : Z) (r : MlDsaStatusList) : Prop := {
  hr_version : ml_version r = version;
  hr_wf : wf_ml_record r;
  hr_list : Z.of_nat (length (ml_status_list r)) ≤ MAX_LIST_ENTRIES;
  hr_slots : ml_signer_slots r = member_count c;
  hr_count : ml_signer_count r = t;
  hr_signatures : Forall (λ x, ml_signature_ok (ml_members c)
    (statement_for c (ml_status_list r) (ml_version r)) x = true) (ml_indexed_signatures r);
}.

(** The control: the first record's list and version, but one of its signatures is
    valid under a key outside the committee. *)
Definition outsider_record (c : MlCommittee) (first r : MlDsaStatusList) : Prop :=
  wf_ml_record r ∧ ml_status_list r = ml_status_list first ∧ ml_version r = ml_version first ∧
  ∃ i sig pk, (i, sig) ∈ ml_indexed_signatures r ∧ (pk ∉ ml_members c) ∧
    ml_verify pk (statement_for c (ml_status_list first) (ml_version first)) sig = true.

(** A complete fixture of [c] with [updates] records. *)
Definition ml_corpus (c : MlCommittee) (t updates : nat) (F : Files) : Prop :=
  F !! "anchor.ssz"%string = Some (ml_committee_to_bytes c) ∧
  (∀ v, (v < updates)%nat → ∃ r, F !! ml_update_name v = Some (ml_to_bytes r) ∧
     honest_record c t (Z.of_nat v) r) ∧
  (∃ first r, F !! ml_update_name 0 = Some (ml_to_bytes first) ∧ honest_record c t 0 first ∧
     F !! "attack-outsider.ssz"%string = Some (ml_to_bytes r) ∧ outsider_record c first r) ∧
  F !! "manifest.txt"%string = Some (ascii_bytes (ml_manifest (member_count c) t updates)).

Section laws.
Context `{BLL : !BitListLaws} `{LM : !SszLaws MlStatusListWire wf_ml_wire}.
Context (ml_ssz_size : ∀ w : MlStatusListWire, wf_ml_wire w →
  Z.of_nat (length (as_ssz_bytes w)) =
    ml_size (bl_len (mw_signers w)) (length (mw_status_list w)) (length (mw_signatures w))).

Lemma ml_signature_ok_lt ms m x : ml_signature_ok ms m x = true → (x.1 < length ms)%nat.
Proof. unfold ml_signature_ok. destruct (ms !! x.1) eqn:E; [|done]. intros _. by eapply lookup_lt_Some. Qed.

Lemma record_fits n l k :
  (n ≤ ML_MAX_COMMITTEE_SIZE)%nat → (k ≤ n)%nat → Z.of_nat l ≤ MAX_LIST_ENTRIES + 1 →
  ml_size n l k ≤ MAX_RECORD_BYTES.
Proof.
  unfold ml_size, MAX_RECORD_BYTES, MAX_LIST_ENTRIES, SIGNATURE_BYTES, ML_MAX_COMMITTEE_SIZE.
  intros. assert ((Z.of_nat n + 8) / 8 ≤ 257) by (apply Z.div_le_upper_bound; lia). lia.
Qed.

(** Seats of [n] with signatures on one list make a record, which decodes. *)
Lemma seated_record n list version pairs :
  (1 ≤ n ≤ ML_MAX_COMMITTEE_SIZE)%nat → NoDup (fst <$> pairs) → Forall (λ x, x.1 < n)%nat pairs →
  Z.of_nat (length list) ≤ MAX_LIST_ENTRIES + 1 → wf_entries32 list → is_u32 version →
  ∃ r, ml_status_list_new list version n pairs = Ok r ∧ wf_ml_record r ∧
    ml_signer_slots r = n ∧ ml_signer_count r = length pairs ∧ ml_status_list r = list ∧
    ml_version r = version ∧ ml_indexed_signatures r ≡ₚ pairs.
Proof.
  intros Hn Hnd Hlt Hlen Hl Hv.
  pose proof (ml_new_ok list version n pairs) as H.
  destruct (ml_status_list_new list version n pairs) as [r|e] eqn:E.
  2:{ destruct H as [[] _]. split_and!; [lia|lia|done..|]. apply record_fits; [lia| |done].
      by apply distinct_below. }
  pose proof (ml_from_bytes_ok ml_ssz_size _ _ (ml_new_from_to ml_ssz_size list version n pairs r Hl Hv E))
    as [Hwf _].
  destruct H as (_ & (Hs & Hc & Hz) & El & Ev). exists r. split_and!; [done..| |done|done|].
  - rewrite Hc, <-(sort_by_key_perm pair_index pairs), <-Hz, length_zip_with, <-ml_count_indices. lia.
  - unfold ml_indexed_signatures. rewrite Hz. apply sort_by_key_perm.
Qed.

Lemma indexed_signatures_seats r :
  ml_signer_count r = length (ml_signatures r) →
  length (ml_indexed_signatures r) = ml_signer_count r ∧
  fst <$> ml_indexed_signatures r = ml_signer_indices r ∧ NoDup (fst <$> ml_indexed_signatures r).
Proof.
  intros H. unfold ml_indexed_signatures. rewrite fst_zip by (rewrite <-ml_count_indices; lia).
  rewrite length_zip_with, <-ml_count_indices. split_and!; [lia|done|].
  apply sorted_lt_nodup, set_indices_sorted.
Qed.

(** *** The run *)

(** What the run relies on: the generator answers, and signatures verify. *)
Context (signs : ∀ k s m, ∃ sig,
  ml_sign s (os_random k) m = Some sig ∧ ml_verify (ml_public_key s) m sig = true).
Context (Hdisk : ∀ name, write_error name = None).

Lemma generate_signer_ok what k pk :
  key_at k = Some pk → ∃ s, generate_signer what k = Ok (s, S k) ∧ ml_public_key s = pk.
Proof.
  intros (s & Hs & ->)%fmap_Some. exists s. unfold generate_signer. by rewrite Hs.
Qed.

Lemma generate_signers_ok n k keys :
  Forall2 (λ k pk, key_at k = Some pk) (seq k n) keys →
  ∃ signers, generate_signers n k = Ok (signers, (k + n)%nat) ∧ ml_public_key <$> signers = keys.
Proof.
  revert k keys. induction n as [|n IH]; intros k keys H.
  { apply Forall2_nil_inv_l in H as ->. exists []. by rewrite Nat.add_0_r. }
  apply Forall2_cons_inv_l in H as (pk & keys' & Hk & H & ->). cbn [generate_signers].
  destruct (generate_signer_ok "ML-DSA key generation failed" k pk Hk) as (s & -> & <-).
  cbn [result_bind]. destruct (IH (S k) keys' H) as (signers & -> & <-). cbn [result_bind].
  exists (s :: signers). by rewrite Nat.add_succ_r.
Qed.

Lemma sign_seats_ok signers indices m k :
  Forall (λ i, i < length signers)%nat indices →
  ∃ pairs, sign_seats signers indices m k = Ok (pairs, (k + length indices)%nat) ∧
    fst <$> pairs = indices ∧
    Forall (λ x, ml_signature_ok (ml_public_key <$> signers) m x = true) pairs.
Proof.
  intros H. revert k. induction H as [|i indices Hi _ IH]; intros k.
  { exists []. by rewrite Nat.add_0_r. }
  destruct (lookup_lt_is_Some_2 _ _ Hi) as [s Hs]. destruct (signs k s m) as (sig & Hsig & Hv).
  cbn [sign_seats]. rewrite Hs. cbn [ok_or result_bind]. rewrite Hsig. cbn [ok_or result_bind].
  destruct (IH (S k)) as (pairs & -> & Hf & Hall). cbn [result_bind]. exists ((i, sig) :: pairs).
  split_and!; [cbn [length]; by rewrite Nat.add_succ_r|simpl; by f_equal|].
  constructor; [|done]. unfold ml_signature_ok. simpl. by rewrite list_lookup_fmap, Hs.
Qed.

Section corpus.
Context (outdir : string) (c : MlCommittee) (t : nat) (signers : list MlDsa65Signer).
Context (Hc : wf_ml_committee c) (Hmem : ml_members c = ml_public_key <$> signers).
Context (Hth : ml_threshold c = Z.of_nat t).

Lemma seats : (1 ≤ t ≤ member_count c)%nat ∧ (member_count c ≤ ML_MAX_COMMITTEE_SIZE)%nat ∧
  length signers = member_count c.
Proof.
  pose proof (wm_threshold _ Hc). pose proof (wm_size _ Hc). unfold member_count in *.
  rewrite Hmem, length_fmap in *. lia.
Qed.

(** Signing and packing one list. *)
Lemma ml_signed_record_ok list version k :
  wf_entries32 list → Z.of_nat (length list) ≤ MAX_LIST_ENTRIES → is_u32 (Z.of_nat version) →
  ∃ r, signed_record c signers list version k = Ok (r, (k + t)%nat) ∧
    honest_record c t (Z.of_nat version) r ∧ ml_status_list r = list.
Proof.
  intros Hl Hlen Hv. destruct seats as (Ht & Hn & Hs). unfold signed_record. cbv zeta.
  rewrite Hth, Nat2Z.id.
  destruct (quorum_indices_ok (member_count c) t (Z.of_nat version)) as (idx & -> & Hi & Hnd & Hlt);
    [lia|]. cbn [result_bind].
  set (m := statement_for c list (Z.of_nat version)).
  destruct (sign_seats_ok signers idx m k) as (pairs & -> & Hf & Hall); [by rewrite Hs|].
  cbn [result_bind]. rewrite <-Hmem in Hall.
  destruct (seated_record (member_count c) list (Z.of_nat version) pairs) as
    (r & -> & Hwf & Hsl & Hcnt & El & Ev & Hperm); [lia|by rewrite Hf| |lia|done..|].
  { eapply Forall_impl; [exact Hall|]. intros x. apply ml_signature_ok_lt. }
  cbn [map_err result_bind]. exists r. rewrite Hi. split_and!; [done| |done].
  split; [done|done|by rewrite El|done| |].
  - by rewrite Hcnt, <-Hi, <-Hf, length_fmap.
  - by rewrite El, Ev, Hperm.
Qed.

Lemma ml_update_name_inj v v' :
  (v < MAX_UPDATES)%nat → (v' < MAX_UPDATES)%nat → ml_update_name v = ml_update_name v' → v = v'.
Proof.
  intros Hv Hv' E.
  assert (Hnd : NoDup (ml_update_name <$> seq 0 MAX_UPDATES))
    by (apply (bool_decide_unpack _); vm_compute; exact I).
  eapply (NoDup_lookup _ v v' (ml_update_name v)); [exact Hnd| |rewrite E];
    rewrite list_lookup_fmap, lookup_seq_lt by done; done.
Qed.

Lemma write_new_ok dir name b files :
  files !! name = None → write_new dir name b files = Ok (<[name := b]> files).
Proof. intros E. unfold write_new, write. by rewrite E, Hdisk. Qed.

Definition sized (fixed : option nat) (version : nat) (list : Datatypes.list bytes) : Prop :=
  wf_entries32 list ∧ (length list ≤ default version fixed)%nat.

Lemma ml_advance_ok fixed version entry list :
  fixed ≠ Some 0%nat → sized fixed version list →
  ∃ list' entry', ml_advance_list list version fixed entry = Ok (list', entry') ∧
    sized fixed (S version) list'.
Proof.
  intros Hz [Hl Hlen]. unfold ml_advance_list.
  destruct (advance_list_wf (λ index, ml_fingerprint (Z.of_nat index)) list (Z.of_nat version) fixed entry)
    as (list' & entry' & -> & Hl' & Hlen'); [intros j; apply sha3_256_length|done|done|].
  exists list', entry'. split; [done|]. split; [done|]. destruct fixed; simpl in *; lia.
Qed.

Lemma write_updates_ok fixed count version entry k list first files :
  fixed ≠ Some 0%nat → Z.of_nat (default 0%nat fixed) ≤ MAX_LIST_ENTRIES →
  (version + count ≤ MAX_UPDATES)%nat → sized fixed version list →
  (∀ v, (version ≤ v < version + count)%nat → files !! ml_update_name v = None) →
  ∃ files', write_updates outdir c signers fixed count version entry k list first files =
      Ok (if (version =? 0)%nat && (0 <? count)%nat then files' !! ml_update_name 0 else first, files',
          (k + count * t)%nat) ∧
    (∀ v, (version ≤ v < version + count)%nat → ∃ r,
       files' !! ml_update_name v = Some (ml_to_bytes r) ∧ honest_record c t (Z.of_nat v) r) ∧
    (∀ name, (∀ v, (version ≤ v < version + count)%nat → name ≠ ml_update_name v) →
       files' !! name = files !! name).
Proof.
  intros Hz Hmax. revert version entry k list first files.
  induction count as [|count IH]; intros version entry k list first files Hv Hs Hnew.
  { exists files. rewrite andb_false_r, Nat.add_0_r. split_and!; [done| |done]. intros v ?. lia. }
  cbn [write_updates].
  destruct (ml_advance_ok fixed version entry list Hz Hs) as (list1 & entry1 & -> & Hs1). cbn [result_bind].
  assert (Hlen : Z.of_nat (length list1) ≤ MAX_LIST_ENTRIES).
  { destruct Hs1 as [_ H]. unfold MAX_LIST_ENTRIES, MAX_UPDATES in *. destruct fixed; simpl in *; lia. }
  destruct (ml_signed_record_ok list1 version k) as (r & -> & Hr & El);
    [apply Hs1|done|unfold is_u32, u32_max, MAX_UPDATES in *; lia|].
  cbn [result_bind]. cbv zeta. rewrite write_new_ok by (apply Hnew; lia). cbn [result_bind].
  assert (Hother : ∀ v, (version < v < version + S count)%nat → ml_update_name v ≠ ml_update_name version).
  { intros v ? E. apply ml_update_name_inj in E; lia. }
  set (first1 := if (version =? 0)%nat then _ else _).
  destruct (IH (S version) entry1 (k + t)%nat list1 first1 (<[ml_update_name version := ml_to_bytes r]> files))
    as (files' & E & Hall & Hframe); [lia|done| |].
  { intros v ?. rewrite lookup_insert_ne by (apply not_eq_sym, Hother; lia). apply Hnew. lia. }
  assert (Hthis : files' !! ml_update_name version = Some (ml_to_bytes r)).
  { rewrite Hframe; [apply lookup_insert_eq|]. intros v ?. apply not_eq_sym, Hother. lia. }
  rewrite Nat.eqb_sym in E. cbn [Nat.eqb andb] in E. rewrite E. exists files'. split_and!.
  - f_equal. f_equal; [|lia]. f_equal. unfold first1. destruct (Nat.eqb_spec version 0) as [->|]; [|done].
    by rewrite Hthis.
  - intros v Hv'. destruct (decide (v = version)) as [->|]; [|apply Hall; lia].
    by exists r.
  - intros name Hname. rewrite Hframe by (intros v ?; apply Hname; lia).
    apply lookup_insert_ne, not_eq_sym, Hname. lia.
Qed.

Lemma outsider_control_ok first k pk :
  honest_record c t 0 first → key_at k = Some pk → pk ∉ ml_members c →
  ∃ r, outsider_control c (member_count c) (Some (ml_to_bytes first)) k = Ok (r, S (S k)) ∧
    outsider_record c first r.
Proof.
  intros [Hv Hwf Hlen Hsl Hcnt Hall] Hk Hout. destruct seats as (Ht & Hn & Hs).
  destruct (indexed_signatures_seats first (wr_count _ Hwf)) as (Hl & _ & Hnd).
  unfold outsider_control. cbn [ok_or result_bind]. rewrite (ml_from_to ml_ssz_size) by done.
  cbn [map_err result_bind]. cbv zeta. set (m := statement_for c _ _).
  destruct (generate_signer_ok "outsider key generation failed" k pk Hk) as (s & -> & Hpk).
  cbn [result_bind]. destruct (signs (S k) s m) as (sig & Hsig & Hver). rewrite Hsig.
  cbn [ok_or result_bind]. fold m in Hall.
  destruct (ml_indexed_signatures first) as [|[i sig0] others] eqn:E; [simpl in Hl; lia|].
  cbn [result_bind].
  destruct (seated_record (member_count c) (ml_status_list first) (ml_version first) ((i, sig) :: others))
    as (r & -> & Hwfr & _ & _ & El & Ev & Hperm); [lia|exact Hnd| |lia|apply Hwf|by rewrite Hv|].
  { assert (Hb : Forall (λ x, x.1 < member_count c)%nat ((i, sig0) :: others))
      by (eapply Forall_impl; [exact Hall|]; intros x; apply ml_signature_ok_lt).
    apply Forall_cons in Hb as [Hi Hb]. by constructor. }
  cbn [map_err result_bind]. exists r. split; [done|]. split_and!; [done..|].
  exists i, sig, (ml_public_key s). rewrite Hperm, Hpk. split_and!; [apply list_elem_of_here|done|].
  by rewrite <-Hpk.
Qed.
End corpus.

Lemma parse_count_range text name max v : parse_count text name max = Ok v → (1 ≤ v ≤ max)%nat.
Proof.
  unfold parse_count. destruct (parse_unsigned _ _) as [z|]; [|done].
  destruct (Z.leb_spec 1 z), (Z.leb_spec z (Z.of_nat max)); simpl; try done. intros [= <-]. lia.
Qed.

(** The files that are not updates. *)
Definition other_names : list string :=
  ["anchor.ssz"; "attack-outsider.ssz"; "workload.txt"; "manifest.txt"]%string.
Ltac in_list := solve [repeat (apply list_elem_of_here || apply list_elem_of_further)].

Lemma other_name name v : name ∈ other_names → name ≠ ml_update_name v.
Proof.
  intros Hin ->. unfold other_names, ml_update_name in Hin.
  repeat (apply elem_of_cons in Hin as [Hin|Hin]; [done|]). by apply not_elem_of_nil in Hin.
Qed.

(** The fresh keys of a run: those of the [n] members, then the outsider's, which is
    drawn after the [u] rounds of [t] signatures. *)
Definition fresh_keys (n t u : nat) (keys : list MlPublicKey) (outsider : MlPublicKey) : Prop :=
  Forall2 (λ k pk, key_at k = Some pk) (seq 0 n ++ [(n + u * t)%nat]) (keys ++ [outsider]) ∧
  NoDup (keys ++ [outsider]).

Lemma fresh_keys_split n t u keys outsider :
  fresh_keys n t u keys outsider →
  Forall2 (λ k pk, key_at k = Some pk) (seq 0 n) keys ∧ key_at (n + u * t) = Some outsider ∧
  NoDup keys ∧ (outsider ∉ keys) ∧ length keys = n.
Proof.
  intros [H (Hnd & Hdis & _)%NoDup_app].
  assert (Hl : length keys = n).
  { apply Forall2_length in H. rewrite !length_app, length_seq in H. simpl in H. lia. }
  apply Forall2_app_inv in H as [H Hk]; [|by rewrite length_seq].
  apply Forall2_cons in Hk as [Hk _]. split_and!; [done..| |done].
  intros Hin. apply (Hdis _ Hin), list_elem_of_here.
Qed.

Lemma ml_fixture_main_ok prog outdir ns ts us n t u create_dir var entries keys outsider :
  parse_count ns "N" ML_MAX_COMMITTEE_SIZE = Ok n → parse_count ts "t" n = Ok t →
  parse_count us "updates" MAX_UPDATES = Ok u → create_dir outdir = None →
  list_entries_from_env var = Ok entries → fresh_keys n t u keys outsider →
  ∃ c F, ml_committee_new keys (Z.of_nat t) = Ok c ∧
    ml_fixture_main [prog; outdir; ns; ts; us] create_dir var = Ok F ∧ ml_corpus c t u F.
Proof.
  intros Hn Ht Hu Hdir Hvar Hkeys. pose proof (parse_count_range _ _ _ _ Hn) as Hn'.
  pose proof (parse_count_range _ _ _ _ Ht) as Ht'. pose proof (parse_count_range _ _ _ _ Hu) as Hu'.
  destruct (fresh_keys_split _ _ _ _ _ Hkeys) as (Hgen & Hout & Hnd & Hnin & Hlen).
  unfold ml_fixture_main. rewrite Hn. cbn [result_bind]. rewrite Ht. cbn [result_bind]. rewrite Hu.
  cbn [result_bind]. rewrite Hdir. cbn [result_bind].
  destruct (generate_signers_ok n 0 keys Hgen) as (signers & -> & Hpk). cbn [result_bind]. rewrite Hpk.
  set (c := mkMlCommittee keys (Z.of_nat t)
    (anchor_id_from_canonical_bytes (wire_bytes keys (Z.of_nat t)))).
  assert (Hc : wf_ml_committee c) by (split; unfold member_count; simpl; [lia|lia|done|done]).
  rewrite (proj2 (ml_committee_new_ok keys (Z.of_nat t) c)) by done. cbn [map_err result_bind].
  rewrite write_new_ok by done. cbn [result_bind]. rewrite Hvar. cbn [result_bind]. cbv zeta.
  destruct (write_updates_ok outdir c t signers Hc (eq_sym Hpk) eq_refl (Z.to_nat <$> entries) u 0 0 (0 + n)
    [] None (<["anchor.ssz"%string := ml_committee_to_bytes c]> ∅)) as (F & -> & Hall & Hframe).
  { by apply (list_entries_positive var). }
  { destruct entries as [e|]; simpl; [|by vm_compute]. pose proof (list_entries_range _ _ e Hvar eq_refl). lia. }
  { lia. }
  { split; [constructor|simpl; lia]. }
  { intros v _. rewrite lookup_insert_ne by (apply other_name; in_list). done. }
  cbn [result_bind]. rewrite (proj2 (Nat.ltb_lt 0 u)) by lia. cbn [Nat.eqb andb].
  destruct (Hall 0%nat) as (first & HF0 & Hfirst); [lia|]. rewrite HF0.
  destruct (outsider_control_ok c t signers Hc (eq_sym Hpk) eq_refl first (0 + n + u * t) outsider)
    as (r & Hr & Hctl); [done..|].
  change (member_count c) with (length keys) in Hr. rewrite Hlen in Hr. rewrite Hr. cbn [result_bind].
  assert (Hfree : ∀ name, name ∈ other_names → name ≠ "anchor.ssz"%string → F !! name = None).
  { intros name Hin Hne. rewrite Hframe by (intros v _; by apply other_name). by rewrite lookup_insert_ne. }
  rewrite write_new_ok by (apply Hfree; [in_list|done]). cbn [result_bind].
  rewrite write_new_ok by (rewrite lookup_insert_ne by done; apply Hfree; [in_list|done]). cbn [result_bind].
  rewrite write_new_ok by (rewrite !lookup_insert_ne by done; apply Hfree; [in_list|done]).
  exists c. eexists. split_and!; [done|done|].
  assert (Hkeep : ∀ v a b d, (<["manifest.txt"%string := a]> (<["workload.txt"%string := b]>
    (<["attack-outsider.ssz"%string := d]> F))) !! ml_update_name v = F !! ml_update_name v).
  { intros. by rewrite !lookup_insert_ne by (apply other_name; in_list). }
  split_and!.
  - rewrite !lookup_insert_ne by done. rewrite Hframe; [apply lookup_insert_eq|].
    intros v _. apply other_name. in_list.
  - intros v Hv. destruct (Hall v) as (r' & Hr' & Hok); [lia|]. exists r'. by rewrite Hkeep.
  - exists first, r. rewrite Hkeep. split_and!; [done..| |done].
    rewrite !lookup_insert_ne by done. apply lookup_insert_eq.
  - rewrite lookup_insert_eq. unfold member_count. simpl. by rewrite Hlen.
Qed.
End laws.
End ml_fixture.
