(* ===== verification/MlRawAgg.v ===== *)
(** * The ML-DSA relying party's benchmark (mldsa/src/bin/mldsa_raw_agg.rs)

    Reads a fixture directory with bounded reads, decodes and judges every update,
    then builds five records that must be rejected.  Measurement and printing are
    left out; a panic is an error. *)
From S2P Require Import Prelude External Seats MlStatusLists MlCommittees Workload Artifacts MlFixture.

Open Scope Z_scope.

Definition MAX_ANCHOR_FILE_BYTES : Z := 4 * 1024 * 1024.

(** A directory whose files have a length, as [metadata] reports it, apart from
    what a read then returns. *)
Record BoundedDirectory := mkBoundedDirectory {
  bd_files : Directory;
  bd_len : string → result Z string;
}.

Definition read_bounded (d : BoundedDirectory) (name : string) (limit : Z) : result bytes string :=
  let path := (d_path (bd_files d) +:+ "/" +:+ name)%string in
  let? len := map_err (λ e, "cannot stat " +:+ path +:+ ": " +:+ e)%string (bd_len d name) in
  if limit <? len then Err ("fixture " +:+ path +:+ " exceeds the allowed size")%string
  else
    let? b := map_err (λ e, "cannot read " +:+ path +:+ ": " +:+ e)%string (d_read (bd_files d) name) in
    if limit <? Z.of_nat (length b)
    then Err ("fixture " +:+ path +:+ " grew beyond the allowed size")%string
    else Ok b.

Section ml_raw_agg.
Context `{HH : Hashes} `{ML : MlDsa} `{BL : BitListOps}.
Context `{SM : !Ssz MlStatusListWire} `{SMC : !Ssz MlCommitteeWire} `{SST : !SszEncode StatementWire}.

(** ** The controls *)

Definition flip_bit (x : byte) : byte := byte_of_Z (Z.lxor (Z_of_byte x) 1).

(** One bit of the first byte of the last signature changed. *)
Definition ml_corrupt_last_signature (b : bytes) (honest : MlDsaStatusList) :
    result MlDsaStatusList string :=
  if Z.of_nat (length b) <? SIGNATURE_BYTES then Err "record has a signature"%string
  else
    let corrupted := alter flip_bit (length b - Z.to_nat SIGNATURE_BYTES)%nat b in
    let? record := map_err
      (λ e, "changing a challenge-seed bit must preserve the record shape: " +:+ e)%string
      (ml_from_bytes corrupted) in
    if bool_decide (ml_status_list record = ml_status_list honest) &&
       bool_decide (ml_version record = ml_version honest) &&
       bool_decide (ml_signer_indices record = ml_signer_indices honest) &&
       negb (bool_decide (ml_to_bytes record = b))
    then Ok record
    else Err "the signature control must differ from its honest record in a signature only"%string.

(** [!verifier.verify_status_list(&MlDsaStatusList::new(..).unwrap())]. *)
Definition ml_control (v : MlRawVerifier) (list : list bytes) (version : Z) (n : nat)
    (signatures : Datatypes.list (nat * MlSignature)) : result bool string :=
  let? r := ml_status_list_new list version n signatures in Ok (negb (ml_verify_status_list v r)).

Definition negative_controls (v : MlRawVerifier) (d : BoundedDirectory) : result bool string :=
  let? b := read_bounded d (ml_update_name 0) MAX_RECORD_BYTES in
  let? honest := map_err (λ e, "invalid first fixture record: " +:+ e)%string (ml_from_bytes b) in
  if negb (ml_verify_status_list v honest)
  then Err "assertion failed: verifier.verify_status_list(&honest)"%string
  else
    let n := member_count (mlv_committee v) in
    let threshold := Z.to_nat (ml_threshold (mlv_committee v)) in
    let signatures := ml_indexed_signatures honest in
    let list := ml_status_list honest in
    let? tampered := ml_control v (list ++ [replicate 32 Byte.xff]) (ml_version honest) n signatures in
    let? relabelled := ml_control v list (wrapping_succ_u32 (ml_version honest)) n signatures in
    let? short := ml_control v list (ml_version honest) n (take (threshold - 1) signatures) in
    let? outsider_bytes := read_bounded d "attack-outsider.ssz" MAX_RECORD_BYTES in
    let? outsider := map_err (λ e, "invalid outsider fixture record: " +:+ e)%string
                       (ml_from_bytes outsider_bytes) in
    let? signature := ml_corrupt_last_signature b honest in
    Ok (tampered && relabelled && short && negb (ml_verify_status_list v outsider) &&
        negb (ml_verify_status_list v signature)).

(** ** The run *)

Fixpoint ml_verify_updates (v : MlRawVerifier) (d : BoundedDirectory) (count index : nat)
    (sizes : ListSizes) : result ListSizes string :=
  match count with
  | O => Ok sizes
  | S count =>
      let? b := read_bounded d (ml_update_name index) MAX_RECORD_BYTES in
      let? record := map_err (λ e, "invalid fixture record: " +:+ e)%string (ml_from_bytes b) in
      let accepted := ml_verify_status_list v record in
      if negb (ml_version record =? Z.of_nat index) then Err "fixture version mismatch"%string
      else if negb (Z.of_nat (ml_signer_count record) =? ml_threshold (mlv_committee v))
      then Err "fixture quorum mismatch"%string
      else if negb accepted then Err "honest fixture failed ML-DSA verification"%string
      else ml_verify_updates v d count (S index) (record_size sizes (length (ml_status_list record)))
  end.

Definition CONTROL_ACCEPTED : string := "at least one ML-DSA negative control was accepted".

(** [main], of the command line; [open] is the directory a path names. *)
Definition ml_raw_agg_main (args : list string) (open : string → BoundedDirectory) :
    result ListSizes string :=
  match args with
  | [_; directory; updates] =>
      let d := open directory in
      let? updates := parse_count updates "updates" MAX_UPDATES in
      let? anchor_bytes := read_bounded d "anchor.ssz" MAX_ANCHOR_FILE_BYTES in
      let? c := map_err (λ e, "invalid fixture anchor: " +:+ e)%string
                  (ml_committee_from_bytes anchor_bytes) in
      let? manifest_bytes := read_bounded d "manifest.txt" 128 in
      let? manifest := ok_or (from_utf8 manifest_bytes) "invalid fixture manifest"%string in
      if negb (bool_decide (manifest = ml_manifest (member_count c) (Z.to_nat (ml_threshold c)) updates))
      then Err "fixture N/t/update count differs from the requested run"%string
      else
        let v := mkMlVerifier c in
        let? sizes := ml_verify_updates v d updates 0 None in
        let? all_rejected := negative_controls v d in
        if all_rejected then Ok sizes else Err CONTROL_ACCEPTED
  | _ => Err "usage: mldsa_raw_agg <fixture-dir> <updates>"%string
  end.

(** ** What acceptance of a control would mean *)

(** A signature of the collection that verifies for its seat on two statements. *)
Definition second_statement (c : MlCommittee) (pairs : list (nat * MlSignature)) (m m' : bytes) : Prop :=
  m ≠ m' ∧ ∃ i pk sig, (i, sig) ∈ pairs ∧ ml_members c !! i = Some pk ∧
    ml_verify pk m sig = true ∧ ml_verify pk m' sig = true.

(** A signature that verifies under a key outside the committee and a member's. *)
Definition ml_impersonation (c : MlCommittee) (pairs : list (nat * MlSignature)) (m : bytes) : Prop :=
  ∃ i sig pk pk', (i, sig) ∈ pairs ∧ (pk ∉ ml_members c) ∧ pk' ∈ ml_members c ∧
    ml_verify pk m sig = true ∧ ml_verify pk' m sig = true.

(** Two signatures that differ in one bit of the challenge seed and both verify. *)
Definition ml_malleable (c : MlCommittee) (sigs : list MlSignature) (m : bytes) : Prop :=
  ∃ pk sig sig', sig ∈ sigs ∧ ml_sig_encode sig' = alter flip_bit 0%nat (ml_sig_encode sig) ∧
    pk ∈ ml_members c ∧ ml_verify pk m sig = true ∧ ml_verify pk m sig' = true.

Section accepted.
Context (c : MlCommittee) (honest outsider : MlDsaStatusList).
Let list := ml_status_list honest.
Let m := statement_for c list 0.

(** What it takes for a control made of the first record to be accepted. *)
Inductive ml_control_accepted : Prop :=
| MlStatementClash list' version' :
    (list', version') ≠ (list, 0) →
    collides shake256_64 (committee_statement_preimage c list 0)
      (committee_statement_preimage c list' version') → ml_control_accepted
| MlStatementReused m' :
    second_statement c (ml_indexed_signatures honest) m m' → ml_control_accepted
| MlOutsiderAccepted : ml_impersonation c (ml_indexed_signatures outsider) m → ml_control_accepted
| MlSignatureAccepted : ml_malleable c (ml_signatures honest) m → ml_control_accepted.
End accepted.

Section laws.
Context `{BLL : !BitListLaws} `{LM : !SszLaws MlStatusListWire wf_ml_wire}.
Context `{LMC : !SszLaws MlCommitteeWire wf_ml_committee_wire}.
Context (ml_ssz_size : ∀ w : MlStatusListWire, wf_ml_wire w →
  Z.of_nat (length (as_ssz_bytes w)) =
    ml_size (bl_len (mw_signers w)) (length (mw_status_list w)) (length (mw_signatures w))).
Context (ml_committee_size : ∀ w : MlCommitteeWire, wf_ml_committee_wire w →
  Z.of_nat (length (as_ssz_bytes w)) =
    ML_COMMITTEE_FIXED_WIRE_BYTES + PUBLIC_KEY_BYTES * Z.of_nat (length (mcw_members w))).
Context (statement_layout : ∀ w : StatementWire,
  0 ≤ st_alg w < 256 → length (st_anchor_id w) = ANCHOR_ID_BYTES → is_u32 (st_version w) →
  wf_entries32 (st_status_list w) →
  ssz_encode w = [byte_of_Z (st_alg w)] ++ st_anchor_id w ++ u32_le (st_version w) ++
                 u32_le 57 ++ mjoin (st_status_list w)).
(** SSZ puts the signatures last, and the ML-DSA decoder copies the challenge seed. *)
Context (signatures_last : ∀ w sigs raw, wf_ml_wire w → mw_signatures w = sigs ++ [raw] →
  ∃ pre, as_ssz_bytes w = pre ++ raw ∧ ∀ raw', length raw' = Z.to_nat SIGNATURE_BYTES →
    as_ssz_bytes (mkMlWire (mw_alg w) (mw_status_list w) (mw_version w) (mw_signers w) (sigs ++ [raw'])) =
      pre ++ raw').
Context (challenge_seed : ∀ sig, ∃ sig',
  ml_sig_encode sig' = alter flip_bit 0%nat (ml_sig_encode sig)).

Lemma flip_bit_ne x : flip_bit x ≠ x.
Proof. by destruct x. Qed.

Lemma ml_manifest_ascii n t u : ascii_str (ml_manifest n t u).
Proof.
  assert (Hd : ∀ k, ascii_str (decimal (Z.of_nat k))) by (intros; apply plain_ascii, decimal_plain; lia).
  unfold ml_manifest, ascii_str.
  repeat first [apply Hd | apply (bool_decide_unpack _); exact I | apply Forall_app; split
               | apply Forall_cons; split; [lia|]].
Qed.

Lemma ml_manifest_short n t u : Z.of_nat (length (ascii_bytes (ml_manifest n t u))) ≤ 128.
Proof.
  pose proof (length_decimal (Z.of_nat n)). pose proof (length_decimal (Z.of_nat t)).
  pose proof (length_decimal (Z.of_nat u)). unfold ascii_bytes, ml_manifest.
  rewrite length_map, !length_app. cbn [length]. rewrite !length_app. cbn [length]. rewrite !length_app.
  simpl. lia.
Qed.

Lemma read_bounded_ok d F name limit b :
  Artifacts.holds (bd_files d) F → F !! name = Some b → bd_len d name = Ok (Z.of_nat (length b)) →
  Z.of_nat (length b) ≤ limit → read_bounded d name limit = Ok b.
Proof.
  intros Hd HF Hlen Hle. unfold read_bounded. rewrite Hlen. cbn [map_err result_bind].
  rewrite (proj2 (Z.ltb_ge _ _)) by done. rewrite (holds_read _ _ _ _ Hd HF). cbn [map_err result_bind].
  by rewrite (proj2 (Z.ltb_ge _ _)).
Qed.

Lemma record_length r :
  wf_ml_record r → Z.of_nat (length (ml_to_bytes r)) ≤ MAX_RECORD_BYTES.
Proof.
  intros Hr. unfold ml_to_bytes. rewrite ml_ssz_size by by apply wf_ml_wire_of.
  destruct Hr as [_ _ _ _ Hs]. unfold ml_wire_of. simpl. by rewrite length_fmap.
Qed.

(** An accepted control carries a quorum of valid signatures on what it says. *)
Lemma ml_control_spec c list version pairs :
  wf_ml_committee c → NoDup (fst <$> pairs) → Forall (λ x, x.1 < member_count c)%nat pairs →
  Z.of_nat (length list) ≤ MAX_LIST_ENTRIES + 1 → wf_entries32 list → is_u32 version →
  ∃ b, ml_control (mkMlVerifier c) list version (member_count c) pairs = Ok b ∧
    (b = false → ml_threshold c ≤ Z.of_nat (length pairs) ∧
       Forall (λ x, ml_signature_ok (ml_members c) (statement_for c list version) x = true) pairs).
Proof.
  intros Hc Hnd Hlt Hlen Hl Hv. unfold ml_control.
  pose proof (wm_threshold _ Hc). pose proof (wm_size _ Hc).
  destruct (seated_record ml_ssz_size (member_count c) list version pairs) as
    (r & -> & _ & _ & Hcnt & El & Ev & Hperm); [lia|done..|].
  cbn [result_bind]. eexists. split; [done|].
  intros (_ & Ht & _ & Hall)%negb_false_iff%ml_verify_true. rewrite Hcnt in Ht. split; [done|].
  fold (ml_indexed_signatures r) in Hall. by rewrite Hperm, El, Ev in Hall.
Qed.

Lemma second_statement_intro c pairs m m' :
  m ≠ m' → pairs ≠ [] → Forall (λ x, ml_signature_ok (ml_members c) m x = true) pairs →
  Forall (λ x, ml_signature_ok (ml_members c) m' x = true) pairs → second_statement c pairs m m'.
Proof.
  intros Hne Hp H H'. split; [done|]. destruct pairs as [|[i sig] pairs]; [done|].
  apply Forall_cons in H as [H _]. apply Forall_cons in H' as [H' _]. unfold ml_signature_ok in *. simpl in *.
  destruct (ml_members c !! i) as [pk|] eqn:E; [|done]. exists i, pk, sig.
  split_and!; [apply list_elem_of_here|done..].
Qed.

Section controls.
Context (c : MlCommittee) (t : nat) (Hc : wf_ml_committee c) (Hth : ml_threshold c = Z.of_nat t).
Context (honest outsider : MlDsaStatusList) (Hr : honest_record c t 0 honest).
Context (Ho : outsider_record c honest outsider).
Let list := ml_status_list honest.
Let m := statement_for c list 0.

Lemma threshold_seats : (1 ≤ t ≤ member_count c)%nat.
Proof. pose proof (wm_threshold _ Hc). lia. Qed.

Lemma honest_pairs :
  length (ml_indexed_signatures honest) = t ∧ NoDup (fst <$> ml_indexed_signatures honest) ∧
  Forall (λ x, ml_signature_ok (ml_members c) m x = true) (ml_indexed_signatures honest) ∧
  Forall (λ x, x.1 < member_count c)%nat (ml_indexed_signatures honest).
Proof.
  destruct Hr as [Hv Hwf _ _ Hcnt Hall]. destruct (indexed_signatures_seats honest (wr_count _ Hwf)) as (Hl & _ & Hnd).
  rewrite Hv in Hall. split_and!; [congruence|done|done|].
  eapply Forall_impl; [exact Hall|]. intros x. apply ml_signature_ok_lt.
Qed.

Lemma honest_verifies : ml_verify_status_list (mkMlVerifier c) honest = true.
Proof.
  destruct Hr as [Hv Hwf _ Hsl Hcnt Hall]. apply ml_verify_true.
  split_and!; [done|rewrite Hcnt, Hth; lia|apply Hwf|exact Hall].
Qed.

(** A control on another list or version. *)
Lemma other_statement list' version' b :
  (list', version') ≠ (list, 0) → wf_entries32 list' → is_u32 version' →
  (b = false → ml_threshold c ≤ Z.of_nat (length (ml_indexed_signatures honest)) ∧
     Forall (λ x, ml_signature_ok (ml_members c) (statement_for c list' version') x = true)
       (ml_indexed_signatures honest)) →
  b = true ∨ ml_control_accepted c honest outsider.
Proof.
  intros Hne Hl' Hv' Hb. destruct b; [by left|right]. destruct (Hb eq_refl) as [_ Hall'].
  destruct honest_pairs as (Hlen & _ & Hall & _). pose proof threshold_seats.
  destruct (decide (m = statement_for c list' version')) as [E|E].
  - eapply statement_digest_inj in E as [(_ & El & Ev)|Hcol]; try done.
    + destruct Hne. by rewrite El, Ev.
    + by eapply MlStatementClash.
    + rewrite (wm_anchor_id _ Hc). apply sha3_384_length.
    + rewrite (wm_anchor_id _ Hc). apply sha3_384_length.
    + apply Hr.
  - eapply MlStatementReused, second_statement_intro; [exact E| |exact Hall|exact Hall'].
    intros E'. rewrite E' in Hlen. simpl in Hlen. lia.
Qed.

(** A record with the signature of someone outside. *)
Lemma outsider_judged :
  ml_verify_status_list (mkMlVerifier c) outsider = false ∨ ml_control_accepted c honest outsider.
Proof.
  destruct (ml_verify_status_list _ outsider) eqn:E; [right|by left].
  destruct Ho as (_ & El & Ev & i & sig & pk & Hin & Hpk & Hver).
  apply ml_verify_true in E as (_ & _ & _ & Hall). rewrite El, Ev in Hall.
  rewrite (hr_version _ _ _ _ Hr) in Hall, Hver.
  rewrite Forall_forall in Hall. specialize (Hall _ Hin). unfold ml_signature_ok in Hall. simpl in Hall.
  destruct (ml_members c !! i) as [pk'|] eqn:Hpk'; [|done]. apply MlOutsiderAccepted.
  exists i, sig, pk, pk'. split_and!; [done|done|by eapply list_elem_of_lookup_2|done|done].
Qed.

(** The record with one bit of its last signature changed. *)
Lemma corrupt_built :
  ∃ sigs sig sig', ml_signatures honest = sigs ++ [sig] ∧
    ml_sig_encode sig' = alter flip_bit 0%nat (ml_sig_encode sig) ∧
    ml_corrupt_last_signature (ml_to_bytes honest) honest =
      Ok (mkMlStatusList list (ml_version honest) (ml_signers honest) (sigs ++ [sig'])).
Proof.
  destruct Hr as [Hv Hwf Hlist Hsl Hcnt Hall]. pose proof threshold_seats as Ht.
  pose proof (wr_count _ Hwf) as Hsig.
  destruct (last (ml_signatures honest)) as [sig|] eqn:E.
  2:{ apply last_None in E. rewrite E in Hsig. simpl in Hsig. lia. }
  pose proof E as (sigs & Esig)%last_Some. destruct (challenge_seed sig) as (sig' & Hflip).
  exists sigs, sig, sig'. split; [done|]. split; [done|]. set (r' := mkMlStatusList _ _ _ _).
  destruct (signatures_last (ml_wire_of honest) (ml_sig_encode <$> sigs) (ml_sig_encode sig)) as
    (pre & Hbytes & Hb'); [by apply wf_ml_wire_of|by unfold ml_wire_of; simpl; rewrite Esig, fmap_app|].
  change (as_ssz_bytes (ml_wire_of honest)) with (ml_to_bytes honest) in Hbytes.
  assert (Hwf' : wf_ml_record r').
  { destruct Hwf as [H1 H2 H3 H4 H5]. split; simpl; try done.
    - unfold ml_signer_count in *. simpl. by rewrite H4, Esig, !length_app.
    - unfold ml_signer_slots in *. simpl. rewrite Esig, !length_app in H5. by rewrite length_app. }
  assert (Hbytes' : ml_to_bytes r' = pre ++ ml_sig_encode sig').
  { unfold ml_to_bytes, ml_wire_of. simpl. rewrite fmap_app. apply Hb', ml_sig_encode_length. }
  pose proof (ml_sig_encode_length sig) as Hlen.
  assert (Hne : ml_to_bytes r' ≠ ml_to_bytes honest).
  { rewrite Hbytes, Hbytes', Hflip. intros H%app_inv_head. destruct (ml_sig_encode sig) as [|x l]; [done|].
    injection H as H. by apply (flip_bit_ne x). }
  unfold ml_corrupt_last_signature. rewrite (proj2 (Z.ltb_ge _ _)).
  2:{ rewrite Hbytes, length_app, Hlen. unfold SIGNATURE_BYTES. lia. }
  replace (alter _ _ _) with (ml_to_bytes r').
  2:{ rewrite Hbytes, Hbytes', Hflip, length_app, Hlen.
    replace (length pre + 3309 - Z.to_nat SIGNATURE_BYTES)%nat with (length pre + 0)%nat
      by (unfold SIGNATURE_BYTES; lia). symmetry. apply list.alter_app_r. }
  cbv zeta. rewrite (ml_from_to ml_ssz_size) by done. cbn [map_err result_bind].
  unfold ml_signer_indices. simpl. rewrite (bool_decide_eq_false_2 _ Hne). by rewrite !bool_decide_eq_true_2.
Qed.

(** The last signature belongs to the last seat. *)
Lemma last_seat sigs sig m' sig' :
  ml_signatures honest = sigs ++ [sig] →
  Forall (λ x, ml_signature_ok (ml_members c) m' x = true) (ml_indexed_signatures honest) →
  Forall (λ x, ml_signature_ok (ml_members c) m' x = true)
    (zip (ml_signer_indices honest) (sigs ++ [sig'])) →
  ∃ pk, pk ∈ ml_members c ∧ ml_verify pk m' sig = true ∧ ml_verify pk m' sig' = true.
Proof.
  intros Esig Hall Hall'. pose proof (wr_count _ (hr_wf _ _ _ _ Hr)) as Hsig.
  destruct (lookup_lt_is_Some_2 (ml_signer_indices honest) (length sigs)) as [i Hi].
  { rewrite <-ml_count_indices, Hsig, Esig, length_app. simpl. lia. }
  unfold ml_indexed_signatures in Hall. rewrite Esig in Hall. rewrite Forall_lookup in Hall, Hall'.
  assert (Hz : ∀ s, zip (ml_signer_indices honest) (sigs ++ [s]) !! length sigs = Some (i, s))
    by (intros s; by rewrite lookup_zip_with, Hi; simpl; rewrite list_lookup_middle).
  specialize (Hall _ _ (Hz _)). specialize (Hall' _ _ (Hz _)). unfold ml_signature_ok in *. simpl in *.
  destruct (ml_members c !! i) as [pk|] eqn:Hpk; [|done]. exists pk.
  split_and!; [by eapply list_elem_of_lookup_2|done|done].
Qed.

Lemma corrupt_judged :
  ∃ r', ml_corrupt_last_signature (ml_to_bytes honest) honest = Ok r' ∧
    (ml_verify_status_list (mkMlVerifier c) r' = false ∨ ml_control_accepted c honest outsider).
Proof.
  destruct corrupt_built as (sigs & sig & sig' & Esig & Hflip & Hb). eexists. split; [exact Hb|].
  destruct (ml_verify_status_list _ _) eqn:Er; [right|by left].
  apply ml_verify_true in Er as (_ & _ & _ & Hall'). destruct honest_pairs as (_ & _ & Hall & _).
  simpl in Hall'. rewrite (hr_version _ _ _ _ Hr) in Hall'.
  destruct (last_seat sigs sig m sig' Esig Hall Hall') as (pk & Hpk & Hv & Hv'). apply MlSignatureAccepted.
  exists pk, sig, sig'. split_and!; [|done..]. rewrite Esig. apply elem_of_app. right. apply list_elem_of_here.
Qed.
End controls.

(** ** A run over a fixture *)

(** What a directory that holds [F] answers, lengths included. *)
Definition bounded_holds (d : BoundedDirectory) (F : Files) : Prop :=
  Artifacts.holds (bd_files d) F ∧
  ∀ name, match F !! name with
          | Some b => bd_len d name = Ok (Z.of_nat (length b))
          | None => is_ok (bd_len d name) = false
          end.

(** One of the fixture's own signatures is valid for something it was not made
    for, or SHAKE256 collides. *)
Definition ml_fixture_undone (c : MlCommittee) (F : Files) : Prop :=
  ∃ honest outsider, F !! ml_update_name 0 = Some (ml_to_bytes honest) ∧
    F !! "attack-outsider.ssz"%string = Some (ml_to_bytes outsider) ∧
    ml_control_accepted c honest outsider.

Section fixture_run.
Context (c : MlCommittee) (t u : nat) (d : BoundedDirectory) (F : Files).
Context (Hc : wf_ml_committee c) (Hth : ml_threshold c = Z.of_nat t) (Hu : (1 ≤ u ≤ MAX_UPDATES)%nat).
Context (Hd : bounded_holds d F) (HF : ml_corpus c t u F).

Lemma read_held name limit b :
  F !! name = Some b → Z.of_nat (length b) ≤ limit → read_bounded d name limit = Ok b.
Proof.
  intros E Hle. destruct Hd as [Hf Hlen]. specialize (Hlen name). rewrite E in Hlen.
  by eapply read_bounded_ok.
Qed.

Lemma read_record name r :
  F !! name = Some (ml_to_bytes r) → wf_ml_record r →
  read_bounded d name MAX_RECORD_BYTES = Ok (ml_to_bytes r) ∧ ml_from_bytes (ml_to_bytes r) = Ok r.
Proof.
  intros E Hr. split; [by apply read_held, record_length|]. by apply (ml_from_to ml_ssz_size).
Qed.

Lemma negative_controls_ok :
  ∃ b, negative_controls (mkMlVerifier c) d = Ok b ∧ (b = true ∨ ml_fixture_undone c F).
Proof.
  destruct HF as (_ & _ & (honest & outs & Hh & Hr & Ho & Hout) & _).
  destruct (read_record _ _ Hh (hr_wf _ _ _ _ Hr)) as [Hread Hdec].
  destruct (read_record _ _ Ho (proj1 Hout)) as [Hread' Hdec'].
  destruct (honest_pairs c t honest Hr) as (Hlen & Hnd & Hall & Hlt).
  destruct (threshold_seats c t Hc Hth) as [Ht0 Ht1].
  pose proof Hr as [Hv Hwf Hlist _ _ _].
  unfold negative_controls. rewrite Hread. cbn [result_bind]. rewrite Hdec. cbn [map_err result_bind].
  rewrite (honest_verifies c t Hth honest Hr). cbn [negb]. cbv zeta. cbn [mlv_committee].
  rewrite Hv, Hth, Nat2Z.id.
  set (list := ml_status_list honest) in *. set (pairs := ml_indexed_signatures honest) in *.
  assert (Hl : wf_entries32 list) by apply Hwf.
  assert (Hl' : wf_entries32 (list ++ [replicate 32 Byte.xff]))
    by (apply Forall_app; split; [done|by repeat constructor]).
  destruct (ml_control_spec c (list ++ [replicate 32 Byte.xff]) 0 pairs) as (a & -> & Ha); try done.
  { rewrite length_app. simpl. lia. }
  cbn [result_bind]. change (wrapping_succ_u32 0) with 1.
  destruct (ml_control_spec c list 1 pairs) as (b & Eb & Hb); try done; [lia|].
  rewrite Eb. cbn [result_bind].
  destruct (ml_control_spec c list 0 (take (t - 1) pairs)) as (s & -> & Hs); try done.
  { rewrite fmap_take. eapply sublist_NoDup; [exact Hnd|apply sublist_take]. }
  { by apply Forall_take. } { lia. }
  cbn [result_bind]. rewrite Hread'. cbn [result_bind]. rewrite Hdec'. cbn [map_err result_bind].
  destruct (corrupt_judged c t Hc Hth honest outs Hr) as (r' & -> & Hbad). cbn [result_bind].
  eexists. split; [done|].
  assert (Hundo : ml_control_accepted c honest outs → ml_fixture_undone c F) by (intros; by exists honest, outs).
  assert (a = true ∨ ml_control_accepted c honest outs) as [->|?]; [|clear Ha|by right; auto].
  { eapply (other_statement c t); [exact Hc|exact Hth|exact Hr| |exact Hl'| |exact Ha]; [|done].
    intros [=E]. apply (f_equal length) in E. rewrite length_app in E. simpl in E. fold list in E. lia. }
  assert (b = true ∨ ml_control_accepted c honest outs) as [->|?]; [|clear Hb|by right; auto].
  { by eapply (other_statement c t); [exact Hc|exact Hth|exact Hr|..|exact Hb]. }
  destruct s; [|destruct (Hs eq_refl) as [Hle _]; rewrite length_take, Hth in Hle; lia].
  destruct (outsider_judged c t honest outs Hr Hout) as [->|?]; [|by right; auto].
  destruct Hbad as [->|?]; [by left|by right; auto].
Qed.

Lemma ml_verify_updates_ok count index sizes :
  (index + count ≤ u)%nat → ∃ sizes', ml_verify_updates (mkMlVerifier c) d count index sizes = Ok sizes'.
Proof.
  destruct HF as (_ & Hall & _). revert index sizes. induction count as [|count IH]; intros index sizes Hi.
  { by exists sizes. }
  destruct (Hall index) as (r & Hr & Hok); [lia|].
  destruct (read_record _ _ Hr (hr_wf _ _ _ _ Hok)) as [Hread Hdec].
  cbn [ml_verify_updates]. rewrite Hread. cbn [result_bind]. rewrite Hdec. cbn [map_err result_bind].
  destruct Hok as [Hv Hwf _ Hsl Hcnt Hs]. rewrite Hv, Z.eqb_refl, Hcnt. cbn [negb mlv_committee].
  rewrite Hth, Z.eqb_refl. cbn [negb].
  rewrite (proj2 (ml_verify_true c r)); [apply IH; lia|].
  split_and!; [done|rewrite Hcnt, Hth; lia|apply Hwf|exact Hs].
Qed.

Lemma ml_raw_agg_main_ok prog dir us open :
  open dir = d → parse_count us "updates" MAX_UPDATES = Ok u →
  (∃ sizes, ml_raw_agg_main [prog; dir; us] open = Ok sizes) ∨
  (ml_raw_agg_main [prog; dir; us] open = Err CONTROL_ACCEPTED ∧ ml_fixture_undone c F).
Proof.
  intros Hopen Hus. pose proof HF as (Ha & _ & _ & Hm). unfold ml_raw_agg_main. cbv zeta.
  rewrite Hopen, Hus. cbn [result_bind].
  rewrite (read_held "anchor.ssz" MAX_ANCHOR_FILE_BYTES _ Ha).
  2:{ unfold ml_committee_to_bytes, wire_bytes. rewrite ml_committee_size by by apply wf_ml_committee_wire_of.
    cbn [mcw_members]. rewrite length_fmap. pose proof (wm_size _ Hc).
    unfold MAX_ANCHOR_FILE_BYTES, ML_COMMITTEE_FIXED_WIRE_BYTES, PUBLIC_KEY_BYTES, ML_MAX_COMMITTEE_SIZE,
      member_count in *. lia. }
  cbn [result_bind]. rewrite (ml_committee_from_to ml_committee_size) by done. cbn [map_err result_bind].
  rewrite (read_held "manifest.txt" 128 _ Hm) by apply ml_manifest_short. cbn [result_bind].
  rewrite from_utf8_ascii by apply ml_manifest_ascii. cbn [ok_or result_bind]. rewrite Hth, Nat2Z.id.
  rewrite bool_decide_eq_true_2 by done. cbn [negb].
  destruct (ml_verify_updates_ok u 0 None) as (sizes & ->); [done|]. cbn [result_bind].
  destruct negative_controls_ok as (b & -> & Hb). cbn [result_bind].
  destruct b; [left; by exists sizes|]. right. split; [done|]. by destruct Hb.
Qed.
End fixture_run.

(** C26 The ML-DSA benchmark shows what it says: from fresh distinct keys the fixture
    writer completes a new directory, and over any directory that holds it the
    relying party's run ends: every update is read within its bound, decodes,
    carries its version and exactly the threshold of signatures and verifies; and
    the five controls (a longer list, a later version, one signature short, an
    outsider, one flipped bit) are all rejected, unless a signature of the fixture
    is valid for something it was not made for or SHAKE256 collides on two
    statements. *)
Theorem ml_raw_agg_run `{RG : OsRng} `{DK : Disk} prog prog' outdir dir ns ts us n t u create_dir
    var entries keys outsider :
  (∀ k s m, ∃ sig, ml_sign s (os_random k) m = Some sig ∧ ml_verify (ml_public_key s) m sig = true) →
  (∀ name, write_error name = None) → create_dir outdir = None →
  parse_count ns "N" ML_MAX_COMMITTEE_SIZE = Ok n → parse_count ts "t" n = Ok t →
  parse_count us "updates" MAX_UPDATES = Ok u → list_entries_from_env var = Ok entries →
  fresh_keys n t u keys outsider →
  ∃ c F, ml_committee_new keys (Z.of_nat t) = Ok c ∧
    ml_fixture_main [prog; outdir; ns; ts; us] create_dir var = Ok F ∧
    ∀ open, bounded_holds (open dir) F →
      (∃ sizes, ml_raw_agg_main [prog'; dir; us] open = Ok sizes) ∨
      (ml_raw_agg_main [prog'; dir; us] open = Err CONTROL_ACCEPTED ∧ ml_fixture_undone c F).
Proof.
  intros Hsigns Hdisk Hdir Hn Ht Hu Hvar Hkeys.
  destruct (ml_fixture_main_ok ml_ssz_size Hsigns Hdisk prog outdir ns ts us n t u create_dir var entries keys outsider)
    as (c & F & Hnew & Hmain & HF); [done..|].
  exists c, F. split_and!; [done..|]. intros open Hopen.
  pose proof Hnew as (Hc & _ & Hth)%ml_committee_new_ok.
  apply (ml_raw_agg_main_ok c t u (open dir) F); try done. by eapply parse_count_range.
Qed.

(** ** What a run over any directory means *)

Lemma ml_verify_updates_sound c d count index sizes sizes' :
  wf_ml_committee c → ml_verify_updates (mkMlVerifier c) d count index sizes = Ok sizes' →
  ∀ v, (index ≤ v < index + count)%nat → ∃ b r, read_bounded d (ml_update_name v) MAX_RECORD_BYTES = Ok b ∧
    ml_from_bytes b = Ok r ∧ ml_version r = Z.of_nat v ∧ Z.of_nat (ml_signer_count r) = ml_threshold c ∧
    ml_quorum c (ml_status_list r) (Z.of_nat v) (ml_signatures r).
Proof.
  intros Hc. revert index sizes. induction count as [|count IH]; intros index sizes H v Hv; [lia|].
  cbn [ml_verify_updates] in H. destruct (read_bounded d (ml_update_name index) _) as [b|] eqn:Eb; [|done].
  cbn [result_bind] in H. destruct (ml_from_bytes b) as [r|] eqn:Er; [|done]. cbn [map_err result_bind] in H.
  cbv zeta in H. destruct (Z.eqb_spec (ml_version r) (Z.of_nat index)) as [Ev|]; [|done].
  destruct (Z.eqb_spec (Z.of_nat (ml_signer_count r)) (ml_threshold c)) as [Et|Et]; cbn [negb mlv_committee] in H;
    [|by rewrite (proj2 (Z.eqb_neq _ _) Et) in H].
  rewrite (proj2 (Z.eqb_eq _ _) Et) in H. cbn [negb] in H.
  destruct (ml_verify_status_list _ r) eqn:Eok; [|done]. cbn [negb] in H.
  destruct (decide (v = index)) as [->|]; [|apply (IH (S index) _ H); lia].
  exists b, r. rewrite <-Ev. split_and!; [done..|]. by apply ml_verified_quorum.
Qed.

(** A run over any directory that ends without a panic ends with an anchor that
    decodes, of the sizes the manifest declares, and with [updates] records, each
    carrying its version and exactly the threshold of signatures, which distinct
    members of that anchor made on its list and version. *)
Theorem ml_raw_run_sound args open sizes :
  ml_raw_agg_main args open = Ok sizes →
  ∃ prog dir us u anchor c, args = [prog; dir; us] ∧ parse_count us "updates" MAX_UPDATES = Ok u ∧
    read_bounded (open dir) "anchor.ssz" MAX_ANCHOR_FILE_BYTES = Ok anchor ∧
    ml_committee_from_bytes anchor = Ok c ∧ wf_ml_committee c ∧
    ∀ v, (v < u)%nat → ∃ b r, read_bounded (open dir) (ml_update_name v) MAX_RECORD_BYTES = Ok b ∧
      ml_from_bytes b = Ok r ∧ ml_version r = Z.of_nat v ∧ Z.of_nat (ml_signer_count r) = ml_threshold c ∧
      ml_quorum c (ml_status_list r) (Z.of_nat v) (ml_signatures r).
Proof.
  unfold ml_raw_agg_main. destruct args as [|prog [|dir [|us [|]]]]; try done. cbv zeta.
  destruct (parse_count us "updates" MAX_UPDATES) as [u|] eqn:Eu; [|done]. cbn [result_bind].
  destruct (read_bounded (open dir) "anchor.ssz" _) as [anchor|] eqn:Ea; [|done]. cbn [result_bind].
  destruct (ml_committee_from_bytes anchor) as [c|] eqn:Ec; [|done]. cbn [map_err result_bind].
  destruct (read_bounded (open dir) "manifest.txt" _) as [manifest|]; [|done]. cbn [result_bind].
  destruct (from_utf8 manifest) as [text|]; [|done]. cbn [ok_or result_bind].
  case_bool_decide; [|done]. cbn [negb].
  destruct (ml_verify_updates _ _ u 0 None) as [s|] eqn:Ev; [|done]. intros _.
  pose proof (ml_committee_from_bytes_ok _ _ Ec) as [Hc _].
  exists prog, dir, us, u, anchor, c. split_and!; [done..|]. intros v Hv.
  eapply ml_verify_updates_sound; [done|exact Ev|lia].
Qed.
End laws.
End ml_raw_agg.
