(* ===== verification/MlSignerMain.v ===== *)
(** * The ML-DSA signing benchmark (mldsa/src/bin/mldsa_signer.rs)

    One member signs a sequence of statements of a committee of its own and checks
    each signature.  Measurement and printing are left out; a panic is an error. *)
From S2P Require Import Prelude External Seats MlStatusLists MlCommittees Workload Artifacts MlFixture.

Open Scope Z_scope.

Section ml_signer_main.
Context `{HH : Hashes} `{ML : MlDsa} `{SMC : !Ssz MlCommitteeWire} `{SST : !SszEncode StatementWire}.
Context `{RG : OsRng}.

(** [count] rounds from [index] on; [entry] numbers the entries, [k] the draws. *)
Fixpoint ml_signer_rounds (c : MlCommittee) (signer : MlDsa65Signer) (fixed : option nat)
    (count index entry k : nat) (list : list bytes) (sizes : ListSizes) : result ListSizes string :=
  match count with
  | O => Ok sizes
  | S count =>
      let? (list, entry) := ml_advance_list list index fixed entry in
      let sizes := record_size sizes (length list) in
      let message := statement_for c list (Z.of_nat index) in
      let? signature := ok_or (ml_sign signer (os_random k) message) "ML-DSA signing failed"%string in
      let? member := ok_or (ml_members c !! 0%nat) "index out of bounds"%string in
      if ml_verify member message signature
      then ml_signer_rounds c signer fixed count (S index) entry (S k) list sizes
      else Err "self-verification failed"%string
  end.

(** [main], of the command line and the value of BENCH_LIST_ENTRIES; the answer is
    the list sizes it reports. *)
Definition ml_signer_main (args : list string) (var : option string) : result ListSizes string :=
  if (2 <? length args)%nat then Err "usage: mldsa_signer [updates]"%string
  else
    let? updates := match args !! 1%nat with
                    | Some value => parse_count value "updates" MAX_UPDATES
                    | None => Ok 20%nat
                    end in
    let? (signer, k) := generate_signer "ML-DSA key generation failed" 0 in
    let? c := map_err (λ e, "single-member anchor: " +:+ e)%string
                (ml_committee_new [ml_public_key signer] 1) in
    let? entries := list_entries_from_env var in
    ml_signer_rounds c signer (Z.to_nat <$> entries) updates 0 0 k [] None.

(** ** The run *)

Section laws.
Context (signs : ∀ k s m, ∃ sig,
  ml_sign s (os_random k) m = Some sig ∧ ml_verify (ml_public_key s) m sig = true).

(** The sizes after [index] rounds of the declared workload. *)
Definition declared (fixed : option nat) (index : nat) : ListSizes :=
  match index with
  | O => None
  | S _ => Some match fixed with Some len => (len, len) | None => (1%nat, index) end
  end.

Lemma declared_next fixed index :
  record_size (declared fixed index) (default (S index) fixed) = declared fixed (S index).
Proof.
  unfold declared, record_size. destruct fixed, index; cbn [default from_option]; unfold id; repeat f_equal; lia.
Qed.

Lemma ml_signer_rounds_ok c signer fixed count index entry k list :
  ml_members c = [ml_public_key signer] → fixed ≠ Some 0%nat →
  (fixed = None → length list = index) → wf_entries32 list →
  ml_signer_rounds c signer fixed count index entry k list (declared fixed index) =
    Ok (declared fixed (index + count)).
Proof.
  intros Hc Hz. revert index entry k list. induction count as [|count IH]; intros index entry k list Hlen Hl.
  { by rewrite Nat.add_0_r. }
  cbn [ml_signer_rounds]. unfold ml_advance_list.
  destruct (advance_list_wf (λ j, ml_fingerprint (Z.of_nat j)) list (Z.of_nat index) fixed entry)
    as (list1 & entry1 & -> & Hl1 & Hlen1); [intros j; apply sha3_256_length|done|done|].
  cbn [result_bind]. cbv zeta. set (m := statement_for c list1 (Z.of_nat index)).
  destruct (signs k signer m) as (sig & -> & Hv). cbn [ok_or result_bind]. rewrite Hc. cbn [ok_or result_bind lookup list_lookup].
  rewrite Hv. replace (length list1) with (default (S index) fixed).
  2:{ destruct fixed; simpl; [done|]. by rewrite Hlen1, Hlen. }
  rewrite declared_next, Nat.add_succ_r. apply (IH (S index)); [|done].
  intros ->. by rewrite Hlen1, Hlen.
Qed.
End laws.

(** The ML-DSA signing benchmark measures the declared workload: when the
    generator answers and signatures verify under their key, every round of any
    requested length runs (no panic is reached), and the list sizes it reports are
    those of the workload: the fixed length throughout, or 1 to the number of
    rounds. *)
Theorem ml_signer_run args var entries u :
  (∀ k s m, ∃ sig, ml_sign s (os_random k) m = Some sig ∧ ml_verify (ml_public_key s) m sig = true) →
  is_Some (ml_generate (os_random 0)) → (length args ≤ 2)%nat →
  match args !! 1%nat with Some value => parse_count value "updates" MAX_UPDATES | None => Ok 20%nat end = Ok u →
  list_entries_from_env var = Ok entries →
  ml_signer_main args var =
    Ok (Some match entries with Some len => (Z.to_nat len, Z.to_nat len) | None => (1%nat, u) end).
Proof.
  intros Hsigns [signer Hgen] Hargs Hu Hvar. unfold ml_signer_main.
  rewrite (proj2 (Nat.ltb_ge _ _)) by done. rewrite Hu. cbn [result_bind].
  unfold generate_signer. rewrite Hgen. cbn [ok_or result_bind].
  set (c := mkMlCommittee [ml_public_key signer] 1
    (anchor_id_from_canonical_bytes (wire_bytes [ml_public_key signer] 1))).
  assert (Hc : wf_ml_committee c).
  { split; unfold member_count; simpl; [lia|unfold ML_MAX_COMMITTEE_SIZE; lia|apply NoDup_singleton|done]. }
  rewrite (proj2 (ml_committee_new_ok [ml_public_key signer] 1 c)) by done. cbn [map_err result_bind].
  rewrite Hvar. cbn [result_bind].
  change None with (declared (Z.to_nat <$> entries) 0).
  rewrite ml_signer_rounds_ok; [|done|done|by apply (list_entries_positive var)|done|constructor].
  assert (1 ≤ u)%nat.
  { destruct (args !! 1%nat); [|injection Hu as <-; lia]. pose proof (parse_count_range _ _ _ _ Hu). lia. }
  destruct u; [lia|]. by destruct entries.
Qed.
End ml_signer_main.
