(* ===== verification/MlExperiment.v ===== *)
(** * The statement experiment (mldsa/src/bin/mldsa_statement_experiment.rs)

    One committee in which everybody signs, one list per requested size, and two
    ways to sign it: the statement itself and its digest.  The order in which the
    variants and the lists are visited rotates.  Clocks, the timed building blocks
    and printing are left out; a panic is an error. *)
From S2P Require Import Prelude External Seats MlStatusLists MlCommittees Workload Artifacts MlFixture.

Open Scope Z_scope.

Definition MAX_T : nat := 2048.
Definition MAX_REPETITIONS : nat := 1000.
Definition MAX_WARMUP_MS : nat := Z.to_nat 60000.
Definition MIN_SIGN_SAMPLES : nat := 64.

Section experiment.
Context `{HH : Hashes} `{ML : MlDsa} `{SMC : !Ssz MlCommitteeWire} `{SST : !SszEncode StatementWire}.
Context `{RG : OsRng}.

(** One list size; the timings are left out. *)
Record Case := mkCase {
  case_list : list bytes;
  statement_signatures : list MlSignature;
  digest_signatures : list MlSignature;
}.

Definition quorum_verifies (members : list MlPublicKey) (message : bytes) (signatures : list MlSignature) : bool :=
  forallb (λ '(member, signature), ml_verify member message signature) (zip members signatures).

(** The message of a variant: the statement, or its digest. *)
Definition variant_message (c : MlCommittee) (digest : bool) (list : list bytes) : bytes :=
  if digest then statement_for c list 0 else committee_statement_preimage c list 0.

Definition add_signature (digest : bool) (sig : MlSignature) (x : Case) : Case :=
  if digest then mkCase (case_list x) (statement_signatures x) (digest_signatures x ++ [sig])
  else mkCase (case_list x) (statement_signatures x ++ [sig]) (digest_signatures x).

(** One pass: one signature of one variant, kept among the first [t]. *)
Definition sign_pass (c : MlCommittee) (signer : MlDsa65Signer) (keep digest : bool) (x : Case) (k : nat) :
    result (Case * nat) string :=
  let message := variant_message c digest (case_list x) in
  let? signature := ok_or (ml_sign signer (os_random k) message) "ML-DSA signing failed"%string in
  Ok (if keep then add_signature digest signature x else x, S k).

(** Both passes over a case: the statement goes first when the sum of the index and
    the offset is even. *)
Definition sign_case (c : MlCommittee) (signer : MlDsa65Signer) (keep statement_first : bool) (x : Case) (k : nat) :
    result (Case * nat) string :=
  let? (x, k) := sign_pass c signer keep (negb statement_first) x k in
  sign_pass c signer keep statement_first x k.

(** The offsets from [offset] on of one index. *)
Fixpoint sign_offsets (c : MlCommittee) (signer : MlDsa65Signer) (keep : bool) (index count offset : nat)
    (cases : list Case) (k : nat) : result (list Case * nat) string :=
  match count with
  | O => Ok (cases, k)
  | S count =>
      let position := ((index + offset) mod length cases)%nat in
      let? x := ok_or (cases !! position) "index out of bounds"%string in
      let? (x, k) := sign_case c signer keep (Nat.even (index + offset)) x k in
      sign_offsets c signer keep index count (S offset) (<[position := x]> cases) k
  end.

(** [count] indices from [index] on. *)
Fixpoint sign_samples (c : MlCommittee) (signers : list MlDsa65Signer) (t count index : nat)
    (cases : list Case) (k : nat) : result (list Case * nat) string :=
  match count with
  | O => Ok (cases, k)
  | S count =>
      let? signer := ok_or (signers !! (index mod t)%nat) "index out of bounds"%string in
      let? (cases, k) := sign_offsets c signer (index <? t)%nat index (length cases) 0 cases k in
      sign_samples c signers t count (S index) cases k
  end.

(** The assertion of one variant. *)
Definition check_variant (c : MlCommittee) (members : list MlPublicKey) (digest : bool) (x : Case) :
    result unit string :=
  let signatures := if digest then digest_signatures x else statement_signatures x in
  if quorum_verifies members (variant_message c digest (case_list x)) signatures then Ok tt
  else Err (if digest then "digest-variant quorum failed to verify"
            else "statement-variant quorum failed to verify")%string.

Fixpoint verify_offsets (c : MlCommittee) (members : list MlPublicKey) (cases : list Case)
    (repetition count offset : nat) : result unit string :=
  match count with
  | O => Ok tt
  | S count =>
      let? x := ok_or (cases !! ((repetition + offset) mod length cases)%nat) "index out of bounds"%string in
      let statement_first := Nat.even (repetition + offset) in
      let? _ := check_variant c members (negb statement_first) x in
      let? _ := check_variant c members statement_first x in
      verify_offsets c members cases repetition count (S offset)
  end.

Fixpoint verify_repetitions (c : MlCommittee) (members : list MlPublicKey) (cases : list Case)
    (count repetition : nat) : result unit string :=
  match count with
  | O => Ok tt
  | S count =>
      let? _ := verify_offsets c members cases repetition (length cases) 0 in
      verify_repetitions c members cases count (S repetition)
  end.

(** The controls of one case, and the size of its statement. *)
Definition case_controls (c : MlCommittee) (member outsider : MlPublicKey) (entries : nat) (x : Case) :
    result nat string :=
  let preimage := variant_message c false (case_list x) in
  let digest := variant_message c true (case_list x) in
  if negb (length digest =? 64)%nat then Err "assertion `left == right` failed"%string
  else
    let? by_statement := ok_or (statement_signatures x !! 0%nat) "index out of bounds"%string in
    let? by_digest := ok_or (digest_signatures x !! 0%nat) "index out of bounds"%string in
    if negb (ml_verify member digest by_statement) && negb (ml_verify member preimage by_digest) &&
       negb (ml_verify outsider preimage by_statement) && negb (ml_verify outsider digest by_digest)
    then Ok (length preimage)
    else Err ("a negative control verified for L=" +:+ pretty entries)%string.

Fixpoint all_controls (c : MlCommittee) (member outsider : MlPublicKey) (cases : list (Case * nat)) :
    result (list nat) string :=
  match cases with
  | [] => Ok []
  | (x, entries) :: cases =>
      let? size := case_controls c member outsider entries x in
      let? sizes := all_controls c member outsider cases in
      Ok (size :: sizes)
  end.

(** The warm-up verifies as often as the clock lets it. *)
Definition warm_up (rounds : nat) (member : MlPublicKey) (message : bytes) (signature : MlSignature) :
    result unit string :=
  if (0 <? rounds)%nat && negb (ml_verify member message signature)
  then Err "assertion failed: verify(&members[0], &warm_message, &warm_signature)"%string
  else Ok tt.

(** The arguments: t, repetitions, warm-up time, list sizes. *)
Definition experiment_args (args : list string) : result (nat * nat * nat * list nat) string :=
  match args with
  | _ :: t :: repetitions :: warmup :: (_ :: _) as sizes =>
      let? t := parse_count t "t" MAX_T in
      let? repetitions := parse_count repetitions "repetitions" MAX_REPETITIONS in
      let? warmup := if bool_decide (warmup = "0"%string) then Ok 0%nat
                     else parse_count warmup "warm-up-ms" MAX_WARMUP_MS in
      let? sizes := collect_results (λ value, parse_count value "L" (Z.to_nat MAX_LIST_ENTRIES)) sizes in
      Ok (t, repetitions, warmup, sizes)
  | _ => Err "usage: mldsa_statement_experiment <t> <repetitions> <warm-up-ms> <L>..."%string
  end.

Definition new_case (entries : nat) : Case :=
  mkCase ((λ i, ml_fingerprint (Z.of_nat i)) <$> seq 0 entries) [] [].

(** [main], of the command line and of how often the warm-up gets to verify in a
    time; the answer is the statement sizes it reports. *)
Definition experiment_main (args : list string) (rounds_in : nat → nat) : result (list nat) string :=
  let? (t, repetitions, warmup, list_sizes) := experiment_args args in
  let? (signers, k) := generate_signers t 0 in
  let members := ml_public_key <$> signers in
  let? c := map_err (λ e, "invalid committee: " +:+ e)%string (ml_committee_new members (Z.of_nat t)) in
  let cases := new_case <$> list_sizes in
  let? first := ok_or (cases !! 0%nat) "index out of bounds"%string in
  let? signer := ok_or (signers !! 0%nat) "index out of bounds"%string in
  let? member := ok_or (members !! 0%nat) "index out of bounds"%string in
  let warm_message := variant_message c true (case_list first) in
  let? warm_signature := ok_or (ml_sign signer (os_random k) warm_message) "ML-DSA signing failed"%string in
  let? _ := warm_up (rounds_in warmup) member warm_message warm_signature in
  let? (cases, k) := sign_samples c signers t (max t MIN_SIGN_SAMPLES) 0 cases (S k) in
  let? _ := verify_repetitions c members cases repetitions 0 in
  let? (outsider, _) := generate_signer "outsider key generation failed" k in
  all_controls c member (ml_public_key outsider) (zip cases list_sizes).

(** ** The run *)

Section laws.
Context (signs : ∀ k s m, ∃ sig,
  ml_sign s (os_random k) m = Some sig ∧ ml_verify (ml_public_key s) m sig = true).

Section cases.
Context (c : MlCommittee) (signers : list MlDsa65Signer).
Let members : list MlPublicKey := ml_public_key <$> signers.

Definition case_signatures (digest : bool) (x : Case) : list MlSignature :=
  if digest then digest_signatures x else statement_signatures x.

(** In both variants the first [n] members have signed, in order. *)
Definition signed_by (n : nat) (x : Case) : Prop :=
  ∀ digest, Forall2 (λ pk sig, ml_verify pk (variant_message c digest (case_list x)) sig = true)
    (take n members) (case_signatures digest x).

Lemma signed_by_verifies digest x :
  signed_by (length signers) x → check_variant c members digest x = Ok tt.
Proof.
  intros Hx. specialize (Hx digest). unfold check_variant, quorum_verifies. fold (case_signatures digest x).
  replace (length signers) with (length members) in Hx by apply length_fmap.
  rewrite firstn_all in Hx. generalize dependent (case_signatures digest x). intros sigs Hx.
  assert (forallb (λ '(member, signature),
    ml_verify member (variant_message c digest (case_list x)) signature) (zip members sigs) = true) as ->; [|done].
  induction Hx as [|pk sig pks sigs Hv _ IH]; [done|]. cbn [zip zip_with forallb]. by rewrite Hv.
Qed.

(** One sample of one case. *)
Lemma sign_case_ok signer index first x k :
  signers !! (index mod length signers)%nat = Some signer → signed_by index x →
  ∃ x', sign_case c signer (index <? length signers)%nat first x k = Ok (x', (k + 2)%nat) ∧
    case_list x' = case_list x ∧ signed_by (S index) x'.
Proof.
  intros Hs Hx. set (t := length signers) in *.
  assert (Hpass : ∀ d x k, ∃ sig, ml_verify (ml_public_key signer) (variant_message c d (case_list x)) sig = true ∧
    sign_pass c signer (index <? t)%nat d x k = Ok (if (index <? t)%nat then add_signature d sig x else x, S k)).
  { intros d y j. destruct (signs j signer (variant_message c d (case_list y))) as (sig & E & Hv).
    exists sig. split; [done|]. unfold sign_pass. by rewrite E. }
  unfold sign_case. destruct (Hpass (negb first) x k) as (s1 & Hv1 & ->). cbn [result_bind].
  destruct (Hpass first (if (index <? t)%nat then add_signature (negb first) s1 x else x) (S k)) as (s2 & Hv2 & ->).
  eexists. split; [do 2 f_equal; lia|]. destruct (Nat.ltb_spec index t) as [Hlt|Hge].
  - rewrite Nat.mod_small in Hs by done.
    assert (Htake : take (S index) members = take index members ++ [ml_public_key signer])
      by (apply take_S_r; unfold members; by rewrite list_lookup_fmap, Hs).
    assert (El : ∀ d s y, case_list (add_signature d s y) = case_list y) by (by intros []).
    rewrite El in Hv2. split; [by rewrite !El|]. intros d. rewrite Htake, !El. specialize (Hx d).
    destruct first, d; cbn [negb] in *; (apply Forall2_app; [exact Hx|by repeat constructor]).
  - split; [done|]. intros d. specialize (Hx d).
    assert (E : ∀ n, (t ≤ n)%nat → take n members = members)
      by (intros n Hn; apply take_ge; unfold members; by rewrite length_fmap).
    by rewrite E in * by lia.
Qed.

(** The offsets visit every case once. *)
Lemma sign_offsets_ok signer index count offset cases k :
  let ps := (λ j, (index + j) mod length cases)%nat <$> seq offset count in
  signers !! (index mod length signers)%nat = Some signer → NoDup ps →
  (∀ p, p ∈ ps → ∃ x, cases !! p = Some x ∧ signed_by index x) →
  ∃ cases', sign_offsets c signer (index <? length signers)%nat index count offset cases k =
      Ok (cases', (k + 2 * count)%nat) ∧ case_list <$> cases' = case_list <$> cases ∧
    (∀ p x, p ∈ ps → cases' !! p = Some x → signed_by (S index) x) ∧
    (∀ p, p ∉ ps → cases' !! p = cases !! p).
Proof.
  intros ps Hs. subst ps. revert offset cases k. induction count as [|count IH]; intros offset cases k Hnd Hall.
  { exists cases. rewrite Nat.add_0_r. split_and!; [done|done| |done]. by intros p x ?%not_elem_of_nil. }
  cbn [seq fmap list_fmap] in Hnd, Hall. apply NoDup_cons in Hnd as [Hni Hnd].
  set (p := ((index + offset) mod length cases)%nat) in *.
  destruct (Hall p) as (x & Ex & Hx); [apply list_elem_of_here|].
  destruct (sign_case_ok signer index (Nat.even (index + offset)) x k Hs Hx) as (x' & E' & El & Hx').
  cbn [sign_offsets]. fold p. rewrite Ex. cbn [ok_or result_bind]. rewrite E'. cbn [result_bind].
  assert (Hl : length (<[p := x']> cases) = length cases) by apply length_insert.
  destruct (IH (S offset) (<[p := x']> cases) (k + 2)%nat) as (cases' & -> & Ef & Hdone & Hrest).
  { by rewrite Hl. }
  { rewrite Hl. intros q Hq. destruct (Hall q) as (y & Ey & Hy); [by apply list_elem_of_further|].
    exists y. by rewrite list_lookup_insert_ne by (intros <-; done). }
  rewrite Hl in Hdone, Hrest. assert (Efm : case_list <$> <[p := x']> cases = case_list <$> cases).
  { rewrite list_fmap_insert, El. apply list_insert_id. by rewrite list_lookup_fmap, Ex. }
  exists cases'. split_and!; [do 2 f_equal; lia|by rewrite Ef| |].
  - intros q y [->|Hq]%elem_of_cons Ey; [|by eapply Hdone].
    rewrite Hrest, list_lookup_insert_eq in Ey by (done || by eapply lookup_lt_Some). by injection Ey as <-.
  - intros q [Hq Hq']%not_elem_of_cons. rewrite Hrest by done. by apply list_lookup_insert_ne.
Qed.

(** One sample of every case. *)
Lemma sign_sample_ok signer index cases k :
  signers !! (index mod length signers)%nat = Some signer → Forall (signed_by index) cases →
  ∃ cases', sign_offsets c signer (index <? length signers)%nat index (length cases) 0 cases k =
      Ok (cases', (k + 2 * length cases)%nat) ∧ case_list <$> cases' = case_list <$> cases ∧
    Forall (signed_by (S index)) cases'.
Proof.
  intros Hs Hall. destruct (decide (length cases = 0)%nat) as [->%nil_length_inv|Hne].
  { exists []. by rewrite Nat.add_0_r. }
  destruct (sign_offsets_ok signer index (length cases) 0 cases k Hs) as (cases' & -> & Ef & Hdone & _).
  { apply rotation_NoDup; lia. }
  { intros p (j & -> & _)%list_elem_of_fmap.
    destruct (lookup_lt_is_Some_2 cases ((index + j) mod length cases)%nat) as [x Hx];
      [by apply Nat.mod_upper_bound|].
    exists x. split; [done|]. by eapply Forall_lookup_1. }
  exists cases'. split_and!; [done..|]. apply Forall_lookup. intros p x Hp. eapply Hdone, Hp.
  apply rotation_hits. apply (f_equal length) in Ef. rewrite !length_fmap in Ef.
  rewrite <-Ef. by eapply lookup_lt_Some.
Qed.

Lemma sign_samples_ok count index cases k :
  signers ≠ [] → Forall (signed_by index) cases →
  ∃ cases', sign_samples c signers (length signers) count index cases k =
      Ok (cases', (k + 2 * length cases * count)%nat) ∧ case_list <$> cases' = case_list <$> cases ∧
    Forall (signed_by (index + count)) cases'.
Proof.
  intros Hne. revert index cases k. induction count as [|count IH]; intros index cases k Hall.
  { exists cases. by rewrite Nat.mul_0_r, !Nat.add_0_r. }
  cbn [sign_samples]. destruct (lookup_lt_is_Some_2 signers (index mod length signers)%nat) as [s Hs].
  { apply Nat.mod_upper_bound. by intros ?%nil_length_inv. }
  rewrite Hs. cbn [ok_or result_bind].
  destruct (sign_sample_ok s index cases k Hs Hall) as (cases1 & -> & E1 & H1). cbn [result_bind].
  pose proof (f_equal length E1) as Hl. rewrite !length_fmap in Hl.
  destruct (IH (S index) cases1 (k + 2 * length cases)%nat H1) as (cases' & -> & E & H).
  exists cases'. rewrite Hl. split_and!; [do 2 f_equal; lia|congruence|by rewrite Nat.add_succ_r].
Qed.

Lemma signed_by_all n x : (length signers ≤ n)%nat → signed_by n x → signed_by (length signers) x.
Proof.
  intros Hn Hx d. specialize (Hx d). assert (Hl : length members = length signers) by apply length_fmap.
  rewrite take_ge in Hx by lia. by rewrite take_ge by lia.
Qed.

Lemma verify_repetitions_ok cases count repetition :
  Forall (signed_by (length signers)) cases →
  verify_repetitions c members cases count repetition = Ok tt.
Proof.
  intros Hall. revert repetition. induction count as [|count IH]; intros repetition; [done|].
  cbn [verify_repetitions].
  assert (∀ n offset, (n = 0 ∨ 0 < length cases)%nat → verify_offsets c members cases repetition n offset = Ok tt)
    as ->; [|apply IH|lia].
  intros n. induction n as [|n IHn]; intros offset Hn; [done|]. cbn [verify_offsets].
  destruct (lookup_lt_is_Some_2 cases ((repetition + offset) mod length cases)%nat) as [x Hx];
    [apply Nat.mod_upper_bound; lia|].
  rewrite Hx. cbn [ok_or result_bind]. rewrite !signed_by_verifies by by eapply Forall_lookup_1.
  cbn [result_bind]. apply IHn. lia.
Qed.
End cases.

(** ** The controls *)

(** A signature of the member made for one of the two messages of a list that
    verifies for the other, or under the outsider's key. *)
Definition crossed (c : MlCommittee) (member outsider : MlPublicKey) (list : Datatypes.list bytes) : Prop :=
  variant_message c true list ≠ variant_message c false list ∧
  ∃ digest sig, ml_verify member (variant_message c digest list) sig = true ∧
    (ml_verify member (variant_message c (negb digest) list) sig = true ∨
     ml_verify outsider (variant_message c digest list) sig = true).

Definition CONTROL_VERIFIED (entries : nat) : string := "a negative control verified for L=" +:+ pretty entries.

(** The length of the statement of a list. *)
Definition statement_bytes (entries : nat) : nat := (length STATEMENT_DOMAIN + 57 + 32 * entries)%nat.

Context (statement_layout : ∀ w : StatementWire,
  0 ≤ st_alg w < 256 → length (st_anchor_id w) = ANCHOR_ID_BYTES → is_u32 (st_version w) →
  wf_entries32 (st_status_list w) →
  ssz_encode w = [byte_of_Z (st_alg w)] ++ st_anchor_id w ++ u32_le (st_version w) ++
                 u32_le 57 ++ mjoin (st_status_list w)).

Lemma length_statement c list :
  wf_ml_committee c → wf_entries32 list →
  length (committee_statement_preimage c list 0) = statement_bytes (length list).
Proof.
  intros Hc Hl. unfold committee_statement_preimage, statement_preimage.
  assert (Ha : length (ml_anchor_id c) = ANCHOR_ID_BYTES) by (rewrite (wm_anchor_id _ Hc); apply sha3_384_length).
  rewrite statement_layout by done. cbn [st_anchor_id st_version st_status_list].
  rewrite !length_app, (length_mjoin 32), Ha by done. unfold u32_le. rewrite !length_le_bytes.
  unfold statement_bytes, ANCHOR_ID_BYTES. simpl. lia.
Qed.

Section controls.
Context (c : MlCommittee) (signers : list MlDsa65Signer) (member outsider : MlPublicKey).
Context (Hc : wf_ml_committee c) (Hmember : (ml_public_key <$> signers) !! 0%nat = Some member).

(** The list of a case is that of its size, and everybody signed it. *)
Definition ready (x : Case) (entries : nat) : Prop :=
  case_list x = case_list (new_case entries) ∧ signed_by c signers (length signers) x.

Lemma first_signature digest x entries :
  ready x entries → ∃ sig, case_signatures digest x !! 0%nat = Some sig ∧
    ml_verify member (variant_message c digest (case_list x)) sig = true.
Proof.
  intros [_ Hx]. specialize (Hx digest). rewrite take_ge in Hx by by rewrite length_fmap.
  by eapply Forall2_lookup_l in Hx as (sig & ? & ?); [exists sig|exact Hmember].
Qed.

Lemma case_controls_ok x entries :
  ready x entries →
  case_controls c member outsider entries x = Ok (statement_bytes entries) ∨
  (case_controls c member outsider entries x = Err (CONTROL_VERIFIED entries) ∧
   crossed c member outsider (case_list (new_case entries))).
Proof.
  intros Hx. destruct (first_signature false x entries Hx) as (s & Es & Hs).
  destruct (first_signature true x entries Hx) as (d & Ed & Hd). destruct Hx as [El _].
  assert (Hlen : length (variant_message c false (case_list x)) = statement_bytes entries).
  { unfold variant_message. rewrite length_statement, El; [|done|].
    - cbn [new_case case_list]. by rewrite length_fmap, length_seq.
    - rewrite El. apply Forall_fmap, Forall_forall. intros i _. apply sha3_256_length. }
  assert (Hdig : length (variant_message c true (case_list x)) = 64%nat) by apply shake256_64_length.
  unfold case_controls. cbv zeta. rewrite Hdig. cbn [Nat.eqb negb]. cbn [case_signatures] in Es, Ed.
  rewrite Es. cbn [ok_or result_bind]. rewrite Ed. cbn [ok_or result_bind]. rewrite Hlen, <-El.
  assert (Hne : variant_message c true (case_list x) ≠ variant_message c false (case_list x)).
  { intros E. rewrite E, Hlen in Hdig. unfold statement_bytes in Hdig.
    assert (length STATEMENT_DOMAIN = 53)%nat as HD by (by vm_compute). lia. }
  set (M := variant_message c false (case_list x)) in *. set (D := variant_message c true (case_list x)) in *.
  destruct (_ && _) eqn:E; [by left|]. right. split; [done|]. split; [done|].
  apply andb_false_iff in E as [[[E|E]%andb_false_iff|E]%andb_false_iff|E]; apply negb_false_iff in E.
  - exists false, s. auto.
  - exists true, d. auto.
  - exists false, s. auto.
  - exists true, d. auto.
Qed.

Lemma all_controls_ok cases sizes :
  Forall2 ready cases sizes →
  all_controls c member outsider (zip cases sizes) = Ok (statement_bytes <$> sizes) ∨
  ∃ entries, entries ∈ sizes ∧
    all_controls c member outsider (zip cases sizes) = Err (CONTROL_VERIFIED entries) ∧
    crossed c member outsider (case_list (new_case entries)).
Proof.
  induction 1 as [|x entries cases sizes Hx _ IH]; [by left|]. cbn [zip zip_with all_controls].
  destruct (case_controls_ok x entries Hx) as [->|[-> Hcr]]; cbn [result_bind].
  - destruct IH as [->|(L & HL & -> & Hcr)]; [by left|]. right. exists L.
    split_and!; [by apply list_elem_of_further|done..].
  - right. exists entries. split_and!; [apply list_elem_of_here|done..].
Qed.
End controls.

Lemma ready_cases c signers sizes cases :
  case_list <$> cases = case_list <$> (new_case <$> sizes) →
  Forall (signed_by c signers (length signers)) cases → Forall2 (ready c signers) cases sizes.
Proof.
  intros El Hall. revert sizes El. induction Hall as [|x cases Hx _ IH]; intros [|L sizes] El; try done.
  injection El as El1 El. constructor; [by split|by apply IH].
Qed.

Lemma unsigned c signers sizes : Forall (signed_by c signers 0) (new_case <$> sizes).
Proof. apply Forall_fmap, Forall_forall. intros L _ []; constructor. Qed.

(** The arguments are within their limits, and name at least one size. *)
Lemma experiment_args_range args t repetitions warmup sizes :
  experiment_args args = Ok (t, repetitions, warmup, sizes) → (1 ≤ t ≤ MAX_T)%nat ∧ sizes ≠ [].
Proof.
  unfold experiment_args. destruct args as [|prog [|ts [|rs [|ws [|L rest]]]]]; try done.
  destruct (parse_count ts "t" MAX_T) as [t'|] eqn:Et; [|done]. cbn [result_bind].
  destruct (parse_count rs _ _) as [r|]; [|done]. cbn [result_bind].
  destruct (if bool_decide _ then _ else _) as [w|]; [|done]. cbn [result_bind].
  destruct (collect_results _ (L :: rest)) as [ls|] eqn:Es; [|done]. intros [= -> -> -> ->].
  split; [by eapply parse_count_range|]. apply collect_results_Ok in Es. by inversion Es.
Qed.

(** C27 The experiment shows what it says: from fresh distinct keys every list size
    gets, in both variants, one signature of every member although the order in which
    lists and variants are visited rotates; every quorum of every repetition verifies;
    and the run reports the exact length of each statement, unless, for one of the
    sizes, a signature made for the statement verifies for its digest, which is
    another message, or the other way round, or verifies under the outsider's key. *)
Theorem ml_experiment_run args t repetitions warmup sizes keys member outsider rounds_in :
  experiment_args args = Ok (t, repetitions, warmup, sizes) →
  fresh_keys t 1 (1 + 2 * length sizes * max t MIN_SIGN_SAMPLES) keys outsider →
  keys !! 0%nat = Some member →
  ∃ c, ml_committee_new keys (Z.of_nat t) = Ok c ∧
    (experiment_main args rounds_in = Ok (statement_bytes <$> sizes) ∨
     ∃ entries, entries ∈ sizes ∧ experiment_main args rounds_in = Err (CONTROL_VERIFIED entries) ∧
       crossed c member outsider (case_list (new_case entries))).
Proof.
  intros Hargs Hkeys Hmember. destruct (experiment_args_range _ _ _ _ _ Hargs) as [Ht Hsizes].
  destruct (fresh_keys_split _ _ _ _ _ Hkeys) as (Hgen & Hout & Hnd & _ & Hlen).
  set (c := mkMlCommittee keys (Z.of_nat t)
    (anchor_id_from_canonical_bytes (wire_bytes keys (Z.of_nat t)))).
  assert (Hc : wf_ml_committee c)
    by (unfold MAX_T in Ht; split; unfold member_count; simpl; rewrite ?Hlen; [lia|unfold ML_MAX_COMMITTEE_SIZE; lia|done|done]).
  assert (Hnew : ml_committee_new keys (Z.of_nat t) = Ok c) by by apply (ml_committee_new_ok keys (Z.of_nat t) c).
  exists c. split; [done|]. unfold experiment_main. rewrite Hargs. cbn [result_bind].
  destruct (generate_signers_ok t 0 keys Hgen) as (signers & -> & Hpk). cbn [result_bind]. cbv zeta.
  rewrite Hpk, Hnew. cbn [map_err result_bind].
  assert (Hs : length signers = t) by by rewrite <-Hlen, <-Hpk, length_fmap.
  destruct sizes as [|L sizes]; [done|]. change ((new_case <$> L :: sizes) !! 0%nat) with (Some (new_case L)).
  destruct signers as [|signer signers']; [simpl in Hs; lia|]. cbn [lookup list_lookup ok_or result_bind].
  rewrite Hmember. cbn [ok_or result_bind]. set (signers := signer :: signers') in *.
  destruct (signs (0 + t) signer (variant_message c true (case_list (new_case L)))) as (warm & -> & Hwarm).
  cbn [ok_or result_bind].
  replace (warm_up (rounds_in warmup) member _ warm) with (@Ok unit string tt);
    [cbn [result_bind]|rewrite <-Hpk in Hmember; injection Hmember as <-; unfold warm_up;
      by rewrite Hwarm, andb_false_r].
  destruct (sign_samples_ok c signers (max t MIN_SIGN_SAMPLES) 0 (new_case <$> L :: sizes) (S (0 + t)))
    as (cases & E & El & Hall); [done|apply unsigned|].
  rewrite Hs in E. rewrite E. cbn [result_bind].
  assert (Hsigned : Forall (signed_by c signers (length signers)) cases).
  { eapply Forall_impl; [exact Hall|]. intros x. apply signed_by_all. lia. }
  rewrite <-Hpk, verify_repetitions_ok by done. cbn [result_bind]. rewrite length_fmap.
  destruct (generate_signer_ok "outsider key generation failed"
    (S (0 + t) + 2 * length (L :: sizes) * max t MIN_SIGN_SAMPLES) outsider) as (o & -> & <-).
  { rewrite <-Hout. f_equal. lia. }
  cbn [result_bind]. apply (all_controls_ok c signers); [done|by rewrite Hpk|by apply ready_cases].
Qed.
End laws.
End experiment.
