(* ===== verification/VerifierMain.v ===== *)
(** * The verifier binary (src/bin/verifier.rs)

    Judges a directory of artifacts under one anchor: every update must be
    accepted, the six required forgeries must be there and every forgery must be
    rejected; then it offers the canonical record to the durable mark and replays
    the first update against it.  Measurement and printing are left out; a panic
    is a failure of the run; [failures] is the count the exit code reports. *)
From S2P Require Import Prelude Fs External Instances Atomic Freshness FreshnessSystem FreshnessRuns.
From S2P Require Import Seats StatusLists Committees Verifiers Params Artifacts.

Open Scope Z_scope.

(** [ExitCode]: success, [FAILURE] and the usage error's 2. *)
Inductive exit_code := ExitSuccess | ExitFailure | ExitUsage.
#[export] Instance exit_code_eq_dec : EqDecision exit_code.
Proof. solve_decision. Defined.

(** The process owns the mark: however it ends, the lock goes with it. *)
Definition owning {E A} (l : file) (m : io E A) : io E A := λ w,
  let '(o, w') := m w in (o, unlock l w').


Section verifier.
Context `{HH : Hashes} `{XX : Xmss} `{VM : !LeanVm} `{BL : BitListOps} `{OT : OsText}.
Context `{SS : !Ssz SnarkStatusListWire} `{SC : !Ssz CommitteeWire}.

(** ** Command line *)

(** Whether to initialise the mark, and the directory; [None] is the usage error. *)
Definition verifier_args (args : list string) : option (bool * string) :=
  match args with
  | [] => Some (false, "artifacts"%string)
  | first :: rest =>
      if bool_decide (first = "--init-state"%string)
      then match rest with
           | [] => Some (true, "artifacts"%string)
           | [dir] => Some (true, dir)
           | _ => None
           end
      else match rest with [] => Some (false, first) | _ => None end
  end.

(** ** Judging *)

Definition artifacts (dir : Directory) (prefix : string) : result (list string) string :=
  match d_list dir with
  | Err e => Err ("cannot read " +:+ d_path dir +:+ ": " +:+ e)%string
  | Ok entries => Ok (files_with prefix entries)
  end.

Definition authenticate (v : PQSNARKVerifierModule) (b : bytes) : option SnarkStatusList :=
  match snark_from_bytes b with
  | Err _ => None
  | Ok record => if snark_verify v record then Some record else None
  end.

(** [decode_then_verify] of src/bench/timing.rs, without its clocks: what was
    decoded, and whether the predicate accepted it. *)
Definition decode_then_verify {R E} (decoded : result R E) (verify : R → bool) : result R E * bool :=
  (decoded, match decoded with Ok record => verify record | Err _ => false end).

(** One update: decoded and accepted, or a failure. *)
Definition update_accepted (v : PQSNARKVerifierModule) (b : bytes) : bool :=
  snd (decode_then_verify (let? s := snark_from_bytes b in decode s) (verify_decoded v)).

Fixpoint judge_updates (v : PQSNARKVerifierModule) (dir : Directory) (names : list string)
    (failures : nat) : result nat string :=
  match names with
  | [] => Ok failures
  | name :: names =>
      let? b := map_err (λ e, "cannot read update: " +:+ e)%string (d_read dir name) in
      judge_updates v dir names (if update_accepted v b then failures else S failures)
  end.

Definition required_attacks : list string :=
  ["attack-outsider.bin"; "attack-tampered.bin"; "attack-version.bin"; "attack-slot.bin";
   "attack-short.bin"; "attack-proofbody.bin"]%string.

Definition missing_attacks (dir : Directory) : nat :=
  length (filter (λ name, d_is_file dir name = false) required_attacks).

Definition attack_accepted (v : PQSNARKVerifierModule) (b : bytes) : bool :=
  match snark_from_bytes b with Ok sl => snark_verify v sl | Err _ => false end.

Fixpoint judge_attacks (v : PQSNARKVerifierModule) (dir : Directory) (names : list string)
    (failures : nat) : result nat string :=
  match names with
  | [] => Ok failures
  | name :: names =>
      let? b := map_err (λ e, "cannot read attack artifact: " +:+ e)%string (d_read dir name) in
      judge_attacks v dir names (if attack_accepted v b then S failures else failures)
  end.

(** Both lists, and what is missing of the second. *)
Definition judge (v : PQSNARKVerifierModule) (dir : Directory) : result nat string :=
  let? updates := artifacts dir "update-" in
  let? failures := judge_updates v dir updates 0 in
  let? attacks := artifacts dir "attack-" in
  judge_attacks v dir attacks (failures + missing_attacks dir).

(** ** The durable mark *)

Definition read_record (v : PQSNARKVerifierModule) (dir : Directory) (name : string) :
    option SnarkStatusList :=
  match d_read dir name with Ok b => authenticate v b | Err _ => None end.

(** The canonical record is offered to the mark. *)
Definition offer_canonical (hwm : HighWaterMark) (canonical : option SnarkStatusList) (failures : nat) :
    io string (HighWaterMark * nat) :=
  match canonical with
  | Some record =>
      io_catch (try_advance hwm (sn_version record)) (λ r,
        match r with
        | Ok (_, hwm) => mret (hwm, failures)
        | Err _ => mret (hwm, S failures)
        end)
  | None => mret (hwm, S failures)
  end.

(** The first update is replayed, and must be stale. *)
Definition replay (hwm : HighWaterMark) (replayed : option SnarkStatusList) (failures : nat) :
    io string nat :=
  match current hwm, replayed with
  | Some _, Some sl =>
      io_catch (try_advance hwm (sn_version sl)) (λ r,
        match r with
        | Ok (Stale _, _) => mret failures
        | Ok (Accepted, _) => mret (S failures)
        | Err _ => mret (S failures)
        end)
  | _, _ => mret (S failures)
  end.

Definition check_freshness (v : PQSNARKVerifierModule) (dir : Directory) (hwm : HighWaterMark)
    (failures : nat) : io string nat :=
  '(hwm, failures) ← offer_canonical hwm (read_record v dir "canonical.bin") failures;
  updates ← lift (artifacts dir "update-");
  replay hwm (match updates with name :: _ => read_record v dir name | [] => None end) failures.

(** ** The run *)

(** [dirs] finds a directory by its path; [state_path] is [VERIFIER_STATE], or
    the default file in the directory. *)
Definition verifier_main (dirs : string → Directory) (state_path : string → path)
    (args : list string) : io string exit_code :=
  match verifier_args args with
  | None => mret ExitUsage
  | Some (initialize_state, dir) =>
      let state_path := state_path dir in
      let dir := dirs dir in
      anchor ← lift (map_err (λ e, "cannot read anchor: " +:+ e)%string (d_read dir "anchor.bin"));
      committee ← lift (map_err (λ e, "malformed anchor: " +:+ e)%string (committee_from_bytes anchor));
      if (initialize_state : bool) then
        mark ← io_map_err (λ e, "cannot initialize high-water mark " +:+ display_path state_path +:+
                                ": " +:+ display_mark_error e)%string (mark_create state_path anchor);
        owning (hw_lock mark) (mret ExitSuccess)
      else
        hwm ← io_map_err (λ e, "cannot open high-water mark " +:+ display_path state_path +:+
                               ": " +:+ display_mark_error e)%string (mark_open state_path anchor);
        owning (hw_lock hwm) (
          let v := mkSnarkVerifier committee (default 0 (current hwm)) in
          failures ← lift (judge v dir);
          failures ← check_freshness v dir hwm failures;
          mret (if (failures =? 0)%nat then ExitSuccess else ExitFailure))
  end.

(** ** What a run found *)

(** The evidence behind a clean judgement, under the anchor [c]. *)
Record clean_judgement (c : Committee) (dir : Directory) (updates attacks : list string) : Prop := {
  cj_updates : ∀ name, name ∈ updates → ∃ b r, d_read dir name = Ok b ∧ snark_from_bytes b = Ok r ∧
    snark_verify (mkSnarkVerifier c 0) r = true;
  cj_required : ∀ name, name ∈ required_attacks → d_is_file dir name = true;
  cj_attacks : ∀ name, name ∈ attacks → ∃ b, d_read dir name = Ok b ∧
    ∀ r, snark_from_bytes b = Ok r → snark_verify (mkSnarkVerifier c 0) r = false;
}.

Lemma update_accepted_spec c last b :
  update_accepted (mkSnarkVerifier c last) b = true ↔
  ∃ r, snark_from_bytes b = Ok r ∧ snark_verify (mkSnarkVerifier c 0) r = true.
Proof.
  unfold update_accepted, decode_then_verify, snark_verify. simpl.
  destruct (snark_from_bytes b) as [r|e]; simpl; [|by split; [|intros (? & ? & _)]].
  unfold decode. destruct (proof r) as [a|e] eqn:Ep; simpl; split.
  - intros H. exists r. split; [done|]. by rewrite Ep.
  - intros (r' & [= <-] & H). by rewrite Ep in H.
  - done.
  - intros (r' & [= <-] & H). by rewrite Ep in H.
Qed.

Lemma attack_accepted_spec c last b :
  attack_accepted (mkSnarkVerifier c last) b = false ↔
  ∀ r, snark_from_bytes b = Ok r → snark_verify (mkSnarkVerifier c 0) r = false.
Proof.
  unfold attack_accepted. destruct (snark_from_bytes b) as [r|e]; [|by split].
  split; [by intros H r' [= <-]|]. intros H. by apply H.
Qed.



Lemma missing_attacks_0 dir :
  missing_attacks dir = 0%nat ↔ ∀ name, name ∈ required_attacks → d_is_file dir name = true.
Proof.
  unfold missing_attacks. rewrite length_zero_iff_nil. split.
  - intros H name Hin. destruct (d_is_file dir name) eqn:E; [done|].
    assert (name ∈ filter (λ name, d_is_file dir name = false) required_attacks) as Hf
      by (by apply list_elem_of_filter).
    rewrite H in Hf. by apply not_elem_of_nil in Hf.
  - intros H. destruct (filter _ required_attacks) as [|name l] eqn:E; [done|].
    assert (Hin : name ∈ filter (λ name, d_is_file dir name = false) required_attacks)
      by (rewrite E; apply list_elem_of_here).
    apply list_elem_of_filter in Hin as [Hf Hin]. by rewrite H in Hf.
Qed.


Lemma authenticate_spec c last b r :
  authenticate (mkSnarkVerifier c last) b = Some r ↔
  snark_from_bytes b = Ok r ∧ snark_verify (mkSnarkVerifier c 0) r = true.
Proof.
  unfold authenticate. destruct (snark_from_bytes b) as [r'|e]; [|by split; [|intros []]].
  change (snark_verify (mkSnarkVerifier c last) r') with (snark_verify (mkSnarkVerifier c 0) r').
  destruct (snark_verify _ r') eqn:E; split.
  - by intros [= <-].
  - by intros [[= <-] _].
  - done.
  - intros [[= <-] H]. congruence.
Qed.

(** ** What a run does to the mark *)

Definition raised (o : option Z) (v : Z) : Z := match o with Some x => Z.max x v | None => v end.


Lemma try_advance_lock m v w d m' w' :
  try_advance m v w = (Done (d, m'), w') → hw_lock m' = hw_lock m.
Proof.
  unfold try_advance. destruct (hw_have m && (v <=? hw_current m)); [by intros [= <- <- <-]|].
  unfold mbind, io_bind. destruct (persist m (Some v) w) as [[[]|e|] w1]; by try intros [= <- <- <-].
Qed.



Section mark.
Context (p : path) (anchor : bytes) (dir : Directory).





(** *** What the disk may show *)

Section disk.
Context (w0 : world) (Ψ : option (list bytes) → Prop).










End disk.

(** *** What success says *)



End mark.

(** *** The whole run *)

Context `{LS : !SszLaws SnarkStatusListWire wf_snark_wire}.

Lemma read_record_spec c last dir name r :
  read_record (mkSnarkVerifier c last) dir name = Some r →
  (∃ b, d_read dir name = Ok b ∧ snark_from_bytes b = Ok r) ∧
  snark_verify (mkSnarkVerifier c 0) r = true ∧ is_u32 (sn_version r).
Proof.
  unfold read_record. destruct (d_read dir name) as [b|]; [|done]. intros [Hb Hv]%authenticate_spec.
  split_and!; [by exists b|done|]. by apply (snark_codec r b) in Hb as [_ [_ ?]].
Qed.



(** ** A run over a faithful directory succeeds *)

Lemma judge_updates_clean v dir names failures :
  (∀ name, name ∈ names → ∃ b, d_read dir name = Ok b ∧ update_accepted v b = true) →
  judge_updates v dir names failures = Ok failures.
Proof.
  induction names as [|name names IH]; intros H; [done|]. cbn [judge_updates].
  destruct (H name) as (b & -> & E); [apply list_elem_of_here|]. cbn [map_err result_bind].
  rewrite E. apply IH.
  intros name' Hin. apply H. by apply list_elem_of_further.
Qed.

Lemma judge_attacks_clean v dir names failures :
  (∀ name, name ∈ names → ∃ b, d_read dir name = Ok b ∧ attack_accepted v b = false) →
  judge_attacks v dir names failures = Ok failures.
Proof.
  induction names as [|name names IH]; intros H; [done|]. cbn [judge_attacks].
  destruct (H name) as (b & -> & E); [apply list_elem_of_here|]. cbn [map_err result_bind].
  rewrite E. apply IH.
  intros name' Hin. apply H. by apply list_elem_of_further.
Qed.

Lemma clean_judge c last dir entries :
  d_list dir = Ok entries →
  clean_judgement c dir (files_with "update-" entries) (files_with "attack-" entries) →
  judge (mkSnarkVerifier c last) dir = Ok 0%nat.
Proof.
  intros Hl [Hu Hr Ha]. unfold judge, artifacts. rewrite Hl. cbn [result_bind].
  rewrite judge_updates_clean; [|intros name Hin; destruct (Hu name Hin) as (b & r & ? & ? & ?);
    exists b; split; [done|]; apply update_accepted_spec; by exists r].
  cbn [result_bind]. rewrite (proj2 (missing_attacks_0 dir)) by done. apply judge_attacks_clean.
  intros name Hin. destruct (Ha name Hin) as (b & ? & ?). exists b. split; [done|].
  by apply attack_accepted_spec.
Qed.

Lemma authentic_record c last dir name b r :
  d_read dir name = Ok b → snark_from_bytes b = Ok r → snark_verify (mkSnarkVerifier c 0) r = true →
  read_record (mkSnarkVerifier c last) dir name = Some r.
Proof. intros Hb Hr Hv. unfold read_record. rewrite Hb. by apply authenticate_spec. Qed.

(** The canonical record raises the mark and an older one is then stale. *)
Lemma check_freshness_clean p anchor c last dir entries name names r old o m w :
  holding p anchor o m w → d_list dir = Ok entries → files_with "update-" entries = name :: names →
  read_record (mkSnarkVerifier c last) dir "canonical.bin" = Some r →
  read_record (mkSnarkVerifier c last) dir name = Some old →
  is_u32 (sn_version r) → is_u32 (sn_version old) → sn_version old ≤ sn_version r →
  ∃ m' w', check_freshness (mkSnarkVerifier c last) dir m 0 w = (Done 0%nat, w') ∧
    hw_lock m' = hw_lock m ∧ holding p anchor (Some (raised o (sn_version r))) m' w'.
Proof.
  intros Hm Hl Hf Hr Hold Hu Huo Hle. unfold check_freshness, offer_canonical. rewrite Hr.
  assert (Hrest : ∀ m' w' x, holding p anchor (Some x) m' w' → sn_version r ≤ x →
    (updates ← lift (artifacts dir "update-");
     replay m' (match updates with name :: _ => read_record (mkSnarkVerifier c last) dir name | [] => None end)
       0) w' = (Done 0%nat, w')).
  { intros m' w' x Hm' Hx. unfold artifacts. rewrite Hl, lift_Ok, Hf, Hold. unfold replay.
    rewrite (ho_current _ _ _ _ _ Hm'). unfold io_catch.
    destruct (quiet_advance _ _ _ _ _ (sn_version old) Hm' Huo) as [[_ ->]|[Hlt _]]; [done|].
    specialize (Hlt x eq_refl). lia. }
  unfold mbind at 1, io_bind at 1, io_catch at 1.
  destruct (quiet_advance _ _ _ _ _ (sn_version r) Hm Hu) as [[Ho ->]|[Hlt (m' & w' & E & Hm')]].
  - destruct o as [x|]; [|done]. exists m, w. unfold mret at 1, io_ret at 1. simpl raised.
    rewrite Z.max_l by done. split_and!; [by apply (Hrest m w x)|done|done].
  - rewrite E. exists m', w'. unfold mret at 1, io_ret at 1.
    assert (Hx : raised o (sn_version r) = sn_version r).
    { destruct o as [x|]; [|done]. simpl. specialize (Hlt x eq_refl). lia. }
    rewrite Hx. split_and!; [by eapply Hrest|by eapply try_advance_lock|done].
Qed.

(** The whole run, in a world that completes every call. *)
Lemma verifier_main_passes dirs state_path args dir anchor c entries name names b r old o w :
  verifier_args args = Some (false, dir) → d_read (dirs dir) "anchor.bin" = Ok anchor →
  committee_from_bytes anchor = Ok c → resting (state_path dir) anchor o w →
  d_list (dirs dir) = Ok entries → files_with "update-" entries = name :: names →
  clean_judgement c (dirs dir) (files_with "update-" entries) (files_with "attack-" entries) →
  d_read (dirs dir) "canonical.bin" = Ok b → snark_from_bytes b = Ok r →
  snark_verify (mkSnarkVerifier c 0) r = true →
  read_record (mkSnarkVerifier c 0) (dirs dir) name = Some old → sn_version old ≤ sn_version r →
  ∃ w', verifier_main dirs state_path args w = (Done ExitSuccess, w') ∧
    resting (state_path dir) anchor (Some (raised o (sn_version r))) w'.
Proof.
  intros Ha Hb Hc Hrest Hl Hf Hcl Hcb Hcr Hcv Hold Hle.
  destruct (quiet_open _ _ _ _ Hrest) as (m & w1 & Eo & Hm).
  pose proof (clean_judge c (default 0 (current m)) _ _ Hl Hcl) as Hj.
  pose proof (authentic_record c 0 (dirs dir) "canonical.bin" b r Hcb Hcr Hcv) as Hr.
  pose proof (read_record_spec _ _ _ _ _ Hr) as (_ & _ & Hu).
  pose proof (read_record_spec _ _ _ _ _ Hold) as (_ & _ & Huo).
  destruct (check_freshness_clean (state_path dir) anchor c (default 0 (current m)) (dirs dir) entries
    name names r old o m w1) as (m' & w2 & Ef & Hlock & Hm'); [done..|].
  exists (unlock (hw_lock m) w2). rewrite <-Hlock. split; [|by apply holding_drop].
  unfold verifier_main. rewrite Ha, Hb. cbn [map_err]. rewrite lift_Ok, Hc. cbn [map_err]. rewrite lift_Ok.
  unfold mbind at 1, io_bind at 1, io_map_err. rewrite Eo. unfold owning.
  unfold mbind at 1, io_bind at 1, lift. rewrite Hj. unfold mbind, io_bind. rewrite Ef. cbn. by rewrite Hlock.
Qed.

(** The first run of all: the mark is created. *)
Lemma verifier_init_passes dirs state_path args dir anchor c w :
  verifier_args args = Some (true, dir) → d_read (dirs dir) "anchor.bin" = Ok anchor →
  committee_from_bytes anchor = Ok c → wf_world (state_path dir) w → w_verdicts w = [] →
  unlocked (state_path dir) w → cur_dir w !! state_path dir = None →
  ∃ w', verifier_main dirs state_path args w = (Done ExitSuccess, w') ∧
    resting (state_path dir) anchor None w'.
Proof.
  intros Ha Hb Hc Hw Hq Hu Hn. destruct (quiet_create _ anchor w Hw Hq Hu Hn) as (m & w1 & E & Hm).
  exists (unlock (hw_lock m) w1). split; [|by apply holding_drop].
  unfold verifier_main. rewrite Ha, Hb. cbn [map_err]. rewrite lift_Ok, Hc. cbn [map_err]. rewrite lift_Ok.
  unfold mbind, io_bind, io_map_err. by rewrite E.
Qed.



End verifier.
