(* ===== verification/CheckOutput.v ===== *)
(** * Acceptance check of a prover run (src/bin/check_prover_output.rs)

    Reads the files a prover wrote, and the fixture it was given when there is
    one, and reports success only on positive evidence for every update.  The
    complaints are kept, their order within one directory comparison is not. *)
From S2P Require Import Prelude External Instances Seats StatusLists Committees Verifiers Params Artifacts.

Open Scope Z_scope.

Definition expected_files : gset string :=
  list_to_set ("anchor.bin" :: "canonical.bin" :: (update_name <$> seq 0 N_UPDATES))%string.

Section check_output.
Context `{HH : Hashes} `{XX : Xmss} `{VM : !LeanVm} `{BL : BitListOps}.
Context `{SR : !Ssz RawStatusListWire} `{SS : !Ssz SnarkStatusListWire} `{SC : !Ssz CommitteeWire}.

(** ** The set of files *)

Definition listed (entries : list (result string string)) : gset string :=
  list_to_set (omap result_ok entries).

Definition listing_failures (path : string) (entries : list (result string string)) : list string :=
  omap (λ e, match e with
             | Ok _ => None
             | Err e => Some ("cannot list " +:+ path +:+ ": " +:+ e)%string
             end) entries.

Definition missing_failures (present : gset string) : list string :=
  (λ name, "missing " +:+ name)%string <$> elements (expected_files ∖ present).

(** The forgeries of a self-contained run are tolerated. *)
Definition unexpected_failures (with_fixture : bool) (present : gset string) : list string :=
  omap (λ name,
    if negb with_fixture && String.prefix "attack-" name then None
    else Some ("unexpected " +:+ name)%string) (elements (present ∖ expected_files)).

(** ** One update *)

(** The keys the aggregate proves; another shape is rejected by the predicate. *)
Definition proven_keys (a : AggregateSignature) : list (option XmssPublicKey) :=
  match agg_xmss_signers a with [(_, _, keys)] => Some <$> keys | _ => [] end.

(** Sorted vectors are equal when they are permutations of each other. *)
Definition against_fixture (fixture : Directory) (ms : list XmssPublicKey) (index : nat)
    (d : DecodedSnarkStatusList) : list string :=
  let name := update_name index in
  let record := record d in
  match (let? raw := d_read fixture (raw_update_name index) in from_bytes raw) with
  | Err e => [(d_path fixture +:+ "/" +:+ raw_update_name index +:+ ": " +:+ e)%string]
  | Ok raw =>
      (if negb (bool_decide (sl_alg raw = sn_alg record)) ||
          negb (sl_version raw =? sn_version record) ||
          negb (bool_decide (sl_status_list raw = sn_status_list record))
       then [(name +:+ ": algorithm, version or list differs from " +:+
              d_path fixture +:+ "/" +:+ raw_update_name index)%string] else []) ++
      (let wanted := (λ i, ms !! i) <$> signer_indices raw in
       if bool_decide (wanted ≡ₚ proven_keys (aggregate d)) then []
       else [(name +:+ ": proven signer set differs from the fixture's")%string])
  end.

(** [list.starts_with(previous)]. *)
Fixpoint starts_with (l previous : list bytes) {struct previous} : bool :=
  match previous, l with
  | [], _ => true
  | _, [] => false
  | x :: previous, y :: l => bool_decide (y = x) && starts_with l previous
  end.

Definition grows_by_one (index : nat) (previous : option (list bytes)) (list : list bytes) : bool :=
  (length list =? index + 1)%nat &&
  match previous with None => true | Some previous => starts_with list previous end.

Record Progress := mkProgress {
  failures : list string;
  valid : nat;
  previous_list : option (list bytes);
  last_update : option bytes;
}.

Definition check_update (v : PQSNARKVerifierModule) (out : Directory) (fixture : option Directory)
    (p : Progress) (index : nat) : Progress :=
  let name := update_name index in
  match d_read out name with
  | Err e =>
      mkProgress (failures p ++ [("cannot read " +:+ name +:+ ": " +:+ e)%string]) (valid p) None None
  | Ok b =>
      match (let? record := snark_from_bytes b in decode record) with
      | Err e =>
          mkProgress (failures p ++ [(name +:+ ": does not decode: " +:+ e)%string]) (valid p) None None
      | Ok d =>
          let record := record d in
          let version_failures :=
            if negb (sn_version record =? Z.of_nat index)
            then [(name +:+ ": version " +:+ pretty (sn_version record) +:+ " != " +:+ pretty index)%string]
            else [] in
          let list_failures :=
            match fixture with
            | Some fixture => against_fixture fixture (members (sv_committee v)) index d
            | None =>
                if grows_by_one index (previous_list p) (sn_status_list record) then []
                else [(name +:+ ": list is not the previous list plus one entry")%string]
            end in
          let verify_failures :=
            if verify_decoded v d then [] else [(name +:+ ": rejected by the SNARK predicate")%string] in
          let new := version_failures ++ list_failures ++ verify_failures in
          mkProgress (failures p ++ new)
            (if bool_decide (new = []) then S (valid p) else valid p)
            (match fixture with Some _ => previous_list p | None => Some (sn_status_list record) end)
            (Some b)
      end
  end.

(** ** The whole check *)

Definition canonical_failures (canonical : result bytes string) (last_update : option bytes) :
    list string :=
  match canonical, last_update with
  | Ok canonical, Some last =>
      if bool_decide (canonical = last) then [] else ["canonical.bin is not the last update"%string]
  | Err e, _ => [("cannot read canonical.bin: " +:+ e)%string]
  | Ok _, None => ["the last update is unavailable for comparison"%string]
  end.

(** What is wrong with the anchor when it is not the fixture's; the outer error
    ends the check. *)
Definition anchor_failures (fixture : option Directory) (anchor : bytes) : result (list string) string :=
  match fixture with
  | None => Ok []
  | Some fixture =>
      match d_read fixture "anchor.bin" with
      | Ok reference =>
          if bool_decide (reference = anchor) then Ok []
          else Ok ["anchor.bin differs from the fixture anchor"%string]
      | Err e => Err ("cannot read fixture anchor: " +:+ e)%string
      end
  end.

(** How many updates passed every check, and the complaints. *)
Definition check_run (out : Directory) (fixture : option Directory) : nat * list string :=
  match d_list out with
  | Err e => (0%nat, [("cannot read prover output " +:+ d_path out +:+ ": " +:+ e)%string])
  | Ok entries =>
      let present := listed entries in
      let f := listing_failures (d_path out) entries ++ missing_failures present ++
               unexpected_failures (bool_decide (is_Some fixture)) present in
      match d_read out "anchor.bin" with
      | Err e => (0%nat, f ++ [("cannot read anchor.bin: " +:+ e)%string])
      | Ok anchor =>
          match anchor_failures fixture anchor with
          | Err e => (0%nat, f ++ [e])
          | Ok g =>
              match committee_from_bytes anchor with
              | Err e => (0%nat, f ++ g ++ [("malformed anchor.bin: " +:+ e)%string])
              | Ok committee =>
                  let p := foldl (check_update (mkSnarkVerifier committee 0) out fixture)
                             (mkProgress (f ++ g) 0 None None) (seq 0 N_UPDATES) in
                  let h := canonical_failures (d_read out "canonical.bin") (last_update p) in
                  let k := if (valid p =? N_UPDATES)%nat then []
                           else [("only " +:+ pretty (valid p) +:+ " of " +:+ pretty N_UPDATES +:+
                                  " updates are valid")%string] in
                  (valid p, failures p ++ h ++ k)
              end
          end
      end
  end.

(** [report]: [true] is the exit code of success. *)
Definition report (failures : list string) (valid : nat) : bool :=
  bool_decide (failures = []) && (valid =? N_UPDATES)%nat.

Definition check_main (out : Directory) (fixture : option Directory) : bool :=
  let '(valid, failures) := check_run out fixture in report failures valid.

(** ** Success means every update was examined and accepted *)

(** What success promises of one update. *)
Definition accepted_update (v : PQSNARKVerifierModule) (out : Directory) (fixture : option Directory)
    (index : nat) (b : bytes) (r : SnarkStatusList) : Prop :=
  d_read out (update_name index) = Ok b ∧ snark_from_bytes b = Ok r ∧
  sn_version r = Z.of_nat index ∧ snark_verify v r = true ∧
  match fixture with
  | Some fixture => ∃ raw_bytes raw a, d_read fixture (raw_update_name index) = Ok raw_bytes ∧
      from_bytes raw_bytes = Ok raw ∧ sl_alg raw = sn_alg r ∧ sl_version raw = sn_version r ∧
      sl_status_list raw = sn_status_list r ∧ proof r = Ok a ∧
      (λ i, members (sv_committee v) !! i) <$> signer_indices raw ≡ₚ proven_keys a
  | None => (length (sn_status_list r) = index + 1)%nat
  end.

Lemma starts_with_prefix l previous : starts_with l previous = true ↔ previous `prefix_of` l.
Proof.
  revert l. induction previous as [|x previous IH]; intros l; simpl; [split; [intros _; apply prefix_nil|done]|].
  destruct l as [|y l]; [split; [done|by intros [k ?]]|].
  rewrite andb_true_iff, IH, bool_decide_eq_true. split.
  - intros [-> [k ->]]. by exists k.
  - intros [k Hk]. injection Hk as -> ->. split; [done|]. by exists k.
Qed.

Lemma against_fixture_nil fixture ms index d :
  against_fixture fixture ms index d = [] →
  ∃ raw_bytes raw, d_read fixture (raw_update_name index) = Ok raw_bytes ∧
    from_bytes raw_bytes = Ok raw ∧ sl_alg raw = sn_alg (record d) ∧
    sl_version raw = sn_version (record d) ∧ sl_status_list raw = sn_status_list (record d) ∧
    (λ i, ms !! i) <$> signer_indices raw ≡ₚ proven_keys (aggregate d).
Proof.
  unfold against_fixture. destruct (d_read fixture _) as [rb|e]; [|done]. simpl.
  destruct (from_bytes rb) as [raw|e] eqn:Er; [|done]. intros [H1 H2]%app_eq_nil.
  destruct (_ || _) eqn:Eo in H1; [done|]. apply orb_false_iff in Eo as [Eo E3].
  apply orb_false_iff in Eo as [E1 E2]. apply negb_false_iff in E1, E2, E3.
  apply bool_decide_eq_true in E1, E3. apply Z.eqb_eq in E2.
  case_bool_decide; [|done]. by exists rb, raw.
Qed.

(** An update without a complaint. *)
Lemma check_update_clean v out fixture p index :
  failures (check_update v out fixture p index) = [] →
  failures p = [] ∧ ∃ b r, accepted_update v out fixture index b r ∧
    check_update v out fixture p index =
      mkProgress [] (S (valid p))
        (match fixture with Some _ => previous_list p | None => Some (sn_status_list r) end) (Some b) ∧
    match fixture with
    | None => ∀ previous, previous_list p = Some previous → previous `prefix_of` sn_status_list r
    | Some _ => True
    end.
Proof.
  unfold check_update. destruct (d_read out _) as [b|e] eqn:Eb; simpl; [|by intros []%app_eq_nil].
  destruct (let? record := snark_from_bytes b in decode record) as [d|e] eqn:Ed; simpl;
    [|by intros []%app_eq_nil].
  apply result_bind_Ok in Ed as (r & Er & Ed). unfold decode in Ed.
  apply result_bind_Ok in Ed as (a & Ha & [= <-]). simpl.
  intros [Hp Hnew]%app_eq_nil. split; [done|]. pose proof Hnew as Hcopy.
  apply app_eq_nil in Hnew as [H1 [H2 H3]%app_eq_nil].
  destruct (Z.eqb_spec (sn_version r) (Z.of_nat index)) as [Hv|]; simpl in H1; [|done].
  destruct (verify_decoded v _) eqn:Hver; [|done].
  assert (Hs : snark_verify v r = true) by (unfold snark_verify; by rewrite Ha).
  rewrite Hcopy, Hp, bool_decide_eq_true_2 by done. exists b, r.
  destruct fixture as [fixture|].
  - apply against_fixture_nil in H2 as (rb & raw & ? & ? & ? & ? & ? & ?).
    split_and!; try done. split_and!; try done. by exists rb, raw, a.
  - destruct (grows_by_one _ _ _) eqn:Hg; [|done]. apply andb_true_iff in Hg as [Hg1 Hg2].
    apply Nat.eqb_eq in Hg1. split_and!; [by split_and!|done|].
    intros previous E. rewrite E in Hg2. by apply starts_with_prefix.
Qed.

Lemma check_updates_clean v out fixture p i count :
  let p' := foldl (check_update v out fixture) p (seq i count) in
  failures p' = [] →
  failures p = [] ∧ valid p' = (valid p + count)%nat ∧
  ∃ records : list (bytes * SnarkStatusList), length records = count ∧
    (∀ k x, records !! k = Some x → accepted_update v out fixture (i + k) x.1 x.2) ∧
    last_update p' = match last records with Some x => Some x.1 | None => last_update p end ∧
    (fixture = None →
       (∀ previous x, previous_list p = Some previous → head records = Some x →
          previous `prefix_of` sn_status_list x.2) ∧
       ∀ k x y, records !! k = Some x → records !! S k = Some y →
         sn_status_list x.2 `prefix_of` sn_status_list y.2).
Proof.
  revert p i. induction count as [|count IH]; intros p i; cbv zeta; cbn [foldl seq]; intros Hf.
  { split; [done|]. split; [lia|]. exists []. split_and!; [done|by intros []|done|by intros _]. }
  destruct (IH _ _ Hf) as (Hf1 & Hv & records & Hlen & Hrec & Hlast & Hpre).
  apply check_update_clean in Hf1 as (Hp & b & r & Hb & Hstep & Hprev). rewrite Hstep in *. simpl in *.
  split; [done|]. split; [rewrite Hv; lia|]. exists ((b, r) :: records). split_and!.
  - simpl. by f_equal.
  - intros [|k] x Hx; simpl in Hx; [injection Hx as <-; by rewrite Nat.add_0_r|].
    rewrite <-Nat.add_succ_comm. by apply Hrec.
  - rewrite Hlast. destruct records as [|y records]; [done|].
    rewrite last_cons_cons. by destruct (last_is_Some (y :: records)) as [_ [z ->]].
  - intros ->. destruct (Hpre eq_refl) as [Hp1 Hp2]. split.
    + intros previous x E [= <-]. by apply Hprev.
    + intros [|k] x y; simpl; [|by apply Hp2]. intros [= <-] Hy. apply (Hp1 _ y); [done|].
      by rewrite head_lookup.
Qed.

Lemma difference_nil (X Y : gset string) : elements (X ∖ Y) = [] → X ⊆ Y.
Proof.
  intros H%elements_empty_inv x Hx. apply dec_stable. intros Hn.
  apply (not_elem_of_empty (C := gset string) x). rewrite <-H. by apply elem_of_difference.
Qed.

Lemma no_missing present : missing_failures present = [] → expected_files ⊆ present.
Proof. intros H%fmap_nil_inv. by apply difference_nil. Qed.

Lemma none_unexpected present : unexpected_failures true present = [] → present ⊆ expected_files.
Proof.
  unfold unexpected_failures. intros H. apply difference_nil. revert H.
  by destruct (elements (present ∖ expected_files)).
Qed.

(** C22 Success requires positive evidence: the check of a prover run succeeds only
    when the anchor was read and decodes, is the fixture's byte for byte when
    there is one, every one of the updates was read, decodes, carries its own
    version and passes the SNARK predicate under that anchor (and, against a
    fixture, the fixture's algorithm, list and exactly its signers; without one,
    a list that extends the previous one by one entry), the canonical record is
    the last update, and no file of the honest set is missing or foreign. *)
Theorem check_success out fixture :
  check_main out fixture = true →
  ∃ anchor c records entries,
    d_read out "anchor.bin" = Ok anchor ∧ committee_from_bytes anchor = Ok c ∧
    (∀ fx, fixture = Some fx → d_read fx "anchor.bin" = Ok anchor) ∧
    d_list out = Ok entries ∧ expected_files ⊆ listed entries ∧
    (is_Some fixture → listed entries ⊆ expected_files) ∧
    length records = N_UPDATES ∧
    (∀ index x, records !! index = Some x →
       accepted_update (mkSnarkVerifier c 0) out fixture index x.1 x.2) ∧
    (fixture = None → ∀ index x y, records !! index = Some x → records !! S index = Some y →
       sn_status_list x.2 `prefix_of` sn_status_list y.2) ∧
    ∃ x, last records = Some x ∧ d_read out "canonical.bin" = Ok x.1.
Proof.
  unfold check_main, check_run. destruct (d_list out) as [entries|e] eqn:El; [|done].
  set (f := listing_failures _ _ ++ _). destruct (d_read out "anchor.bin") as [anchor|e] eqn:Ea;
    [|unfold report; case_bool_decide as H; [by apply app_eq_nil in H as [_ ?]|done]].
  destruct (anchor_failures fixture anchor) as [g|e] eqn:Eg;
    [|unfold report; case_bool_decide as H; [by apply app_eq_nil in H as [_ ?]|done]].
  destruct (committee_from_bytes anchor) as [c|e] eqn:Ec;
    [|unfold report; case_bool_decide as H; [by apply app_eq_nil in H as [_ [_ ?]%app_eq_nil]|done]].
  pose proof (check_updates_clean (mkSnarkVerifier c 0) out fixture (mkProgress (f ++ g) 0 None None)
    0 N_UPDATES) as Hclean. cbv zeta in Hclean |- *.
  revert Hclean. generalize (foldl (check_update (mkSnarkVerifier c 0) out fixture)
    (mkProgress (f ++ g) 0 None None) (seq 0 N_UPDATES)). intros p Hclean.
  intros [Hf Hv]%andb_true_iff. apply bool_decide_eq_true in Hf.
  apply app_eq_nil in Hf as [Hp [Hcan _]%app_eq_nil].
  destruct (Hclean Hp) as (Hfg & _ & records & Hlen & Hrec & Hlast & Hpre). clear Hclean.
  cbn [failures last_update previous_list] in Hfg, Hlast, Hpre.
  apply app_eq_nil in Hfg as [[_ [Hmiss Hun]%app_eq_nil]%app_eq_nil Hg0].
  clear Hv. exists anchor, c, records, entries.
  split; [done|]. split; [done|]. split_and!; [|done| | |exact Hlen|exact Hrec| |].
  - intros fx ->. unfold anchor_failures in Eg. destruct (d_read fx _) as [r|] eqn:Er; [|done].
    destruct (bool_decide (r = anchor)) eqn:Hr; [by apply bool_decide_eq_true in Hr as ->|].
    by injection Eg as <-.
  - by apply no_missing.
  - intros Hfix. rewrite bool_decide_eq_true_2 in Hun by done. by apply none_unexpected.
  - intros ->. by apply Hpre.
  - rewrite Hlast in Hcan. unfold canonical_failures in Hcan.
    destruct (last records) as [x|] eqn:Ex.
    + exists x. split; [done|]. destruct (d_read out "canonical.bin") as [b|]; [|done].
      destruct (bool_decide (b = x.1)) eqn:Hr; [by apply bool_decide_eq_true in Hr as ->|done].
    + by destruct (d_read out "canonical.bin").
Qed.
(** ** A complete run passes *)

(** An update that the check has nothing to say about. *)
Definition faithful_update (v : PQSNARKVerifierModule) (out fixture : Directory) (index : nat)
    (b : bytes) : Prop :=
  ∃ r a raw_bytes raw, d_read out (update_name index) = Ok b ∧ snark_from_bytes b = Ok r ∧
    proof r = Ok a ∧ sn_version r = Z.of_nat index ∧ check v r a = true ∧
    d_read fixture (raw_update_name index) = Ok raw_bytes ∧ from_bytes raw_bytes = Ok raw ∧
    sl_version raw = sn_version r ∧ sl_status_list raw = sn_status_list r ∧
    (λ i, members (sv_committee v) !! i) <$> signer_indices raw ≡ₚ proven_keys a.

Lemma check_update_faithful v out fixture p index b :
  faithful_update v out fixture index b →
  check_update v out (Some fixture) p index =
    mkProgress (failures p) (S (valid p)) (previous_list p) (Some b).
Proof.
  intros (r & a & rb & raw & Hb & Hr & Ha & Hv & Hc & Hrb & Hraw & Hrv & Hrl & Hp).
  unfold check_update. rewrite Hb, Hr. cbn [result_bind]. unfold decode. rewrite Ha. cbn [result_bind record].
  rewrite Hv, Z.eqb_refl. cbn [negb]. unfold against_fixture, verify_decoded. cbn [record aggregate].
  rewrite Hrb. cbn [result_bind]. rewrite Hraw, Hc, Hrv, Hrl, Z.eqb_refl.
  destruct (sl_alg raw), (sn_alg r). rewrite !bool_decide_eq_true_2 by done. simpl.
  by rewrite app_nil_r.
Qed.

Lemma check_updates_faithful v out fixture (bs : nat → bytes) p i count :
  (∀ k, (i ≤ k < i + count)%nat → faithful_update v out fixture k (bs k)) →
  let p' := foldl (check_update v out (Some fixture)) p (seq i count) in
  failures p' = failures p ∧ valid p' = (valid p + count)%nat ∧
  last_update p' = match count with O => last_update p | S k => Some (bs (i + k)%nat) end.
Proof.
  revert p i. induction count as [|count IH]; intros p i Hall; cbv zeta; cbn [foldl seq].
  { split_and!; [done|lia|done]. }
  rewrite (check_update_faithful _ _ _ _ _ (bs i)) by (apply Hall; lia).
  destruct (IH (mkProgress (failures p) (S (valid p)) (previous_list p) (Some (bs i))) (S i)) as
    (-> & -> & ->); [intros k Hk; apply Hall; lia|].
  split_and!; [done|simpl; lia|]. destruct count; simpl; do 2 f_equal; lia.
Qed.

Lemma faithful_run_passes out fixture anchor c entries (bs : nat → bytes) :
  d_list out = Ok (Ok <$> entries) → (list_to_set entries : gset string) = expected_files →
  d_read out "anchor.bin" = Ok anchor → d_read fixture "anchor.bin" = Ok anchor →
  committee_from_bytes anchor = Ok c →
  (∀ k, (k < N_UPDATES)%nat → faithful_update (mkSnarkVerifier c 0) out fixture k (bs k)) →
  d_read out "canonical.bin" = Ok (bs (N_UPDATES - 1)%nat) →
  check_main out (Some fixture) = true.
Proof.
  intros Hl Hset Ha Hfa Hc Hall Hcan. unfold check_main, check_run. rewrite Hl, Ha.
  unfold anchor_failures. rewrite Hfa, (bool_decide_eq_true_2 (anchor = anchor)), Hc by done.
  assert (Hf : listing_failures (d_path out) (Ok <$> entries) ++ missing_failures (listed (Ok <$> entries)) ++
    unexpected_failures (bool_decide (is_Some (Some fixture))) (listed (Ok <$> entries)) = []).
  { assert (E : listed (Ok <$> entries) = expected_files) by (unfold listed; by rewrite omap_result_ok).
    rewrite E. unfold missing_failures, unexpected_failures. rewrite difference_diag_L, elements_empty.
    rewrite app_nil_r. unfold listing_failures. clear. induction entries as [|e l IH]; [done|exact IH]. }
  rewrite Hf. cbn [app].
  pose proof (check_updates_faithful (mkSnarkVerifier c 0) out fixture bs (mkProgress [] 0 None None) 0
    N_UPDATES) as H. cbv zeta in H |- *. revert H.
  generalize (foldl (check_update (mkSnarkVerifier c 0) out (Some fixture)) (mkProgress [] 0 None None)
    (seq 0 N_UPDATES)). intros p H. destruct H as (Hpf & Hpv & Hpl); [intros k Hk; apply Hall; lia|].
  unfold canonical_failures. rewrite Hcan, Hpf, Hpv, Hpl. simpl.
  rewrite bool_decide_eq_true_2 by done. done.
Qed.
End check_output.
