(* ===== verification/Network.v ===== *)
(** * The fixed layout of the demo network (demo/src/config.rs)

    Committee size and threshold, the address table whose positions are the
    committee indices, who may aggregate, and the environment's settings. *)
From S2P Require Import Prelude Seats Wire.

Open Scope Z_scope.

Definition N_MEMBERS : nat := 10.
Definition THRESHOLD : nat := 7.
Definition ALL_MEMBER_INDICES : list nat := [0; 1; 2; 3; 4; 5; 6; 7; 8; 9]%nat.
Definition SNARK_AGGREGATOR_INDICES : list nat := [0; 4; 8]%nat.
Definition MEMBER_IPS : list string :=
  ["172.28.0.11"; "172.28.0.12"; "172.28.0.13"; "172.28.0.14"; "172.28.0.15";
   "172.28.0.16"; "172.28.0.17"; "172.28.0.18"; "172.28.0.19"; "172.28.0.20"]%string.
Definition MEMBER_PORT : Z := 9000.
Definition HOLDER_IP : string := "172.28.0.30".
Definition HOLDER_PORT : Z := 9100.

Inductive Mode := ModeRaw | ModeSnark.
#[export] Instance Mode_eq_dec : EqDecision Mode.
Proof. solve_decision. Defined.

(** [Mode::from_env], of the variable's value when it is set to a string; the
    error is the panic. *)
Definition mode_from_env (var : option string) : result Mode string :=
  match var with
  | None => Ok ModeRaw
  | Some v =>
      if bool_decide (v = "snark"%string) then Ok ModeSnark
      else if bool_decide (v = "raw"%string) then Ok ModeRaw
      else Err ("DEMO_MODE must be `raw` or `snark`, got `" +:+ v +:+ "`")%string
  end.

Definition mode_as_str (m : Mode) : string :=
  match m with ModeRaw => "raw" | ModeSnark => "snark" end.

(** An address in its textual form. *)
Definition index_of_ip (ip : string) : option nat := position ip MEMBER_IPS.

(** [None] is the panic of an index outside the table. *)
Definition member_addr (index : nat) : option string :=
  (λ ip, ip +:+ ":" +:+ pretty MEMBER_PORT)%string <$> MEMBER_IPS !! index.

Definition aggregator_indices (m : Mode) : list nat :=
  match m with ModeRaw => ALL_MEMBER_INDICES | ModeSnark => SNARK_AGGREGATOR_INDICES end.

Definition can_aggregate (m : Mode) (index : nat) : bool :=
  bool_decide (index ∈ aggregator_indices m).

Definition format_indices (indices : list nat) : string :=
  String.concat ", " (pretty <$> indices).

Definition holder_addr : string := (HOLDER_IP +:+ ":" +:+ pretty HOLDER_PORT)%string.

(** [env::var(name).ok().and_then(|v| v.parse().ok()).unwrap_or(default)]. *)
Definition env_u64 (var : option string) (dflt : Z) : Z :=
  default dflt (v ← var; result_ok (parse_unsigned u64_max (str v))).

(** Milliseconds and seconds. *)
Definition sign_window (var : option string) : Z := env_u64 var 5000.
Definition request_timeout (var : option string) : Z := env_u64 var 900.

(** Positions in the table are the indices: an address names at most one member,
    every member has one, and who may aggregate is a member. *)
Lemma address_table i ip :
  (index_of_ip ip = Some i ↔ MEMBER_IPS !! i = Some ip) ∧
  (is_Some (member_addr i) ↔ (i < N_MEMBERS)%nat) ∧
  (∀ m, can_aggregate m i = true → (i < N_MEMBERS)%nat) ∧
  (i < N_MEMBERS → can_aggregate ModeRaw i = true)%nat.
Proof.
  split_and!.
  - apply position_spec. apply (bool_decide_unpack _). vm_compute. exact I.
  - unfold member_addr. rewrite fmap_is_Some, lookup_lt_is_Some. done.
  - intros m Hm. apply bool_decide_eq_true in Hm.
    assert (Forall (λ i, i < N_MEMBERS)%nat (aggregator_indices m)) as Hall
      by (destruct m; apply (bool_decide_unpack _); vm_compute; exact I).
    rewrite Forall_forall in Hall. by apply Hall.
  - intros Hi. apply bool_decide_eq_true_2. change (aggregator_indices ModeRaw) with (seq 0 10).
    apply elem_of_seq. unfold N_MEMBERS in Hi. lia.
Qed.
