(* ===== verification/Corpus.v ===== *)
(** * The single-process demonstration and its forgeries (src/main.rs)

    Twenty updates signed by a rotating window of the committee, each proved and
    verified, then three forgeries that the verifier must reject.  Timing, memory
    readings and printing are not modelled; the keys that [key_gen] returned and
    the random entries are arguments, and every use of a key is logged. *)
From S2P Require Import Prelude External Instances Seats StatusLists Committees Verifiers Params.

Open Scope Z_scope.

Section corpus.
Context `{HH : Hashes} `{XX : Xmss} `{VM : !LeanVm} `{BL : BitListOps} `{SC : !Ssz CommitteeWire}.

(** ** Signing with process-local keys *)

Abbreviation KeyPair := (XmssSecretKey * XmssPublicKey)%type.

(** The random generator, and every (key, slot) a key was applied at, latest
    first; a key is named by its public key. *)
Record Session := mkSession { s_rng : nat; s_used : list (XmssPublicKey * Z) }.

(** [sign(&mut rng, sk, &message, slot).expect(what)] with [keypairs[index]]; the
    error is the panic. *)
Definition sign_one (what : string) (keypairs : list KeyPair) (message : bytes) (slot : Z) (index : nat)
    (st : Session) : result (XmssPublicKey * XmssSignature * Session) string :=
  let? (secret, public) := ok_or (keypairs !! index) "index out of bounds"%string in
  let? signature := map_err (λ e, what +:+ ": " +:+ e)%string
                      (xmss_sign (s_rng st) secret message slot) in
  Ok (public, signature, mkSession (S (s_rng st)) ((public, slot) :: s_used st)).

Fixpoint sign_signers (what : string) (keypairs : list KeyPair) (message : bytes) (slot : Z) (signers : list nat)
    (st : Session) : result (list (XmssPublicKey * XmssSignature) * Session) string :=
  match signers with
  | [] => Ok ([], st)
  | index :: signers =>
      let? (public, signature, st) := sign_one what keypairs message slot index st in
      let? (raws, st) := sign_signers what keypairs message slot signers st in
      Ok ((public, signature) :: raws, st)
  end.

(** The sorted copy has no two equal neighbours. *)
Definition distinct_signers (signers : list nat) : bool :=
  negb (any_adjacent (λ a b, Z.of_nat a =? Z.of_nat b) (sort_by_key Z.of_nat signers)).

Definition make_signed_proof (c : Committee) (keypairs : list KeyPair) (signers : list nat)
    (list : list bytes) (slot version : Z) (st : Session) : result (bytes * Session) string :=
  if negb (distinct_signers signers)
  then Err "adversarial fixture must not reuse an XMSS key at one slot"%string
  else
    let message := message_for c WotsXmss list version in
    let? (raws, st) := sign_signers "signing failed" keypairs message slot signers st in
    let? proof := prover_aggregate raws message slot LOG_INV_RATE in
    Ok (proof, st).

(** ** Updates *)

Definition run_flow (v : PQSNARKVerifierModule) (keypairs : list KeyPair) (signers : list nat)
    (list : list bytes) (version : Z) (st : Session) : result (SnarkStatusList * Session) string :=
  let c := sv_committee v in
  let message := message_for c WotsXmss list version in
  let? slot := ok_or (slot_for c version) "slot overflow"%string in
  let? (raws, st) := sign_signers "signing failed" keypairs message slot signers st in
  let? zk_proof := make_proof c WotsXmss raws list version LOG_INV_RATE in
  let status_list := mkSnarkStatusList WotsXmss list version zk_proof in
  if negb (snark_verify v status_list) then Err "a legitimate update failed to verify"%string
  else Ok (status_list, st).

(** [(0..T).map(|j| (i + j) % N_MEMBERS)]. *)
Definition rotating (i n t : nat) : list nat := (λ j, (i + j) mod n)%nat <$> seq 0 t.

(** [count] updates from version [i] on; [fresh] are the random entries. *)
Fixpoint updates (v : PQSNARKVerifierModule) (keypairs : list KeyPair) (n t : nat)
    (fresh : nat → bytes) (count i : nat) (list : list bytes) (st : Session) :
    result (Datatypes.list bytes * Datatypes.list SnarkStatusList * Session) string :=
  match count with
  | O => Ok (list, [], st)
  | S count =>
      let list := list ++ [hash_any (fresh i)] in
      let? (sl, st) := run_flow v keypairs (rotating i n t) list (Z.of_nat i) st in
      let? (list, sls, st) := updates v keypairs n t fresh count (S i) list st in
      Ok (list, sl :: sls, st)
  end.

(** ** The security tests *)

Definition FAKE_REVOCATION : bytes := ascii_bytes (str "FAKE-REVOCATION").

(** A) a tampered list carrying a proof of a different list. *)
Definition tamper_rejected (v : PQSNARKVerifierModule) (keypairs : list KeyPair) (t : nat)
    (list : list bytes) (st : Session) : result (bool * Session) string :=
  let c := sv_committee v in
  let honest_version := Z.of_nat N_UPDATES in
  let? honest_slot := ok_or (slot_for c honest_version) "slot overflow"%string in
  let? (good_proof, st) :=
    make_signed_proof c keypairs (seq 0 t) list honest_slot honest_version st in
  let tampered := list ++ [hash_any FAKE_REVOCATION] in
  Ok (negb (snark_verify v (mkSnarkStatusList WotsXmss tampered honest_version good_proof)), st).

(** B) a proof from signers outside the committee. *)
Definition outsider_rejected (v : PQSNARKVerifierModule) (outsiders : list KeyPair) (t : nat)
    (entry : bytes) (st : Session) : result (bool * Session) string :=
  let c := sv_committee v in
  let out_list := [hash_any entry] in
  let? (out_proof, st) := make_signed_proof c outsiders (seq 0 t) out_list SLOT 0 st in
  Ok (negb (snark_verify v (mkSnarkStatusList WotsXmss out_list 0 out_proof)), st).

(** C) a proof of the last update relabelled with an inflated version, signed at
    the slot of that version. *)
Definition version_rejected (v : PQSNARKVerifierModule) (keypairs : list KeyPair) (t : nat)
    (list : list bytes) (st : Session) : result (bool * Session) string :=
  let c := sv_committee v in
  let spoof_version := KEY_SLOTS in
  let? spoof_slot := ok_or (slot_for c spoof_version) "slot overflow"%string in
  let signed_version := Z.of_nat N_UPDATES - 1 in
  let? (versioned_proof, st) :=
    make_signed_proof c keypairs (seq 0 t) list spoof_slot signed_version st in
  Ok (negb (snark_verify v (mkSnarkStatusList WotsXmss list spoof_version versioned_proof)), st).

(** [main]: [sec_ok], the published updates, and the session. *)
Definition demo_main (n t : nat) (keypairs outsiders : list KeyPair) (fresh : nat → bytes)
    (st : Session) : result (bool * list SnarkStatusList * Session) string :=
  let? committee := committee_new (snd <$> keypairs) (Z.of_nat t) SLOT in
  let v := mkSnarkVerifier committee 0 in
  let? (list, sls, st) := updates v keypairs n t fresh N_UPDATES 0 [] st in
  let? (a, st) := tamper_rejected v keypairs t list st in
  let? (b, st) := outsider_rejected v outsiders t (fresh N_UPDATES) st in
  let? (c, st) := version_rejected v keypairs t list st in
  Ok (a && b && c, sls, st).

(** ** What leanVM documents about fresh keys *)

(** A key generated for the window signs any message at any of its slots, and the
    signature verifies. *)
Definition signs (keypairs : list KeyPair) : Prop :=
  ∀ sk pk rng m slot, (sk, pk) ∈ keypairs → SLOT ≤ slot ≤ SLOT + KEY_SLOTS →
    ∃ sig, xmss_sign rng sk m slot = Ok sig ∧ xmss_verify pk m sig slot = true.

Definition in_window (slot : Z) : Prop := SLOT ≤ slot ≤ SLOT + KEY_SLOTS.

(** The keys a list of signers uses. *)
Definition keys_of (keypairs : list KeyPair) (signers : list nat) : list XmssPublicKey :=
  omap (λ i, (snd <$> keypairs) !! i) signers.

Lemma sign_one_ok what keypairs message slot i st :
  signs keypairs → in_window slot → (i < length keypairs)%nat →
  ∃ pk sig, (snd <$> keypairs) !! i = Some pk ∧ xmss_verify pk message sig slot = true ∧
    sign_one what keypairs message slot i st =
      Ok (pk, sig, mkSession (S (s_rng st)) ((pk, slot) :: s_used st)).
Proof.
  intros Hs Hw Hi. destruct (lookup_lt_is_Some_2 keypairs i Hi) as [[sk pk] Hk].
  destruct (Hs sk pk (s_rng st) message slot) as (sig & Hsig & Hver);
    [by eapply list_elem_of_lookup_2|done|].
  exists pk, sig. split; [exact (eq_trans (list_lookup_fmap snd keypairs i) (f_equal (fmap snd) Hk))|].
  split; [done|]. unfold sign_one. rewrite Hk. cbn [ok_or result_bind]. by rewrite Hsig.
Qed.

Lemma keys_of_cons keypairs i pk signers :
  (snd <$> keypairs) !! i = Some pk → keys_of keypairs (i :: signers) = pk :: keys_of keypairs signers.
Proof. intros Hpk. unfold keys_of. cbn [omap list_omap]. by rewrite Hpk. Qed.

Lemma sign_signers_ok what keypairs message slot signers st :
  signs keypairs → in_window slot → Forall (λ i, i < length keypairs)%nat signers →
  ∃ raws rng, sign_signers what keypairs message slot signers st =
      Ok (raws, mkSession rng (reverse ((., slot) <$> keys_of keypairs signers) ++ s_used st)) ∧
    fst <$> raws = keys_of keypairs signers ∧ length raws = length signers ∧
    Forall (λ x, xmss_verify x.1 message x.2 slot = true) raws.
Proof.
  intros Hs Hw Hall. revert st. induction Hall as [|i signers Hi _ IH]; intros st.
  { exists [], (s_rng st). by destruct st. }
  destruct (sign_one_ok what keypairs message slot i st) as (pk & sig & Hpk & Hver & Hone); [done..|].
  cbn [sign_signers]. rewrite Hone. cbn [result_bind].
  destruct (IH (mkSession (S (s_rng st)) ((pk, slot) :: s_used st))) as (raws & rng & -> & Hf & Hl & Hv).
  cbn [result_bind]. exists ((pk, sig) :: raws), rng. rewrite (keys_of_cons _ _ _ _ Hpk). split_and!.
  - cbn [fmap list_fmap s_used]. rewrite reverse_cons, <-app_assoc. done.
  - simpl. by f_equal.
  - simpl. by f_equal.
  - by constructor.
Qed.

Lemma distinct_signers_spec signers : distinct_signers signers = true ↔ NoDup signers.
Proof.
  unfold distinct_signers. rewrite negb_true_iff.
  rewrite any_adjacent_dup by apply sort_by_key_sorted. split.
  - intros Hs. rewrite <-(sort_by_key_perm Z.of_nat signers).
    induction Hs as [|i l _ IH Hi]; constructor; [|done]. intros Hin.
    rewrite Forall_forall in Hi. specialize (Hi i Hin). unfold key_lt in Hi. lia.
  - intros Hn. rewrite <-(sort_by_key_perm Z.of_nat signers) in Hn.
    pose proof (sort_by_key_sorted Z.of_nat signers) as Hs. revert Hn.
    induction Hs as [|i l _ IH Hi]; [constructor|]. intros [Hni Hn]%NoDup_cons.
    constructor; [by apply IH|]. apply Forall_forall. intros j Hj.
    rewrite Forall_forall in Hi. specialize (Hi j Hj). unfold key_le, key_lt in *.
    assert (i ≠ j) by congruence. lia.
Qed.

(** A window of [t ≤ n] consecutive seats, wrapping around. *)
Lemma rotating_ok i n t :
  (0 < n)%nat → (t ≤ n)%nat → NoDup (rotating i n t) ∧ Forall (λ k, k < n)%nat (rotating i n t).
Proof.
  intros Hn Ht. split; [by apply rotation_NoDup|]. apply Forall_fmap, Forall_forall. intros j _. simpl.
  apply Nat.mod_upper_bound. lia.
Qed.

Lemma keys_of_nodup keypairs signers :
  NoDup (snd <$> keypairs) → NoDup signers → NoDup (keys_of keypairs signers).
Proof. apply NoDup_omap_lookup. Qed.

Lemma keys_of_members keypairs signers pk : pk ∈ keys_of keypairs signers → pk ∈ snd <$> keypairs.
Proof. intros (i & _ & Hi)%list_elem_of_omap. by eapply list_elem_of_lookup_2. Qed.

Lemma length_keys_of keypairs signers :
  Forall (λ i, i < length keypairs)%nat signers → length (keys_of keypairs signers) = length signers.
Proof. intros H. apply length_omap_lookup. by rewrite length_fmap. Qed.

(** ** What one proof attests *)

(** The pairs a set of signers uses at a slot, in the order of the log. *)
Definition uses (keypairs : list KeyPair) (signers : list nat) (slot : Z) :
    list (XmssPublicKey * Z) := reverse ((., slot) <$> keys_of keypairs signers).

(** [proof] decodes to an aggregate of [keys] on [message] at [slot]. *)
Definition attests (proof : bytes) (slot : Z) (message : bytes) (keys : list XmssPublicKey) : Prop :=
  ∃ a pks, agg_from_bytes proof = Ok a ∧ agg_to_bytes a = proof ∧
    agg_xmss_signers a = [(slot, message, pks)] ∧ pks ≡ₚ keys.

Section laws.
Context (Hagg : aggregates).

Lemma make_signed_proof_ok c keypairs signers list slot version st :
  signs keypairs → NoDup (snd <$> keypairs) → in_window slot →
  NoDup signers → signers ≠ [] → Forall (λ i, i < length keypairs)%nat signers →
  ∃ proof rng, make_signed_proof c keypairs signers list slot version st =
      Ok (proof, mkSession rng (uses keypairs signers slot ++ s_used st)) ∧
    attests proof slot (message_for c WotsXmss list version) (keys_of keypairs signers).
Proof.
  intros Hs Hks Hw Hnd Hne Hall. unfold make_signed_proof.
  rewrite (proj2 (distinct_signers_spec signers)) by done. cbn [negb].
  destruct (sign_signers_ok "signing failed" keypairs (message_for c WotsXmss list version) slot signers st)
    as (raws & rng & -> & Hf & Hl & Hv); [done..|]. cbn [result_bind].
  destruct (Hagg raws (message_for c WotsXmss list version) slot LOG_INV_RATE)
    as (a & pks & Ha & Hrt & _ & Hg & Hp & _).
  - unfold in_window, is_u32, SLOT, KEY_SLOTS, u32_max in *. lia.
  - apply blake2s_256_length.
  - intros ->. by destruct signers.
  - rewrite Hf. by apply keys_of_nodup.
  - done.
  - exists (agg_to_bytes a), rng. unfold prover_aggregate. rewrite Ha. split; [done|].
    exists a, pks. rewrite Hf in Hp. by split_and!.
Qed.

(** What the verifier needs from an attested proof. *)
Lemma attests_verified c last proof slot message keys list version :
  attests proof slot message keys →
  snark_verify (mkSnarkVerifier c last) (mkSnarkStatusList WotsXmss list version proof) = true →
  message = message_for c WotsXmss list version ∧ ∀ pk, pk ∈ keys → pk ∈ members c.
Proof.
  intros (a & pks & Hd & Hb & Hg & Hp). unfold snark_verify, StatusLists.proof. simpl.
  rewrite Hd. simpl. rewrite bool_decide_eq_true_2 by done. simpl.
  intros (_ & slot' & pks' & Hg' & Hmem & _)%check_true. rewrite Hg in Hg'.
  injection Hg' as _ -> <-. split; [done|]. intros pk Hpk. apply Hmem. by rewrite Hp.
Qed.

(** An honest update is signed, proved and verified. *)
Lemma run_flow_ok c last keypairs signers list version st :
  wf_committee c → members c = snd <$> keypairs → genesis_slot c = SLOT →
  signs keypairs → 0 ≤ version ≤ KEY_SLOTS → threshold c ≤ Z.of_nat (length signers) →
  NoDup signers → Forall (λ i, i < length keypairs)%nat signers →
  ∃ sl rng, run_flow (mkSnarkVerifier c last) keypairs signers list version st =
      Ok (sl, mkSession rng (uses keypairs signers (SLOT + version) ++ s_used st)) ∧
    sn_status_list sl = list ∧ sn_version sl = version ∧
    snark_verify (mkSnarkVerifier c last) sl = true.
Proof.
  intros Hc Hm Hg Hs Hv Ht Hnd Hall. unfold run_flow. simpl.
  assert (Hslot : slot_for c version = Some (SLOT + version)).
  { unfold slot_for, checked_add_u32. rewrite Hg.
    by rewrite (proj2 (Z.leb_le _ _)) by (unfold SLOT, KEY_SLOTS, u32_max in *; lia). }
  rewrite Hslot. cbn [ok_or result_bind].
  destruct (sign_signers_ok "signing failed" keypairs (message_for c WotsXmss list version) (SLOT + version) signers
    st) as (raws & rng & -> & Hf & Hl & Hver); [done|unfold in_window; lia|done|].
  cbn [result_bind].
  destruct (quorum_proved c WotsXmss raws list version (SLOT + version) LOG_INV_RATE)
    as (b & -> & Hb); try done.
  - unfold is_u32, u32_max, KEY_SLOTS in *. lia.
  - rewrite Hf. apply keys_of_nodup; [rewrite <-Hm; apply Hc|done].
  - by rewrite Hl.
  - apply Forall_forall. intros x Hx. split.
    + rewrite Hm. apply (keys_of_members keypairs signers). rewrite <-Hf. by apply list_elem_of_fmap_2.
    + rewrite Forall_forall in Hver. by apply Hver.
  - cbn [result_bind]. destruct (Hb last) as [Hok _]. rewrite Hok. cbn [negb].
    by eexists _, rng.
Qed.

(** ** The whole demonstration *)

Section demonstration.
Context (n t : nat) (keypairs outsiders : list KeyPair) (fresh : nat → bytes).
Context (c : Committee) (Hc : wf_committee c) (Hmem : members c = snd <$> keypairs)
  (Hthr : Committees.t c = Z.of_nat t) (Hgen : genesis_slot c = SLOT).
Context (Hlen : length keypairs = n) (Hs : signs keypairs).

Lemma sizes : (0 < t)%nat ∧ (t ≤ n)%nat.
Proof. pose proof (wc_threshold _ Hc) as H. rewrite Hthr, Hmem, length_fmap, Hlen in H. lia. Qed.

(** Every use so far is of a member, at a slot in [lo, hi). *)
Definition between (lo hi : Z) (x : XmssPublicKey * Z) : Prop :=
  x.1 ∈ snd <$> keypairs ∧ lo ≤ x.2 < hi.

Lemma elem_of_uses kps signers slot x :
  x ∈ uses kps signers slot → x.1 ∈ snd <$> kps ∧ x.2 = slot.
Proof.
  unfold uses. rewrite elem_of_reverse. intros (pk & -> & Hpk)%list_elem_of_fmap.
  split; [by eapply keys_of_members|done].
Qed.

Lemma uses_nodup kps signers slot : NoDup (snd <$> kps) → NoDup signers → NoDup (uses kps signers slot).
Proof.
  intros Hk Hn. unfold uses. rewrite reverse_Permutation. apply NoDup_fmap_2; [intros x y; congruence|]. by apply keys_of_nodup.
Qed.

Lemma keys_nodup : NoDup (snd <$> keypairs).
Proof. rewrite <-Hmem. apply Hc. Qed.

(** Appending the uses at one more slot keeps all of them distinct. *)
Lemma uses_app kps signers slot used :
  NoDup (snd <$> kps) → NoDup signers → NoDup used →
  (∀ x, x ∈ used → x.1 ∈ snd <$> kps → x.2 ≠ slot) →
  NoDup (uses kps signers slot ++ used).
Proof.
  intros Hk Hn Hu Hd. apply NoDup_app. split_and!; [by apply uses_nodup| |done].
  intros x Hx Hin. apply elem_of_uses in Hx as [Hx1 Hx2]. by apply (Hd x).
Qed.

(** The entries that updates [i], [i + 1], ... add. *)
Definition grown (fresh : nat → bytes) (i count : nat) : Datatypes.list bytes :=
  (λ k, hash_any (fresh k)) <$> seq i count.

Lemma updates_ok count i list st last :
  (i + count ≤ N_UPDATES)%nat → wf_entries list → NoDup (s_used st) →
  Forall (between SLOT (SLOT + Z.of_nat i)) (s_used st) →
  ∃ list' sls st', updates (mkSnarkVerifier c last) keypairs n t fresh count i list st =
      Ok (list', sls, st') ∧ list' = list ++ grown fresh i count ∧ wf_entries list' ∧
    length sls = count ∧ Forall (λ sl, snark_verify (mkSnarkVerifier c last) sl = true) sls ∧
    NoDup (s_used st') ∧ Forall (between SLOT (SLOT + Z.of_nat (i + count))) (s_used st').
Proof.
  revert i list st. induction count as [|count IH]; intros i list st Hi Hl Hnd Hall.
  { exists list, [], st. rewrite Nat.add_0_r. split_and!; try done. by rewrite app_nil_r. }
  cbn [updates]. pose proof sizes as [Ht0 Htn].
  destruct (rotating_ok i n t) as [Hrn Hr]; [lia|done|].
  assert (Hr' : Forall (λ k, k < length keypairs)%nat (rotating i n t)) by (by rewrite Hlen).
  destruct (run_flow_ok c last keypairs (rotating i n t) (list ++ [hash_any (fresh i)])
    (Z.of_nat i) st) as (sl & rng & -> & _ & _ & Hv); try done.
  { unfold KEY_SLOTS, N_UPDATES in *. lia. }
  { unfold threshold, rotating. by rewrite Hthr, length_fmap, length_seq. }
  cbn [result_bind]. edestruct (IH (S i)) as (list' & sls & st' & -> & El & Hl' & Hn' & Hvs & Hnd' & Hall').
  5:{ cbn [result_bind]. exists list', (sl :: sls), st'. rewrite <-Nat.add_succ_comm.
      split_and!; [done|by rewrite El, <-app_assoc|done|simpl; by f_equal|by constructor|done|done]. }
  - lia.
  - apply Forall_app. split; [done|]. apply Forall_singleton, sha3_256_length.
  - simpl. apply uses_app; [apply keys_nodup|done|done|]. intros x Hx _.
    rewrite Forall_forall in Hall. destruct (Hall x Hx). lia.
  - simpl. apply Forall_app. split.
    + apply Forall_forall. intros x [Hx1 Hx2]%elem_of_uses. split; [done|]. lia.
    + eapply Forall_impl; [exact Hall|]. intros x []. split; [done|]. lia.
Qed.

Lemma quorum_seats : NoDup (seq 0 t) ∧ seq 0 t ≠ [] ∧ Forall (λ i, i < n)%nat (seq 0 t).
Proof.
  pose proof sizes as [Ht0 Htn]. split_and!; [apply NoDup_seq|by destruct t; [lia|]|].
  apply Forall_forall. intros i Hi%elem_of_seq. lia.
Qed.

Lemma slot_in_window k : 0 ≤ k ≤ KEY_SLOTS → slot_for c k = Some (SLOT + k) ∧ in_window (SLOT + k).
Proof.
  intros Hk. unfold slot_for, checked_add_u32, in_window. rewrite Hgen. split; [|lia].
  by rewrite (proj2 (Z.leb_le _ _)) by (unfold SLOT, KEY_SLOTS, u32_max in *; lia).
Qed.

(** The two statements that BLAKE2s must separate for a forgery to be rejected. *)
Definition tamper_clash (c : Committee) (list : Datatypes.list bytes) : Prop :=
  statement_clash c list (Z.of_nat N_UPDATES) (list ++ [hash_any FAKE_REVOCATION]) (Z.of_nat N_UPDATES).
Definition version_clash (c : Committee) (list : Datatypes.list bytes) : Prop :=
  statement_clash c list (Z.of_nat N_UPDATES - 1) list KEY_SLOTS.

Lemma tamper_rejected_ok last list st :
  wf_entries list →
  ∃ b rng, tamper_rejected (mkSnarkVerifier c last) keypairs t list st =
      Ok (b, mkSession rng (uses keypairs (seq 0 t) (SLOT + Z.of_nat N_UPDATES) ++ s_used st)) ∧
    (b = true ∨ tamper_clash c list).
Proof.
  intros Hl. destruct quorum_seats as (Hq1 & Hq2 & Hq3). rewrite <-Hlen in Hq3.
  destruct (slot_in_window (Z.of_nat N_UPDATES)) as [Hslot Hw]; [unfold KEY_SLOTS, N_UPDATES; lia|].
  unfold tamper_rejected. cbn [sv_committee]. rewrite Hslot. cbn [ok_or result_bind].
  destruct (make_signed_proof_ok c keypairs (seq 0 t) list (SLOT + Z.of_nat N_UPDATES)
    (Z.of_nat N_UPDATES) st) as (proof & rng & -> & Hatt); try done; [apply keys_nodup|].
  cbn [result_bind]. eexists _, rng. split; [done|].
  destruct (snark_verify _ _) eqn:E; [|by left]. right.
  eapply attests_verified in E as [Em _]; [|exact Hatt].
  apply message_for_inj in Em as [[E _]|?]; [|done|done| |done..].
  - apply (f_equal length) in E. rewrite length_app in E. simpl in E. lia.
  - apply Forall_app. split; [done|]. apply Forall_singleton, sha3_256_length.
Qed.

Lemma version_rejected_ok last list st :
  wf_entries list →
  ∃ b rng, version_rejected (mkSnarkVerifier c last) keypairs t list st =
      Ok (b, mkSession rng (uses keypairs (seq 0 t) (SLOT + KEY_SLOTS) ++ s_used st)) ∧
    (b = true ∨ version_clash c list).
Proof.
  intros Hl. destruct quorum_seats as (Hq1 & Hq2 & Hq3). rewrite <-Hlen in Hq3.
  destruct (slot_in_window KEY_SLOTS) as [Hslot Hw]; [unfold KEY_SLOTS; lia|].
  unfold version_rejected. cbn [sv_committee]. rewrite Hslot. cbn [ok_or result_bind].
  destruct (make_signed_proof_ok c keypairs (seq 0 t) list (SLOT + KEY_SLOTS)
    (Z.of_nat N_UPDATES - 1) st) as (proof & rng & -> & Hatt); try done; [apply keys_nodup|].
  cbn [result_bind]. eexists _, rng. split; [done|].
  destruct (snark_verify _ _) eqn:E; [|by left]. right.
  eapply attests_verified in E as [Em _]; [|exact Hatt].
  by apply message_for_inj in Em as [[_ E]|?].
Qed.

Lemma outsider_rejected_ok last entry st :
  signs outsiders → NoDup (snd <$> outsiders) → length outsiders = t →
  (∀ pk, pk ∈ snd <$> outsiders → pk ∉ snd <$> keypairs) →
  ∃ rng, outsider_rejected (mkSnarkVerifier c last) outsiders t entry st =
      Ok (true, mkSession rng (uses outsiders (seq 0 t) SLOT ++ s_used st)).
Proof.
  intros Hos Hnd Hl Hout. destruct quorum_seats as (Hq1 & Hq2 & _).
  assert (Hq3 : Forall (λ i, i < length outsiders)%nat (seq 0 t)).
  { apply Forall_forall. intros i Hi%elem_of_seq. lia. }
  unfold outsider_rejected. cbn [sv_committee].
  destruct (make_signed_proof_ok c outsiders (seq 0 t) [hash_any entry] SLOT 0 st)
    as (proof & rng & -> & Hatt); try done.
  cbn [result_bind]. exists rng. do 3 f_equal.
  destruct (snark_verify _ _) eqn:E; [|done].
  eapply attests_verified in E as [_ Hin]; [|exact Hatt].
  destruct (keys_of outsiders (seq 0 t)) as [|pk l] eqn:Ek.
  { apply (f_equal length) in Ek. rewrite length_keys_of, length_seq in Ek by done.
    pose proof sizes. simpl in Ek. lia. }
  destruct (Hout pk).
  - apply (keys_of_members outsiders (seq 0 t)). rewrite Ek. apply list_elem_of_here.
  - rewrite <-Hmem. apply Hin, list_elem_of_here.
Qed.
End demonstration.
End laws.

(** C19 The demonstration shows what it says: with distinct fresh keys, [main]
    runs to its end, all twenty updates verify, no key is ever applied twice at
    one slot, and the three forgeries (a tampered list, a quorum of outsiders, a
    relabelled version) are all rejected, unless BLAKE2s collides on the honest
    statement and the one forged from it. *)
Theorem demonstration_secure n t keypairs outsiders fresh rng :
  aggregates → signs keypairs → signs outsiders →
  NoDup (snd <$> keypairs ++ outsiders) → length keypairs = n → length outsiders = t →
  (1 ≤ t)%nat → (t ≤ n)%nat → (n ≤ MAX_COMMITTEE_SIZE)%nat →
  ∃ sec_ok sls st, demo_main n t keypairs outsiders fresh (mkSession rng []) = Ok (sec_ok, sls, st) ∧
    length sls = N_UPDATES ∧ NoDup (s_used st) ∧
    (∀ c, committee_new (snd <$> keypairs) (Z.of_nat t) SLOT = Ok c →
       Forall (λ sl, snark_verify (mkSnarkVerifier c 0) sl = true) sls) ∧
    (sec_ok = true ∨ ∃ c, committee_new (snd <$> keypairs) (Z.of_nat t) SLOT = Ok c ∧
       (tamper_clash c (grown fresh 0 N_UPDATES) ∨ version_clash c (grown fresh 0 N_UPDATES))).
Proof.
  intros Hagg Hs Hos Hnd Hlen Hlo Ht1 Htn Hmax.
  rewrite fmap_app in Hnd. apply NoDup_app in Hnd as (Hnk & Hdis & Hno).
  set (c := mkCommittee (snd <$> keypairs) (Z.of_nat t) SLOT
    (fingerprint_of (snd <$> keypairs) (Z.of_nat t) SLOT)).
  assert (Hc : wf_committee c).
  { split; try done; simpl; rewrite ?length_fmap; lia. }
  assert (Hnew : committee_new (snd <$> keypairs) (Z.of_nat t) SLOT = Ok c)
    by (apply committee_new_ok; [done|by split_and!]).
  unfold demo_main. rewrite Hnew. cbn [result_bind].
  edestruct (updates_ok Hagg n t keypairs fresh c Hc) as
    (list & sls & st & -> & El & Hl & Hsls & Hvs & Hn1 & Hb1); try done; [constructor..|].
  simpl app in El.
  cbn [result_bind]. simpl Nat.add in Hb1.
  edestruct (tamper_rejected_ok Hagg n t keypairs c Hc) as (a & rng1 & -> & Ha); try done.
  cbn [result_bind].
  edestruct (outsider_rejected_ok Hagg n t keypairs outsiders c Hc) as (rng2 & ->); try done.
  { intros pk Ho Hk. by apply (Hdis pk). }
  cbn [result_bind].
  edestruct (version_rejected_ok Hagg n t keypairs c Hc) as (b & rng3 & -> & Hb); try done.
  cbn [result_bind s_used]. eexists _, sls, _. split; [done|]. split_and!; [done| |naive_solver|].
  - rewrite Forall_forall in Hb1. simpl.
    apply uses_app; [done|apply NoDup_seq| |].
    + apply uses_app; [done|apply NoDup_seq| |].
      * apply uses_app; [done|apply NoDup_seq|done|]. intros x Hx _. destruct (Hb1 x Hx). lia.
      * intros x [Hx|Hx]%elem_of_app Ho.
        -- apply elem_of_uses in Hx as [Hk _]. by destruct (Hdis (x.1)).
        -- destruct (Hb1 x Hx) as [Hk _]. by destruct (Hdis (x.1)).
    + intros x [Hx|[Hx|Hx]%elem_of_app]%elem_of_app Hk.
      * apply elem_of_uses in Hx as [Ho _]. by destruct (Hdis (x.1)).
      * apply elem_of_uses in Hx as [_ ->]. by vm_compute.
      * destruct (Hb1 x Hx) as [_ Hr]. unfold SLOT, KEY_SLOTS, N_UPDATES in *. lia.
  - rewrite <-El. destruct Ha as [->|?]; [|right; exists c; tauto].
    destruct Hb as [->|?]; [by left|right; exists c; tauto].
Qed.
End corpus.
