(* ===== verification/Fixture.v ===== *)
(** * The committee fixture (src/bin/committee_fixture.rs)

    The process that holds the committee's keys: it signs every update of the
    benchmark and the records the forgeries are made from, and writes them as raw
    records.  Keys and randomness are given; a panic is an error. *)
From S2P Require Import Prelude External Instances Seats StatusLists Committees Verifiers Params.
From S2P Require Import Workload Artifacts Corpus.

Open Scope Z_scope.

Section fixture.
Context `{HH : Hashes} `{XX : Xmss} `{VM : !LeanVm} `{BL : BitListOps}.
Context `{SR : !Ssz RawStatusListWire} `{SC : !Ssz CommitteeWire} `{DK : Disk}.

Abbreviation KeyPair := (XmssSecretKey * XmssPublicKey)%type.

Definition known_file (name : string) : bool :=
  bool_decide (name = "anchor.bin"%string) || bool_decide (name = "outsider-anchor.bin"%string) ||
  bool_decide (name = "workload.txt"%string) || String.prefix "raw-update-" name ||
  String.prefix "raw-attack-" name.

(** Removing a file does not fail in the model. *)
Definition clear_known_files (files : Files) : Files :=
  filter (λ x, known_file x.1 = false) files.

Fixpoint signatures_for (keypairs : list KeyPair) (indices : list nat) (message : bytes) (slot : Z)
    (st : Session) : result (list (nat * XmssSignature) * Session) string :=
  match indices with
  | [] => Ok ([], st)
  | index :: indices =>
      let? (_, signature, st) := sign_one "fixture signing failed" keypairs message slot index st in
      let? (rest, st) := signatures_for keypairs indices message slot st in
      Ok ((index, signature) :: rest, st)
  end.

(** [StatusList::new(..).expect(what)]. *)
Definition canonical_record (what : string) (n : nat) (list : list bytes) (version : Z)
    (signatures : Datatypes.list (nat * XmssSignature)) : result StatusList string :=
  map_err (λ e, what +:+ ": " +:+ e)%string (status_list_new WotsXmss list version n signatures).

(** [count] updates from [version] on; [k] numbers the random draws. *)
Fixpoint fixture_updates (outdir : string) (c : Committee) (keypairs : list KeyPair) (n t : nat)
    (entries : option nat) (fresh : nat → bytes) (count version k : nat) (list : list bytes)
    (files : Files) (st : Session) : result (Datatypes.list bytes * Files * Session) string :=
  match count with
  | O => Ok (list, files, st)
  | S count =>
      let? (list, k) := advance_list (λ j, hash_any (fresh j)) list (Z.of_nat version) entries k in
      let? slot := ok_or (slot_for c (Z.of_nat version)) "fixture slot overflow"%string in
      let message := message_for c WotsXmss list (Z.of_nat version) in
      let? indices := quorum_indices n t (Z.of_nat version) in
      let? (signatures, st) := signatures_for keypairs indices message slot st in
      let? record := canonical_record "honest fixture must be canonical" n list (Z.of_nat version)
                       signatures in
      let? files := write outdir (raw_update_name version) (to_bytes record) files in
      fixture_updates outdir c keypairs n t entries fresh count (S version) k list files st
  end.

(** The four records the forgeries are made from, and the outsider's anchor. *)
Definition fixture_attacks (outdir : string) (c : Committee) (keypairs : list KeyPair)
    (outsider : KeyPair) (n t : nat) (list : list bytes) (files : Files) (st : Session) :
    result (Files * Session) string :=
  let attack_version := Z.of_nat N_UPDATES in
  let? attack_slot := ok_or (slot_for c attack_version) "fixture attack slot overflow"%string in
  let attack_message := message_for c WotsXmss list attack_version in
  let? (honest, st) := signatures_for keypairs (seq 0 t) attack_message attack_slot st in
  let? honest_attack := canonical_record "attack control must be canonical" n list attack_version
                          honest in
  let? files := write outdir "raw-attack-honest.bin" (to_bytes honest_attack) files in
  let? wrong_slot := ok_or (slot_for c (attack_version + 1)) "fixture wrong-slot overflow"%string in
  let? (slot_signatures, st) := signatures_for keypairs (seq 0 t) attack_message wrong_slot st in
  let? slot_attack := canonical_record "slot control must be canonical" n list attack_version
                        slot_signatures in
  let? files := write outdir "raw-attack-slot.bin" (to_bytes slot_attack) files in
  let signed_version := Z.of_nat N_UPDATES - 1 in
  let? spoof_slot := ok_or (slot_for c KEY_SLOTS) "fixture spoof slot overflow"%string in
  let spoof_message := message_for c WotsXmss list signed_version in
  let? (spoofed, st) := signatures_for keypairs (seq 0 t) spoof_message spoof_slot st in
  let? version_attack := canonical_record "version control must be canonical" n list signed_version
                           spoofed in
  let? files := write outdir "raw-attack-version.bin" (to_bytes version_attack) files in
  let (outsider_secret, outsider_public) := outsider in
  let? outsider_members := match members c with
                           | [] => Err "index out of bounds"%string
                           | _ :: others => Ok (outsider_public :: others)
                           end in
  let? outsider_committee := committee_new outsider_members (Z.of_nat t) SLOT in
  let? files := write outdir "outsider-anchor.bin" (committee_to_bytes outsider_committee) files in
  let? (_, outsider_signature, st) :=
    sign_one "outsider signing failed" [(outsider_secret, outsider_public)] attack_message
      attack_slot 0 st in
  let? outsider := match honest with
                   | [] => Err "index out of bounds"%string
                   | _ :: others => Ok ((0%nat, outsider_signature) :: others)
                   end in
  let? outsider_attack := canonical_record "outsider fixture must be canonical" n list
                            attack_version outsider in
  let? files := write outdir "raw-attack-outsider.bin" (to_bytes outsider_attack) files in
  Ok (files, st).

(** [main], of the value of BENCH_LIST_ENTRIES. *)
Definition fixture_main (outdir : string) (n t : nat) (keypairs : list KeyPair) (outsider : KeyPair)
    (var : option string) (fresh : nat → bytes) (files : Files) (st : Session) :
    result (Files * Session) string :=
  let files := clear_known_files files in
  let? c := committee_new (snd <$> keypairs) (Z.of_nat t) SLOT in
  let? files := write outdir "anchor.bin" (committee_to_bytes c) files in
  let? entries := list_entries_from_env var in
  let entries := Z.to_nat <$> entries in
  let? (list, files, st) :=
    fixture_updates outdir c keypairs n t entries fresh N_UPDATES 0 0 [] files st in
  let? (files, st) := fixture_attacks outdir c keypairs outsider n t list files st in
  let? files := write outdir "workload.txt" (string_bytes (workload_manifest entries)) files in
  Ok (files, st).
(** ** What the fixture holds *)

Section laws.
Context `{BLL : !BitListLaws}.

(** [r] carries [t] signatures of seats of [ms], each valid on [m] at [slot]. *)
Definition signed_at (ms : list XmssPublicKey) (m : bytes) (slot : Z) (t : nat) (r : StatusList) :
    Prop :=
  signer_slots r = length ms ∧ signer_count r = t ∧ length (sl_signatures r) = t ∧
  Forall (λ x, signature_ok ms m slot x = true) (zip (signer_indices r) (sl_signatures r)).

Lemma signature_ok_lt ms m slot x : signature_ok ms m slot x = true → (x.1 < length ms)%nat.
Proof. unfold signature_ok. destruct (ms !! x.1) eqn:E; [|done]. intros _. by eapply lookup_lt_Some. Qed.

Lemma canonical_record_ok what list version pairs ms m slot :
  (length ms ≤ MAX_COMMITTEE_SIZE)%nat → NoDup (fst <$> pairs) →
  Forall (λ x, signature_ok ms m slot x = true) pairs →
  ∃ r, canonical_record what (length ms) list version pairs = Ok r ∧
    signed_at ms m slot (length pairs) r ∧ sl_status_list r = list ∧ sl_version r = version ∧
    signer_indices r ≡ₚ fst <$> pairs.
Proof.
  intros Hm Hnd Hall. pose proof (status_list_new_ok WotsXmss list version (length ms) pairs) as H.
  unfold canonical_record. destruct (status_list_new _ _ _ _ _) as [r|e].
  2:{ destruct H as [[] _]. split_and!; [done| |done].
      eapply Forall_impl; [exact Hall|]. intros x. apply signature_ok_lt. }
  destruct H as (_ & (Hs & Hc & Hz) & _ & <- & <-). exists r. split; [done|].
  assert (Hl : length (sl_signatures r) = length pairs).
  { rewrite <-(sort_by_key_perm pair_index pairs), <-Hz, length_zip_with.
    rewrite <-signer_count_indices, Hc. lia. }
  split; [split_and!; [done|by rewrite Hc|done|by rewrite Hz, sort_by_key_perm]|].
  split; [done|]. split; [done|].
  rewrite <-(fst_zip (signer_indices r) (sl_signatures r)) by (rewrite <-signer_count_indices; lia).
  by rewrite Hz, sort_by_key_perm.
Qed.

Lemma signatures_for_ok keypairs indices message slot st :
  signs keypairs → in_window slot → Forall (λ i, i < length keypairs)%nat indices →
  ∃ pairs rng, signatures_for keypairs indices message slot st =
      Ok (pairs, mkSession rng (uses keypairs indices slot ++ s_used st)) ∧
    fst <$> pairs = indices ∧
    Forall (λ x, signature_ok (snd <$> keypairs) message slot x = true) pairs.
Proof.
  intros Hs Hw Hall. revert st. induction Hall as [|i indices Hi _ IH]; intros st.
  { exists [], (s_rng st). by destruct st. }
  destruct (sign_one_ok "fixture signing failed" keypairs message slot i st) as (pk & sig & Hpk & Hver & Hone);
    [done..|].
  cbn [signatures_for]. rewrite Hone. cbn [result_bind].
  destruct (IH (mkSession (S (s_rng st)) ((pk, slot) :: s_used st))) as (pairs & rng & -> & Hf & Hv).
  cbn [result_bind]. exists ((i, sig) :: pairs), rng. unfold uses. rewrite (keys_of_cons _ _ _ _ Hpk).
  split_and!.
  - cbn [fmap list_fmap s_used]. rewrite reverse_cons, <-app_assoc. done.
  - simpl. by f_equal.
  - constructor; [|done]. unfold signature_ok. simpl. by rewrite Hpk.
Qed.

(** A signed record of [t] seats, written in one step of the program. *)
Lemma signed_record_ok what keypairs indices message slot list version st :
  signs keypairs → in_window slot → (length keypairs ≤ MAX_COMMITTEE_SIZE)%nat → NoDup indices →
  Forall (λ i, i < length keypairs)%nat indices →
  ∃ pairs rng r, signatures_for keypairs indices message slot st =
      Ok (pairs, mkSession rng (uses keypairs indices slot ++ s_used st)) ∧
    fst <$> pairs = indices ∧
    Forall (λ x, signature_ok (snd <$> keypairs) message slot x = true) pairs ∧
    canonical_record what (length keypairs) list version pairs = Ok r ∧
    signed_at (snd <$> keypairs) message slot (length indices) r ∧
    sl_status_list r = list ∧ sl_version r = version.
Proof.
  intros Hs Hw Hn Hnd Hall.
  destruct (signatures_for_ok keypairs indices message slot st) as (pairs & rng & E & Hf & Hok); [done..|].
  destruct (canonical_record_ok what list version pairs (snd <$> keypairs) message slot)
    as (r & Hr & Hsig & Hl & Hv & _); [by rewrite length_fmap|by rewrite Hf|done|].
  assert (Hk : length (snd <$> keypairs) = length keypairs) by apply length_fmap.
  assert (Hp : length pairs = length indices) by (rewrite <-Hf; symmetry; apply length_fmap).
  rewrite Hk in Hr. rewrite Hp in Hsig. by exists pairs, rng, r.
Qed.
(** *** The updates *)

(** The record of update [v]: [t] seats of [ms] signed its list at its slot. *)
Definition update_record (c : Committee) (t v : nat) (r : StatusList) : Prop :=
  sl_version r = Z.of_nat v ∧ wf_entries (sl_status_list r) ∧
  signed_at (members c) (message_for c WotsXmss (sl_status_list r) (Z.of_nat v)) (SLOT + Z.of_nat v)
    t r.

Lemma raw_update_name_inj v v' :
  (v < N_UPDATES)%nat → (v' < N_UPDATES)%nat → raw_update_name v = raw_update_name v' → v = v'.
Proof.
  intros Hv Hv' E.
  assert (Hnd : NoDup (raw_update_name <$> seq 0 N_UPDATES))
    by (apply (bool_decide_unpack _); vm_compute; exact I).
  eapply (NoDup_lookup _ v v' (raw_update_name v)); [exact Hnd| |rewrite E];
    rewrite list_lookup_fmap, lookup_seq_lt by done; done.
Qed.

Section corpus.
Context (outdir : string) (c : Committee) (keypairs : list KeyPair) (t : nat).
Context (Hc : wf_committee c) (Hmem : members c = snd <$> keypairs) (Hgen : genesis_slot c = SLOT).
Context (Hs : signs keypairs) (Ht : (t ≤ length keypairs)%nat).
Context (Hdisk : ∀ name, write_error name = None).

Lemma write_ok dir name b files : write dir name b files = Ok (<[name := b]> files).
Proof. unfold write. by rewrite Hdisk. Qed.

Lemma keypairs_size : (length keypairs ≤ MAX_COMMITTEE_SIZE)%nat.
Proof. pose proof (wc_size _ Hc) as H. by rewrite Hmem, length_fmap in H. Qed.

Lemma keypairs_distinct : NoDup (snd <$> keypairs).
Proof. rewrite <-Hmem. apply Hc. Qed.

Lemma slot_of_version v : 0 ≤ v ≤ KEY_SLOTS → slot_for c v = Some (SLOT + v) ∧ in_window (SLOT + v).
Proof.
  clear Ht. intros Hv. unfold slot_for, checked_add_u32, in_window. rewrite Hgen.
  rewrite (proj2 (Z.leb_le _ _)) by (unfold SLOT, KEY_SLOTS, u32_max in *; lia).
  split; [done|]. unfold SLOT, KEY_SLOTS in *. lia.
Qed.

Lemma between_mono kps lo hi hi' used :
  hi ≤ hi' → Forall (between kps lo hi) used → Forall (between kps lo hi') used.
Proof. clear Ht. intros Hh Hu. eapply Forall_impl; [exact Hu|]. intros x [? ?]. split; [done|lia]. Qed.

(** Using a fresh slot keeps the log free of repetitions. *)
Lemma uses_next indices hi hi' used :
  NoDup indices → SLOT ≤ hi → hi < hi' → NoDup used → Forall (between keypairs SLOT hi) used →
  NoDup (uses keypairs indices hi ++ used) ∧
  Forall (between keypairs SLOT hi') (uses keypairs indices hi ++ used).
Proof.
  clear Ht. intros Hi Hlo Hh Hnd Hb. split.
  - apply uses_app; [apply keypairs_distinct|done|done|]. intros x Hx _ E.
    rewrite Forall_forall in Hb. destruct (Hb x Hx). lia.
  - apply Forall_app. split; [|by eapply between_mono; [|exact Hb]; lia].
    apply Forall_forall. intros x Hx. apply elem_of_uses in Hx as [Hk Hx]. split; [done|]. lia.
Qed.

Lemma fixture_updates_ok entries fresh count version k list files st :
  (version + count ≤ N_UPDATES)%nat → wf_entries list → entries ≠ Some 0%nat → NoDup (s_used st) →
  Forall (between keypairs SLOT (SLOT + Z.of_nat version)) (s_used st) →
  ∃ list' files' st',
    fixture_updates outdir c keypairs (length keypairs) t entries fresh count version k list files st
      = Ok (list', files', st') ∧
    wf_entries list' ∧ NoDup (s_used st') ∧
    Forall (between keypairs SLOT (SLOT + Z.of_nat (version + count))) (s_used st') ∧
    (∀ v, (version ≤ v < version + count)%nat → ∃ r,
       files' !! raw_update_name v = Some (to_bytes r) ∧ update_record c t v r) ∧
    (∀ name, (∀ v, (version ≤ v < version + count)%nat → name ≠ raw_update_name v) →
       files' !! name = files !! name).
Proof.
  revert version k list files st.
  induction count as [|count IH]; intros version k list files st Hv Hl Hz Hnd Hb.
  { exists list, files, st. rewrite Nat.add_0_r. split_and!; try done. intros v ?. lia. }
  cbn [fixture_updates].
  destruct (advance_list_wf (λ j, hash_any (fresh j)) list (Z.of_nat version) entries k)
    as (list1 & k1 & -> & Hl1 & _); [intros j; apply sha3_256_length|done|done|]. cbn [result_bind].
  destruct (slot_of_version (Z.of_nat version)) as [-> Hw];
    [unfold KEY_SLOTS, N_UPDATES in *; lia|]. cbn [ok_or result_bind].
  pose proof (quorum_indices_ok (length keypairs) t (Z.of_nat version) Ht) as (idx & -> & Hlen & Hidx & Hr).
  cbn [result_bind].
  edestruct (signed_record_ok "honest fixture must be canonical" keypairs idx
    (message_for c WotsXmss list1 (Z.of_nat version)) (SLOT + Z.of_nat version) list1
    (Z.of_nat version) st) as (pairs & rng & r & -> & _ & _ & Hrec & Hsig & Hrl & Hrv);
    [done|done|apply keypairs_size|done|done|].
  cbn [result_bind]. rewrite Hrec. cbn [result_bind]. rewrite write_ok. cbn [result_bind].
  destruct (uses_next idx (SLOT + Z.of_nat version) (SLOT + Z.of_nat (S version)) (s_used st))
    as [Hnd' Hb']; [done|lia|lia|done|done|].
  destruct (IH (S version) k1 list1 (<[raw_update_name version := to_bytes r]> files)
    (mkSession rng (uses keypairs idx (SLOT + Z.of_nat version) ++ s_used st))) as
    (list' & files' & st' & -> & Hl' & Hn' & Hb'' & Hall & Hframe); [lia|done|done|exact Hnd'|exact Hb'|].
  exists list', files', st'. rewrite <-Nat.add_succ_comm. split_and!; try done.
  - intros v Hv'. destruct (decide (v = version)) as [->|Hne]; [|apply Hall; lia].
    exists r. split.
    + rewrite Hframe; [apply lookup_insert_eq|]. intros v' Hv'' E.
      apply raw_update_name_inj in E; lia.
    + split; [done|]. rewrite Hrl. split; [done|]. rewrite Hmem, <-Hlen. done.
  - intros name Hname. rewrite Hframe by (intros v' ?; apply Hname; lia).
    apply lookup_insert_ne. symmetry. apply Hname. lia.
Qed.
End corpus.
(** *** The sources of the forgeries *)

(** The file is a raw record of [list] and [version] whose signatures are valid
    on [m] at [slot] for [t] seats of [ms]. *)
Definition raw_file (files : Files) (name : string) (ms : list XmssPublicKey) (m : bytes) (slot : Z)
    (t : nat) (list : Datatypes.list bytes) (version : Z) : Prop :=
  ∃ r, files !! name = Some (to_bytes r) ∧ sl_status_list r = list ∧ sl_version r = version ∧
    signed_at ms m slot t r.

Definition attack_names : list string :=
  ["raw-attack-honest.bin"; "raw-attack-slot.bin"; "raw-attack-version.bin"; "outsider-anchor.bin";
   "raw-attack-outsider.bin"].

(** What the forgeries are made from: each source is valid in all but one respect. *)
Definition attack_sources (c c' : Committee) (t : nat) (list : Datatypes.list bytes) (files : Files) :
    Prop :=
  let version := Z.of_nat N_UPDATES in
  let m := message_for c WotsXmss list version in
  raw_file files "raw-attack-honest.bin" (members c) m (SLOT + version) t list version ∧
  raw_file files "raw-attack-slot.bin" (members c) m (SLOT + version + 1) t list version ∧
  raw_file files "raw-attack-version.bin" (members c) (message_for c WotsXmss list (version - 1))
    (SLOT + KEY_SLOTS) t list (version - 1) ∧
  files !! "outsider-anchor.bin" = Some (committee_to_bytes c') ∧ wf_committee c' ∧
  (∃ r, files !! "raw-attack-outsider.bin" = Some (to_bytes r) ∧ sl_status_list r = list ∧
     sl_version r = version ∧ signed_at (members c') m (SLOT + version) t r ∧
     ∃ i pk, i ∈ signer_indices r ∧ members c' !! i = Some pk ∧ pk ∉ members c).

Section attacks.
Context (outdir : string) (c : Committee) (keypairs : list KeyPair) (outsider : KeyPair) (t : nat).
Context (Hc : wf_committee c) (Hmem : members c = snd <$> keypairs) (Hgen : genesis_slot c = SLOT).
Context (Hs : signs keypairs) (Hso : signs [outsider]) (Hout : outsider.2 ∉ members c).
Context (Ht1 : (1 ≤ t)%nat) (Ht : (t ≤ length keypairs)%nat).
Context (Hdisk : ∀ name, write_error name = None).

(** One control: the first [t] seats sign [m] at a fresh slot. *)
Lemma control_ok what name m slot slot' list version files st :
  SLOT ≤ slot → slot < slot' → in_window slot → NoDup (s_used st) →
  Forall (between keypairs SLOT slot) (s_used st) →
  ∃ pairs rng r used, signatures_for keypairs (seq 0 t) m slot st = Ok (pairs, mkSession rng used) ∧
    canonical_record what (length keypairs) list version pairs = Ok r ∧
    write outdir name (to_bytes r) files = Ok (<[name := to_bytes r]> files) ∧
    fst <$> pairs = seq 0 t ∧ Forall (λ x, signature_ok (members c) m slot x = true) pairs ∧
    sl_status_list r = list ∧ sl_version r = version ∧ signed_at (members c) m slot t r ∧
    NoDup used ∧ Forall (between keypairs SLOT slot') used.
Proof.
  intros Hlo Hlt Hw Hnd Hb.
  edestruct (signed_record_ok what keypairs (seq 0 t) m slot list version st) as
    (pairs & rng & r & -> & Hf & Hok & Hrec & Hsig & Hrl & Hrv);
    [done|done|by apply (keypairs_size c)|apply NoDup_seq| |].
  { apply Forall_forall. intros i Hi%elem_of_seq. lia. }
  destruct (uses_next c keypairs Hc Hmem (seq 0 t) slot slot' (s_used st)) as [Hnd' Hb'];
    [apply NoDup_seq|done|done|done|done|].
  rewrite length_seq in Hsig. rewrite Hmem. eexists pairs, rng, r, _.
  split_and!; [done|done|by apply write_ok|done..].
Qed.

Lemma outsiders_wf : 
  ∃ k ms c', members c = k :: ms ∧
    committee_new (outsider.2 :: ms) (Z.of_nat t) SLOT = Ok c' ∧ wf_committee c' ∧
    members c' = outsider.2 :: ms.
Proof.
  pose proof (wc_distinct _ Hc) as Hd. pose proof (wc_size _ Hc) as Hz.
  assert (Hl : length (members c) = length keypairs) by (rewrite Hmem; apply length_fmap).
  destruct (members c) as [|k ms] eqn:E; [simpl in Hl; lia|].
  set (ms' := outsider.2 :: ms).
  set (c' := mkCommittee ms' (Z.of_nat t) SLOT (fingerprint_of ms' (Z.of_nat t) SLOT)).
  assert (Hw : wf_committee c').
  { apply NoDup_cons in Hd as [_ Hd]. split; [simpl in *; lia|simpl in *; lia| |done|done].
    apply NoDup_cons. split; [|done]. intros Hin. apply Hout. by apply list_elem_of_further. }
  exists k, ms, c'. split_and!; [done| |done|done]. by apply committee_new_ok.
Qed.

(** Replacing seat 0 of the honest control by the outsider. *)
Lemma outsider_record_ok what k ms m slot honest osig list version :
  members c = k :: ms → fst <$> honest = seq 0 t →
  Forall (λ x, signature_ok (members c) m slot x = true) honest →
  xmss_verify outsider.2 m osig slot = true →
  ∃ others r, honest = hd (0%nat, osig) honest :: others ∧
    canonical_record what (length keypairs) list version ((0%nat, osig) :: others) = Ok r ∧
    sl_status_list r = list ∧ sl_version r = version ∧ signed_at (outsider.2 :: ms) m slot t r ∧
    0%nat ∈ signer_indices r.
Proof.
  intros E Hf Hok Hver. assert (Hl : length keypairs = length (outsider.2 :: ms)).
  { rewrite <-(length_fmap snd keypairs), <-Hmem, E. done. }
  destruct honest as [|[i0 sig0] others].
  { apply (f_equal length) in Hf. rewrite length_seq in Hf. simpl in Hf. lia. }
  destruct t as [|t'] eqn:Et; [lia|]. cbn [seq fmap list_fmap fst] in Hf. injection Hf as -> Hf.
  apply Forall_cons in Hok as [_ Hok].
  assert (Hlen : length others = t') by (rewrite <-(length_seq t' 1), <-Hf; symmetry; apply length_fmap).
  destruct (canonical_record_ok what list version ((0%nat, osig) :: others) (outsider.2 :: ms) m slot)
    as (r & Hr & Hsig & Hrl & Hrv & Hp).
  - rewrite <-Hl. by apply (keypairs_size c).
  - cbn [fmap list_fmap fst]. rewrite Hf. apply (NoDup_seq 0 (S t')).
  - constructor; [done|]. apply Forall_forall. intros [i sig] Hx.
    rewrite Forall_forall in Hok. specialize (Hok _ Hx).
    assert (Hi : i ∈ seq 1 t') by (rewrite <-Hf; exact (list_elem_of_fmap_2 fst _ _ Hx)).
    apply elem_of_seq in Hi. destruct i as [|i]; [lia|]. unfold signature_ok in *. by rewrite E in Hok.
  - exists others, r. rewrite Hl, Hr. cbn [length] in Hsig. rewrite Hlen in Hsig.
    split_and!; [done..|]. rewrite Hp. apply list_elem_of_here.
Qed.

Lemma fixture_attacks_ok list files st :
  wf_entries list → NoDup (s_used st) →
  Forall (between keypairs SLOT (SLOT + Z.of_nat N_UPDATES)) (s_used st) →
  ∃ files' st' c', fixture_attacks outdir c keypairs outsider (length keypairs) t list files st =
      Ok (files', st') ∧ NoDup (s_used st') ∧ attack_sources c c' t list files' ∧
    ∀ name, name ∉ attack_names → files' !! name = files !! name.
Proof.
  intros Hl Hnd Hb. unfold fixture_attacks. cbv zeta.
  set (v := Z.of_nat N_UPDATES) in *. set (m := message_for c WotsXmss list v).
  destruct (slot_of_version c Hgen v) as [-> Hw]; [done|]. cbn [ok_or result_bind].
  edestruct (control_ok "attack control must be canonical" "raw-attack-honest.bin" m (SLOT + v)
    (SLOT + v + 1) list v) as
    (honest & rng1 & r1 & used1 & -> & Hrec1 & Hwr1 & Hf1 & Hok1 & Hl1 & Hv1 & Hs1 & Hn1 & Hb1);
    [unfold v; lia|lia|done|exact Hnd|exact Hb|].
  cbn [result_bind]. rewrite Hrec1. cbn [result_bind]. rewrite Hwr1. cbn [result_bind].
  destruct (slot_of_version c Hgen (v + 1)) as [-> Hw2]; [done|]. cbn [ok_or result_bind].
  rewrite Z.add_assoc in Hw2 |- *.
  edestruct (control_ok "slot control must be canonical" "raw-attack-slot.bin" m (SLOT + v + 1)
    (SLOT + KEY_SLOTS) list v) as
    (pairs2 & rng2 & r2 & used2 & -> & Hrec2 & Hwr2 & _ & _ & Hl2 & Hv2 & Hs2 & Hn2 & Hb2);
    [unfold v; lia|done|done|exact Hn1|exact Hb1|].
  cbn [result_bind]. rewrite Hrec2. cbn [result_bind]. rewrite Hwr2. cbn [result_bind].
  destruct (slot_of_version c Hgen KEY_SLOTS) as [-> Hw3]; [done|]. cbn [ok_or result_bind].
  edestruct (control_ok "version control must be canonical" "raw-attack-version.bin"
    (message_for c WotsXmss list (v - 1)) (SLOT + KEY_SLOTS) (SLOT + KEY_SLOTS + 1) list (v - 1)) as
    (pairs3 & rng3 & r3 & used3 & -> & Hrec3 & Hwr3 & _ & _ & Hl3 & Hv3 & Hs3 & Hn3 & Hb3);
    [done|lia|done|exact Hn2|exact Hb2|].
  cbn [result_bind]. rewrite Hrec3. cbn [result_bind]. rewrite Hwr3. cbn [result_bind].
  destruct outsiders_wf as (k & ms & c' & E & Hnew & Hc' & Hm').
  destruct outsider as [osk opk] eqn:Eo. cbn [snd] in *. rewrite E. cbn [result_bind]. rewrite Hnew.
  cbn [result_bind]. rewrite write_ok by done. cbn [result_bind].
  destruct (sign_one_ok "outsider signing failed" [(osk, opk)] m (SLOT + v) 0 (mkSession rng3 used3))
    as (pk & osig & Hpk & Hver & ->); [done|done|simpl; lia|]. injection Hpk as <-. cbn [result_bind].
  destruct (outsider_record_ok "outsider fixture must be canonical" k ms m (SLOT + v) honest osig list
    v E Hf1 Hok1) as (others & r5 & -> & Hrec5 & Hl5 & Hv5 & Hs5 & Hi5); [by rewrite Eo|].
  cbn [result_bind]. rewrite Hrec5. cbn [result_bind]. rewrite write_ok by done. cbn [result_bind].
  rewrite Eo in Hs5. cbn [snd] in Hs5. eexists _, _, c'. split; [done|]. split_and!.
  - apply NoDup_cons. split; [|done]. intros Hin. rewrite Forall_forall in Hb3.
    destruct (Hb3 _ Hin) as [Hk _]. apply Hout. by rewrite Hmem.
  - split_and!.
    + exists r1. split_and!; [by simplify_map_eq|done..].
    + exists r2. split_and!; [by simplify_map_eq|done..].
    + exists r3. split_and!; [by simplify_map_eq|done..].
    + by simplify_map_eq.
    + done.
    + exists r5. rewrite Hm'. split_and!; [by simplify_map_eq|done..|]. by exists 0%nat, opk.
  - intros name Hname. unfold attack_names in Hname.
    rewrite !lookup_insert_ne by (intros <-; apply Hname; set_solver). done.
Qed.
End attacks.

(** ** The whole fixture *)

Lemma signed_verifies c t v r :
  wf_committee c → genesis_slot c = SLOT → threshold c = Z.of_nat t → (v < N_UPDATES)%nat →
  update_record c t v r → verify_status_list (mkVerifierNode c) r = true.
Proof.
  intros Hc Hg Ht Hv (Hrv & _ & Hn & Hcount & Hlen & Hall). apply verify_status_list_true.
  pose proof (wc_threshold _ Hc). unfold threshold in *. split_and!; [lia|done|lia|lia|].
  exists (SLOT + Z.of_nat v). rewrite Hrv. split; [|by destruct (sl_alg r)].
  apply (slot_of_version c Hg). unfold KEY_SLOTS, N_UPDATES in *. lia.
Qed.

(** What a complete fixture directory holds: the anchor, one verifying record
    of [t] signatures per update and no other file named like one, and the
    sources of the forgeries. *)
Definition corpus (c : Committee) (t : nat) (files : Files) : Prop :=
  files !! "anchor.bin"%string = Some (committee_to_bytes c) ∧
  (∀ v, (v < N_UPDATES)%nat → ∃ r, files !! raw_update_name v = Some (to_bytes r) ∧
     update_record c t v r ∧ verify_status_list (mkVerifierNode c) r = true) ∧
  (∀ name, String.prefix "raw-update-" name = true → is_Some (files !! name) →
     name ∈ raw_update_name <$> seq 0 N_UPDATES) ∧
  ∃ list c', wf_entries list ∧ attack_sources c c' t list files.

Lemma attack_sources_frame c c' t list files files' :
  (∀ name, name ∈ attack_names → files' !! name = files !! name) →
  attack_sources c c' t list files → attack_sources c c' t list files'.
Proof.
  unfold attack_sources, raw_file, attack_names. cbv zeta. intros H.
  rewrite !H by set_solver. done.
Qed.

(** The names of the updates are none of the others. *)
Lemma raw_update_name_other name v :
  String.prefix "raw-update-" name = false → name ≠ raw_update_name v.
Proof. intros H ->. unfold raw_update_name in H. by rewrite prefix_app in H. Qed.

Lemma fixture_main_ok outdir n t keypairs outsider var entries fresh files rng :
  signs keypairs → signs [outsider] → NoDup (snd <$> keypairs ++ [outsider]) →
  length keypairs = n → (1 ≤ t)%nat → (t ≤ n)%nat → (n ≤ MAX_COMMITTEE_SIZE)%nat →
  list_entries_from_env var = Ok entries → (∀ name, write_error name = None) →
  ∃ c files' st, committee_new (snd <$> keypairs) (Z.of_nat t) SLOT = Ok c ∧
    fixture_main outdir n t keypairs outsider var fresh files (mkSession rng []) = Ok (files', st) ∧
    NoDup (s_used st) ∧ corpus c t files'.
Proof.
  intros Hs Hso Hnd <- Ht1 Ht Hmax Hvar Hdisk.
  rewrite fmap_app in Hnd. apply NoDup_app in Hnd as (Hnk & Hdis & _).
  destruct (committee_of (snd <$> keypairs) t SLOT) as (c & Hnew & Hc & Hm & Hth & Hg);
    [done|rewrite length_fmap; lia|by rewrite length_fmap|done|].
  exists c. unfold fixture_main. rewrite Hnew. cbn [result_bind].
  rewrite write_ok by done. cbn [result_bind]. rewrite Hvar. cbn [result_bind].
  edestruct (fixture_updates_ok outdir c keypairs t Hc Hm Hg Hs Ht Hdisk (Z.to_nat <$> entries) fresh
    N_UPDATES 0 0 [] (<["anchor.bin"%string := committee_to_bytes c]> (clear_known_files files))
    (mkSession rng [])) as (list & f1 & st1 & -> & Hl & Hn1 & Hb1 & Hall & Hframe);
    [done|constructor|by eapply list_entries_positive|constructor|constructor|].
  cbn [result_bind]. rewrite Nat.add_0_l in Hb1.
  edestruct (fixture_attacks_ok outdir c keypairs outsider t Hc Hm Hg Hs Hso) as
    (f2 & st2 & c' & -> & Hn2 & Hatt & Hframe2); try done.
  { rewrite Hm. intros Hin. apply (Hdis _ Hin). apply list_elem_of_here. }
  cbn [result_bind]. rewrite write_ok by done. cbn [result_bind].
  assert (Hother : ∀ name, String.prefix "raw-update-" name = false →
    ∀ v, (0 ≤ v < N_UPDATES)%nat → name ≠ raw_update_name v)
    by (intros name ? v _; by apply raw_update_name_other).
  eexists _, st2. split; [done|]. split; [done|]. split; [done|]. split_and!.
  - rewrite lookup_insert_ne, Hframe2, Hframe by (done || by apply Hother || set_solver).
    by rewrite lookup_insert_eq.
  - intros v Hv. destruct (Hall v) as (r & Hr & Hu); [lia|]. exists r. split; [|split; [done|]].
    + rewrite lookup_insert_ne by (by apply raw_update_name_other). rewrite Hframe2; [done|]. unfold attack_names. rewrite !elem_of_cons, elem_of_nil.
      naive_solver (by eapply raw_update_name_other).
    + apply (signed_verifies c t v); try done.
  - intros name Hp. rewrite lookup_insert_ne by (intros <-; done). intros Hsome.
    rewrite Hframe2 in Hsome.
    2:{ unfold attack_names. rewrite !elem_of_cons, elem_of_nil. naive_solver. }
    apply dec_stable. intros Hn. rewrite Hframe in Hsome.
    2:{ intros v Hv E. apply Hn. rewrite E. apply list_elem_of_fmap_2, elem_of_seq. lia. }
    rewrite lookup_insert_ne in Hsome by (intros <-; done). destruct Hsome as [x Hx].
    apply map_lookup_filter_Some in Hx as [_ Hk]. unfold known_file in Hk. simpl in Hk.
    by rewrite Hp, orb_true_r in Hk.
  - exists list, c'. split; [done|]. eapply attack_sources_frame; [|exact Hatt].
    intros name Hname. apply lookup_insert_ne. intros <-. set_solver.
Qed.
End laws.
End fixture.
