(* ===== verification/Prover.v ===== *)
(** * The prover (src/bin/prover.rs)

    Aggregates the raw records of a fixture into SNARK records, or signs and
    aggregates its own, and manufactures the six forgeries the verifier must
    reject.  Randomness and keys are given; measurement and printing are left
    out; a panic is an error. *)
From S2P Require Import Prelude External Instances Seats StatusLists Committees Verifiers Params.
From S2P Require Import Workload Artifacts CheckOutput Corpus Fixture.

Open Scope Z_scope.

Section prover.
Context `{HH : Hashes} `{XX : Xmss} `{VM : !LeanVm} `{BL : BitListOps}.
Context `{SR : !Ssz RawStatusListWire} `{SS : !Ssz SnarkStatusListWire} `{SC : !Ssz CommitteeWire}.
Context `{DK : Disk}.

Abbreviation KeyPair := (XmssSecretKey * XmssPublicKey)%type.

(** ** Helpers *)

(** [*bytes.last_mut() ^= 1]. *)
Definition flip_last (b : bytes) : option bytes :=
  (λ x, removelast b ++ [byte_of_Z (Z.lxor (Z_of_byte x) 1)]) <$> last b.

Definition corrupt_proof_body (proof : bytes) : result bytes string :=
  let? honest := map_err (λ e, "honest aggregate must decode: " +:+ e)%string (agg_from_bytes proof) in
  let? b := ok_or (flip_last proof) "aggregate has proof bytes"%string in
  let? spliced := map_err
    (λ e, "changing a proof-body bit must preserve the aggregate shape: " +:+ e)%string
    (agg_from_bytes b) in
  if negb (bool_decide (agg_xmss_signers spliced = agg_xmss_signers honest))
  then Err "xmss signers differ"%string
  else if negb (bool_decide (agg_sphincs_signers spliced = agg_sphincs_signers honest))
  then Err "sphincs signers differ"%string
  else
    let spliced := agg_to_bytes spliced in
    if bool_decide (spliced = proof)
    then Err "the proof-body control must differ from the honest proof"%string
    else Ok spliced.

Definition require_corpus_quorum (t : nat) : result unit string :=
  if (t <? 2)%nat
  then Err ("the verifier corpus needs t >= 2 for its below-quorum control, got t=" +:+ pretty t)%string
  else Ok tt.

Definition fixture_files (dir : Directory) (prefix : string) : result (list string) string :=
  match d_list dir with
  | Err e => Err ("cannot read fixture directory " +:+ d_path dir +:+ ": " +:+ e)%string
  | Ok entries => Ok (files_with prefix entries)
  end.

Definition load_committee (dir : Directory) (name : string) : result Committee string :=
  let path := (d_path dir +:+ "/" +:+ name)%string in
  let? b := map_err (λ e, "cannot read fixture anchor " +:+ path +:+ ": " +:+ e)%string (d_read dir name) in
  map_err (λ e, "malformed fixture anchor " +:+ path +:+ ": " +:+ e)%string (committee_from_bytes b).

Definition load_raw (dir : Directory) (name : string) : result StatusList string :=
  let path := (d_path dir +:+ "/" +:+ name)%string in
  let? b := map_err (λ e, "cannot read raw fixture " +:+ path +:+ ": " +:+ e)%string (d_read dir name) in
  map_err (λ e, "malformed raw fixture " +:+ path +:+ ": " +:+ e)%string (from_bytes b).

Definition aggregation_inputs (c : Committee) (record : StatusList) :
    result (list (XmssPublicKey * XmssSignature)) string :=
  if negb (signer_slots record =? length (members c))%nat
  then Err "fixture bitmap does not name this anchor"%string
  else if negb (signer_count record =? length (sl_signatures record))%nat
  then Err "fixture signer bitmap/signature count mismatch"%string
  else
    collect_results (λ '(index, signature),
        let? pk := ok_or (members c !! index) "index out of bounds"%string in Ok (pk, signature))
      (zip (signer_indices record) (sl_signatures record)).

(** [SnarkStatusList::new(..).to_bytes()], written. *)
Definition write_record (outdir name : string) (alg : Algorithms) (list : list bytes) (version : Z)
    (proof : bytes) (files : Files) : result Files string :=
  write outdir name (snark_to_bytes (mkSnarkStatusList alg list version proof)) files.

(** ** Fixture mode *)

(** One honest update: its record is written, and as the canonical one if it is
    the last of [total]. *)
Definition write_update (outdir : string) (total index : nat) (b : bytes) (files : Files) :
    result Files string :=
  let? files := write outdir (update_name index) b files in
  if (S index =? total)%nat then write outdir "canonical.bin" b files else Ok files.

Fixpoint prove_updates (outdir : string) (c : Committee) (fixture : Directory) (t total index : nat)
    (names : list string) (files : Files) : result Files string :=
  match names with
  | [] => Ok files
  | name :: names =>
      let? raw := load_raw fixture name in
      if negb (signer_count raw =? t)%nat
      then Err "fixture update must carry one quorum"%string
      else
        let? inputs := aggregation_inputs c raw in
        let? proof := make_proof c (sl_alg raw) inputs (sl_status_list raw) (sl_version raw)
                        LOG_INV_RATE in
        let record := mkSnarkStatusList (sl_alg raw) (sl_status_list raw) (sl_version raw) proof in
        let? files := write_update outdir total index (snark_to_bytes record) files in
        prove_updates outdir c fixture t total (S index) names files
  end.

Definition fixture_forgeries (outdir : string) (c : Committee) (fixture : Directory) (t : nat)
    (files : Files) : result Files string :=
  let? honest_attack := load_raw fixture "raw-attack-honest.bin" in
  let? honest_inputs := aggregation_inputs c honest_attack in
  let list := sl_status_list honest_attack in
  let version := sl_version honest_attack in
  let? honest_proof := make_proof c (sl_alg honest_attack) honest_inputs list version LOG_INV_RATE in
  let tampered := list ++ [hash_any FAKE_REVOCATION] in
  let? files := write_record outdir "attack-tampered.bin" (sl_alg honest_attack) tampered version honest_proof files in
  let? corrupted := corrupt_proof_body honest_proof in
  let? files := write_record outdir "attack-proofbody.bin" (sl_alg honest_attack) list version corrupted files in
  let? short_proof := make_proof c (sl_alg honest_attack) (take (t - 1) honest_inputs) list version
                        LOG_INV_RATE in
  let? files := write_record outdir "attack-short.bin" (sl_alg honest_attack) list version short_proof files in
  let? slot_attack := load_raw fixture "raw-attack-slot.bin" in
  let? slot_inputs := aggregation_inputs c slot_attack in
  let slot_message := message_for c (sl_alg slot_attack) (sl_status_list slot_attack)
                        (sl_version slot_attack) in
  let? wrong_slot := ok_or (slot_for c (wrapping_succ_u32 (sl_version slot_attack)))
                       "slot fixture slot overflow"%string in
  let? slot_proof := prover_aggregate slot_inputs slot_message wrong_slot LOG_INV_RATE in
  let? files := write_record outdir "attack-slot.bin" (sl_alg slot_attack) (sl_status_list slot_attack)
                  (sl_version slot_attack) slot_proof files in
  let? version_attack := load_raw fixture "raw-attack-version.bin" in
  let? version_inputs := aggregation_inputs c version_attack in
  let signed_message := message_for c (sl_alg version_attack) (sl_status_list version_attack)
                          (sl_version version_attack) in
  let? spoof_slot := ok_or (slot_for c KEY_SLOTS) "version fixture slot overflow"%string in
  let? version_proof := prover_aggregate version_inputs signed_message spoof_slot LOG_INV_RATE in
  let? files := write_record outdir "attack-version.bin" (sl_alg version_attack) (sl_status_list version_attack) KEY_SLOTS
                  version_proof files in
  let? outsider_committee := load_committee fixture "outsider-anchor.bin" in
  let? outsider_attack := load_raw fixture "raw-attack-outsider.bin" in
  let? outsider_inputs := aggregation_inputs outsider_committee outsider_attack in
  let message := message_for c (sl_alg outsider_attack) (sl_status_list outsider_attack)
                   (sl_version outsider_attack) in
  let? slot := ok_or (slot_for c (sl_version outsider_attack)) "outsider fixture slot overflow"%string in
  let? outsider_proof := prover_aggregate outsider_inputs message slot LOG_INV_RATE in
  write_record outdir "attack-outsider.bin" (sl_alg outsider_attack) (sl_status_list outsider_attack)
    (sl_version outsider_attack) outsider_proof files.

Definition run_fixture_prover (outdir : string) (n t : nat) (fixture : Directory) (honest_only : bool)
    (files : Files) : result Files string :=
  let? _ := if honest_only then Ok tt else require_corpus_quorum t in
  let? c := load_committee fixture "anchor.bin" in
  if negb (length (members c) =? n)%nat then Err "fixture N/build N drift"%string
  else if negb (threshold c =? Z.of_nat t) then Err "fixture t/build t drift"%string
  else
    let? files := write outdir "anchor.bin" (committee_to_bytes c) files in
    let? names := fixture_files fixture "raw-update-" in
    if negb (length names =? N_UPDATES)%nat
    then Err "fixture must contain exactly N_UPDATES honest records"%string
    else
      let? files := prove_updates outdir c fixture t (length names) 0 names files in
      if honest_only then Ok files else fixture_forgeries outdir c fixture t files.

(** ** Self-contained mode *)

Definition sign_adversarial (keypairs : list KeyPair) (signers : list nat) (message : bytes) (slot : Z)
    (st : Session) : result (list (XmssPublicKey * XmssSignature) * Session) string :=
  if negb (distinct_signers signers)
  then Err "adversarial fixture must not reuse an XMSS key at one slot"%string
  else sign_signers "signing failed" keypairs message slot signers st.

Definition make_adversarial_proof (keypairs : list KeyPair) (signers : list nat) (message : bytes)
    (slot : Z) (st : Session) : result (bytes * Session) string :=
  let? (raws, st) := sign_adversarial keypairs signers message slot st in
  let? proof := prover_aggregate raws message slot LOG_INV_RATE in
  Ok (proof, st).

(** [count] updates from version [i] on; [fresh] are the random entries. *)
Fixpoint self_updates (outdir : string) (c : Committee) (keypairs : list KeyPair) (n t : nat)
    (fresh : nat → bytes) (count i : nat) (list : list bytes) (files : Files) (st : Session) :
    result (Datatypes.list bytes * Files * Session) string :=
  match count with
  | O => Ok (list, files, st)
  | S count =>
      let list := list ++ [hash_any (fresh i)] in
      let version := Z.of_nat i in
      let? slot := ok_or (slot_for c version) "slot overflow"%string in
      let message := message_for c WotsXmss list version in
      let? (raws, st) := sign_signers "signing failed" keypairs message slot (rotating i n t) st in
      let? proof := make_proof c WotsXmss raws list version LOG_INV_RATE in
      let b := snark_to_bytes (mkSnarkStatusList WotsXmss list version proof) in
      let? files := write_update outdir N_UPDATES i b files in
      self_updates outdir c keypairs n t fresh count (S i) list files st
  end.

Definition self_forgeries (outdir : string) (c : Committee) (keypairs outsiders : list KeyPair)
    (t : nat) (list : list bytes) (entry : bytes) (files : Files) (st : Session) :
    result (Files * Session) string :=
  let attack_version := Z.of_nat N_UPDATES in
  let? attack_slot := ok_or (slot_for c attack_version) "slot overflow"%string in
  let quorum := seq 0 t in
  let attack_message := message_for c WotsXmss list attack_version in
  let? (attack_signatures, st) := sign_adversarial keypairs quorum attack_message attack_slot st in
  let? good_proof := prover_aggregate attack_signatures attack_message attack_slot LOG_INV_RATE in
  let tampered := list ++ [hash_any FAKE_REVOCATION] in
  let? files := write_record outdir "attack-tampered.bin" WotsXmss tampered attack_version good_proof files in
  let? corrupted := corrupt_proof_body good_proof in
  let? files := write_record outdir "attack-proofbody.bin" WotsXmss list attack_version corrupted files in
  let? short_proof := prover_aggregate (take (t - 1) attack_signatures) attack_message attack_slot
                        LOG_INV_RATE in
  let? files := write_record outdir "attack-short.bin" WotsXmss list attack_version short_proof files in
  let? wrong_slot := ok_or (slot_for c (attack_version + 1)) "slot overflow"%string in
  let? (slot_proof, st) := make_adversarial_proof keypairs quorum attack_message wrong_slot st in
  let? files := write_record outdir "attack-slot.bin" WotsXmss list attack_version slot_proof files in
  let out_list := [hash_any entry] in
  let? (out_proof, st) := make_adversarial_proof outsiders quorum
                            (message_for c WotsXmss out_list 0) SLOT st in
  let? files := write_record outdir "attack-outsider.bin" WotsXmss out_list 0 out_proof files in
  let spoof_version := KEY_SLOTS in
  let? spoof_slot := ok_or (slot_for c spoof_version) "slot overflow"%string in
  let signed_version := Z.of_nat N_UPDATES - 1 in
  let? (versioned_proof, st) := make_adversarial_proof keypairs quorum
                                  (message_for c WotsXmss list signed_version) spoof_slot st in
  let? files := write_record outdir "attack-version.bin" WotsXmss list spoof_version versioned_proof files in
  Ok (files, st).

Definition stale_artifact (name : string) : bool :=
  bool_decide (name = "anchor.bin"%string) || bool_decide (name = "canonical.bin"%string) ||
  String.prefix "update-" name || String.prefix "attack-" name.

(** [main]: the fixture directory when BENCH_INPUT_DIR is set, and whether
    BENCH_HONEST_ONLY is. *)
Definition prover_main (outdir : string) (n t : nat) (input : option Directory) (honest_only : bool)
    (keypairs outsiders : list KeyPair) (fresh : nat → bytes) (files : Files) (st : Session) :
    result (Files * Session) string :=
  let files := filter (λ x, stale_artifact x.1 = false) files in
  match input with
  | Some fixture =>
      let? files := run_fixture_prover outdir n t fixture honest_only files in Ok (files, st)
  | None =>
      let? _ := require_corpus_quorum t in
      let? c := committee_new (snd <$> keypairs) (Z.of_nat t) SLOT in
      let? files := write outdir "anchor.bin" (committee_to_bytes c) files in
      let? (list, files, st) := self_updates outdir c keypairs n t fresh N_UPDATES 0 [] files st in
      self_forgeries outdir c keypairs outsiders t list (fresh N_UPDATES) files st
  end.
(** ** What the prover makes of a fixture *)

Section laws.
Context `{BLL : !BitListLaws} `{LR : !SszLaws RawStatusListWire wf_raw_wire}.
Context `{LS : !SszLaws SnarkStatusListWire wf_snark_wire} `{LC : !SszLaws CommitteeWire wf_committee_wire}.
Context (Hsize : ∀ w : CommitteeWire,
  Z.of_nat (length (as_ssz_bytes w)) = 16 + 32 * Z.of_nat (length (cw_members w))).
Context (Hagg : aggregates).

Lemma aggregation_inputs_ok c m slot t r :
  NoDup (members c) → signed_at (members c) m slot t r →
  ∃ raws, aggregation_inputs c r = Ok raws ∧ length raws = t ∧
    fst <$> raws = omap (λ i, members c !! i) (signer_indices r) ∧ NoDup (fst <$> raws) ∧
    Forall (λ x, x.1 ∈ members c ∧ xmss_verify x.1 m x.2 slot = true) raws.
Proof.
  intros Hnd (Hs & Hc & Hl & Hall). unfold aggregation_inputs. rewrite Hs, Hc, Hl, !Nat.eqb_refl.
  cbn [negb].
  assert (Hi : length (signer_indices r) = length (sl_signatures r)).
  { rewrite <-signer_count_indices. lia. }
  destruct (collect_seats (members c) (zip (signer_indices r) (sl_signatures r))) as
    (raws & -> & Hlen & Hf & Hin).
  { eapply Forall_impl; [exact Hall|]. intros x. apply signature_ok_lt. }
  rewrite fst_zip in Hf by lia. exists raws. split_and!; [done| |done| |].
  - rewrite Hlen, length_zip_with. lia.
  - rewrite Hf. apply NoDup_omap_lookup; [done|]. apply sorted_lt_nodup, set_indices_sorted.
  - apply Forall_forall. intros [pk sig] (i & Hi' & Hx)%Hin. simpl in *.
    split; [by eapply list_elem_of_lookup_2|]. rewrite Forall_forall in Hall. specialize (Hall _ Hx).
    unfold signature_ok in Hall. simpl in Hall. by rewrite Hi' in Hall.
Qed.

(** The aggregate of valid signatures, and the record that carries it. *)
Definition aggregate_of (a : AggregateSignature) (slot : Z) (m : bytes) (keys : list XmssPublicKey) :
    Prop :=
  agg_from_bytes (agg_to_bytes a) = Ok a ∧ agg_sphincs_signers a = [] ∧ agg_verify a = true ∧
  ∃ pks, agg_xmss_signers a = [(slot, m, pks)] ∧ pks ≡ₚ keys.

Lemma prover_aggregate_ok raws m slot rate :
  is_u32 slot → length m = 32%nat → raws ≠ [] → NoDup (fst <$> raws) →
  Forall (λ x, xmss_verify x.1 m x.2 slot = true) raws →
  ∃ a, lean_aggregate ((λ '(public, signature), (public, slot, m, signature)) <$> raws) rate = Ok a ∧
    prover_aggregate raws m slot rate = Ok (agg_to_bytes a) ∧ aggregate_of a slot m (fst <$> raws).
Proof.
  intros Hs Hm Hne Hnd Hall. destruct (Hagg raws m slot rate) as (a & pks & Ha & Hrt & Hsp & Hx & Hp & Hv);
    [done..|]. exists a. unfold prover_aggregate. rewrite Ha. split; [done|]. split; [done|].
  split_and!; [done..|]. by exists pks.
Qed.

Lemma proof_aggregate list version a :
  agg_from_bytes (agg_to_bytes a) = Ok a →
  proof (mkSnarkStatusList WotsXmss list version (agg_to_bytes a)) = Ok a.
Proof. intros H. unfold proof. simpl. rewrite H. simpl. by rewrite bool_decide_eq_true_2. Qed.

Lemma aggregate_accepted c last list version slot a keys :
  wf_committee c → slot_for c version = Some slot → threshold c ≤ Z.of_nat (length keys) →
  (∀ pk, pk ∈ keys → pk ∈ members c) →
  aggregate_of a slot (message_for c WotsXmss list version) keys →
  check (mkSnarkVerifier c last) (mkSnarkStatusList WotsXmss list version (agg_to_bytes a)) a = true.
Proof.
  intros Hc Hslot Ht Hm (_ & Hsp & Hv & pks & Hx & Hp). apply check_true. split; [done|].
  exists slot, pks. split_and!; [done| |done|by rewrite Hp|done]. intros pk. rewrite Hp. apply Hm.
Qed.

Lemma in_window_u32 slot : in_window slot → is_u32 slot.
Proof. unfold in_window, is_u32, SLOT, KEY_SLOTS, u32_max. lia. Qed.

(** What an update's record became: bytes that decode to the same list and
    version with a proof of exactly the fixture's signers. *)
Definition proved_update (c : Committee) (v : nat) (r : StatusList) (b : bytes) : Prop :=
  ∃ s a, b = snark_to_bytes s ∧ snark_from_bytes b = Ok s ∧ proof s = Ok a ∧
    sn_version s = Z.of_nat v ∧ sn_status_list s = sl_status_list r ∧
    (∀ last, check (mkSnarkVerifier c last) s a = true) ∧
    (λ i, members c !! i) <$> signer_indices r ≡ₚ proven_keys a.

Section honest.
Context (outdir : string) (c : Committee) (fixture : Directory) (t : nat).
Context (Hc : wf_committee c) (Hth : threshold c = Z.of_nat t) (Hgen : genesis_slot c = SLOT).
Context (Hdisk : ∀ name, write_error name = None).

Lemma update_proved v r :
  (v < N_UPDATES)%nat → update_record c t v r →
  ∃ inputs p, aggregation_inputs c r = Ok inputs ∧
    make_proof c (sl_alg r) inputs (sl_status_list r) (sl_version r) LOG_INV_RATE = Ok p ∧
    proved_update c v r (snark_to_bytes (mkSnarkStatusList (sl_alg r) (sl_status_list r) (sl_version r) p)).
Proof.
  intros Hv (Hrv & Hrl & Hsig). pose proof (wc_threshold _ Hc) as Ht0. unfold threshold in Hth.
  destruct (aggregation_inputs_ok c _ _ t r (wc_distinct _ Hc) Hsig) as (raws & Ha & Hlen & Hf & Hnd & Hall).
  assert (Hk : 0 ≤ Z.of_nat v ≤ KEY_SLOTS) by (unfold KEY_SLOTS, N_UPDATES in *; lia).
  destruct (slot_of_version c Hgen (Z.of_nat v) Hk) as [Hslot Hw].
  destruct (prover_aggregate_ok raws (message_for c WotsXmss (sl_status_list r) (Z.of_nat v))
    (SLOT + Z.of_nat v) LOG_INV_RATE) as (a & _ & Hp & Hof).
  { by apply in_window_u32. }
  { apply blake2s_256_length. }
  { intros ->. simpl in Hlen. lia. }
  { done. }
  { eapply Forall_impl; [exact Hall|]. by intros x []. }
  exists raws, (agg_to_bytes a). split; [done|]. destruct (sl_alg r). rewrite Hrv. split.
  { unfold make_proof. by rewrite Hslot. }
  set (s := mkSnarkStatusList _ _ _ _). exists s, a. split; [done|].
  split; [apply (proj1 (snark_codec s [])); split; [done|]; unfold is_u32, u32_max, KEY_SLOTS in *; simpl; lia|].
  split; [apply proof_aggregate, Hof|]. split; [done|]. split; [done|]. split.
  - intros last. eapply aggregate_accepted; [done|exact Hslot| | |exact Hof].
    + rewrite length_fmap, Hlen. unfold threshold. lia.
    + intros pk (x & -> & Hx)%list_elem_of_fmap. rewrite Forall_forall in Hall. by apply Hall.
  - destruct Hof as (_ & _ & _ & pks & Hx & Hpk). unfold proven_keys. rewrite Hx, Hpk, Hf.
    rewrite lookups_omap; [done|]. apply Forall_forall. intros i Hi. destruct Hsig as (<- & _).
    by apply indices_in_range.
Qed.
Lemma load_raw_ok F name r :
  holds fixture F → F !! name = Some (to_bytes r) → wf_status_list r → load_raw fixture name = Ok r.
Proof.
  intros Hf Hn Hr. unfold load_raw. rewrite (holds_read _ _ _ _ Hf Hn). cbn [map_err result_bind].
  by rewrite (proj1 (raw_codec r [])).
Qed.

Lemma update_record_wf v r : (v < N_UPDATES)%nat → update_record c t v r → wf_status_list r.
Proof.
  intros Hv (Hrv & Hl & _ & Hcnt & Hlen & _). unfold wf_status_list. rewrite Hrv.
  split_and!; [done| |by rewrite Hcnt]. unfold is_u32, u32_max, N_UPDATES in *. lia.
Qed.

Lemma update_name_inj v v' :
  (v < N_UPDATES)%nat → (v' < N_UPDATES)%nat → update_name v = update_name v' → v = v'.
Proof.
  intros Hv Hv' E.
  assert (Hnd : NoDup (update_name <$> seq 0 N_UPDATES))
    by (apply (bool_decide_unpack _); vm_compute; exact I).
  eapply (NoDup_lookup _ v v' (update_name v)); [exact Hnd| |rewrite E];
    rewrite list_lookup_fmap, lookup_seq_lt by done; done.
Qed.

Lemma update_name_other name v : String.prefix "update-" name = false → name ≠ update_name v.
Proof. intros H ->. unfold update_name in H. by rewrite prefix_app in H. Qed.

Lemma write_update_ok total v b files :
  ∃ files', write_update outdir total v b files = Ok files' ∧
    files' !! update_name v = Some b ∧ (S v = total → files' !! "canonical.bin"%string = Some b) ∧
    (S v ≠ total → files' !! "canonical.bin"%string = files !! "canonical.bin"%string) ∧
    ∀ name, name ≠ "canonical.bin"%string → name ≠ update_name v → files' !! name = files !! name.
Proof.
  unfold write_update. rewrite write_ok by done. cbn [result_bind].
  assert (Hne : "canonical.bin"%string ≠ update_name v) by by apply update_name_other.
  destruct (Nat.eqb_spec (S v) total) as [E|E].
  - rewrite write_ok by done. eexists. split; [done|]. split_and!.
    + by rewrite lookup_insert_ne, lookup_insert_eq.
    + intros _. apply lookup_insert_eq.
    + done.
    + intros name ??. by rewrite !lookup_insert_ne by done.
  - eexists. split; [done|]. split_and!; [apply lookup_insert_eq|done|intros _; by rewrite lookup_insert_ne|].
    intros name ??. by rewrite !lookup_insert_ne by done.
Qed.

(** Each update is proved and written, and the last also as the canonical one. *)
Lemma prove_updates_ok F i count total files :
  holds fixture F → (i + count ≤ N_UPDATES)%nat →
  (∀ v, (i ≤ v < i + count)%nat → ∃ r, F !! raw_update_name v = Some (to_bytes r) ∧ update_record c t v r) →
  ∃ files', prove_updates outdir c fixture t total i (raw_update_name <$> seq i count) files = Ok files' ∧
    (∀ v, (i ≤ v < i + count)%nat → ∃ r b, F !! raw_update_name v = Some (to_bytes r) ∧
       update_record c t v r ∧ files' !! update_name v = Some b ∧ proved_update c v r b ∧
       (S v = total → files' !! "canonical.bin"%string = Some b)) ∧
    (∀ name, name ≠ "canonical.bin"%string → (∀ v, (i ≤ v < i + count)%nat → name ≠ update_name v) →
       files' !! name = files !! name) ∧
    (total ∉ seq (S i) count → files' !! "canonical.bin"%string = files !! "canonical.bin"%string).
Proof.
  intros Hf. revert i files. induction count as [|count IH]; intros i files Hn Hall.
  { exists files. split_and!; [done|intros v ?; lia|done|done]. }
  destruct (Hall i) as (r & Hr & Hu); [lia|]. cbn [seq fmap list_fmap prove_updates].
  rewrite (load_raw_ok F _ r Hf Hr) by (eapply update_record_wf; [|exact Hu]; lia).
  cbn [result_bind]. pose proof Hu as (_ & _ & _ & -> & _). rewrite Nat.eqb_refl. cbn [negb].
  destruct (update_proved i r) as (inputs & p & -> & Hp & Hproved); [lia|done|].
  cbn [result_bind]. rewrite Hp. cbn [result_bind].
  set (b := snark_to_bytes _) in *.
  destruct (write_update_ok total i b files) as (f1 & -> & Hi & Hcan & Hkeep & Hfr). cbn [result_bind].
  destruct (IH (S i) f1) as (files' & -> & Hall' & Hfr' & Hcan'); [lia|intros v Hv; apply Hall; lia|].
  exists files'. split; [done|]. split_and!.
  - intros v Hv. destruct (decide (v = i)) as [->|Hne]; [|apply Hall'; lia].
    exists r, b. split_and!; [done|done| |done|].
    + rewrite Hfr'; [done|by apply not_eq_sym, update_name_other|]. intros v' Hv' E.
      apply update_name_inj in E; lia.
    + intros E. rewrite Hcan'; [by apply Hcan|]. rewrite elem_of_seq. lia.
  - intros name Hnc Hname. rewrite Hfr' by (done || (intros v ?; apply Hname; lia)).
    apply Hfr; [done|]. apply Hname. lia.
  - intros Hout. change (total ∉ S i :: seq (S (S i)) count) in Hout.
    apply not_elem_of_cons in Hout as [Ht' Hout]. rewrite Hcan' by done. apply Hkeep. done.
Qed.
(** *** Fixture mode *)

Lemma raw_names_sorted : Sorted name_le (raw_update_name <$> seq 0 N_UPDATES).
Proof. apply (bool_decide_unpack _). vm_compute. exact I. Qed.

Lemma raw_names_distinct : NoDup (raw_update_name <$> seq 0 N_UPDATES).
Proof. apply (bool_decide_unpack _). vm_compute. exact I. Qed.

Lemma fixture_names F :
  holds fixture F → corpus c t F →
  fixture_files fixture "raw-update-" = Ok (raw_update_name <$> seq 0 N_UPDATES).
Proof.
  intros Hf (_ & Hall & Hnames & _).
  destruct (holds_files_with fixture F "raw-update-" (raw_update_name <$> seq 0 N_UPDATES)) as
    (entries & He & <-); [done|apply raw_names_distinct|apply raw_names_sorted| |].
  - intros name. split; [|intros []; by apply Hnames].
    intros (v & -> & Hv%elem_of_seq)%list_elem_of_fmap. split; [|apply prefix_app].
    destruct (Hall v) as (r & -> & _); [lia|done].
  - unfold fixture_files. by rewrite He.
Qed.

(** What a run over a fixture writes before any forgery. *)
Definition honest_output (F files : Files) : Prop :=
  files !! "anchor.bin"%string = Some (committee_to_bytes c) ∧
  ∀ v, (v < N_UPDATES)%nat → ∃ r b, F !! raw_update_name v = Some (to_bytes r) ∧
    update_record c t v r ∧ files !! update_name v = Some b ∧ proved_update c v r b ∧
    (S v = N_UPDATES → files !! "canonical.bin"%string = Some b).

Lemma run_fixture_prover_ok F honest_only files :
  holds fixture F → corpus c t F → (honest_only = false → (2 ≤ t)%nat) →
  ∃ files', honest_output F files' ∧
    (∀ name, name ∉ expected_files → files' !! name = files !! name) ∧
    run_fixture_prover outdir (length (members c)) t fixture honest_only files =
      if honest_only then Ok files' else fixture_forgeries outdir c fixture t files'.
Proof.
  intros Hf HF Hq. pose proof HF as (Ha & Hall & _).
  destruct (prove_updates_ok F 0 N_UPDATES N_UPDATES
    (<["anchor.bin"%string := committee_to_bytes c]> files)) as (files' & Hp & Hout & Hfr & _);
    [done|done| |].
  { intros v Hv. destruct (Hall v) as (r & ? & ? & _); [lia|]. by exists r. }
  exists files'. split_and!.
  - split; [|intros v Hv; apply Hout; lia].
    rewrite Hfr, lookup_insert_eq; [done|done|]. intros v _. by apply update_name_other.
  - intros name Hname. unfold expected_files in Hname.
    rewrite elem_of_list_to_set, !not_elem_of_cons in Hname. destruct Hname as (Hna & Hnc & Hnu).
    rewrite Hfr; [by apply lookup_insert_ne|done|]. intros v Hv ->. apply Hnu.
    apply list_elem_of_fmap_2, elem_of_seq. lia.
  - unfold run_fixture_prover.
    assert (Hreq : (if honest_only then Ok tt else require_corpus_quorum t) = Ok tt).
    { destruct honest_only; [done|]. unfold require_corpus_quorum.
      rewrite (proj2 (Nat.ltb_ge _ _)); [done|]. by apply Hq. }
    rewrite Hreq. cbn [result_bind]. unfold load_committee. rewrite (holds_read _ _ _ _ Hf Ha).
    cbn [map_err result_bind]. rewrite committee_from_to by done. cbn [map_err result_bind].
    rewrite Nat.eqb_refl, Hth, Z.eqb_refl. cbn [negb]. rewrite write_ok by done. cbn [result_bind].
    rewrite (fixture_names F) by done. cbn [result_bind]. rewrite length_fmap, length_seq, Nat.eqb_refl.
    cbn [negb]. by rewrite Hp.
Qed.
End honest.

(** ** The forgeries *)

(** What leanVM is relied on for by the proof-body control: the last byte of an
    aggregate belongs to the proof body, so that flipping its lowest bit changes
    neither the claims nor the ability to decode, and the proof no longer holds. *)
Definition body_last : Prop :=
  ∀ xmss rate a, lean_aggregate xmss rate = Ok a → agg_from_bytes (agg_to_bytes a) = Ok a →
    ∃ b a', flip_last (agg_to_bytes a) = Some b ∧ agg_from_bytes b = Ok a' ∧
      agg_xmss_signers a' = agg_xmss_signers a ∧ agg_sphincs_signers a' = agg_sphincs_signers a ∧
      agg_to_bytes a' ≠ agg_to_bytes a ∧ agg_from_bytes (agg_to_bytes a') = Ok a' ∧ agg_verify a' = false.

(** What acceptance would mean for a record with a genuine aggregate. *)
Lemma verified_aggregate c last list version a slot m keys :
  aggregate_of a slot m keys →
  snark_verify (mkSnarkVerifier c last) (mkSnarkStatusList WotsXmss list version (agg_to_bytes a)) = true →
  m = message_for c WotsXmss list version ∧ slot_for c version = Some slot ∧
  threshold c ≤ Z.of_nat (length keys) ∧ ∀ pk, pk ∈ keys → pk ∈ members c.
Proof.
  intros (Hrt & _ & _ & pks & Hx & Hp). unfold snark_verify. rewrite proof_aggregate by done.
  intros (_ & slot' & pks' & Hx' & Hmem & Hslot & Ht & _)%check_true. simpl in *.
  rewrite Hx in Hx'. injection Hx' as -> -> <-. split_and!; [done|done|by rewrite <-Hp|].
  intros pk Hpk. apply Hmem. by rewrite Hp.
Qed.

(** The file is a record that the verifier of this anchor rejects. *)
Definition rejected_file (c : Committee) (files : Files) (name : string) : Prop :=
  ∃ s, files !! name = Some (snark_to_bytes s) ∧ wf_snark_status_list s ∧
    ∀ last, snark_verify (mkSnarkVerifier c last) s = false.

Definition forgery_names : list string :=
  ["attack-tampered.bin"; "attack-proofbody.bin"; "attack-short.bin"; "attack-slot.bin";
   "attack-version.bin"; "attack-outsider.bin"]%string.

(** All six forgeries: two of them are rejected because the message stands for
    one list and one version, which a collision of BLAKE2s on the honest and the
    forged statement would undo. *)
Definition forgeries (c : Committee) (list : Datatypes.list bytes) (files : Files) : Prop :=
  (∀ name, name ∈ ["attack-outsider.bin"; "attack-slot.bin"; "attack-short.bin"; "attack-proofbody.bin"]%string →
     rejected_file c files name) ∧
  (rejected_file c files "attack-tampered.bin" ∨ tamper_clash c list) ∧
  (rejected_file c files "attack-version.bin" ∨ version_clash c list).

(** The list that the forgeries are made from, in the fixture. *)
Definition attack_list (F : Files) (list : Datatypes.list bytes) : Prop :=
  ∃ r, F !! "raw-attack-honest.bin"%string = Some (to_bytes r) ∧ sl_status_list r = list.

Section forging.
Context (outdir : string) (c : Committee) (fixture : Directory) (t : nat).
Context (Hc : wf_committee c) (Hth : threshold c = Z.of_nat t) (Hgen : genesis_slot c = SLOT).
Context (Hdisk : ∀ name, write_error name = None) (Hbody : body_last) (Ht2 : (2 ≤ t)%nat).

(** A source, loaded, and its aggregate at the slot it was signed at. *)
Record source (c' : Committee) (name : string) (m : bytes) (slot : Z) (r : StatusList)
    (inputs : list (XmssPublicKey * XmssSignature)) (a : AggregateSignature) : Prop := {
  so_load : load_raw fixture name = Ok r;
  so_inputs : aggregation_inputs c' r = Ok inputs;
  so_length : length inputs = t;
  so_valid : Forall (λ x, xmss_verify x.1 m x.2 slot = true) inputs;
  so_distinct : NoDup (fst <$> inputs);
  so_seats : fst <$> inputs = omap (λ i, members c' !! i) (signer_indices r);
  so_proof : prover_aggregate inputs m slot LOG_INV_RATE = Ok (agg_to_bytes a);
  so_made : ∃ xmss, lean_aggregate xmss LOG_INV_RATE = Ok a;
  so_aggregate : aggregate_of a slot m (fst <$> inputs);
}.

Lemma source_ok F name m slot r (c' : Committee) :
  holds fixture F → NoDup (members c') → is_u32 slot → length m = 32%nat →
  wf_entries (sl_status_list r) → is_u32 (sl_version r) →
  F !! name = Some (to_bytes r) → signed_at (members c') m slot t r →
  ∃ inputs a, source c' name m slot r inputs a.
Proof.
  intros Hf Hnd Hslot Hm Hl Hv Hr Hsig.
  assert (Hwf : wf_status_list r).
  { destruct Hsig as (_ & Hcnt & Hlen & _). unfold wf_status_list. rewrite Hcnt. by split_and!. }
  destruct (aggregation_inputs_ok c' m slot t r Hnd Hsig) as (inputs & Hin & Hlen & Hfst & Hnk & Hall).
  assert (Hall' : Forall (λ x, xmss_verify x.1 m x.2 slot = true) inputs).
  { eapply Forall_impl; [exact Hall|]. by intros x []. }
  destruct (prover_aggregate_ok inputs m slot LOG_INV_RATE) as (a & Ha & Hp & Hof); [done|done| |done|done|].
  { intros ->. simpl in Hlen. lia. }
  exists inputs, a. split; try done; [by eapply load_raw_ok|by eexists].
Qed.

Lemma source_members name m slot r inputs a pk :
  source c name m slot r inputs a → pk ∈ fst <$> inputs → pk ∈ members c.
Proof.
  intros [_ _ _ _ _ -> _ _ _] (i & _ & Hi)%list_elem_of_omap. by eapply list_elem_of_lookup_2.
Qed.

(** All but one of a source's signatures still aggregate. *)
Lemma source_short name m slot r inputs a :
  source c name m slot r inputs a → is_u32 slot → length m = 32%nat →
  ∃ b, prover_aggregate (take (t - 1) inputs) m slot LOG_INV_RATE = Ok (agg_to_bytes b) ∧
    aggregate_of b slot m (fst <$> take (t - 1) inputs) ∧
    Z.of_nat (length (fst <$> take (t - 1) inputs)) < threshold c.
Proof.
  intros [_ _ Hlen Hall Hnd _ _ _ _] Hs Hm.
  destruct (prover_aggregate_ok (take (t - 1) inputs) m slot LOG_INV_RATE) as (b & _ & Hp & Hof); [done|done| | | |].
  - intros E. apply (f_equal length) in E. rewrite length_take in E. simpl in E. lia.
  - rewrite fmap_take. eapply sublist_NoDup; [done|apply sublist_take].
  - by apply Forall_take.
  - exists b. split_and!; [done|done|]. rewrite length_fmap, length_take, Hth. lia.
Qed.

(** The spliced proof decodes to the honest claims. *)
Lemma corrupt_proof_body_ok xmss rate a :
  lean_aggregate xmss rate = Ok a → agg_from_bytes (agg_to_bytes a) = Ok a →
  ∃ a', corrupt_proof_body (agg_to_bytes a) = Ok (agg_to_bytes a') ∧
    agg_xmss_signers a' = agg_xmss_signers a ∧ agg_sphincs_signers a' = agg_sphincs_signers a ∧
    agg_to_bytes a' ≠ agg_to_bytes a ∧ agg_from_bytes (agg_to_bytes a') = Ok a' ∧ agg_verify a' = false.
Proof.
  intros Ha Hrt. destruct (Hbody _ _ _ Ha Hrt) as (b & a' & Hf & Hb & Hx & Hs & Hne & Hrt' & Hv).
  exists a'. split_and!; [|done..]. unfold corrupt_proof_body. rewrite Hrt. cbn [map_err result_bind].
  rewrite Hf. cbn [ok_or result_bind]. rewrite Hb. cbn [map_err result_bind].
  rewrite (bool_decide_eq_true_2 _ Hx), (bool_decide_eq_true_2 _ Hs), (bool_decide_eq_false_2 _ Hne). done.
Qed.

(** A record that carries a genuine aggregate is rejected, or all its claims fit. *)
Lemma rejected_intro files name list version a slot m keys (P : Prop) :
  wf_entries list → is_u32 version → aggregate_of a slot m keys →
  files !! name = Some (snark_to_bytes (mkSnarkStatusList WotsXmss list version (agg_to_bytes a))) →
  (m = message_for c WotsXmss list version → slot_for c version = Some slot →
   threshold c ≤ Z.of_nat (length keys) → (∀ pk, pk ∈ keys → pk ∈ members c) → P) →
  rejected_file c files name ∨ P.
Proof.
  intros Hl Hv Ha Hf HP. set (s := mkSnarkStatusList _ _ _ _) in *.
  destruct (snark_verify (mkSnarkVerifier c 0) s) eqn:E.
  - right. destruct (verified_aggregate _ _ _ _ _ _ _ _ Ha E) as (?&?&?&?). by apply HP.
  - left. by exists s.
Qed.

Lemma longer_list_rejected files name list version x a slot keys :
  wf_entries list → is_u32 version → aggregate_of a slot (message_for c WotsXmss list version) keys →
  length x = 32%nat →
  files !! name = Some (snark_to_bytes (mkSnarkStatusList WotsXmss (list ++ [x]) version (agg_to_bytes a))) →
  rejected_file c files name ∨ statement_clash c list version (list ++ [x]) version.
Proof.
  intros Hl Hv Ha Hx Hf. assert (Hl' : wf_entries (list ++ [x])) by (by apply Forall_app_2; [|apply Forall_singleton]).
  eapply rejected_intro; [exact Hl'|done|exact Ha|exact Hf|]. intros Em _ _ _.
  apply message_for_inj in Em as [[E _]|?]; [|done..].
  apply (f_equal length) in E. rewrite length_app in E. simpl in E. lia.
Qed.

Lemma not_false (P : Prop) : P ∨ False → P.
Proof. tauto. Qed.
(** What the six forgeries are made of: [list] at the version after the last
    update, honest aggregates of [keys] at its slot, and proofs whose claims do
    not fit. *)
Record forged (list : Datatypes.list bytes) (honest spliced short slot version outsider : AggregateSignature) :
    Prop := {
  fg_honest : ∃ keys, aggregate_of honest (SLOT + Z.of_nat N_UPDATES)
    (message_for c WotsXmss list (Z.of_nat N_UPDATES)) keys ∧ threshold c ≤ Z.of_nat (length keys) ∧
    ∀ pk, pk ∈ keys → pk ∈ members c;
  fg_spliced : agg_xmss_signers spliced = agg_xmss_signers honest ∧
    agg_sphincs_signers spliced = agg_sphincs_signers honest ∧
    agg_from_bytes (agg_to_bytes spliced) = Ok spliced ∧ agg_verify spliced = false;
  fg_short : ∃ keys, aggregate_of short (SLOT + Z.of_nat N_UPDATES)
    (message_for c WotsXmss list (Z.of_nat N_UPDATES)) keys ∧ Z.of_nat (length keys) < threshold c;
  fg_slot : ∃ keys, aggregate_of slot (SLOT + Z.of_nat N_UPDATES + 1)
    (message_for c WotsXmss list (Z.of_nat N_UPDATES)) keys;
  fg_version : ∃ keys, aggregate_of version (SLOT + KEY_SLOTS)
    (message_for c WotsXmss list (Z.of_nat N_UPDATES - 1)) keys;
  fg_outsider : ∃ keys pk, aggregate_of outsider (SLOT + Z.of_nat N_UPDATES)
    (message_for c WotsXmss list (Z.of_nat N_UPDATES)) keys ∧ pk ∈ keys ∧ pk ∉ members c;
}.

Definition forged_files (list : Datatypes.list bytes)
    (honest spliced short slot version outsider : AggregateSignature) (files : Files) : Files :=
  let record list version a := snark_to_bytes (mkSnarkStatusList WotsXmss list version (agg_to_bytes a)) in
  let v := Z.of_nat N_UPDATES in
  <["attack-outsider.bin"%string := record list v outsider]>
  (<["attack-version.bin"%string := record list KEY_SLOTS version]>
  (<["attack-slot.bin"%string := record list v slot]>
  (<["attack-short.bin"%string := record list v short]>
  (<["attack-proofbody.bin"%string := record list v spliced]>
  (<["attack-tampered.bin"%string := record (list ++ [hash_any FAKE_REVOCATION]) v honest]> files))))).

(** The record written under one of the names. *)
Ltac solve_lookup := unfold forged_files; cbv zeta; rewrite ?lookup_insert_ne by done; apply lookup_insert_eq.

Lemma forged_rejected list honest spliced short slot version outsider files :
  wf_entries list → forged list honest spliced short slot version outsider →
  forgeries c list (forged_files list honest spliced short slot version outsider files).
Proof.
  intros Hl [(kh & Hh & Hth' & Hm) (Hx & Hs & Hrt & Hbad) (ks & Hshort & Hlt) (ksl & Hslot) (kv & Hver)
    (ko & pk & Ho & Hpk & Hn)].
  assert (Hv : is_u32 (Z.of_nat N_UPDATES)) by by vm_compute.
  destruct (slot_of_version c Hgen (Z.of_nat N_UPDATES)) as [Hsv _]; [done|].
  destruct (slot_of_version c Hgen KEY_SLOTS) as [Hsk _]; [done|].
  split.
  - intros name Hname. rewrite !elem_of_cons, elem_of_nil in Hname.
    destruct Hname as [->|[->|[->|[->|[]]]]]; [apply not_false..|].
    + eapply rejected_intro; [done|exact Hv|exact Ho|solve_lookup|].
      intros _ _ _ Hall. by apply Hn, Hall.
    + eapply rejected_intro; [done|exact Hv|exact Hslot|solve_lookup|].
      intros _ E _ _. rewrite Hsv in E. injection E. lia.
    + eapply rejected_intro; [done|exact Hv|exact Hshort|solve_lookup|]. lia.
    + eexists. split; [solve_lookup|]. split; [done|]. intros last. unfold snark_verify.
      rewrite proof_aggregate by done. destruct (check _ _ _) eqn:E; [|done].
      apply check_true in E as (_ & slot' & pks & _ & _ & _ & _ & E). congruence.
  - split.
    + eapply longer_list_rejected; [done|exact Hv|exact Hh|apply sha3_256_length|solve_lookup].
    + eapply rejected_intro; [done| |exact Hver|solve_lookup|]; [by vm_compute|].
      intros Em _ _ _. by apply message_for_inj in Em as [[_ E]|?].
Qed.
Lemma prover_make_proof alg raws list version slot :
  slot_for c version = Some slot →
  make_proof c alg raws list version LOG_INV_RATE =
    prover_aggregate raws (message_for c WotsXmss list version) slot LOG_INV_RATE.
Proof. intros H. unfold make_proof. destruct alg. by rewrite H. Qed.

(** One step of the handler, whose value is known. *)
Ltac run E := rewrite E by done; cbn [ok_or map_err result_bind].

Lemma fixture_forgeries_run F files :
  holds fixture F → corpus c t F →
  ∃ list honest spliced short slot version outsider, wf_entries list ∧
    forged list honest spliced short slot version outsider ∧
    attack_list F list ∧ fixture_forgeries outdir c fixture t files =
      Ok (forged_files list honest spliced short slot version outsider files).
Proof.
  intros Hf (_ & _ & _ & list & c' & Hl & (r1 & Hr1 & Hl1 & Hv1 & Hs1) & (r2 & Hr2 & Hl2 & Hv2 & Hs2) &
    (r3 & Hr3 & Hl3 & Hv3 & Hs3) & Hca & Hc' & r4 & Hr4 & Hl4 & Hv4 & Hs4 & i & pk & Hi & Hpk & Hn).
  set (v := Z.of_nat N_UPDATES) in *. set (m := message_for c WotsXmss list v) in *.
  destruct (slot_of_version c Hgen v) as [Hsv Hwv]; [done|]. apply in_window_u32 in Hwv.
  destruct (slot_of_version c Hgen (v + 1)) as [Hsv1 Hwv1]; [done|]. apply in_window_u32 in Hwv1.
  rewrite Z.add_assoc in Hsv1, Hwv1.
  destruct (slot_of_version c Hgen KEY_SLOTS) as [Hsk Hwk]; [done|]. apply in_window_u32 in Hwk.
  edestruct (source_ok F "raw-attack-honest.bin") with (8 := Hs1) as (in1 & honest & H1);
    [done|apply Hc|done|apply blake2s_256_length|by rewrite Hl1|by rewrite Hv1|done|].
  edestruct (source_ok F "raw-attack-slot.bin") with (8 := Hs2) as (in2 & slot & H2);
    [done|apply Hc|done|apply blake2s_256_length|by rewrite Hl2|by rewrite Hv2|done|].
  edestruct (source_ok F "raw-attack-version.bin") with (8 := Hs3) as (in3 & version & H3);
    [done|apply Hc|done|apply blake2s_256_length|by rewrite Hl3|by rewrite Hv3|done|].
  edestruct (source_ok F "raw-attack-outsider.bin") with (8 := Hs4) as (in4 & outsider & H4);
    [done|apply Hc'|done|apply blake2s_256_length|by rewrite Hl4|by rewrite Hv4|done|].
  destruct (source_short _ _ _ _ _ _ H1) as (short & Hps & Hos & Hlt); [done|apply blake2s_256_length|].
  destruct (so_made _ _ _ _ _ _ _ H1) as (x1 & Hx1).
  destruct (corrupt_proof_body_ok _ _ _ Hx1) as (spliced & Hsp & Hsx & Hss & _ & Hrt & Hbad);
    [apply (so_aggregate _ _ _ _ _ _ _ H1)|].
  exists list, honest, spliced, short, slot, version, outsider. split; [done|]. split.
  - split.
    + exists (fst <$> in1). split; [apply H1|]. rewrite length_fmap, (so_length _ _ _ _ _ _ _ H1), Hth.
      split; [done|]. intros pk'. by eapply source_members.
    + done.
    + by eexists.
    + eexists. apply H2.
    + eexists. apply H3.
    + exists (fst <$> in4), pk. split; [apply H4|]. split; [|done].
      rewrite (so_seats _ _ _ _ _ _ _ H4). apply list_elem_of_omap. by exists i.
  - split; [by exists r1|].
    unfold fixture_forgeries, write_record. destruct H1 as [Hr1' Hi1 _ _ _ _ Hp1 _ _],
      H2 as [Hr2' Hi2 _ _ _ _ Hp2 _ _], H3 as [Hr3' Hi3 _ _ _ _ Hp3 _ _], H4 as [Hr4' Hi4 _ _ _ _ Hp4 _ _].
    run Hr1'. run Hi1. rewrite !(prover_make_proof _ _ _ _ (SLOT + v)) by (by rewrite Hv1).
    rewrite Hl1, Hv1. fold m. run Hp1. run write_ok. run Hsp. run write_ok. run Hps. run write_ok.
    run Hr2'. run Hi2. rewrite Hl2, Hv2. change (wrapping_succ_u32 v) with (v + 1). run Hsv1.
    destruct (sl_alg r1), (sl_alg r2). fold m.
    run Hp2. run write_ok. run Hr3'. run Hi3. rewrite Hl3, Hv3.
    destruct (sl_alg r3). run Hsk. run Hp3. run write_ok.
    unfold load_committee. rewrite (holds_read _ _ _ _ Hf Hca). cbn [map_err result_bind].
    run committee_from_to. run Hr4'. run Hi4. rewrite Hl4, Hv4. destruct (sl_alg r4). run Hsv. fold m. run Hp4.
    by run write_ok.
Qed.

Lemma fixture_forgeries_ok F files :
  holds fixture F → corpus c t F →
  ∃ list files', fixture_forgeries outdir c fixture t files = Ok files' ∧ attack_list F list ∧
    forgeries c list files' ∧
    ∀ name, name ∉ forgery_names → files' !! name = files !! name.
Proof.
  intros Hf HF. destruct (fixture_forgeries_run F files Hf HF) as
    (list & a1 & a2 & a3 & a4 & a5 & a6 & Hl & Hfg & Hlist & ->).
  eexists _, _. split; [done|]. split; [exact Hlist|]. split; [by apply forged_rejected|]. intros name Hn. unfold forged_files. cbv zeta.
  unfold forgery_names in Hn. rewrite !lookup_insert_ne by set_solver. done.
Qed.
End forging.
End laws.
End prover.
