(* ===== verification/RawAgg.v ===== *)
(** * The raw aggregate benchmark (src/bin/raw_agg.rs)

    The relying party of the raw form, without any SNARK.  Over a fixture
    directory it decodes and verifies every update and then builds six controls
    that must be rejected; on its own it first runs a committee of signer nodes,
    each over its durable slot counter, in one state directory.  Measurement and
    printing are left out; a panic is an error; the answer is whether all six
    controls were rejected, which the exit code reports. *)
From S2P Require Import Prelude External Instances Seats StatusLists Committees Verifiers Params.
From S2P Require Import Workload Artifacts VerifierMain Corpus Fixture Prover.

Open Scope Z_scope.

Section raw_agg.
Context `{HH : Hashes} `{XX : Xmss} `{BL : BitListOps}.
Context `{SR : !Ssz RawStatusListWire} `{SC : !Ssz CommitteeWire}.

(** ** Judging one record *)

Definition measure_verification (b : bytes) (v : VerifierNode) : result StatusList string * bool :=
  decode_then_verify (from_bytes b) (verify_status_list v).

Definition corrupt_last_signature (wire : bytes) : result StatusList string :=
  let? honest := map_err (λ e, "honest control must decode: " +:+ e)%string (from_bytes wire) in
  let? b := ok_or (flip_last wire) "record has signature bytes"%string in
  let? corrupted := map_err
    (λ e, "changing a signature bit must preserve the record shape: " +:+ e)%string (from_bytes b) in
  if bool_decide (sl_status_list corrupted = sl_status_list honest) &&
     bool_decide (sl_version corrupted = sl_version honest) &&
     bool_decide (signer_indices corrupted = signer_indices honest) &&
     negb (bool_decide (to_bytes corrupted = wire))
  then Ok corrupted
  else Err "the signature control must differ from its honest record in a signature only"%string.

Definition indexed_signatures (record : StatusList) : list (nat * XmssSignature) :=
  zip (signer_indices record) (sl_signatures record).

(** [!verifier.verify_status_list(&StatusList::new(..).expect(what))]. *)
Definition control (what : string) (v : VerifierNode) (alg : Algorithms) (list : list bytes)
    (version : Z) (n : nat) (pairs : Datatypes.list (nat * XmssSignature)) : result bool string :=
  let? r := map_err (λ e, what +:+ ": " +:+ e)%string (status_list_new alg list version n pairs) in
  Ok (negb (verify_status_list v r)).

(** The three controls both modes make of an honest quorum: a row nobody
    authorized, a later version, one signature short. *)
Definition quorum_controls (what : string → string) (v : VerifierNode) (alg : Algorithms)
    (list : list bytes) (version next_version : Z) (n t : nat)
    (honest : Datatypes.list (nat * XmssSignature)) : result (bool * bool * bool) string :=
  let? tamper := control (what "tampered") v alg (list ++ [hash_any FAKE_REVOCATION]) version n honest in
  let? relabel := control (what "relabelled") v alg list next_version n honest in
  let? short := control (what "short") v alg list version n (take (t - 1) honest) in
  Ok (tamper, relabel, short).

(** ** Fixture mode *)

Fixpoint verify_updates (v : VerifierNode) (dir : Directory) (names : list string) :
    result unit string :=
  match names with
  | [] => Ok tt
  | name :: names =>
      let? b := map_err (λ e, "cannot read raw fixture " +:+ d_path dir +:+ "/" +:+ name +:+ ": " +:+ e)%string
                  (d_read dir name) in
      if snd (measure_verification b v) then verify_updates v dir names
      else Err "an honest fixture failed raw verification"%string
  end.

Definition fixture_controls (v : VerifierNode) (fixture : Directory) (n t : nat) :
    result bool string :=
  let? honest_bytes := map_err (λ e, "cannot read raw-attack-honest.bin: " +:+ e)%string
                         (d_read fixture "raw-attack-honest.bin") in
  let? honest := map_err (λ e, "malformed raw-attack-honest.bin: " +:+ e)%string
                   (from_bytes honest_bytes) in
  let? (tamper, relabel, short) :=
    quorum_controls (λ k, (k +:+ " control must be structurally valid")%string) v (sl_alg honest)
      (sl_status_list honest) (sl_version honest) (wrapping_succ_u32 (sl_version honest)) n t
      (indexed_signatures honest) in
  let? outsider := load_raw fixture "raw-attack-outsider.bin" in
  let? slot_attack := load_raw fixture "raw-attack-slot.bin" in
  let? corrupted := corrupt_last_signature honest_bytes in
  Ok (tamper && relabel && short && negb (verify_status_list v outsider) &&
      negb (verify_status_list v slot_attack) && negb (verify_status_list v corrupted)).

Definition run_fixture_verifier (fixture : Directory) (n t : nat) : result bool string :=
  let? anchor_bytes := map_err (λ e, "cannot read fixture anchor: " +:+ e)%string
                         (d_read fixture "anchor.bin") in
  let? c := map_err (λ e, "malformed fixture anchor: " +:+ e)%string
              (committee_from_bytes anchor_bytes) in
  if negb (length (members c) =? n)%nat then Err "fixture N/build N drift"%string
  else if negb (threshold c =? Z.of_nat t) then Err "fixture t/build t drift"%string
  else
    let v := mkVerifierNode c in
    let? updates := fixture_files fixture "raw-update-" in
    if negb (length updates =? N_UPDATES)%nat
    then Err "fixture must contain exactly N_UPDATES honest records"%string
    else
      let? _ := verify_updates v fixture updates in
      fixture_controls v fixture n t.

(** ** What acceptance of a control would mean *)

(** A signature of the collection that verifies for its seat on two statements. *)
Definition second_use (c : Committee) (pairs : list (nat * XmssSignature)) (m : bytes) (slot : Z)
    (m' : bytes) (slot' : Z) : Prop :=
  (m, slot) ≠ (m', slot') ∧ ∃ i pk sig, (i, sig) ∈ pairs ∧ members c !! i = Some pk ∧
    xmss_verify pk m sig slot = true ∧ xmss_verify pk m' sig slot' = true.

(** A signature that verifies under a key outside the committee and a member's. *)
Definition impersonation (c : Committee) (sigs : list XmssSignature) (m : bytes) (slot : Z) : Prop :=
  ∃ sig pk pk', sig ∈ sigs ∧ (pk ∉ members c) ∧ pk' ∈ members c ∧
    xmss_verify pk m sig slot = true ∧ xmss_verify pk' m sig slot = true.

(** The record's last signature and another one, whose encoding ends in the other
    bit, both verify. *)
Definition malleable (c : Committee) (r : StatusList) (m : bytes) (slot : Z) : Prop :=
  ∃ pk sig sig' b r', last (sl_signatures r) = Some sig ∧ flip_last (to_bytes r) = Some b ∧
    from_bytes b = Ok r' ∧ last (sl_signatures r') = Some sig' ∧ sig' ≠ sig ∧ pk ∈ members c ∧
    xmss_verify pk m sig slot = true ∧ xmss_verify pk m sig' slot = true.

Section accepted.
Context (c : Committee) (list : Datatypes.list bytes).
Let v : Z := Z.of_nat N_UPDATES.
Let m : bytes := message_for c WotsXmss list v.

(** What it takes for a control made of the list to be accepted: [honest] are the
    quorum's signatures and [r] their record, [outsider] those with the outsider's
    among them, [late] those of a slot later. *)
Inductive control_accepted (honest late : Datatypes.list (nat * XmssSignature))
    (outsider : Datatypes.list XmssSignature) (r : StatusList) : Prop :=
| StatementClash : tamper_clash c list → control_accepted honest late outsider r
| TamperAccepted :
    second_use c honest m (SLOT + v)
      (message_for c WotsXmss (list ++ [hash_any FAKE_REVOCATION]) v) (SLOT + v) →
    control_accepted honest late outsider r
| RelabelAccepted :
    second_use c honest m (SLOT + v) (message_for c WotsXmss list (v + 1)) (SLOT + v + 1) →
    control_accepted honest late outsider r
| OutsiderAccepted : impersonation c outsider m (SLOT + v) → control_accepted honest late outsider r
| SlotAccepted : second_use c late m (SLOT + v + 1) m (SLOT + v) → control_accepted honest late outsider r
| SignatureAccepted : malleable c r m (SLOT + v) → control_accepted honest late outsider r.
End accepted.

(** What is relied on for the signature control: the last byte of a record belongs
    to its last signature, and every byte string of a signature's length decodes. *)
Definition signature_last : Prop :=
  ∀ r sigs sig, wf_status_list r → sl_signatures r = sigs ++ [sig] →
    ∃ b sig', flip_last (to_bytes r) = Some b ∧
      from_bytes b = Ok (mkStatusList (sl_alg r) (sl_status_list r) (sl_version r) (sl_signers r)
                           (sigs ++ [sig'])).

(** ** The controls *)

Section laws.
Context `{BLL : !BitListLaws} `{LR : !SszLaws RawStatusListWire wf_raw_wire}.
Context `{LC : !SszLaws CommitteeWire wf_committee_wire}.
Context (Hsize : ∀ w : CommitteeWire,
  Z.of_nat (length (as_ssz_bytes w)) = 16 + 32 * Z.of_nat (length (cw_members w))).

(** An accepted control carries a quorum of valid signatures on what it says. *)
Lemma control_spec what c alg list version pairs :
  acceptable (length (members c)) pairs →
  ∃ b, control what (mkVerifierNode c) alg list version (length (members c)) pairs = Ok b ∧
    (b = false → threshold c ≤ Z.of_nat (length pairs) ∧ ∃ slot, slot_for c version = Some slot ∧
       Forall (λ x, signature_ok (members c) (message_for c alg list version) slot x = true) pairs).
Proof.
  intros Hacc. unfold control. pose proof (status_list_new_ok alg list version (length (members c)) pairs) as H.
  destruct (status_list_new _ _ _ _ _) as [r|e]; [|by destruct H as []].
  destruct H as (_ & (Hs & Hcnt & Hz) & <- & <- & <-). eexists. split; [done|].
  intros (_ & _ & Ht & _ & slot & Hslot & Hall)%negb_false_iff%verify_status_list_true.
  rewrite Hz, sort_by_key_perm in Hall. split; [|by exists slot].
  rewrite <-(sort_by_key_perm pair_index pairs), <-Hz, length_zip_with, <-signer_count_indices, <-Hcnt.
  lia.
Qed.

Lemma second_use_intro c pairs m slot m' slot' :
  (m, slot) ≠ (m', slot') → pairs ≠ [] →
  Forall (λ x, signature_ok (members c) m slot x = true) pairs →
  Forall (λ x, signature_ok (members c) m' slot' x = true) pairs →
  second_use c pairs m slot m' slot'.
Proof.
  intros Hne Hp H H'. split; [done|]. destruct pairs as [|[i sig] pairs]; [done|].
  apply Forall_cons in H as [H _]. apply Forall_cons in H' as [H' _]. unfold signature_ok in *. simpl in *.
  destruct (members c !! i) as [pk|] eqn:E; [|done]. exists i, pk, sig.
  split_and!; [apply list_elem_of_here|done..].
Qed.

Lemma signed_acceptable c m slot pairs :
  wf_committee c → NoDup (fst <$> pairs) →
  Forall (λ x, signature_ok (members c) m slot x = true) pairs → acceptable (length (members c)) pairs.
Proof.
  intros Hc Hnd Hall. split_and!; [done| |apply Hc]. eapply Forall_impl; [exact Hall|].
  intros x. apply signature_ok_lt.
Qed.

Lemma acceptable_take n k (pairs : list (nat * XmssSignature)) :
  acceptable n pairs → acceptable n (take k pairs).
Proof.
  intros (Hnd & Hall & Hn). split_and!; [|by apply Forall_take|done].
  rewrite fmap_take. eapply sublist_NoDup; [done|apply sublist_take].
Qed.

Section controls.
Context (c : Committee) (t : nat) (list : Datatypes.list bytes).
Context (Hc : wf_committee c) (Hth : threshold c = Z.of_nat t) (Hgen : genesis_slot c = SLOT).
Context (Hl : wf_entries list).
Let v : Z := Z.of_nat N_UPDATES.
Let m : bytes := message_for c WotsXmss list v.
Let valid (m : bytes) (slot : Z) (x : nat * XmssSignature) : Prop := signature_ok (members c) m slot x = true.

Lemma threshold_positive : (0 < t)%nat.
Proof. pose proof (wc_threshold _ Hc). unfold threshold in Hth. lia. Qed.

Lemma attack_slots : slot_for c v = Some (SLOT + v) ∧ slot_for c (v + 1) = Some (SLOT + v + 1).
Proof.
  destruct (slot_of_version c Hgen v) as [-> _]; [done|].
  destruct (slot_of_version c Hgen (v + 1)) as [-> _]; [done|]. by rewrite Z.add_assoc.
Qed.

(** The three controls made of an honest quorum. *)
Lemma quorum_controls_ok what honest :
  NoDup (fst <$> honest) → length honest = t → Forall (valid m (SLOT + v)) honest →
  ∃ a b, quorum_controls what (mkVerifierNode c) WotsXmss list v (v + 1) (length (members c)) t honest =
      Ok (a, b, true) ∧
    (a = false → tamper_clash c list ∨ second_use c honest m (SLOT + v)
       (message_for c WotsXmss (list ++ [hash_any FAKE_REVOCATION]) v) (SLOT + v)) ∧
    (b = false → second_use c honest m (SLOT + v) (message_for c WotsXmss list (v + 1)) (SLOT + v + 1)).
Proof.
  intros Hnd Hlen Hall. pose proof threshold_positive as Ht. destruct attack_slots as [Hs Hs1].
  pose proof (signed_acceptable c m (SLOT + v) honest Hc Hnd Hall) as Hacc.
  assert (Hne : honest ≠ []) by (intros ->; simpl in Hlen; lia).
  unfold quorum_controls.
  destruct (control_spec (what "tampered"%string) c WotsXmss (list ++ [hash_any FAKE_REVOCATION]) v honest Hacc)
    as (a & -> & Ha). cbn [result_bind].
  destruct (control_spec (what "relabelled"%string) c WotsXmss list (v + 1) honest Hacc) as (b & -> & Hb).
  cbn [result_bind].
  destruct (control_spec (what "short"%string) c WotsXmss list v (take (t - 1) honest)) as (s & -> & Hsh);
    [by apply acceptable_take|]. cbn [result_bind].
  exists a, b. split_and!.
  - destruct s; [done|]. destruct (Hsh eq_refl) as [Hle _]. rewrite length_take, Hth in Hle. lia.
  - intros ->. destruct (Ha eq_refl) as (_ & slot & E & Hall'). rewrite Hs in E. injection E as <-.
    destruct (decide (m = message_for c WotsXmss (list ++ [hash_any FAKE_REVOCATION]) v)) as [E|E].
    + left. apply message_for_inj in E as [[E _]|?]; try done.
      * apply (f_equal length) in E. rewrite length_app in E. simpl in E. lia.
      * apply Forall_app. split; [done|]. apply Forall_singleton, sha3_256_length.
    + right. apply second_use_intro; [congruence|done..].
  - intros ->. destruct (Hb eq_refl) as (_ & slot & E & Hall'). rewrite Hs1 in E. injection E as <-.
    apply second_use_intro; [|done..]. intros E%(f_equal snd). simpl in E. lia.
Qed.

(** A record of members' signatures that are valid a slot later. *)
Lemma late_rejected r :
  sl_status_list r = list → sl_version r = v → signed_at (members c) m (SLOT + v + 1) t r →
  verify_status_list (mkVerifierNode c) r = true →
  second_use c (indexed_signatures r) m (SLOT + v + 1) m (SLOT + v).
Proof.
  intros El Ev (_ & _ & Hlen & Hall) (_ & _ & Hle & Hcnt & slot & Hslot & Hall')%verify_status_list_true.
  rewrite Ev in Hslot. rewrite (proj1 attack_slots) in Hslot. injection Hslot as <-.
  destruct (sl_alg r). rewrite El, Ev in Hall'. pose proof threshold_positive.
  apply second_use_intro; [intros E%(f_equal snd); simpl in E; lia| |done|done].
  intros E%(f_equal length). unfold indexed_signatures in E.
  rewrite length_zip_with, <-signer_count_indices in E. simpl in E. lia.
Qed.

(** A record with the signature of someone outside. *)
Lemma outsider_rejected ms r i pk :
  sl_status_list r = list → sl_version r = v → signed_at ms m (SLOT + v) t r →
  i ∈ signer_indices r → ms !! i = Some pk → pk ∉ members c →
  verify_status_list (mkVerifierNode c) r = true →
  impersonation c (sl_signatures r) m (SLOT + v).
Proof.
  intros El Ev (_ & Hc1 & Hc2 & Hall) Hi Hpk Hn (_ & Hs & Hle & Hcnt & slot & Hslot & Hall')%verify_status_list_true.
  rewrite Ev in Hslot. rewrite (proj1 attack_slots) in Hslot. injection Hslot as <-.
  destruct (sl_alg r). rewrite El, Ev in Hall'. apply list_elem_of_lookup in Hi as [k Hk].
  assert (Hsig : is_Some (sl_signatures r !! k)).
  { apply lookup_lt_is_Some. rewrite Hc2, <-Hc1, signer_count_indices. by eapply lookup_lt_Some. }
  destruct Hsig as [sig Hsig].
  assert (Hx : zip (signer_indices r) (sl_signatures r) !! k = Some (i, sig))
    by (rewrite lookup_zip_with, Hk, Hsig; done).
  rewrite Forall_lookup in Hall, Hall'. specialize (Hall _ _ Hx). specialize (Hall' _ _ Hx).
  unfold signature_ok in Hall, Hall'. simpl in *. rewrite Hpk in Hall.
  destruct (members c !! i) as [pk'|] eqn:Hpk'; [|done]. exists sig, pk, pk'.
  split_and!; [by eapply list_elem_of_lookup_2|done|by eapply list_elem_of_lookup_2|done|done].
Qed.

(** The corrupted record is built, and accepted only if both signatures verify. *)
Lemma corrupt_ok r :
  signature_last → wf_status_list r → sl_status_list r = list → sl_version r = v →
  signed_at (members c) m (SLOT + v) t r →
  ∃ r', corrupt_last_signature (to_bytes r) = Ok r' ∧
    (verify_status_list (mkVerifierNode c) r' = true → malleable c r m (SLOT + v)).
Proof.
  intros Hlast Hr El Ev (Hs & Hc1 & Hc2 & Hall). pose proof threshold_positive as Ht.
  destruct (last (sl_signatures r)) as [sig|] eqn:E.
  2:{ apply last_None in E. rewrite E in Hc2. simpl in Hc2. lia. }
  pose proof E as (sigs & Esig)%last_Some.
  destruct (Hlast r sigs sig Hr Esig) as (b & sig' & Hb & Hd). set (r' := mkStatusList _ _ _ _ _) in Hd.
  pose proof (proj2 (raw_codec r' b) Hd) as [Hb' Hr'].
  assert (Hne : b ≠ to_bytes r).
  { intros ->. unfold flip_last in Hb. apply fmap_Some in Hb as (x & Hx & Eb).
    apply last_Some in Hx as (b0 & Hx). rewrite Hx, removelast_last in Eb.
    apply app_inj_tail in Eb as [_ Eb]. revert Eb. clear. by destruct x. }
  assert (Hsne : sig' ≠ sig).
  { intros ->. apply Hne. rewrite <-Hb'. unfold r'. rewrite <-Esig. by destruct r. }
  exists r'. split.
  - unfold corrupt_last_signature. rewrite (proj1 (raw_codec r []) Hr). cbn [map_err result_bind].
    rewrite Hb. cbn [ok_or result_bind]. rewrite Hd. cbn [map_err result_bind].
    rewrite Hb', (bool_decide_eq_false_2 _ Hne). unfold signer_indices. simpl. by rewrite !bool_decide_eq_true_2.
  - intros (_ & _ & _ & _ & slot & Hslot & Hall')%verify_status_list_true. simpl in Hslot, Hall'.
    rewrite Ev in Hslot. rewrite (proj1 attack_slots) in Hslot. injection Hslot as <-.
    destruct (sl_alg r). rewrite El, Ev in Hall'. unfold signer_indices in *. simpl in Hall'.
    set (k := length sigs).
    assert (Hk : is_Some (set_indices (bl_iter (sl_signers r)) !! k)).
    { apply lookup_lt_is_Some. change (k < length (signer_indices r))%nat.
      rewrite <-signer_count_indices, Hc1, <-Hc2, Esig, length_app. unfold k. simpl. lia. }
    destruct Hk as [i Hi]. rewrite Forall_lookup in Hall, Hall'.
    assert (Hz : zip (set_indices (bl_iter (sl_signers r))) (sl_signatures r) !! k = Some (i, sig))
      by (rewrite lookup_zip_with, Hi, Esig; unfold k; by rewrite list_lookup_middle).
    assert (Hz' : zip (set_indices (bl_iter (sl_signers r))) (sigs ++ [sig']) !! k = Some (i, sig'))
      by (rewrite lookup_zip_with, Hi; unfold k; by rewrite list_lookup_middle).
    specialize (Hall _ _ Hz). specialize (Hall' _ _ Hz'). unfold signature_ok in Hall, Hall'. simpl in *.
    destruct (members c !! i) as [pk|] eqn:Hpk; [|done].
    exists pk, sig, sig', b, r'. split_and!; try done; [|by eapply list_elem_of_lookup_2].
    unfold r'. simpl. by rewrite last_snoc.
Qed.
End controls.

(** ** A run over a fixture *)

(** One of the fixture's own signatures is valid for something it was not made
    for, or a hash collides. *)
Definition fixture_undone (c : Committee) (F : Files) : Prop :=
  ∃ r late outsider, F !! "raw-attack-honest.bin"%string = Some (to_bytes r) ∧
    F !! "raw-attack-slot.bin"%string = Some (to_bytes late) ∧
    F !! "raw-attack-outsider.bin"%string = Some (to_bytes outsider) ∧
    control_accepted c (sl_status_list r) (indexed_signatures r) (indexed_signatures late)
      (sl_signatures outsider) r.

Lemma verify_updates_ok c fixture F names :
  holds fixture F →
  (∀ name, name ∈ names → ∃ r, F !! name = Some (to_bytes r) ∧ wf_status_list r ∧
     verify_status_list (mkVerifierNode c) r = true) →
  verify_updates (mkVerifierNode c) fixture names = Ok tt.
Proof.
  intros Hf Hall. induction names as [|name names IH]; [done|]. cbn [verify_updates].
  destruct (Hall name) as (r & Hr & Hwf & Hv); [apply list_elem_of_here|].
  rewrite (holds_read _ _ _ _ Hf Hr). cbn [map_err result_bind].
  unfold measure_verification, decode_then_verify. rewrite (proj1 (raw_codec r []) Hwf). cbn [snd].
  rewrite Hv. apply IH. intros name' Hin. apply Hall. by apply list_elem_of_further.
Qed.

Section fixture_run.
Context (c : Committee) (t : nat) (fixture : Directory) (F : Files).
Context (Hc : wf_committee c) (Hth : threshold c = Z.of_nat t) (Hgen : genesis_slot c = SLOT).
Context (Hf : holds fixture F) (HF : corpus c t F) (Hlast : signature_last).

Lemma raw_file_wf name ms m slot list version r :
  wf_entries list → is_u32 version → F !! name = Some (to_bytes r) → sl_status_list r = list →
  sl_version r = version → signed_at ms m slot t r → wf_status_list r ∧ load_raw fixture name = Ok r.
Proof.
  intros Hl Hv Hn El Ev (_ & Hcnt & Hlen & _).
  assert (Hwf : wf_status_list r) by (split_and!; [by rewrite El|by rewrite Ev|by rewrite Hcnt]).
  split; [done|]. by eapply load_raw_ok.
Qed.

Lemma fixture_controls_ok :
  ∃ b, fixture_controls (mkVerifierNode c) fixture (length (members c)) t = Ok b ∧
    (b = true ∨ fixture_undone c F).
Proof.
  destruct HF as (_ & _ & _ & list & c' & Hl & (r & Hr & El & Ev & Hsig) & (late & Hla & Ell & Evl & Hsl) &
    _ & _ & _ & outs & Ho & Elo & Evo & Hso & i & pk & Hi & Hpk & Hn).
  set (v := Z.of_nat N_UPDATES) in *. set (m := message_for c WotsXmss list v) in *.
  assert (Hu : is_u32 v) by done.
  destruct (raw_file_wf _ _ _ _ _ _ r Hl Hu Hr El Ev Hsig) as [Hwf _].
  destruct (raw_file_wf _ _ _ _ _ _ late Hl Hu Hla Ell Evl Hsl) as [_ Hlate].
  destruct (raw_file_wf _ _ _ _ _ _ outs Hl Hu Ho Elo Evo Hso) as [_ Hout].
  unfold fixture_controls. rewrite (holds_read _ _ _ _ Hf Hr). cbn [map_err result_bind].
  rewrite (proj1 (raw_codec r []) Hwf). cbn [map_err result_bind].
  destruct (corrupt_ok c t list Hc Hth Hgen r Hlast Hwf El Ev Hsig) as (bad & Hbad & Hmal).
  destruct Hsig as (_ & Hc1 & Hc2 & Hall).
  destruct (quorum_controls_ok c t list Hc Hth Hgen Hl
    (λ k, k +:+ " control must be structurally valid")%string (indexed_signatures r)) as (a & b & Hq & Ha & Hb).
  { unfold indexed_signatures. rewrite fst_zip by (rewrite <-signer_count_indices; lia).
    apply sorted_lt_nodup, set_indices_sorted. }
  { unfold indexed_signatures. rewrite length_zip_with, <-signer_count_indices. lia. }
  { done. }
  rewrite El, Ev. destruct (sl_alg r). change (wrapping_succ_u32 v) with (v + 1). fold v in Hq. rewrite Hq.
  cbn [result_bind]. rewrite Hout. cbn [result_bind]. rewrite Hlate. cbn [result_bind]. rewrite Hbad.
  cbn [result_bind]. eexists. split; [done|]. rewrite andb_true_r.
  assert (Hundo : control_accepted c list (indexed_signatures r) (indexed_signatures late)
    (sl_signatures outs) r → fixture_undone c F) by (intros H; exists r, late, outs; by rewrite El).
  destruct a; [|right; apply Hundo; destruct (Ha eq_refl); [by apply StatementClash|by apply TamperAccepted]].
  destruct b; [|right; by apply Hundo, RelabelAccepted, Hb].
  destruct (verify_status_list _ outs) eqn:Eo.
  { right. apply Hundo, OutsiderAccepted. by eapply outsider_rejected. }
  destruct (verify_status_list _ late) eqn:Ela.
  { right. apply Hundo, SlotAccepted. by eapply late_rejected. }
  destruct (verify_status_list _ bad) eqn:Eb; [right; by apply Hundo, SignatureAccepted, Hmal|by left].
Qed.

Lemma run_fixture_verifier_ok :
  ∃ b, run_fixture_verifier fixture (length (members c)) t = Ok b ∧ (b = true ∨ fixture_undone c F).
Proof.
  pose proof HF as (Ha & Hall & _). unfold run_fixture_verifier.
  rewrite (holds_read _ _ _ _ Hf Ha). cbn [map_err result_bind].
  rewrite committee_from_to by done. cbn [map_err result_bind].
  rewrite Nat.eqb_refl, Hth, Z.eqb_refl. cbn [negb].
  rewrite (fixture_names c fixture t F) by done. cbn [result_bind]. rewrite length_fmap, length_seq, Nat.eqb_refl.
  cbn [negb]. rewrite (verify_updates_ok c fixture F); [apply fixture_controls_ok|done|].
  intros name (v & -> & Hv%elem_of_seq)%list_elem_of_fmap. destruct (Hall v) as (r & Hr & Hu & Hver); [lia|].
  exists r. split_and!; [done| |done]. eapply update_record_wf; [|done]. lia.
Qed.
End fixture_run.

(** The updates of a run that did not stop were all authorized. *)
Lemma verify_updates_sound c fixture names :
  wf_committee c → verify_updates (mkVerifierNode c) fixture names = Ok tt →
  ∀ name, name ∈ names → ∃ b r, d_read fixture name = Ok b ∧ from_bytes b = Ok r ∧
    quorum c (sl_alg r) (sl_status_list r) (sl_version r) (valid_signature (sl_signatures r)).
Proof.
  intros Hc. induction names as [|name names IH]; [by intros _ ? ?%not_elem_of_nil|].
  cbn [verify_updates]. destruct (d_read fixture name) as [b|] eqn:Eb; [|done]. cbn [map_err result_bind].
  unfold measure_verification, decode_then_verify. destruct (from_bytes b) as [r|] eqn:Er; [|done].
  cbn [snd]. destruct (verify_status_list _ r) eqn:Ev; [|done].
  intros H name' [->|Hin]%elem_of_cons; [|by apply IH]. exists b, r. split_and!; [done|done|].
  by apply verified_quorum.
Qed.

(** A run over any directory that ends, ends with the anchor's committee of the
    sizes asked for and [N_UPDATES] records that quorums of it signed. *)
Theorem raw_run_sound fixture n t b :
  run_fixture_verifier fixture n t = Ok b →
  ∃ anchor c names, d_read fixture "anchor.bin" = Ok anchor ∧ committee_from_bytes anchor = Ok c ∧
    length (members c) = n ∧ threshold c = Z.of_nat t ∧
    fixture_files fixture "raw-update-" = Ok names ∧ length names = N_UPDATES ∧
    ∀ name, name ∈ names → ∃ b r, d_read fixture name = Ok b ∧ from_bytes b = Ok r ∧
      quorum c (sl_alg r) (sl_status_list r) (sl_version r) (valid_signature (sl_signatures r)).
Proof.
  unfold run_fixture_verifier. destruct (d_read fixture "anchor.bin") as [anchor|] eqn:Ea; [|done].
  cbn [map_err result_bind]. destruct (committee_from_bytes anchor) as [c|] eqn:Ec; [|done].
  cbn [map_err result_bind]. destruct (Nat.eqb_spec (length (members c)) n) as [Hn|]; [|done].
  destruct (Z.eqb_spec (threshold c) (Z.of_nat t)) as [Ht|]; [|done]. cbn [negb].
  destruct (fixture_files fixture "raw-update-") as [names|] eqn:En; [|done]. cbn [result_bind].
  destruct (Nat.eqb_spec (length names) N_UPDATES) as [Hl|]; [|done]. cbn [negb].
  destruct (verify_updates _ fixture names) as [[]|] eqn:Ev; [|done]. intros _.
  exists anchor, c, names. split_and!; [done..|]. apply verify_updates_sound; [|done].
  by eapply committee_from_bytes_ok.
Qed.

(** The raw benchmark over a fixture shows what it says: over any directory that
    holds what the fixture writer writes, from distinct fresh keys, the run ends;
    all updates were accepted; and the six controls (a tampered list, a later
    version, one signature short, an outsider, signatures of a slot later, one
    flipped bit) are all rejected, unless a signature of the fixture is valid for
    something it was not made for or BLAKE2s collides on the two lists. *)
Theorem raw_fixture_run `{DK : Disk} fdir n t keypairs outsider var entries fresh before rng :
  signature_last → (∀ name, write_error name = None) → signs keypairs → signs [outsider] →
  NoDup (snd <$> keypairs ++ [outsider]) → length keypairs = n → (1 ≤ t)%nat → (t ≤ n)%nat →
  (n ≤ MAX_COMMITTEE_SIZE)%nat → list_entries_from_env var = Ok entries →
  ∃ c F st, committee_new (snd <$> keypairs) (Z.of_nat t) SLOT = Ok c ∧
    fixture_main fdir n t keypairs outsider var fresh before (mkSession rng []) = Ok (F, st) ∧
    ∀ fixture, holds fixture F →
      ∃ b, run_fixture_verifier fixture n t = Ok b ∧ (b = true ∨ fixture_undone c F).
Proof.
  intros Hlast Hdisk Hs Hso Hnd Hlen Ht1 Ht Hmax Hvar.
  destruct (fixture_main_ok fdir n t keypairs outsider var entries fresh before rng) as
    (c & F & st & Hnew & Hmain & _ & HF); [done..|].
  pose proof Hnew as (Hc & Hm & Hth & Hg)%committee_new_ok; [|done].
  exists c, F, st. split_and!; [done..|]. intros fixture Hf.
  rewrite <-Hlen, <-(length_fmap snd keypairs), <-Hm. by apply run_fixture_verifier_ok.
Qed.
End laws.
End raw_agg.
