(* ===== verification/Fleet.v ===== *)
(** * A committee of signer nodes in one process

    The benchmark (src/bin/raw_agg.rs) and the walk-through
    (src/examples/local_demo.rs) hold every member of a committee: signer nodes over
    durable counters of their own, of one slot window.  How a quorum of them signs,
    and what that leaves when no call of the operating system fails. *)
From S2P Require Import Prelude External Instances Fs Atomic SlotCounter Signer SlotSystem SlotRuns.
From S2P Require Import Seats StatusLists Committees Verifiers.

Open Scope Z_scope.

Section fleet.
Context `{HH : Hashes} `{XX : Xmss}.

Abbreviation KeyPair := (XmssSecretKey * XmssPublicKey)%type.

(** [sign_at], whose refusal ends the run with the text [failed] gives it. *)
Definition expect_signature (failed : SignerNodeError → string) (s : SignerNode) (message : bytes) (slot : Z) :
    io string (XmssSignature * SignerNode) :=
  '(r, s) ← no_panic (sign_at s message slot);
  match r with
  | Ok signature => mret (signature, s)
  | Err e => throw (failed e)
  end.

(** The seats of a quorum sign in order; [failed] is the text of a seat's refusal. *)
Fixpoint sign_quorum (failed : nat → SignerNodeError → string) (signers : list SignerNode) (quorum : list nat) (message : bytes) (slot : Z) :
    io string (list (nat * XmssSignature) * list SignerNode) :=
  match quorum with
  | [] => mret ([], signers)
  | k :: quorum =>
      s ← lift (ok_or (signers !! k) "index out of bounds"%string);
      '(signature, s) ← expect_signature (failed k) s message slot;
      '(rest, signers) ← sign_quorum failed (<[k := s]> signers) quorum message slot;
      mret ((k, signature) :: rest, signers)
  end.

(** ** The nodes of one window *)

(** A key generated for the window signs any message at any of its slots, and the
    signature verifies. *)
Definition signs_in (first_slot last_slot : Z) (keypairs : list KeyPair) : Prop :=
  ∀ sk pk rng m slot, (sk, pk) ∈ keypairs → first_slot ≤ slot ≤ last_slot →
    ∃ sig, xmss_sign rng sk m slot = Ok sig ∧ xmss_verify pk m sig slot = true.

Section window.
Context (first_slot last_slot : Z) (Hwin : 0 ≤ first_slot ≤ last_slot ∧ last_slot ≤ u32_max).

Definition ino (s : SignerNode) : nat := f_ino (state_file (a_slot_counter s)).

(** A node that spent no slot from [bound] on, and its file. *)
Record member_state (bound : Z) (s : SignerNode) (w : world) : Prop := {
  me_state : counter_state s w;
  me_end : end_ (a_slot_counter s) = last_slot;
  me_generation : generation (a_slot_counter s) ≤ next (a_slot_counter s);
  me_next : next (a_slot_counter s) ≤ bound;
  me_ino : (ino s < w_next w)%nat;
}.

(** The nodes of the key pairs, each with a file of its own. *)
Record fleet (keypairs : list KeyPair) (bound : nat → Z) (nodes : list SignerNode) (w : world) : Prop := {
  fl_calls : w_verdicts w = [];
  fl_keys : (λ s, (sk s, pk s)) <$> nodes = keypairs;
  fl_nodes : ∀ k s, nodes !! k = Some s → member_state (bound k) s w;
  fl_inodes : NoDup (ino <$> nodes);
}.

(** Signing leaves everything but the contents of files and the log. *)
Definition same_place (w w' : world) : Prop :=
  cur_dir w' = cur_dir w ∧ w_next w' = w_next w ∧ w_locks w' = w_locks w.

(** A signature that signing with the seat's key returned, and that verifies. *)
Definition made_by (keypairs : list KeyPair) (m : bytes) (slot : Z) (x : nat * XmssSignature) : Prop :=
  ∃ sk pk rng, keypairs !! x.1 = Some (sk, pk) ∧ xmss_sign rng sk m slot = Ok x.2 ∧
    xmss_verify pk m x.2 slot = true.

Lemma made_signature_ok keypairs m slot x :
  made_by keypairs m slot x → signature_ok (snd <$> keypairs) m slot x = true.
Proof.
  intros (sk & pk & rng & Hk & _ & Hv). unfold signature_ok. by rewrite list_lookup_fmap, Hk.
Qed.

Lemma member_state_frame bound s w w' :
  member_state bound s w → w_nodes w' !! ino s = w_nodes w !! ino s → (w_next w ≤ w_next w')%nat →
  member_state bound s w'.
Proof.
  intros [[Hwf Hh] ? ? ? ?] E Hn. split; try done; [|lia]. split; [done|].
  unfold SlotCounter.holds, versions in *. fold (ino s) in *. by rewrite E.
Qed.

Lemma member_state_mono bound bound' s w : bound ≤ bound' → member_state bound s w → member_state bound' s w.
Proof. intros Hb []. split; (done || lia). Qed.

Lemma fleet_frame keypairs bound nodes w w' :
  fleet keypairs bound nodes w → w_verdicts w' = [] → (w_next w ≤ w_next w')%nat →
  (∀ j, (j < w_next w)%nat → w_nodes w' !! j = w_nodes w !! j) → fleet keypairs bound nodes w'.
Proof.
  intros [Hq Hk Hs Hi] Hq' Hn Hj. split; [done|done| |done]. intros k s E.
  specialize (Hs k s E). eapply member_state_frame; [exact Hs|apply Hj, Hs|done].
Qed.

(** ** Signing *)

(** What a signing call asks of a node, and what it leaves. *)
Lemma member_ready s slot w :
  member_state slot s w → signs_in first_slot last_slot [(sk s, pk s)] → first_slot ≤ slot ≤ last_slot →
  counter_state s w ∧ signs_at s slot ∧ next (a_slot_counter s) ≤ slot ≤ end_ (a_slot_counter s) ∧
  generation (a_slot_counter s) + 1 ≤ u64_max.
Proof.
  intros [Hst He Hg Hn Hi] Hs Hw. split_and!; [done| |lia|rewrite He; lia|].
  - intros rng m. apply Hs; [apply list_elem_of_here|done].
  - unfold u32_max, u64_max in *. lia.
Qed.

Lemma member_signed s m slot w sig s' w' :
  member_state slot s w → signed_run s m slot w sig s' w' →
  member_state (slot + 1) s' w' ∧ sk s' = sk s ∧ pk s' = pk s ∧ ino s' = ino s ∧ w_verdicts w' = [] ∧
  same_place w w' ∧ (∀ j, j ≠ ino s → w_nodes w' !! j = w_nodes w !! j) ∧ w_signed w' = (slot, m) :: w_signed w.
Proof.
  intros [Hst He Hg Hn Hi] [_ _ Hq' [] [Hpk Hsk] (Hnx & Hen & Hge)]. split_and!; try done.
  - split; [done|by rewrite Hen|rewrite Hge, Hnx; lia|by rewrite Hnx|].
    unfold ino in *. rewrite ss_file. by rewrite ss_next.
  - split_and!; [|done..]. unfold cur_dir. by rewrite ss_dirs.
Qed.

Lemma expect_signature_ok failed s m slot w :
  w_verdicts w = [] → member_state slot s w → signs_in first_slot last_slot [(sk s, pk s)] → first_slot ≤ slot ≤ last_slot →
  ∃ sig s' w', expect_signature failed s m slot w = (Done (sig, s'), w') ∧
    (∃ rng, xmss_sign rng (sk s) m slot = Ok sig) ∧ xmss_verify (pk s) m sig slot = true ∧
    member_state (slot + 1) s' w' ∧ sk s' = sk s ∧ pk s' = pk s ∧ ino s' = ino s ∧
    w_verdicts w' = [] ∧ same_place w w' ∧ (∀ j, j ≠ ino s → w_nodes w' !! j = w_nodes w !! j) ∧
    w_signed w' = (slot, m) :: w_signed w.
Proof.
  intros Hq Hm Hs Hw. destruct (member_ready s slot w Hm Hs Hw) as (Hst & Hsig & Hn & Hg).
  destruct (sign_at_run s m slot w) as (sig & s' & w' & E & Hrun); [done..|].
  exists sig, s', w'. unfold expect_signature, no_panic, mbind, io_bind, io_map_err. rewrite E.
  split; [done|]. split; [apply (sr_made _ _ _ _ _ _ _ Hrun)|]. split; [apply (sr_verifies _ _ _ _ _ _ _ Hrun)|].
  by apply (member_signed s m slot w sig s').
Qed.

Lemma signs_lookup keypairs k sk pk : signs_in first_slot last_slot keypairs → keypairs !! k = Some (sk, pk) → signs_in first_slot last_slot [(sk, pk)].
Proof.
  intros Hs Hk sk' pk' rng m slot [= -> ->]%list_elem_of_singleton Hw.
  by apply Hs; [eapply list_elem_of_lookup_2|].
Qed.

(** One node of the fleet signs. *)
Lemma fleet_step keypairs bound nodes w k s s' w' slot m :
  fleet keypairs bound nodes w → nodes !! k = Some s → member_state (slot + 1) s' w' →
  sk s' = sk s → pk s' = pk s → ino s' = ino s → w_verdicts w' = [] → same_place w w' →
  (∀ j, j ≠ ino s → w_nodes w' !! j = w_nodes w !! j) → w_signed w' = (slot, m) :: w_signed w →
  fleet keypairs (λ j, if decide (j = k) then slot + 1 else bound j) (<[k := s']> nodes) w'.
Proof.
  intros [Hq Hk Hs Hi] Hn Hs' Esk Epk Ei Hq' (_ & Hnx & _) Hj _.
  assert (Hf : ∀ {A} (f : SignerNode → A), f s' = f s → f <$> <[k := s']> nodes = f <$> nodes).
  { intros A f E. rewrite list_fmap_insert, E. apply list_insert_id. by rewrite list_lookup_fmap, Hn. }
  split; [done| | |].
  - rewrite (Hf _ (λ s, (sk s, pk s))); [done|]. by rewrite Esk, Epk.
  - intros j x. destruct (decide (j = k)) as [->|Hne].
    + rewrite list_lookup_insert_eq by (by eapply lookup_lt_Some). by intros [= <-].
    + rewrite list_lookup_insert_ne by done. intros Hx. eapply member_state_frame; [by apply Hs| |lia].
      apply Hj. intros E. apply Hne. eapply NoDup_lookup; [exact Hi|..].
      * by rewrite list_lookup_fmap, Hx.
      * rewrite list_lookup_fmap, Hn. simpl. by rewrite E.
  - by rewrite (Hf _ ino).
Qed.

Lemma sign_quorum_ok failed keypairs bound nodes quorum m slot w :
  signs_in first_slot last_slot keypairs → first_slot ≤ slot ≤ last_slot → fleet keypairs bound nodes w → NoDup quorum →
  Forall (λ k, k < length keypairs)%nat quorum →
  (∀ k, k ∈ quorum → bound k ≤ slot) → (∀ k, bound k ≤ slot + 1) →
  ∃ pairs nodes' w', sign_quorum failed nodes quorum m slot w = (Done (pairs, nodes'), w') ∧
    fst <$> pairs = quorum ∧ Forall (made_by keypairs m slot) pairs ∧
    fleet keypairs (λ _, slot + 1) nodes' w' ∧ same_place w w' ∧
    w_signed w' = replicate (length quorum) (slot, m) ++ w_signed w.
Proof.
  intros Hs Hw. revert bound nodes w. induction quorum as [|k quorum IH]; intros bound nodes w Hfl Hnd Hall Hb Hb1.
  { exists [], nodes, w. split_and!; try done. destruct Hfl as [? ? Hst ?]. split; try done.
    intros j s E. eapply member_state_mono; [apply Hb1|by apply Hst]. }
  apply NoDup_cons in Hnd as [Hk Hnd]. apply Forall_cons in Hall as [Hlt Hall].
  pose proof Hfl as [Hq Hkeys Hst _].
  destruct (lookup_lt_is_Some_2 nodes k) as [s Es].
  { by rewrite <-Hkeys, length_fmap in Hlt. }
  assert (Hpair : keypairs !! k = Some (sk s, pk s)) by (by rewrite <-Hkeys, list_lookup_fmap, Es).
  destruct (expect_signature_ok (failed k) s m slot w) as
    (sig & s' & w1 & E & [rng Hmade] & Hv & Hs' & Esk & Epk & Ei & Hq1 & Hsame & Hj & Hlog); [done| | |done|].
  { eapply member_state_mono; [apply Hb, list_elem_of_here|by apply Hst]. }
  { by eapply signs_lookup. }
  destruct (IH (λ j, if decide (j = k) then slot + 1 else bound j) (<[k := s']> nodes) w1) as
    (pairs & nodes' & w' & E' & Hf & Hmd & Hfl' & Hsame' & Hlog'); [by eapply fleet_step|done|done| | |].
  { intros j Hj'. rewrite decide_False by congruence. apply Hb. by apply list_elem_of_further. }
  { intros j. case_decide; [done|apply Hb1]. }
  exists ((k, sig) :: pairs), nodes', w'. cbn [sign_quorum]. rewrite Es. cbn [ok_or]. rewrite lift_Ok.
  unfold mbind, io_bind in *. rewrite E, E'. split_and!; [done|by simpl; f_equal| |done| |].
  - constructor; [|done]. by exists (sk s), (pk s), rng.
  - destruct Hsame as (? & ? & ?), Hsame' as (? & ? & ?). split_and!; congruence.
  - rewrite Hlog', Hlog, length_cons, replicate_S_end, <-app_assoc. done.
Qed.

Lemma installed_member p w w' c pk sk :
  installed p w w' c pk first_slot last_slot → member_state first_slot (mkSignerNode pk sk c) w'.
Proof.
  intros [_ (Hk & Hg & Hn & He) [Hf _] Hnx _ _ _ _ _ Hh].
  assert (Hrec : counter_record c = first_record pk first_slot) by (unfold counter_record; by rewrite Hg, Hn, Hk).
  split; simpl; [|exact He|rewrite Hg, Hn; lia|by rewrite Hn|unfold ino; simpl; lia].
  split; simpl; [|by rewrite Hrec, Hf]. split; rewrite ?He, ?Hrec; rewrite ?Hn;
    [apply wf_first_record|]; unfold is_u32, is_u64, u32_max, u64_max in *; lia.
Qed.

End window.
End fleet.
