(* ===== verification/RawAggOwn.v ===== *)
(** * The raw aggregate benchmark on its own (src/bin/raw_agg.rs, self-contained)

    One process holds a whole committee: every member is a signer node over its
    own durable slot counter in one state directory, signs twenty updates in
    rotating quorums, and the verifier judges each and the six controls.  Keys and
    random entries are given.  When no call of the operating system fails the run
    ends, having applied the keys exactly as often as the program says. *)
From S2P Require Import Prelude External Instances Seats StatusLists Committees Verifiers Params.
From S2P Require Import Fs Atomic SlotCounter Signer SlotSystem SlotRuns Freshness VerifierMain Artifacts.
From S2P Require Import Corpus Fixture Prover RawAgg Fleet.

Open Scope Z_scope.

(** ** The state directory *)

(** [{i:04}]. *)
Definition four_digits (i : nat) : string :=
  Nat.iter (4 - String.length (pretty i)) (λ s, "0" +:+ s)%string (pretty i).

Definition member_path (dir : list string) (i : nat) : path := (dir, Some ("member-" +:+ four_digits i)%string).
Definition outsider_path (dir : list string) : path := (dir, Some "outsider"%string).

(** *** The names are apart *)

Fixpoint strip_zeros (s : string) : string :=
  match s with
  | String a s' => if bool_decide (a = Ascii.ascii_of_nat 48) then strip_zeros s' else s
  | EmptyString => EmptyString
  end.
Fixpoint dotless (s : string) : bool :=
  match s with String a s' => negb (bool_decide (a = Ascii.ascii_of_nat 46)) && dotless s' | EmptyString => true end.

Lemma strip_iter k s : strip_zeros (Nat.iter k (λ s, "0" +:+ s)%string s) = strip_zeros s.
Proof. by induction k. Qed.
Lemma dotless_app a b : dotless (a +:+ b) = dotless a && dotless b.
Proof. induction a as [|x a IH]; [done|]. simpl. by rewrite IH, andb_assoc. Qed.
Lemma dotless_iter k s : dotless (Nat.iter k (λ s, "0" +:+ s)%string s) = dotless s.
Proof.
  induction k as [|k IH]; [done|]. change (dotless ("0" +:+ Nat.iter k (λ s, "0" +:+ s) s) = dotless s)%string.
  by rewrite dotless_app, IH.
Qed.

Lemma pretty_go_digits x s :
  (0 < x)%N → dotless s = true →
  strip_zeros (pretty_N_go x s) = pretty_N_go x s ∧ dotless (pretty_N_go x s) = true ∧
  pretty_N_go x s ≠ EmptyString.
Proof.
  revert s. induction (N.lt_wf_0 x) as [x _ IH]. intros s Hx Hs.
  rewrite pretty_N_go_step by done. pose proof (N.mod_upper_bound x 10 ltac:(done)) as Hm.
  assert (Hd : dotless (String (pretty_N_char (x `mod` 10)) s) = true).
  { simpl. rewrite Hs, andb_true_r. apply negb_true_iff, bool_decide_eq_false_2.
    destruct (x `mod` 10)%N as [|p]; [done|]. do 4 (destruct p as [p|p|]; try done). }
  destruct (decide (x `div` 10 = 0)%N) as [E|E].
  - rewrite E, pretty_N_go_0. split_and!; [|done|done].
    apply N.div_small_iff in E; [|done]. rewrite N.mod_small by done. simpl.
    rewrite bool_decide_eq_false_2; [done|].
    destruct x as [|p]; [lia|]. do 4 (destruct p as [p|p|]; try done).
  - apply IH; [by apply N.div_lt|by apply N.neq_0_lt_0|done].
Qed.

Lemma pretty_digits (i : nat) :
  strip_zeros (pretty i) = (if decide (i = 0%nat) then EmptyString else pretty i) ∧
  dotless (pretty i) = true ∧ pretty i ≠ EmptyString.
Proof.
  case_decide as E; [by subst|]. unfold pretty, pretty_nat, pretty, pretty_N.
  rewrite decide_False by lia. apply (pretty_go_digits (N.of_nat i) ""); [lia|done].
Qed.

Lemma four_digits_inj i j : four_digits i = four_digits j → i = j.
Proof.
  intros E%(f_equal strip_zeros). unfold four_digits in E. rewrite !strip_iter in E.
  destruct (pretty_digits i) as (Ei & _ & Hi), (pretty_digits j) as (Ej & _ & Hj).
  rewrite Ei, Ej in E. do 2 case_decide; try congruence. by apply (inj pretty).
Qed.

Lemma dotless_digits i : dotless (four_digits i) = true.
Proof. unfold four_digits. rewrite dotless_iter. apply pretty_digits. Qed.

(** A path whose name has no dot is no sibling of another. *)
Definition plain (dir : list string) (p : path) : Prop := ∃ name, p = (dir, Some name) ∧ dotless name = true.

Lemma plain_member dir i : plain dir (member_path dir i).
Proof. eexists. split; [done|]. rewrite dotless_app. apply dotless_digits. Qed.
Lemma plain_outsider dir : plain dir (outsider_path dir).
Proof. by eexists. Qed.

Lemma plain_sibling dir p q suffix : plain dir q → sibling p suffix ≠ q.
Proof.
  intros (name & -> & Hd) [= _ E]. rewrite <-E in Hd. rewrite !dotless_app in Hd. cbn in Hd.
  by rewrite andb_false_r in Hd.
Qed.

Lemma sibling_last p q : sibling p "lock" ≠ sibling q "tmp".
Proof.
  unfold sibling. intros [= _ E].
  assert (H : ∀ a b : string, (a +:+ "." +:+ "lock")%string ≠ (b +:+ "." +:+ "tmp")%string).
  { clear. intros a b E%(f_equal (λ s, last (String.list_ascii_of_string s))). revert E.
    assert (Hl : ∀ s t, String.list_ascii_of_string (s +:+ t) =
      String.list_ascii_of_string s ++ String.list_ascii_of_string t)
      by (intros s t; induction s as [|x s IH]; simpl; [done|by f_equal]).
    rewrite !Hl, !last_app. done. }
  by apply H in E.
Qed.

Lemma plain_siblings dir p q suffix :
  plain dir p → plain dir q → sibling p suffix = sibling q suffix → p = q.
Proof. intros (n & -> & _) (n' & -> & _) E%sibling_inj. by subst. Qed.

Lemma member_path_inj dir i j : member_path dir i = member_path dir j → i = j.
Proof. unfold member_path. intros [= E]. by apply (inj (String.append _)), four_digits_inj in E. Qed.

Section own.
Context `{HH : Hashes} `{XX : Xmss} `{BL : BitListOps}.
Context `{SR : !Ssz RawStatusListWire} `{SC : !Ssz CommitteeWire}.

Abbreviation KeyPair := (XmssSecretKey * XmssPublicKey)%type.

(** [AtomicSlotCounter::create(..).expect(..)] and [SignerNode::new]. *)
Definition new_signer (p : path) (keys : KeyPair) : io string SignerNode :=
  let (secret, public) := keys in
  counter ← io_map_err (λ _, "slot state"%string) (create p public SLOT (SLOT + KEY_SLOTS));
  mret (mkSignerNode public secret counter).

Fixpoint create_signers (dir : list string) (i : nat) (keypairs : list KeyPair) :
    io string (list SignerNode) :=
  match keypairs with
  | [] => mret []
  | keys :: keypairs =>
      s ← new_signer (member_path dir i) keys;
      signers ← create_signers dir (S i) keypairs;
      mret (s :: signers)
  end.

(** [.expect("signing failed")]. *)
Definition failed (_ : nat) (_ : SignerNodeError) : string := "signing failed".

(** [count] updates from version [i] on. *)
Fixpoint own_updates (v : VerifierNode) (n t : nat) (fresh : nat → bytes) (count i : nat)
    (list : list bytes) (signers : Datatypes.list SignerNode) :
    io string (Datatypes.list bytes * Datatypes.list SignerNode) :=
  match count with
  | O => mret (list, signers)
  | S count =>
      let list := list ++ [hash_any (fresh i)] in
      let quorum := rotating i n t in
      let version := Z.of_nat i in
      slot ← lift (ok_or (slot_for (v_committee v) version) "slot overflow"%string);
      let message := message_for (v_committee v) WotsXmss list version in
      '(raws, signers) ← sign_quorum failed signers quorum message slot;
      record ← lift (map_err (λ e, "well-formed quorum: " +:+ e)%string
                       (status_list_new WotsXmss list version n raws));
      let wire := to_bytes record in
      if snd (measure_verification wire v) then own_updates v n t fresh count (S i) list signers
      else throw "a legitimate update failed to verify"%string
  end.

(** The sanity checks: each control is made of a genuine quorum. *)
Definition own_controls (v : VerifierNode) (dir : list string) (n t : nat) (outsider : KeyPair)
    (list : list bytes) (signers : Datatypes.list SignerNode) : io string bool :=
  let c := v_committee v in
  let version := Z.of_nat N_UPDATES in
  slot ← lift (ok_or (slot_for c version) "slot overflow"%string);
  let message := message_for c WotsXmss list version in
  '(honest, signers) ← sign_quorum failed signers (seq 0 t) message slot;
  '(tamper, relabel, short) ← lift (quorum_controls (λ _, "well-formed"%string) v WotsXmss list version
                                      (version + 1) n t honest);
  honest_record ← lift (map_err (λ e, "well-formed: " +:+ e)%string
                          (status_list_new WotsXmss list version n honest));
  let honest_wire := to_bytes honest_record in
  outsider ← new_signer (outsider_path dir) outsider;
  '(forged, _) ← expect_signature (failed 0) outsider message slot;
  infiltrated ← lift (match honest with
                      | [] => Err "index out of bounds"%string
                      | _ :: others => Ok ((0%nat, forged) :: others)
                      end);
  outsider_rejected ← lift (control "well-formed" v WotsXmss list version n infiltrated);
  late_slot ← lift (ok_or (slot_for c (version + 1)) "slot overflow"%string);
  '(late, _) ← sign_quorum failed signers (seq 0 t) message late_slot;
  slot_rejected ← lift (control "well-formed" v WotsXmss list version n late);
  corrupted ← lift (corrupt_last_signature honest_wire);
  mret (tamper && relabel && short && outsider_rejected && slot_rejected &&
        negb (verify_status_list v corrupted)).

(** [main] without BENCH_INPUT_DIR. *)
Definition raw_agg_main (dir : list string) (n t : nat) (keypairs : list KeyPair) (outsider : KeyPair)
    (fresh : nat → bytes) : io string bool :=
  signers ← create_signers dir 0 keypairs;
  committee ← lift (committee_new (snd <$> keypairs) (Z.of_nat t) SLOT);
  let v := mkVerifierNode committee in
  '(list, signers) ← own_updates v n t fresh N_UPDATES 0 [] signers;
  own_controls v dir n t outsider list signers.

(** ** Creating the nodes *)

Abbreviation member_state := (Fleet.member_state (SLOT + KEY_SLOTS)).
Abbreviation fleet := (Fleet.fleet (SLOT + KEY_SLOTS)).

Lemma window : 0 ≤ SLOT ≤ SLOT + KEY_SLOTS ∧ SLOT + KEY_SLOTS ≤ u32_max.
Proof. unfold SLOT, KEY_SLOTS, u32_max. lia. Qed.

(** A directory of nothing but the state and lock files of [ps]; every lock is of
    a file that exists. *)
Record state_dir (ps : path → Prop) (w : world) : Prop := {
  sd_calls : w_verdicts w = [];
  sd_names : ∀ q, is_Some (cur_dir w !! q) → ∃ p, ps p ∧ (q = p ∨ q = sibling p "lock");
  sd_locks : ∀ i, i ∈ w_locks w → (i < w_next w)%nat;
}.

Lemma new_signer_ok dir ps p sk pk w :
  state_dir ps w → (∀ p', ps p' → plain dir p' ∧ p' ≠ p) → plain dir p →
  ∃ s w', new_signer p (sk, pk) w = (Done s, w') ∧ Signer.sk s = sk ∧ Signer.pk s = pk ∧
    member_state SLOT s w' ∧ ino s = S (w_next w) ∧ w_next w' = S (S (w_next w)) ∧
    w_signed w' = w_signed w ∧ (∀ j, (j < w_next w)%nat → w_nodes w' !! j = w_nodes w !! j) ∧
    state_dir (λ q, q = p ∨ ps q) w'.
Proof.
  intros [Hq Hnames Hlocks] Hps Hp.
  assert (Hfree : cur_dir w !! p = None ∧ cur_dir w !! sibling p "lock" = None ∧
    cur_dir w !! sibling p "tmp" = None).
  { split_and!; apply eq_None_not_Some; intros (p' & Hin & Hor)%Hnames;
      destruct (Hps p' Hin) as [Hpl Hne], Hor as [E|E].
    - by subst.
    - by apply (plain_sibling dir p' p "lock").
    - by apply (plain_sibling dir p p' "lock").
    - by apply (plain_siblings dir) in E.
    - by apply (plain_sibling dir p p' "tmp").
    - by apply (sibling_last p' p). }
  destruct Hfree as (H1 & H2 & H3).
  destruct (create_run p pk SLOT (SLOT + KEY_SLOTS) w) as (c & w' & E & Hinst); try done.
  { intros Hin%Hlocks. lia. }
  pose proof (installed_member SLOT (SLOT + KEY_SLOTS) window p w w' c pk sk Hinst) as Hm.
  destruct Hinst as [Hq' _ [Hf Hl] Hnx Hlk Hsg Hold Hdir Htmp Hh].
  exists (mkSignerNode pk sk c), w'. unfold new_signer, mbind, io_bind, io_map_err. rewrite E.
  split_and!; try done.
  - split; [done| |].
    + intros q Hin. destruct (decide (q = p)) as [->|Hne]; [exists p; tauto|].
      destruct (decide (q = sibling p "lock")) as [->|Hnl]; [exists p; tauto|].
      destruct (decide (q = sibling p "tmp")) as [->|Hnt]; [rewrite Htmp in Hin; by destruct Hin|].
      rewrite Hdir in Hin by done. destruct (Hnames q Hin) as (p' & ? & ?). exists p'. tauto.
    + rewrite Hlk, Hnx. intros i [->%elem_of_singleton|Hin%Hlocks]%elem_of_union; lia.
Qed.

Lemma state_dir_weaken ps ps' w : (∀ p, ps p → ps' p) → state_dir ps w → state_dir ps' w.
Proof. intros H [? Hn ?]. split; [done| |done]. intros q (p & ? & ?)%Hn. exists p. auto. Qed.

Lemma create_signers_ok dir i keypairs w :
  let members k := λ p, ∃ j, (j < k)%nat ∧ p = member_path dir j in
  state_dir (members i) w →
  ∃ nodes w', create_signers dir i keypairs w = (Done nodes, w') ∧
    fleet keypairs (λ _, SLOT) nodes w' ∧ Forall (λ s, w_next w ≤ ino s)%nat nodes ∧
    (w_next w ≤ w_next w')%nat ∧ w_signed w' = w_signed w ∧
    (∀ j, (j < w_next w)%nat → w_nodes w' !! j = w_nodes w !! j) ∧
    state_dir (members (i + length keypairs)%nat) w'.
Proof.
  intros members. revert i w. induction keypairs as [|[sk pk] keypairs IH]; intros i w Hd.
  { exists [], w. rewrite Nat.add_0_r. split_and!; try done. split; try done; [apply Hd|constructor]. }
  destruct (new_signer_ok dir (members i) (member_path dir i) sk pk w Hd) as
    (s & w1 & E & Esk & Epk & Hs & Hi & Hnx & Hlog & Hold & Hd1).
  { intros p (j & Hj & ->). split; [apply plain_member|]. intros Ej%member_path_inj. lia. }
  { apply plain_member. }
  destruct (IH (S i) w1) as (nodes & w' & E' & Hfl & Hin & Hnx' & Hlog' & Hold' & Hd').
  { eapply state_dir_weaken; [|exact Hd1]. intros p [->|(j & Hj & ->)]; [by exists i; split; [lia|]|].
    exists j. split; [lia|done]. }
  exists (s :: nodes), w'. cbn [create_signers]. unfold mbind, io_bind in *. rewrite E, E'.
  assert (Hs' : member_state SLOT s w').
  { eapply member_state_frame; [exact Hs|apply Hold'|]; lia. }
  destruct Hfl as [Hq Hk Hst Hnd]. rewrite length_cons, Nat.add_succ_r. split_and!; [done| | |lia|congruence| |done].
  - split; [done|by rewrite fmap_cons, Hk, Esk, Epk| |].
    + intros [|k] x; [by intros [= <-]|apply Hst].
    + rewrite fmap_cons. apply NoDup_cons. split; [|done].
      intros (x & Ex & Hx)%list_elem_of_fmap. rewrite Forall_forall in Hin. specialize (Hin x Hx). lia.
  - constructor; [lia|]. eapply Forall_impl; [exact Hin|]. simpl. lia.
  - intros j Hj. rewrite Hold' by lia. by apply Hold.
Qed.

(** ** The run *)

Section run.
Context `{BLL : !BitListLaws} `{LR : !SszLaws RawStatusListWire wf_raw_wire}.
Context (c : Committee) (keypairs : list KeyPair) (t : nat) (fresh : nat → bytes).
Context (Hc : wf_committee c) (Hmem : members c = snd <$> keypairs) (Hth : threshold c = Z.of_nat t).
Context (Hgen : genesis_slot c = SLOT) (Hs : signs keypairs).

Lemma run_sizes : (0 < t)%nat ∧ (t ≤ length keypairs)%nat ∧ length (members c) = length keypairs.
Proof.
  pose proof (wc_threshold _ Hc) as H. unfold threshold in Hth. rewrite Hmem, length_fmap in *. lia.
Qed.

Lemma made_all m slot pairs :
  Forall (made_by keypairs m slot) pairs → Forall (λ x, signature_ok (members c) m slot x = true) pairs.
Proof. intros H. eapply Forall_impl; [exact H|]. intros x. rewrite Hmem. apply made_signature_ok. Qed.

(** Every update is signed, accepted off the wire, and moves every bound one slot. *)
Lemma own_updates_ok count i list nodes w :
  (i + count ≤ N_UPDATES)%nat → wf_entries list → fleet keypairs (λ _, SLOT + Z.of_nat i) nodes w →
  ∃ nodes' w', own_updates (mkVerifierNode c) (length keypairs) t fresh count i list nodes w =
      (Done (list ++ grown fresh i count, nodes'), w') ∧
    fleet keypairs (λ _, SLOT + Z.of_nat (i + count)) nodes' w' ∧ same_place w w' ∧
    length (w_signed w') = (count * t + length (w_signed w))%nat.
Proof.
  revert i list nodes w. induction count as [|count IH]; intros i list nodes w Hi Hl Hfl.
  { exists nodes, w. rewrite app_nil_r, Nat.add_0_r. by split_and!. }
  destruct run_sizes as (Ht0 & Htn & Hlen). cbn [own_updates].
  destruct (slot_of_version c Hgen (Z.of_nat i)) as [Hslot Hw]; [unfold KEY_SLOTS, N_UPDATES in *; lia|].
  destruct (rotating_ok i (length keypairs) t) as [Hrn Hrot]; [lia|done|].
  set (list1 := list ++ [hash_any (fresh i)]).
  assert (Hl1 : wf_entries list1) by (apply Forall_app_2; [done|apply Forall_singleton, sha3_256_length]).
  destruct (sign_quorum_ok SLOT (SLOT + KEY_SLOTS) window failed keypairs (λ _, SLOT + Z.of_nat i) nodes (rotating i (length keypairs) t)
    (message_for c WotsXmss list1 (Z.of_nat i)) (SLOT + Z.of_nat i) w) as
    (pairs & nodes1 & w1 & E & Hf & Hmade & Hfl1 & Hsame & Hlog); try done; [lia|].
  assert (Hlp : length pairs = t).
  { rewrite <-(length_fmap fst), Hf. unfold rotating. by rewrite length_fmap, length_seq. }
  destruct (quorum_verified c WotsXmss list1 (Z.of_nat i) pairs (SLOT + Z.of_nat i)) as
    (r & Hr & Hver & _ & El & Ev & Hcnt); [done|done|by rewrite Hf|by rewrite Hlp, Hth|by apply made_all|].
  cbn [v_committee]. rewrite Hslot. cbn [ok_or]. rewrite lift_Ok. erewrite run_bind by exact E. cbv beta iota.
  rewrite Hlen in Hr. rewrite Hr. cbn [map_err]. rewrite lift_Ok.
  unfold measure_verification, decode_then_verify. rewrite (proj1 (raw_codec r [])).
  2:{ split_and!; [by rewrite El|rewrite Ev; unfold is_u32, u32_max, N_UPDATES in *; lia|done]. }
  cbn [snd]. rewrite Hver.
  destruct (IH (S i) list1 nodes1 w1) as (nodes' & w' & E' & Hfl' & Hsame' & Hlog'); [lia|done| |].
  { replace (SLOT + Z.of_nat (S i)) with (SLOT + Z.of_nat i + 1) by lia. done. }
  exists nodes', w'. rewrite E', <-Nat.add_succ_comm. split_and!.
  - unfold list1, grown. cbn [seq fmap list_fmap]. by rewrite <-app_assoc.
  - done.
  - destruct Hsame as (? & ? & ?), Hsame' as (? & ? & ?). split_and!; congruence.
  - rewrite Hlog', Hlog, length_app, length_replicate, <-Hf, length_fmap, Hlp. lia.
Qed.

(** *** The controls *)

Context (dir : list string) (outsider : KeyPair) (list : Datatypes.list bytes).
Context (Hso : signs [outsider]) (Hout : outsider.2 ∉ members c) (Hl : wf_entries list).
Context (Hlast : signature_last).

Let v : Z := Z.of_nat N_UPDATES.
Let m : bytes := message_for c WotsXmss list v.

Lemma own_slots : slot_for c v = Some (SLOT + v) ∧ slot_for c (v + 1) = Some (SLOT + v + 1).
Proof. by apply attack_slots. Qed.

(** The outsider gets a node of its own and signs; the committee's are as before. *)
Lemma outsider_signs ps bound nodes w :
  fleet keypairs bound nodes w → state_dir ps w → (∀ p, ps p → plain dir p ∧ p ≠ outsider_path dir) →
  ∃ s w1 sig s' w2, new_signer (outsider_path dir) outsider w = (Done s, w1) ∧
    expect_signature (failed 0) s m (SLOT + v) w1 = (Done (sig, s'), w2) ∧
    (∃ rng, xmss_sign rng outsider.1 m (SLOT + v) = Ok sig) ∧
    xmss_verify outsider.2 m sig (SLOT + v) = true ∧ fleet keypairs bound nodes w2 ∧
    w_signed w2 = (SLOT + v, m) :: w_signed w.
Proof.
  intros Hfl Hd Hps. destruct outsider as [osk opk] eqn:Eo.
  destruct (new_signer_ok dir ps (outsider_path dir) osk opk w Hd Hps (plain_outsider dir)) as
    (s & w1 & E & Esk & Epk & Hst & Hi & Hnx & Hlog & Hold & Hd1).
  destruct (expect_signature_ok SLOT (SLOT + KEY_SLOTS) window (failed 0) s m (SLOT + v) w1) as
    (sig & s' & w2 & E2 & Hmade & Hv & _ & _ & _ & _ & Hq2 & (_ & Hnx2 & _) & Hold2 & Hlog2).
  { apply Hd1. }
  { eapply member_state_mono; [|exact Hst]. done. }
  { by rewrite Esk, Epk. }
  { done. }
  rewrite Esk in Hmade. rewrite Epk in Hv. exists s, w1, sig, s', w2. split_and!; try done.
  - eapply fleet_frame; [exact Hfl|done|lia|]. intros j Hj. rewrite Hold2 by lia. by apply Hold.
  - by rewrite Hlog2, Hlog.
Qed.

(** Seat 0's signature replaced by the outsider's. *)
Lemma infiltrated_ok honest forged :
  fst <$> honest = seq 0 t → Forall (made_by keypairs m (SLOT + v)) honest →
  xmss_verify outsider.2 m forged (SLOT + v) = true →
  ∃ i sig others b, honest = (i, sig) :: others ∧
    control "well-formed" (mkVerifierNode c) WotsXmss list v (length keypairs) ((0%nat, forged) :: others) = Ok b ∧
    (b = false → impersonation c [forged] m (SLOT + v)).
Proof.
  intros Hf Hmade Hv. destruct run_sizes as (Ht0 & Htn & Hlen).
  destruct honest as [|[i sig] others]; [destruct t; [lia|done]|]. exists i, sig, others.
  destruct t as [|t'] eqn:Et; [lia|]. cbn [seq fmap list_fmap fst] in Hf. injection Hf as -> Hf.
  apply Forall_cons in Hmade as [_ Hmade].
  destruct (control_spec "well-formed" c WotsXmss list v ((0%nat, forged) :: others)) as (b & Hb & Hacc).
  { split_and!; [|constructor; [simpl; lia|]|apply Hc].
    - cbn [fmap list_fmap fst]. rewrite Hf. apply (NoDup_seq 0 (S t')).
    - eapply Forall_impl; [by apply made_all|]. intros x. apply signature_ok_lt. }
  rewrite Hlen in Hb. exists b. split_and!; [done|done|]. intros E.
  destruct (Hacc E) as (_ & slot & Hslot & [Hx _]%Forall_cons).
  rewrite (proj1 own_slots) in Hslot. injection Hslot as <-. unfold signature_ok in Hx. simpl in Hx.
  destruct (members c !! 0%nat) as [pk|] eqn:Epk; [|done]. exists forged, outsider.2, pk.
  split_and!; [apply list_elem_of_here|done|by eapply list_elem_of_lookup_2|done|done].
Qed.

(** One of the run's own signatures is valid for something it was not made for, or
    a hash collides. *)
Definition run_undone (n : nat) : Prop :=
  ∃ honest late forged r rng, Forall (made_by keypairs m (SLOT + v)) honest ∧
    Forall (made_by keypairs m (SLOT + v + 1)) late ∧
    xmss_sign rng outsider.1 m (SLOT + v) = Ok forged ∧
    status_list_new WotsXmss list v n honest = Ok r ∧
    control_accepted c list honest late [forged] r.

(** A full quorum signs at a slot that the nodes have not reached. *)
Lemma full_quorum nodes slot w :
  in_window slot → fleet keypairs (λ _, slot) nodes w →
  ∃ pairs nodes' w', sign_quorum failed nodes (seq 0 t) m slot w = (Done (pairs, nodes'), w') ∧
    fst <$> pairs = seq 0 t ∧ length pairs = t ∧ NoDup (fst <$> pairs) ∧
    Forall (made_by keypairs m slot) pairs ∧ fleet keypairs (λ _, slot + 1) nodes' w' ∧ same_place w w' ∧
    length (w_signed w') = (t + length (w_signed w))%nat.
Proof.
  intros Hw Hfl. destruct run_sizes as (Ht0 & Htn & Hlen).
  destruct (sign_quorum_ok SLOT (SLOT + KEY_SLOTS) window failed keypairs (λ _, slot) nodes (seq 0 t) m slot w) as
    (pairs & nodes' & w' & E & Hf & Hmade & Hfl' & Hsame & Hlog); try done; [apply NoDup_seq| |lia|].
  { apply Forall_forall. intros k Hk%elem_of_seq. lia. }
  exists pairs, nodes', w'. rewrite Hf. split_and!; try done; [|apply NoDup_seq|].
  - by rewrite <-(length_fmap fst), Hf, length_seq.
  - by rewrite Hlog, length_app, length_replicate, length_seq.
Qed.

(** What the six answers mean together. *)
Lemma verdict_ok honest late forged r rng (a b o sl bad : bool) :
  length late = t → Forall (made_by keypairs m (SLOT + v)) honest →
  Forall (made_by keypairs m (SLOT + v + 1)) late → xmss_sign rng outsider.1 m (SLOT + v) = Ok forged →
  status_list_new WotsXmss list v (length keypairs) honest = Ok r →
  (a = false → tamper_clash c list ∨ second_use c honest m (SLOT + v)
     (message_for c WotsXmss (list ++ [hash_any FAKE_REVOCATION]) v) (SLOT + v)) →
  (b = false → second_use c honest m (SLOT + v) (message_for c WotsXmss list (v + 1)) (SLOT + v + 1)) →
  (o = false → impersonation c [forged] m (SLOT + v)) →
  (sl = false → Forall (λ x, signature_ok (members c) m (SLOT + v) x = true) late) →
  (bad = true → malleable c r m (SLOT + v)) →
  a && b && true && o && sl && negb bad = true ∨ run_undone (length keypairs).
Proof.
  intros Hll Hm1 Hm4 Hf Hnew Ha Hb Ho Hsl Hbad.
  assert (Hundo : control_accepted c list honest late [forged] r → run_undone (length keypairs)).
  { intros H. by exists honest, late, forged, r, rng. }
  destruct a; [|right; apply Hundo; destruct (Ha eq_refl); [by apply StatementClash|by apply TamperAccepted]].
  destruct b; [|right; by apply Hundo, RelabelAccepted, Hb].
  destruct o; [|right; by apply Hundo, OutsiderAccepted, Ho].
  destruct sl; [destruct bad; [right; by apply Hundo, SignatureAccepted, Hbad|by left]|].
  right. apply Hundo, SlotAccepted. destruct run_sizes as (Ht0 & _).
  apply second_use_intro; [|intros ->; simpl in Hll; lia|by apply made_all|by apply Hsl].
  intros E%(f_equal snd). simpl in E. lia.
Qed.

Lemma own_controls_ok ps nodes w :
  fleet keypairs (λ _, SLOT + v) nodes w → state_dir ps w →
  (∀ p, ps p → plain dir p ∧ p ≠ outsider_path dir) →
  ∃ b w', own_controls (mkVerifierNode c) dir (length keypairs) t outsider list nodes w = (Done b, w') ∧
    length (w_signed w') = (2 * t + 1 + length (w_signed w))%nat ∧
    (b = true ∨ run_undone (length keypairs)).
Proof.
  intros Hfl Hd Hps. destruct own_slots as [Hsv Hsv1]. destruct run_sizes as (Ht0 & Htn & Hlen).
  destruct (full_quorum nodes (SLOT + v) w) as
    (honest & n1 & w1 & E1 & Hf1 & Hlh & Hnd1 & Hm1 & Hfl1 & (Hcd & Hnx & Hlk) & Hlog1); [done|done|].
  pose proof (made_all _ _ _ Hm1) as Hok1.
  assert (Hd1 : state_dir ps w1).
  { destruct Hd as [_ Hn Hlo]. split; [apply Hfl1|by rewrite Hcd|by rewrite Hlk, Hnx]. }
  destruct (quorum_controls_ok c t list Hc Hth Hgen Hl (λ _, "well-formed"%string) honest) as
    (a & b & Hq & Ha & Hb); [done..|]. fold v in Hq, Ha, Hb. fold m in Ha, Hb.
  destruct (canonical_record_ok "well-formed" list v honest (members c) m (SLOT + v)) as
    (r & Hr & Hsig & El & Ev & _); [apply Hc|done|done|]. rewrite Hlh in Hsig.
  destruct (corrupt_ok c t list Hc Hth Hgen r Hlast) as (bad & Hbad & Hmal); [|done..|].
  { destruct Hsig as (_ & Hcnt & Hls & _). split_and!; [by rewrite El|by rewrite Ev|by rewrite Hcnt]. }
  fold v in Hmal. fold m in Hmal.
  destruct (outsider_signs ps _ n1 w1 Hfl1 Hd1 Hps) as
    (s & w2 & forged & s' & w3 & E2 & E3 & [rng Hfr] & Hfv & Hfl3 & Hlog3).
  destruct (infiltrated_ok honest forged Hf1 Hm1 Hfv) as (i0 & sig0 & others & o & Eh & Ho & Himp).
  destruct (full_quorum n1 (SLOT + v + 1) w3) as
    (late & n4 & w4 & E4 & Hf4 & Hll & Hnd4 & Hm4 & _ & _ & Hlog4); [done|done|].
  pose proof (made_all _ _ _ Hm4) as Hok4.
  destruct (control_spec "well-formed" c WotsXmss list v late) as (sl & Hsl & Hlate).
  { by apply (signed_acceptable c m (SLOT + v + 1)). }
  assert (Hnew : status_list_new WotsXmss list v (length keypairs) honest = Ok r).
  { unfold canonical_record in Hr. rewrite <-Hlen. by destruct (status_list_new _ _ _ _ _); simplify_eq/=. }
  rewrite Hlen in Hq, Hsl.
  unfold own_controls. cbn [v_committee]. fold v m. rewrite Hsv. cbn [ok_or]. rewrite lift_Ok.
  erewrite run_bind by exact E1. cbv beta iota. rewrite Hq, lift_Ok. cbv beta iota.
  rewrite Hnew. cbn [map_err]. rewrite lift_Ok. erewrite run_bind by exact E2. cbv beta. erewrite run_bind by exact E3. cbv beta iota.
  rewrite Eh, lift_Ok, Ho, lift_Ok, Hsv1. cbn [ok_or]. rewrite lift_Ok.
  erewrite run_bind by exact E4. cbv beta iota. rewrite Hsl, lift_Ok, Hbad, lift_Ok.
  eexists _, w4. split; [done|]. split; [rewrite Hlog4, Hlog3, length_cons, Hlog1; lia|].
  apply (verdict_ok honest late forged r rng); try done. intros E.
  destruct (Hlate E) as (_ & slot & Eslot & Hall). rewrite Hsv in Eslot. by injection Eslot as <-.
Qed.
End run.

(** C24 The benchmark on its own runs to its end and shows what it says: from
    distinct fresh keys, in an empty state directory whose calls do not fail,
    [main] creates every member's slot counter, all twenty updates are signed by
    their quorums through those counters and accepted off the wire, the keys are
    applied exactly once per signature the program needs, and all six controls are
    rejected, unless one of the signatures that this run makes is valid for
    something it was not made for or BLAKE2s collides on the two lists. *)
Theorem raw_agg_run `{BLL : !BitListLaws} `{LR : !SszLaws RawStatusListWire wf_raw_wire}
    dir n t keypairs outsider fresh w :
  signature_last → signs keypairs → signs [outsider] → NoDup (snd <$> keypairs ++ [outsider]) →
  length keypairs = n → (1 ≤ t)%nat → (t ≤ n)%nat → (n ≤ MAX_COMMITTEE_SIZE)%nat →
  state_dir (λ _, False) w →
  ∃ c b w', committee_new (snd <$> keypairs) (Z.of_nat t) SLOT = Ok c ∧
    raw_agg_main dir n t keypairs outsider fresh w = (Done b, w') ∧
    length (w_signed w') = ((N_UPDATES + 2) * t + 1 + length (w_signed w))%nat ∧
    (b = true ∨ run_undone c keypairs outsider (grown fresh 0 N_UPDATES) n).
Proof.
  intros Hlast Hs Hso Hnd <- Ht1 Ht Hmax Hd.
  rewrite fmap_app in Hnd. apply NoDup_app in Hnd as (Hnk & Hdis & _).
  destruct (committee_of (snd <$> keypairs) t SLOT) as (c & Hnew & Hc & Hm & Hth & Hg);
    [done|rewrite length_fmap; lia|by rewrite length_fmap|done|].
  destruct (create_signers_ok dir 0 keypairs w) as (nodes & w1 & E1 & Hfl1 & _ & _ & Hlog1 & _ & Hd1).
  { eapply state_dir_weaken; [|exact Hd]. done. }
  destruct (own_updates_ok c keypairs t fresh Hc Hm Hth Hg Hs N_UPDATES 0 [] nodes w1) as
    (nodes2 & w2 & E2 & Hfl2 & (Hcd & Hnx & Hlk) & Hlog2); [done|constructor|done|].
  destruct (own_controls_ok c keypairs t Hc Hm Hth Hg Hs dir outsider (grown fresh 0 N_UPDATES) Hso)
    with (ps := λ p, ∃ j, (j < 0 + length keypairs)%nat ∧ p = member_path dir j) (nodes := nodes2) (w := w2)
    as (b & w' & E3 & Hlog3 & Hb).
  { rewrite Hm. intros Hin. apply (Hdis _ Hin). apply list_elem_of_here. }
  { apply Forall_fmap, Forall_true. intros k. apply sha3_256_length. }
  { done. }
  { exact Hfl2. }
  { destruct Hd1 as [_ Hn Hlo]. split; [apply Hfl2|by rewrite Hcd|by rewrite Hlk, Hnx]. }
  { intros p (j & _ & ->). by split; [apply plain_member|]. }
  exists c, b, w'. split; [done|]. unfold raw_agg_main. erewrite run_bind by exact E1. cbv beta.
  rewrite Hnew, lift_Ok. erewrite run_bind by exact E2. cbv beta iota. split; [exact E3|]. split; [|done].
  rewrite Hlog3, Hlog2, Hlog1. lia.
Qed.
End own.
