(* ===== verification/SignerMain.v ===== *)
(** * One member on its own (src/bin/signer.rs)

    A member's rounds of the benchmark: a fresh key and its slot counter, then one
    durable slot burn and one signature per version, at the slot the anchor
    derives.  Clocks and printing are left out; a panic is an error; the answer is
    whether no signature failed to verify, which the exit code reports. *)
From S2P Require Import Prelude External Instances Seats StatusLists Committees Verifiers Params.
From S2P Require Import Fs Atomic SlotCounter Signer SlotSystem SlotRuns Workload Corpus Fixture Fleet RawAggOwn.

Open Scope Z_scope.

Section signer_main.
Context `{HH : Hashes} `{XX : Xmss} `{SC : !Ssz CommitteeWire}.

Abbreviation KeyPair := (XmssSecretKey * XmssPublicKey)%type.

(** [let _ = remove_file(..)] of the state file, its lock and its temporary file
    ([with_extension] of a name without a dot adds one). *)
Definition clear_state (p : path) : io string unit :=
  io_catch (remove_file p) (λ _,
  io_catch (remove_file (sibling p "lock")) (λ _,
  io_catch (remove_file (sibling p "tmp")) (λ _, mret tt))).

(** [count] rounds from version [i] on; [k] numbers the random draws. *)
Fixpoint signer_rounds (c : Committee) (entries : option nat) (fresh : nat → bytes) (count i k : nat)
    (list : list bytes) (s : SignerNode) (failures : nat) : io string (SignerNode * nat) :=
  match count with
  | O => mret (s, failures)
  | S count =>
      let version := Z.of_nat i in
      '(list, k) ← lift (advance_list (λ j, hash_any (fresh j)) list version entries k);
      slot ← lift (ok_or (slot_for c version) "slot overflow"%string);
      let message := message_for c WotsXmss list version in
      '(r, s) ← io_map_err (λ e : Empty_set, match e with end) (sign_at_timed s message slot);
      '(signature, phases) ← lift (map_err (λ _, "signing failed"%string) r);
      _ ← lift (ok_or phases "timings requested"%string);
      let failures := if xmss_verify (pk s) message signature slot then failures else S failures in
      signer_rounds c entries fresh count (S i) k list s failures
  end.

(** [main], with the process number in the file name and the value of
    BENCH_LIST_ENTRIES. *)
Definition signer_main (dir : list string) (pid : nat) (keys : KeyPair) (var : option string)
    (fresh : nat → bytes) : io string bool :=
  let state := (dir, Some ("signer-bench-" +:+ pretty pid)%string) in
  let (secret, public) := keys in
  _ ← clear_state state;
  counter ← io_map_err (λ _, "slot state"%string) (create state public SLOT (SLOT + KEY_SLOTS));
  committee ← lift (committee_new [public] 1 SLOT);
  let signer := mkSignerNode public secret counter in
  entries ← lift (list_entries_from_env var);
  '(_, failures) ← signer_rounds committee (Z.to_nat <$> entries) fresh N_UPDATES 0 0 [] signer 0;
  mret (failures =? 0)%nat.

(** ** The run *)

Lemma clear_state_run p w :
  w_verdicts w = [] →
  ∃ w', clear_state p w = (Done tt, w') ∧ w_verdicts w' = [] ∧ cur_dir w' !! p = None ∧
    cur_dir w' !! sibling p "lock" = None ∧ cur_dir w' !! sibling p "tmp" = None ∧
    w_next w' = w_next w ∧ w_locks w' = w_locks w ∧ w_signed w' = w_signed w.
Proof.
  intros Hq. unfold clear_state.
  destruct (remove_file_run p w Hq) as (r1 & w1 & -> & Hq1 & Hd1 & Hn1 & Hl1 & Hs1 & _).
  destruct (remove_file_run (sibling p "lock") w1 Hq1) as (r2 & w2 & -> & Hq2 & Hd2 & Hn2 & Hl2 & Hs2 & _).
  destruct (remove_file_run (sibling p "tmp") w2 Hq2) as (r3 & w3 & -> & Hq3 & Hd3 & Hn3 & Hl3 & Hs3 & _).
  exists w3. rewrite Hd3, Hd2, Hd1. split_and!; try done; [..|congruence|congruence|congruence].
  - by rewrite !lookup_delete_None; auto.
  - by rewrite !lookup_delete_None; auto.
  - by rewrite !lookup_delete_None; auto.
Qed.

Lemma signer_rounds_ok c entries fresh count i k list s failures w :
  wf_committee c → genesis_slot c = SLOT → signs [(sk s, pk s)] → (i + count ≤ N_UPDATES)%nat →
  wf_entries list → entries ≠ Some 0%nat → w_verdicts w = [] → member_state (SLOT + KEY_SLOTS) (SLOT + Z.of_nat i) s w →
  ∃ s' w', signer_rounds c entries fresh count i k list s failures w = (Done (s', failures), w') ∧
    (w_signed w').*1 = reverse ((λ j, SLOT + Z.of_nat j) <$> seq i count) ++ (w_signed w).*1.
Proof.
  intros Hc Hgen. revert i k list s w. induction count as [|count IH]; intros i k list s w Hs Hi Hl Hz Hq Hm.
  { by exists s, w. }
  cbn [signer_rounds].
  destruct (advance_list_wf (λ j, hash_any (fresh j)) list (Z.of_nat i) entries k)
    as (list1 & k1 & -> & Hl1 & _); [intros j; apply sha3_256_length|done|done|]. rewrite lift_Ok. cbv beta iota.
  destruct (slot_of_version c Hgen (Z.of_nat i)) as [-> Hw]; [unfold KEY_SLOTS, N_UPDATES in *; lia|].
  cbn [ok_or]. rewrite lift_Ok. cbv beta.
  destruct (member_ready SLOT (SLOT + KEY_SLOTS) window s (SLOT + Z.of_nat i) w Hm Hs Hw) as (Hst & Hsig & Hn & Hg).
  destruct (sign_at_inner_run s (message_for c WotsXmss list1 (Z.of_nat i)) (SLOT + Z.of_nat i) true w) as
    (sig & timings & s' & w1 & E & [_ Ht] & Hrun); [done..|].
  destruct (Ht eq_refl) as [phases ->].
  erewrite run_bind by (apply run_map_err; exact E). cbv beta iota. cbn [map_err]. rewrite lift_Ok.
  cbv beta iota. cbn [ok_or]. rewrite lift_Ok. cbv beta.
  pose proof (sr_verifies _ _ _ _ _ _ _ Hrun) as Hv.
  destruct (member_signed _ _ _ _ _ _ _ _ Hm Hrun) as (Hm1 & Hsk & Hpk & _ & Hq1 & _ & _ & Hlog).
  rewrite Hpk, Hv. destruct (IH (S i) k1 list1 s' w1) as (s2 & w2 & E2 & Hlog2); try done.
  { by rewrite Hsk, Hpk. }
  { lia. }
  { replace (SLOT + Z.of_nat (S i)) with (SLOT + Z.of_nat i + 1) by lia. done. }
  exists s2, w2. split; [exact E2|].
  rewrite Hlog2, Hlog. cbn [seq fmap list_fmap]. by rewrite reverse_cons, <-app_assoc.
Qed.

(** A member of the benchmark runs to its end: from a fresh key and any disk
    whose calls do not fail, whatever an earlier process left under the same
    names, [main] creates the counter and reports no failed verification, and the
    key is applied exactly once per version, at the consecutive slots the anchor
    derives. *)
Theorem signer_run dir pid keys var entries fresh w :
  signs [keys] → list_entries_from_env var = Ok entries → w_verdicts w = [] →
  (∀ i, i ∈ w_locks w → (i < w_next w)%nat) →
  ∃ w', signer_main dir pid keys var fresh w = (Done true, w') ∧
    (w_signed w').*1 = reverse ((λ j, SLOT + Z.of_nat j) <$> seq 0 N_UPDATES) ++ (w_signed w).*1.
Proof.
  intros Hs Hvar Hq Hlocks. destruct keys as [sk pk]. unfold signer_main.
  set (p := (dir, Some _)).
  destruct (clear_state_run p w Hq) as (w1 & E1 & Hq1 & Hp & Hl & Ht & Hn & Hlk & Hlog1).
  erewrite run_bind by exact E1. cbv beta.
  destruct (create_run p pk SLOT (SLOT + KEY_SLOTS) w1) as (c & w2 & E2 & Hinst); [done| |done..|].
  { rewrite Hlk, Hn. intros Hin%Hlocks. lia. }
  run_call ltac:(exact E2). pose proof Hinst as [Hq2 _ _ _ _ Hlog2 _ _ _ _].
  destruct (committee_of [pk] 1 SLOT) as (a & Hnew & Ha & _ & _ & Hg);
    [apply NoDup_singleton|simpl; lia|apply Nat.leb_le; by vm_compute|done|].
  change (Z.of_nat 1) with 1 in Hnew. rewrite Hnew, lift_Ok, Hvar, lift_Ok. cbv beta.
  destruct (signer_rounds_ok a (Z.to_nat <$> entries) fresh N_UPDATES 0 0 [] (mkSignerNode pk sk c) 0 w2) as
    (s' & w3 & E3 & Hlog3); try done; [constructor|by eapply list_entries_positive| |].
  { rewrite Z.add_0_r. by apply (installed_member SLOT (SLOT + KEY_SLOTS) window p w1 w2 c pk sk). }
  exists w3. erewrite run_bind by exact E3. split; [done|]. by rewrite Hlog3, Hlog2, Hlog1.
Qed.
End signer_main.
