(* ===== verification/LocalDemo.v ===== *)
(** * The walk-through of the library (src/examples/local_demo.rs)

    A committee of five signer nodes over durable counters in one scratch directory
    signs three versions, raw or aggregated, for a relying party with a durable mark
    in the same directory; the first record is then replayed.  Printing and timing
    are left out; an early return and a panic are both an error, which exits with a
    non-zero code. *)
From S2P Require Import Prelude External Instances Fs Atomic SlotCounter Signer SlotRuns Freshness FreshnessRuns.
From S2P Require Import Seats StatusLists Committees Verifiers Nodes Corpus Fleet.

Open Scope Z_scope.

Definition LOCAL_N : nat := 5.
Definition LOCAL_T : nat := 3.
Definition GENESIS_SLOT : Z := 43.
Definition LOCAL_KEY_SLOTS : Z := 256.
Definition LOCAL_LOG_INV_RATE : nat := 2.
Definition ADDITIONS : list nat := [2; 3; 2]%nat.

Inductive LocalMode := LocalRaw | LocalSnark.

Definition parse_mode (args : list string) : result LocalMode string :=
  match args !! 1%nat with
  | Some arg =>
      if bool_decide (arg = "raw"%string) then Ok LocalRaw
      else if bool_decide (arg = "snark"%string) then Ok LocalSnark
      else Err "usage: cargo run --release --example local_demo -- raw|snark"%string
  | None => Err "usage: cargo run --release --example local_demo -- raw|snark"%string
  end.

(** ** The scratch directory *)

Definition below (dir : list string) (p : path) : Prop := take (length dir) p.1 = dir.
#[export] Instance below_dec dir p : Decision (below dir p) := decide_rel (=) _ _.

(** A directory that holds nothing is not told apart from one that is missing. *)
Definition dir_exists {E} (dir : list string) : io E bool := λ w,
  (Done (w_stat_ok w && negb (bool_decide (filter (below dir) (map_to_list (cur_dir w)).*1 = []))), w).

(** [fs::remove_dir_all]; a failure may come after some of the removals. *)
Definition remove_dir_all (dir : list string) : io io_error unit :=
  let remove k w := push_dir (foldr delete (cur_dir w)
                      (take k (filter (below dir) (map_to_list (cur_dir w)).*1))) w in
  syscall id remove (λ w, (Ok tt, remove (size (cur_dir w)) w)).
Definition create_dir_all : io io_error unit := syscall id no_partial (λ w, (Ok tt, w)).

Definition member_file (dir : list string) (index : nat) : path :=
  (dir, Some ("member-" +:+ pretty index +:+ ".slot")%string).
Definition mark_file (dir : list string) : path := (dir, Some "high-water.state"%string).

Section local_demo.
Context `{HH : Hashes} `{XX : Xmss} `{XK : !XmssKeys} `{VM : !LeanVm} `{BL : BitListOps}.
Context `{SR : !Ssz RawStatusListWire} `{SS : !Ssz SnarkStatusListWire} `{SC : !Ssz CommitteeWire}.
Context `{OT : OsText}.

Definition reset_scratch (dir : list string) : io string unit :=
  exists_ ← dir_exists dir;
  _ ← (if (exists_ : bool) then
         io_map_err (λ e, "cannot reset " +:+ display_path (dir, None) +:+ ": " +:+ os_text e)%string
           (remove_dir_all dir)
       else mret tt);
  io_map_err (λ e, "cannot create " +:+ display_path (dir, None) +:+ ": " +:+ os_text e)%string create_dir_all.

Definition cleanup_scratch (dir : list string) : io string unit :=
  io_catch (remove_dir_all dir) (λ _, mret tt).

(** ** The committee *)

Definition seed (member : nat) : bytes :=
  Byte.xe1 :: byte_of_Z (Z.of_nat member) :: replicate 30 Byte.x00.

(** One member: its key, its counter, its node. *)
Definition bring_up_member (dir : list string) (index : nat) : io string SignerNode :=
  '(sk, pk) ← lift (map_err (λ e, "keygen for member " +:+ pretty index +:+ " failed: " +:+ e)%string
                (key_gen_from_seed (seed index) GENESIS_SLOT (GENESIS_SLOT + LOCAL_KEY_SLOTS)));
  counter ← io_map_err
    (λ e, "slot counter for member " +:+ pretty index +:+ " failed: " +:+ display_counter_error e)%string
    (create (member_file dir index) pk GENESIS_SLOT (GENESIS_SLOT + LOCAL_KEY_SLOTS));
  mret (mkSignerNode pk sk counter).

Fixpoint bring_up_members (dir : list string) (count index : nat) : io string (list SignerNode) :=
  match count with
  | O => mret []
  | S count =>
      s ← bring_up_member dir index;
      members ← bring_up_members dir count (S index);
      mret (s :: members)
  end.

Definition bring_up_committee (dir : list string) : io string (Committee * list SignerNode) :=
  members ← bring_up_members dir LOCAL_N 0;
  c ← lift (committee_new (pk <$> members) (Z.of_nat LOCAL_T) GENESIS_SLOT);
  mret (c, members).

(** ** The relying party *)

(** The one node that the mode sets up. *)
Inductive Party :=
| RawParty (n : RawNode (G := HighWaterMark))
| SnarkParty (n : SnarkNode (G := HighWaterMark)).

Definition bring_up_party (mode : LocalMode) (c : Committee) (mark_path : path) : io string Party :=
  mark ← io_map_err (λ e, "cannot create freshness state: " +:+ display_mark_error e)%string
           (mark_create mark_path (committee_to_bytes c));
  mret match mode with
       | LocalRaw => RawParty (raw_node_new c mark)
       | LocalSnark => SnarkParty (snark_node_new c mark)
       end.

Definition party_accept (party : Party) (b : bytes) : io string (Outcome * Party) :=
  match party with
  | RawParty n => '(o, n) ← no_panic (accept n b); mret (o, RawParty n)
  | SnarkParty n => '(o, n) ← no_panic (snark_accept n b); mret (o, SnarkParty n)
  end.

(** ** One round *)

Definition add_batch (list : list bytes) (round count : nat) : Datatypes.list bytes :=
  list ++ ((λ offset, hash_any (string_bytes
    ("did:iiot:device-" +:+ pretty round +:+ "-" +:+ pretty offset))) <$> seq 0 count).

(** The third round also removes the first three entries. *)
Definition round_list (list : list bytes) (round count : nat) : Datatypes.list bytes :=
  let list := add_batch list round count in
  if (round =? 2)%nat then drop 3 list else list.

Definition rotating_quorum (round : nat) : list nat :=
  (λ offset, (round + offset) mod LOCAL_N)%nat <$> seq 0 LOCAL_T.

Definition refused (version : Z) (index : nat) (e : SignerNodeError) : string :=
  "member " +:+ pretty index +:+ " refused to sign v" +:+ pretty version +:+ ": " +:+ display_signer_error e.

(** The signatures of a round. *)
Definition sign_round (members : list SignerNode) (signers : list nat) (version : Z) (message : bytes)
    (slot : Z) : io string (list (nat * XmssSignature) * list SignerNode) :=
  sign_quorum (refused version) members signers message slot.

(** The record of a quorum, in the form the party expects. *)
Definition make_raw (list : list bytes) (version : Z) (signatures : Datatypes.list (nat * XmssSignature)) :
    result bytes string :=
  let? record := status_list_new WotsXmss list version LOCAL_N signatures in Ok (to_bytes record).

Definition make_snark (c : Committee) (list : list bytes) (version : Z)
    (signatures : Datatypes.list (nat * XmssSignature)) : result bytes string :=
  let? raws := collect_results (λ '(index, signature),
    let? member := ok_or (members c !! index) "index out of bounds"%string in Ok (member, signature)) signatures in
  let? proof := make_proof c WotsXmss raws list version LOCAL_LOG_INV_RATE in
  Ok (snark_to_bytes (mkSnarkStatusList WotsXmss list version proof)).

(** [publish_raw] and [publish_snark]: build, encode, offer. *)
Definition publish_record (party : Party) (c : Committee) (list : list bytes) (version : Z)
    (signatures : Datatypes.list (nat * XmssSignature)) : io string (option Z * bytes * Party) :=
  b ← lift match party with
           | RawParty _ => make_raw list version signatures
           | SnarkParty _ => make_snark c list version signatures
           end;
  '(outcome, party) ← party_accept party b;
  mret (accepted outcome, b, party).

Fixpoint run_rounds (c : Committee) (additions : list nat) (round : nat) (list : list bytes)
    (members : Datatypes.list SignerNode) (party : Party) (first : option bytes) :
    io string (option bytes * Party) :=
  match additions with
  | [] => mret (first, party)
  | count :: additions =>
      let version := Z.of_nat round in
      slot ← lift (ok_or (slot_for c version)
               ("version " +:+ pretty version +:+ " has no slot under this anchor")%string);
      let list := round_list list round count in
      let message := message_for c WotsXmss list version in
      '(signatures, members) ← sign_round members (rotating_quorum round) version message slot;
      '(accepted, b, party) ← publish_record party c list version signatures;
      if bool_decide (accepted = Some version)
      then run_rounds c additions (S round) list members party (Some (default b first))
      else throw ("record v" +:+ pretty version +:+ " was not accepted by the relying party")%string
  end.

Definition replay_old_record (party : Party) (first : bytes) : io string unit :=
  '(outcome, _) ← party_accept party first;
  match outcome with
  | OStale _ _ => mret tt
  | _ => throw "old record replay was not stale"%string
  end.

(** [run], of the command line and the scratch directory. *)
Definition local_run (args : list string) (scratch : list string) : io string unit :=
  mode ← lift (parse_mode args);
  _ ← reset_scratch scratch;
  '(c, members) ← bring_up_committee scratch;
  party ← bring_up_party mode c (mark_file scratch);
  '(first, party) ← run_rounds c ADDITIONS 0 [] members party None;
  first ← lift (ok_or first "at least one round ran"%string);
  _ ← replay_old_record party first;
  cleanup_scratch scratch.

(** ** The files *)

(** The three names a durable file uses. *)
Definition names (p : path) : list path := [p; sibling p "lock"; sibling p "tmp"].
Definition files (dir : list string) : list path := (member_file dir <$> seq 0 LOCAL_N) ++ [mark_file dir].
Definition file_names : list string := default ""%string ∘ snd <$> (files [] ≫= names).

Lemma files_apart dir i j p q x :
  files dir !! i = Some p → files dir !! j = Some q → i ≠ j → x ∈ names p → x ∉ names q.
Proof.
  intros Hi Hj Hne. eapply NoDup_bind_apart; [|exact Hi|exact Hj|exact Hne].
  replace (files dir ≫= names) with ((λ s, (dir, Some s)) <$> file_names) by (vm_compute; reflexivity).
  apply NoDup_fmap_2; [by intros ?? [=]|]. apply (bool_decide_unpack _). vm_compute. exact I.
Qed.

Lemma names_below dir i p x : files dir !! i = Some p → x ∈ names p → below dir x.
Proof.
  intros Hp Hx. assert (E : x.1 = dir).
  { apply list_elem_of_lookup_2, elem_of_app in Hp as [(j & -> & _)%list_elem_of_fmap| ->%list_elem_of_singleton];
      unfold names in Hx; repeat (apply elem_of_cons in Hx as [->|Hx]; [done|]); by apply not_elem_of_nil in Hx. }
  unfold below. rewrite E. apply firstn_all.
Qed.

(** Removing a directory leaves nothing below it. *)
Lemma remove_dir_run dir w :
  w_verdicts w = [] → ∃ w', remove_dir_all dir w = (Done tt, w') ∧ w_verdicts w' = [] ∧
    (∀ p, below dir p → cur_dir w' !! p = None) ∧ w_next w' = w_next w ∧ w_locks w' = w_locks w ∧
    w_nodes w' = w_nodes w ∧ w_signed w' = w_signed w.
Proof.
  intros Hq. unfold remove_dir_all. eexists. split; [by apply run_syscall|]. split_and!; try done.
  intros p Hp. change (cur_dir (push_dir ?d w)) with d. rewrite take_ge.
  2:{ etrans; [apply length_filter|]. by rewrite length_fmap, length_map_to_list. }
  destruct (cur_dir w !! p) as [i|] eqn:E.
  - apply lookup_foldr_delete, list_elem_of_filter. split; [done|]. apply list_elem_of_fmap.
    exists (p, i). split; [done|]. by apply elem_of_map_to_list.
  - rewrite lookup_foldr_delete_not_elem_of; [done|].
    intros (_ & ([q j] & -> & Hin%elem_of_map_to_list)%list_elem_of_fmap)%list_elem_of_filter.
    simpl in E. congruence.
Qed.

(** Nothing of the run is on the disk from file [index] on. *)
Record room (dir : list string) (index : nat) (w : world) : Prop := {
  ro_calls : w_verdicts w = [];
  ro_locks : ∀ i, i ∈ w_locks w → (i < w_next w)%nat;
  ro_free : ∀ i p x, files dir !! i = Some p → (index ≤ i)%nat → x ∈ names p → cur_dir w !! x = None;
}.

Lemma reset_ok dir w :
  w_verdicts w = [] → w_stat_ok w = true → (∀ i, i ∈ w_locks w → (i < w_next w)%nat) →
  ∃ w', reset_scratch dir w = (Done tt, w') ∧ room dir 0 w' ∧ w_signed w' = w_signed w.
Proof.
  intros Hq Hst Hlo. unfold reset_scratch, dir_exists. unfold mbind, io_bind. rewrite Hst. cbn [andb].
  destruct (bool_decide_reflect (filter (below dir) (map_to_list (cur_dir w)).*1 = [])) as [E|_]; cbn [negb].
  - exists w. cbn. unfold io_map_err, create_dir_all. erewrite run_syscall by done. split_and!; [done| |done].
    split; [done|done|]. intros i p x Hp _ Hx. apply eq_None_not_Some. intros [j Hj].
    assert (Hin : x ∈ filter (below dir) (map_to_list (cur_dir w)).*1).
    { apply list_elem_of_filter. split; [by eapply names_below|]. apply list_elem_of_fmap.
      exists (x, j). split; [done|]. by apply elem_of_map_to_list. }
    rewrite E in Hin. by apply not_elem_of_nil in Hin.
  - destruct (remove_dir_run dir w Hq) as (w' & E & Hq' & Hfree & Hnx & Hlk & _ & Hsg).
    exists w'. unfold io_map_err. rewrite E. unfold create_dir_all. erewrite run_syscall by done.
    split_and!; [done| |done]. split; [done|by rewrite Hlk, Hnx|].
    intros i p x Hp _ Hx. by eapply Hfree, names_below.
Qed.

(** ** Bringing up the committee and its relying party *)

Definition LAST_SLOT : Z := GENESIS_SLOT + LOCAL_KEY_SLOTS.
Abbreviation member_state := (Fleet.member_state LAST_SLOT).
Abbreviation fleet := (Fleet.fleet LAST_SLOT).

Lemma local_window : 0 ≤ GENESIS_SLOT ≤ LAST_SLOT ∧ LAST_SLOT ≤ u32_max.
Proof. unfold LAST_SLOT, GENESIS_SLOT, LOCAL_KEY_SLOTS, u32_max. lia. Qed.

Section run.
Context (dir : list string) (keypairs : list (XmssSecretKey * XmssPublicKey)).
Context (Hlen : length keypairs = LOCAL_N).
Context (Hgen : ∀ k keys, keypairs !! k = Some keys →
  key_gen_from_seed (seed k) GENESIS_SLOT LAST_SLOT = Ok keys).

Lemma member_place i : (i < LOCAL_N)%nat → files dir !! i = Some (member_file dir i).
Proof.
  intros Hi. unfold files. rewrite lookup_app_l by by rewrite length_fmap, length_seq.
  by rewrite list_lookup_fmap, lookup_seq_lt.
Qed.

Lemma bring_up_member_ok i sk pk w :
  keypairs !! i = Some (sk, pk) → room dir i w →
  ∃ s w', bring_up_member dir i w = (Done s, w') ∧ Signer.sk s = sk ∧ Signer.pk s = pk ∧
    member_state GENESIS_SLOT s w' ∧ ino s = S (w_next w) ∧ w_next w' = S (S (w_next w)) ∧
    w_signed w' = w_signed w ∧ (∀ j, (j < w_next w)%nat → w_nodes w' !! j = w_nodes w !! j) ∧ room dir (S i) w'.
Proof.
  intros Hk [Hq Hlo Hfree].
  assert (Hi : (i < LOCAL_N)%nat) by (rewrite <-Hlen; by eapply lookup_lt_Some).
  pose proof (member_place i Hi) as Hp.
  destruct (create_run (member_file dir i) pk GENESIS_SLOT LAST_SLOT w) as (c & w' & E & Hinst); try done.
  { intros Hin%Hlo. lia. }
  { apply (Hfree i _ _ Hp); [done|apply list_elem_of_here]. }
  { apply (Hfree i _ _ Hp); [done|apply list_elem_of_further, list_elem_of_here]. }
  { apply (Hfree i _ _ Hp); [done|apply list_elem_of_further, list_elem_of_further, list_elem_of_here]. }
  pose proof (installed_member _ _ local_window _ w w' c pk sk Hinst) as Hm.
  destruct Hinst as [Hq' _ [Hf _] Hnx Hlk Hsg Hold Hdir _ _].
  exists (mkSignerNode pk sk c), w'. unfold bring_up_member.
  change (GENESIS_SLOT + LOCAL_KEY_SLOTS) with LAST_SLOT. rewrite (Hgen i _ Hk). cbn [map_err].
  rewrite lift_Ok. cbv beta iota.
  erewrite run_bind by (apply run_map_err; exact E). split_and!; try done. split; [done| |].
  - rewrite Hlk, Hnx. intros j [->%elem_of_singleton|Hin%Hlo]%elem_of_union; lia.
  - intros j q x Hq1 Hj Hx. assert (Hapart : x ∉ names (member_file dir i))
      by (eapply files_apart; [exact Hq1|exact Hp|lia|exact Hx]).
    apply not_elem_of_cons in Hapart as [H1 [H2 [H3 _]%not_elem_of_cons]%not_elem_of_cons].
    rewrite Hdir by done. eapply Hfree; [exact Hq1|lia|exact Hx].
Qed.

Lemma bring_up_members_ok count i w :
  (i + count)%nat = LOCAL_N → room dir i w →
  ∃ nodes w', bring_up_members dir count i w = (Done nodes, w') ∧
    fleet (drop i keypairs) (λ _, GENESIS_SLOT) nodes w' ∧ Forall (λ s, w_next w ≤ ino s)%nat nodes ∧
    w_signed w' = w_signed w ∧ (∀ j, (j < w_next w)%nat → w_nodes w' !! j = w_nodes w !! j) ∧
    (w_next w ≤ w_next w')%nat ∧ room dir LOCAL_N w'.
Proof.
  revert i w. induction count as [|count IH]; intros i w Hi Hr.
  { rewrite Nat.add_0_r in Hi. subst i. exists [], w. rewrite drop_ge by lia. split_and!; try done.
    split; [apply Hr|done|done|constructor]. }
  destruct (lookup_lt_is_Some_2 keypairs i) as [[sk pk] Hk]; [lia|].
  destruct (bring_up_member_ok i sk pk w Hk Hr) as (s & w1 & E & Esk & Epk & Hs & Hino & Hnx & Hlog & Hold & Hr1).
  destruct (IH (S i) w1) as (nodes & w' & E' & Hfl & Hin & Hlog' & Hold' & Hnx' & Hr'); [lia|done|].
  exists (s :: nodes), w'. cbn [bring_up_members]. erewrite run_bind by exact E. erewrite run_bind by exact E'.
  destruct Hfl as [Hq Hks Hst Hnd]. split_and!; [done| | |congruence| |lia|done].
  - split; [done|by rewrite (drop_S _ _ _ Hk), fmap_cons, Hks, Esk, Epk| |].
    + intros [|k] x; [intros [= <-]|apply Hst]. eapply member_state_frame; [exact Hs|apply Hold'|]; lia.
    + rewrite fmap_cons. apply NoDup_cons. split; [|done].
      intros (x & Ex & Hx)%list_elem_of_fmap. rewrite Forall_forall in Hin. specialize (Hin x Hx). lia.
  - constructor; [lia|]. eapply Forall_impl; [exact Hin|]. simpl. lia.
  - intros j Hj. rewrite Hold' by lia. by apply Hold.
Qed.

(** *** The party *)

Definition party_mode (party : Party) : LocalMode :=
  match party with RawParty _ => LocalRaw | SnarkParty _ => LocalSnark end.
Definition party_mark (party : Party) : HighWaterMark :=
  match party with RawParty n => rn_mark n | SnarkParty n => sn_mark n end.
Definition party_committee (party : Party) : Committee :=
  match party with
  | RawParty n => v_committee (rn_verifier n)
  | SnarkParty n => sv_committee (sn_verifier n)
  end.

(** A party of [c] whose mark stands at [o] in the scratch directory. *)
Record party_at (c : Committee) (mode : LocalMode) (o : option Z) (party : Party) (w : world) : Prop := {
  pa_calls : w_verdicts w = [];
  pa_mode : party_mode party = mode;
  pa_committee : party_committee party = c;
  pa_path : hw_path (party_mark party) = mark_file dir;
  pa_current : current (party_mark party) = o;
  pa_tmp : cur_dir w !! sibling (mark_file dir) "tmp" = None;
}.

Lemma bring_up_party_ok c mode bound nodes w :
  room dir LOCAL_N w → fleet keypairs bound nodes w →
  ∃ party w', bring_up_party mode c (mark_file dir) w = (Done party, w') ∧
    party_at c mode None party w' ∧ fleet keypairs bound nodes w' ∧ w_signed w' = w_signed w.
Proof.
  intros [Hq Hlo Hfree] Hfl.
  assert (Hfree' : ∀ x, x ∈ names (mark_file dir) → cur_dir w !! x = None)
    by (intros x; by apply (Hfree LOCAL_N (mark_file dir))).
  destruct (create_mark_run (mark_file dir) (committee_to_bytes c) w) as (m & b & w' & E & Hp & Hcur & Hr); [done| |..].
  { intros Hin%Hlo. lia. }
  { apply Hfree', list_elem_of_here. }
  { apply Hfree', list_elem_of_further, list_elem_of_here. }
  { apply Hfree', list_elem_of_further, list_elem_of_further, list_elem_of_here. }
  pose proof (replaced_dir _ _ _ _ Hr) as Hcd. destruct Hr as [Hq' _ Hnx _ Hsg _ Hold].
  cbn in Hnx, Hsg, Hold.
  exists (match mode with LocalRaw => RawParty (raw_node_new c m) | LocalSnark => SnarkParty (snark_node_new c m) end), w'.
  unfold bring_up_party. erewrite run_bind by (apply run_map_err; exact E). split; [done|]. split_and!; [|..|done].
  - split; [done|by destruct mode..|]. rewrite Hcd, lookup_insert_ne by (apply not_eq_sym, sibling_ne).
    apply lookup_delete_eq.
  - eapply fleet_frame; [exact Hfl|done|lia|]. intros j Hj. rewrite Hold by lia.
    by rewrite lookup_insert_ne by lia.
Qed.

(** *** One round *)

Section rounds.
Context `{BLL : !BitListLaws} `{LR : !SszLaws RawStatusListWire wf_raw_wire}.
Context `{LS : !SszLaws SnarkStatusListWire wf_snark_wire}.
Context (Hagg : aggregates) (Hs : signs_in GENESIS_SLOT LAST_SLOT keypairs).
Context (c : Committee) (Hc : wf_committee c) (Hmem : members c = snd <$> keypairs).
Context (Hth : threshold c = Z.of_nat LOCAL_T) (Hg : genesis_slot c = GENESIS_SLOT).
Context (mode : LocalMode).

(** The bytes of a record of version [v] in the form of the mode that verifies. *)
Definition carries (b : bytes) (v : Z) : Prop :=
  match mode with
  | LocalRaw => ∃ r, from_bytes b = Ok r ∧ verify_status_list (mkVerifierNode c) r = true ∧ sl_version r = v
  | LocalSnark => ∃ r, snark_from_bytes b = Ok r ∧
      (∀ last, snark_verify (mkSnarkVerifier c last) r = true) ∧ sn_version r = v
  end.

(** What verifies is offered to the mark, whose decision is the outcome. *)
Lemma party_offered o party b v w d m w' :
  party_at c mode o party w → carries b v →
  try_advance (party_mark party) v w = (Done (d, m), w') →
  ∃ party', party_accept party b w =
      (Done (match d with Accepted => OAccepted v | Stale x => OStale v x end, party'), w') ∧
    party_mode party' = mode ∧ party_committee party' = c ∧ party_mark party' = m.
Proof.
  intros [_ Hm Hcm _ _ _] Hb E. unfold carries in Hb. destruct party as [n|n]; cbn in Hm, Hcm, E; subst mode.
  - destruct Hb as (r & Hr & Hv & <-). destruct n as [[c'] mark]. cbn in Hcm, E. subst c'.
    exists (RawParty (mkRawNode (mkVerifierNode c) m)). unfold party_accept, accept. rewrite Hr.
    unfold accept_record, no_panic, io_map_err, mbind, io_bind. cbn. rewrite Hv. cbn.
    unfold advance, io_catch. cbn. rewrite E. by destruct d.
  - destruct Hb as (r & Hr & Hv & <-). destruct n as [[c' last] mark]. cbn in Hcm, E. subst c'.
    exists (SnarkParty (mkSnarkNode (mkSnarkVerifier c last) m)). unfold party_accept, snark_accept. rewrite Hr.
    unfold no_panic, io_map_err, mbind, io_bind. cbn. rewrite Hv. cbn.
    unfold advance, io_catch. cbn. rewrite E. by destruct d.
Qed.

Lemma party_accepts o party b v bound nodes w :
  party_at c mode o party w → carries b v → (∀ x, o = Some x → x < v) → fleet keypairs bound nodes w →
  ∃ party' w', party_accept party b w = (Done (OAccepted v, party'), w') ∧
    party_at c mode (Some v) party' w' ∧ fleet keypairs bound nodes w' ∧ w_signed w' = w_signed w.
Proof.
  intros Hp Hb Ho Hfl. pose proof Hp as [Hq _ _ Hpath Hcur Htmp].
  destruct (advance_run (party_mark party) v w) as (m & f & w' & E & Hpm & Hcm & Hr);
    [done|by rewrite Hpath|by rewrite Hcur|].
  destruct (party_offered o party b v w _ _ _ Hp Hb E) as (party' & Eo & Hm' & Hc' & Hmk).
  pose proof (replaced_dir _ _ _ _ Hr) as Hcd. destruct Hr as [Hq' _ Hnx _ Hsg _ Hold].
  exists party', w'. split; [exact Eo|]. split_and!; [|..|done].
  - split; [done..|by rewrite Hmk, Hpm|by rewrite Hmk|].
    rewrite Hcd, Hpath, lookup_insert_ne by (apply not_eq_sym, sibling_ne). apply lookup_delete_eq.
  - eapply fleet_frame; [exact Hfl|done|lia|]. intros j Hj. apply Hold. lia.
Qed.

Lemma party_stale x party b v w :
  party_at c mode (Some x) party w → carries b v → v ≤ x →
  ∃ party', party_accept party b w = (Done (OStale v x, party'), w).
Proof.
  intros Hp Hb Hle. pose proof Hp as [_ _ _ _ Hcur _].
  pose proof (advance_stale (party_mark party) x v w Hcur Hle) as E.
  destruct (party_offered _ party b v w _ _ _ Hp Hb E) as (party' & Eo & _). by exists party'.
Qed.

(** A quorum makes a record of either form. *)
Lemma record_made list version pairs slot party :
  party_mode party = mode → wf_entries list → is_u32 version → slot_for c version = Some slot →
  NoDup (fst <$> pairs) → length pairs = LOCAL_T →
  Forall (made_by keypairs (message_for c WotsXmss list version) slot) pairs →
  ∃ b, match party with
       | RawParty _ => make_raw list version pairs
       | SnarkParty _ => make_snark c list version pairs
       end = Ok b ∧ carries b version.
Proof.
  intros Hm Hl Hv Hslot Hnd Hlp Hmade.
  assert (Hok : Forall (λ x, signature_ok (members c) (message_for c WotsXmss list version) slot x = true) pairs)
    by (eapply Forall_impl; [exact Hmade|]; intros x; rewrite Hmem; apply made_signature_ok).
  assert (Hq : threshold c ≤ Z.of_nat (length pairs)) by (rewrite Hth, Hlp; done).
  unfold carries. destruct party as [n|n]; cbn in Hm; rewrite <-Hm.
  - destruct (quorum_verified c WotsXmss list version pairs slot) as (r & Hr & Hver & _ & El & Ev & Hcnt); [done..|].
    rewrite Hmem, length_fmap, Hlen in Hr. unfold make_raw. rewrite Hr. eexists. split; [done|].
    exists r. split_and!; [|done..]. apply (proj1 (raw_codec r [])). split_and!; [by rewrite El|by rewrite Ev|done].
  - destruct (seats_proved c WotsXmss pairs list version slot LOCAL_LOG_INV_RATE) as (raws & b & E & Hb & Hver);
      [done..|].
    unfold make_snark. rewrite E. cbn [result_bind]. rewrite Hb. eexists. split; [done|].
    eexists. split_and!; [by apply snark_codec|done|done].
Qed.

(** The keys applied in a round, the last signature first. *)
Definition round_log (round : nat) (list : Datatypes.list bytes) : Datatypes.list (Z * bytes) :=
  replicate LOCAL_T (GENESIS_SLOT + Z.of_nat round, message_for c WotsXmss list (Z.of_nat round)).

Fixpoint rounds_log (additions : Datatypes.list nat) (round : nat) (list : Datatypes.list bytes) :
    Datatypes.list (Z * bytes) :=
  match additions with
  | [] => []
  | count :: additions =>
      let list := round_list list round count in rounds_log additions (S round) list ++ round_log round list
  end.

Lemma round_list_wf list round count : wf_entries list → wf_entries (round_list list round count).
Proof.
  intros Hl. assert (H : wf_entries (add_batch list round count))
    by (apply Forall_app_2; [done|]; apply Forall_fmap, Forall_true; intros k; apply sha3_256_length).
  unfold round_list. destruct (round =? 2)%nat; [by apply Forall_drop|done].
Qed.

Lemma run_rounds_ok additions round list nodes party first w :
  (round + length additions ≤ 256)%nat → wf_entries list →
  fleet keypairs (λ _, GENESIS_SLOT + Z.of_nat round) nodes w →
  party_at c mode (if (round =? 0)%nat then None else Some (Z.of_nat round - 1)) party w →
  match first with Some b => carries b 0 | None => round = 0%nat end →
  ∃ first' party' w', run_rounds c additions round list nodes party first w = (Done (first', party'), w') ∧
    (let last := (round + length additions)%nat in
     party_at c mode (if (last =? 0)%nat then None else Some (Z.of_nat last - 1)) party' w' ∧
     match first' with Some b => carries b 0 | None => last = 0%nat end) ∧
    w_signed w' = rounds_log additions round list ++ w_signed w.
Proof.
  revert round list nodes party first w. induction additions as [|count additions IH];
    intros round list nodes party first w Hr Hl Hfl Hp Hf.
  { exists first, party, w. rewrite Nat.add_0_r. by split_and!. }
  cbn [length] in Hr. cbn [run_rounds rounds_log]. cbv zeta.
  assert (Hslot : slot_for c (Z.of_nat round) = Some (GENESIS_SLOT + Z.of_nat round)).
  { unfold slot_for, checked_add_u32. rewrite Hg, (proj2 (Z.leb_le _ _)); [done|].
    unfold GENESIS_SLOT, u32_max. lia. }
  rewrite Hslot. cbn [ok_or]. rewrite lift_Ok. set (list1 := round_list list round count).
  set (m := message_for c WotsXmss list1 (Z.of_nat round)). set (slot := GENESIS_SLOT + Z.of_nat round) in *.
  destruct (rotating_ok round LOCAL_N LOCAL_T) as [Hrn Hrot]; [unfold LOCAL_N; lia|unfold LOCAL_N, LOCAL_T; lia|].
  change (rotating round LOCAL_N LOCAL_T) with (rotating_quorum round) in *. unfold sign_round.
  destruct (sign_quorum_ok GENESIS_SLOT LAST_SLOT local_window (refused (Z.of_nat round)) keypairs (λ _, slot) nodes
    (rotating_quorum round) m slot w) as (pairs & nodes1 & w1 & E & Hfst & Hmade & Hfl1 & (Hcd & Hnx & Hlk) & Hlog);
    [done| |done|done|by rewrite Hlen|done|intros; lia|].
  { unfold slot, LAST_SLOT, LOCAL_KEY_SLOTS, GENESIS_SLOT. lia. }
  erewrite run_bind by exact E. cbv beta iota.
  assert (Hp1 : party_at c mode (if (round =? 0)%nat then None else Some (Z.of_nat round - 1)) party w1)
    by (destruct Hp; split; [apply Hfl1|done..|by rewrite Hcd]).
  assert (Hl1 : wf_entries list1) by by apply round_list_wf.
  destruct (record_made list1 (Z.of_nat round) pairs slot party) as (b & Hb & Hcarry); [apply Hp1|done| |done| | |done|].
  { unfold is_u32, u32_max. lia. } { by rewrite Hfst. }
  { by rewrite <-(length_fmap fst), Hfst. }
  unfold publish_record. unfold mbind at 2, io_bind at 2. unfold mbind at 1, io_bind at 1.
  rewrite Hb. unfold lift.
  destruct (party_accepts _ party b (Z.of_nat round) (λ _, slot + 1) nodes1 w1 Hp1 Hcarry) as
    (party2 & w2 & Eo & Hp2 & Hfl2 & Hlog2); [|exact Hfl1|].
  { destruct (Nat.eqb_spec round 0); [done|]. intros x [= <-]. lia. }
  erewrite run_bind by exact Eo. cbv beta iota. cbn [accepted mret io_ret].
  rewrite bool_decide_eq_true_2 by done.
  destruct (IH (S round) list1 nodes1 party2 (Some (default b first)) w2) as (first' & party' & w' & E' & Hend & Hlog');
    [lia|done| | | |].
  { replace (GENESIS_SLOT + Z.of_nat (S round)) with (slot + 1) by (unfold slot; lia). done. }
  { replace (Z.of_nat (S round) - 1) with (Z.of_nat round) by lia. done. }
  { destruct first as [b0|]; [done|]. by subst round. }
  exists first', party', w'. rewrite E'. cbn [length]. rewrite <-Nat.add_succ_comm. split_and!; [done|apply Hend..|].
  rewrite Hlog', Hlog2, Hlog, <-app_assoc. done.
Qed.
End rounds.
End run.

(** The lists of the three rounds. *)
Definition first_list : list bytes := add_batch [] 0 2.
Definition second_list : list bytes := add_batch first_list 1 3.
Definition third_list : list bytes := drop 3 (add_batch second_list 2 2).

(** C25 The walk-through runs to its end in either mode: over a scratch directory an
    earlier run may have left, when the five members' keys are generated and distinct
    and no call of the operating system fails, three of five members sign each of the
    three versions through their durable counters, at the slots 43, 44 and 45 and at
    no other, the relying party accepts the versions 0, 1 and 2 through its durable
    mark, finds the replayed first record stale, and the scratch directory is empty
    again. *)
Theorem local_demo_runs `{BLL : !BitListLaws} `{LR : !SszLaws RawStatusListWire wf_raw_wire}
    `{LS : !SszLaws SnarkStatusListWire wf_snark_wire} args mode dir keypairs w :
  aggregates → parse_mode args = Ok mode → length keypairs = LOCAL_N → NoDup (snd <$> keypairs) →
  (∀ k keys, keypairs !! k = Some keys →
    key_gen_from_seed (seed k) GENESIS_SLOT (GENESIS_SLOT + LOCAL_KEY_SLOTS) = Ok keys) →
  signs_in GENESIS_SLOT (GENESIS_SLOT + LOCAL_KEY_SLOTS) keypairs →
  w_verdicts w = [] → w_stat_ok w = true → (∀ i, i ∈ w_locks w → (i < w_next w)%nat) →
  ∃ c w', committee_new (snd <$> keypairs) (Z.of_nat LOCAL_T) GENESIS_SLOT = Ok c ∧
    local_run args dir w = (Done tt, w') ∧ (∀ p, below dir p → cur_dir w' !! p = None) ∧
    w_signed w' = replicate 3 (45, message_for c WotsXmss third_list 2) ++
                  replicate 3 (44, message_for c WotsXmss second_list 1) ++
                  replicate 3 (43, message_for c WotsXmss first_list 0) ++ w_signed w.
Proof.
  intros Hagg Hmode Hlen Hnd Hgen Hs Hq Hst Hlo.
  destruct (committee_of (snd <$> keypairs) LOCAL_T GENESIS_SLOT) as (c & Hnew & Hc & Hm & Hth & Hg);
    [done|rewrite length_fmap, Hlen; unfold LOCAL_T, LOCAL_N; lia|rewrite length_fmap, Hlen; unfold MAX_COMMITTEE_SIZE, LOCAL_N; lia|done|].
  destruct (reset_ok dir w Hq Hst Hlo) as (w1 & E1 & Hr1 & Hlog1).
  destruct (bring_up_members_ok dir keypairs Hlen Hgen LOCAL_N 0 w1) as
    (nodes & w2 & E2 & Hfl2 & _ & Hlog2 & _ & _ & Hr2); [done|done|].
  rewrite drop_0 in Hfl2.
  destruct (bring_up_party_ok dir keypairs Hlen c mode (λ _, GENESIS_SLOT) nodes w2 Hr2 Hfl2) as
    (party & w3 & E3 & Hp3 & Hfl3 & Hlog3).
  destruct (run_rounds_ok dir keypairs Hlen Hagg Hs c Hc Hm Hth Hg mode ADDITIONS 0 [] nodes party None w3) as
    (first & party' & w4 & E4 & [Hp4 Hf4] & Hlog4); [simpl; lia|constructor|done|done|done|].
  destruct first as [b|]; [|done].
  destruct (party_stale dir c mode 2 party' b 0 w4 Hp4 Hf4 ltac:(lia)) as (party5 & E5).
  destruct (remove_dir_run dir w4) as (w5 & E6 & _ & Hfree & _ & _ & _ & Hsg); [apply Hp4|].
  assert (Ecm : bring_up_committee dir w1 = (Done (c, nodes), w2)).
  { unfold bring_up_committee. erewrite run_bind by exact E2.
    replace (pk <$> nodes) with (snd <$> keypairs) by (rewrite <-(fl_keys _ _ _ _ _ Hfl2), <-list_fmap_compose; done).
    by rewrite Hnew, lift_Ok. }
  exists c, w5. split; [done|]. split_and!; [|done|].
  - unfold local_run. rewrite Hmode, lift_Ok. erewrite run_bind by exact E1.
    erewrite run_bind by exact Ecm. cbv beta iota. erewrite run_bind by exact E3. erewrite run_bind by exact E4. cbv beta iota. cbn [ok_or]. rewrite lift_Ok.
    erewrite (run_bind (replay_old_record party' b)) by (unfold replay_old_record; by erewrite run_bind by exact E5).
    unfold cleanup_scratch, io_catch. by rewrite E6.
  - rewrite Hsg, Hlog4, Hlog3, Hlog2, Hlog1. cbn [rounds_log ADDITIONS]. unfold round_log. by rewrite <-!app_assoc.
Qed.
End local_demo.
