(* ===== verification/Pipeline.v ===== *)
(** * The benchmark pipeline: fixture, prover, acceptance check

    The three programs composed through the directories they exchange, and the
    forgeries of the prover met by the verifier's predicate. *)
From S2P Require Import Prelude External Instances Seats StatusLists Committees Verifiers Params.
From S2P Require Import Fs Atomic Freshness FreshnessSystem FreshnessRuns Workload Artifacts VerifierMain.
From S2P Require Import CheckOutput Corpus Fixture Prover.

Open Scope Z_scope.

Section pipeline.
Context `{HH : Hashes} `{XX : Xmss} `{VM : !LeanVm} `{BL : BitListOps}.
Context `{SR : !Ssz RawStatusListWire} `{SS : !Ssz SnarkStatusListWire} `{SC : !Ssz CommitteeWire}.
Context `{DK : Disk} `{OT : OsText}.
Context `{BLL : !BitListLaws} `{LR : !SszLaws RawStatusListWire wf_raw_wire}.
Context `{LS : !SszLaws SnarkStatusListWire wf_snark_wire} `{LC : !SszLaws CommitteeWire wf_committee_wire}.
Context (Hsize : ∀ w : CommitteeWire,
  Z.of_nat (length (as_ssz_bytes w)) = 16 + 32 * Z.of_nat (length (cw_members w))).
Context (Hagg : aggregates) (Hdisk : ∀ name, write_error name = None).

Abbreviation KeyPair := (XmssSecretKey * XmssPublicKey)%type.

(** The fixture holds an update for every version, and the raw predicate of its
    anchor accepts it. *)
Definition accepted_updates (c : Committee) (F : Files) : Prop :=
  ∀ v, (v < N_UPDATES)%nat → ∃ r, F !! raw_update_name v = Some (to_bytes r) ∧
    sl_version r = Z.of_nat v ∧ verify_status_list (mkVerifierNode c) r = true.

(** The names a run over a fixture leaves in an output directory that held
    nothing but an earlier run. *)
Lemma output_names c t (F files before : Files) (name : string) :
  honest_output c t F files →
  (∀ name, name ∉ expected_files → files !! name = before !! name) →
  (∀ name, before !! name = None) →
  name ∈ expected_files ↔ is_Some (files !! name).
Proof.
  intros (Ha & Hall) Hfr Hb. split.
  - unfold expected_files. rewrite elem_of_list_to_set, !elem_of_cons.
    intros [->|[->|(v & -> & Hv%elem_of_seq)%list_elem_of_fmap]].
    + by rewrite Ha.
    + destruct (Hall (N_UPDATES - 1)%nat) as (r & b & _ & _ & _ & _ & Hcan); [unfold N_UPDATES; lia|].
      by rewrite Hcan.
    + destruct (Hall v) as (r & b & _ & _ & -> & _); [lia|done].
  - intros [b Hsome]. apply dec_stable. intros Hn. rewrite Hfr, Hb in Hsome by done. done.
Qed.

(** Output over a fixture is what the acceptance check looks for. *)
Lemma honest_output_checks c t (F : Files) fixture (files : Files) out (before : Files) :
  wf_committee c → corpus c t F → holds fixture F → honest_output c t F files →
  (∀ name, name ∉ expected_files → files !! name = before !! name) →
  (∀ name, before !! name = None) → holds out files →
  check_main out (Some fixture) = true.
Proof.
  intros Hc (HFa & _) Hf Hho Hfr Hb Ho. pose proof Hho as (Ha & Hall).
  set (bs := λ k, default [] (files !! update_name k)).
  pose proof Ho as ((names & Hl & _ & Hnames) & _).
  eapply (faithful_run_passes out fixture (committee_to_bytes c) c names bs).
  - done.
  - apply set_eq. intros name. rewrite elem_of_list_to_set, Hnames. symmetry.
    by eapply output_names.
  - by apply (holds_read _ files).
  - by apply (holds_read _ F).
  - by apply committee_from_to.
  - intros v Hv. destruct (Hall v Hv) as (r & b & HFv & Hu & Hfv & Hp & _).
    destruct Hp as (s & a & Eb & Hs & Hpr & Hsv & Hsl & Hck & Hk).
    exists s, a, (to_bytes r), r. unfold bs. rewrite Hfv. simpl.
    split_and!; [by apply (holds_read _ files)|done|done|done|by apply Hck|by apply (holds_read _ F)| | | |done].
    + apply (proj1 (raw_codec r [])). by eapply update_record_wf.
    + rewrite Hsv. by destruct Hu.
    + done.
  - destruct (Hall (N_UPDATES - 1)%nat) as (r & b & _ & _ & Hfv & _ & Hcan); [unfold N_UPDATES; lia|].
    unfold bs. rewrite Hfv. simpl. apply (holds_read _ files); [done|]. by apply Hcan.
Qed.

(** C23 The pipeline works end to end: from distinct fresh keys the fixture writer
    finishes, applies no key twice at one slot and writes an update for every
    version that the raw predicate accepts; the prover, run over any directory
    that holds those files, finishes; and the acceptance check, run over any
    directory that holds what the prover wrote, succeeds against the fixture. *)
Theorem benchmark_pipeline fdir odir n t keypairs outsider var entries fresh fixture_before (before : Files)
    rng unused :
  signs keypairs → signs [outsider] → NoDup (snd <$> keypairs ++ [outsider]) →
  length keypairs = n → (1 ≤ t)%nat → (t ≤ n)%nat → (n ≤ MAX_COMMITTEE_SIZE)%nat →
  list_entries_from_env var = Ok entries →
  (∀ name, is_Some (before !! name) → stale_artifact name = true) →
  ∃ c F st, committee_new (snd <$> keypairs) (Z.of_nat t) SLOT = Ok c ∧
    fixture_main fdir n t keypairs outsider var fresh fixture_before (mkSession rng []) = Ok (F, st) ∧
    NoDup (s_used st) ∧ accepted_updates c F ∧
    ∀ fixture, holds fixture F →
      ∃ files, prover_main odir n t (Some fixture) true [] [] fresh before unused = Ok (files, unused) ∧
        ∀ out, holds out files → check_main out (Some fixture) = true.
Proof.
  intros Hs Hso Hnd Hlen Ht1 Ht Hmax Hvar Hb.
  destruct (fixture_main_ok fdir n t keypairs outsider var entries fresh fixture_before rng) as
    (c & F & st & Hnew & Hmain & Hused & HF); [done..|].
  pose proof Hnew as (Hc & Hm & Hth & Hg)%committee_new_ok; [|done].
  exists c, F, st. split_and!; [done..| |].
  { intros v Hv. destruct HF as (_ & Hall & _). destruct (Hall v Hv) as (r & ? & Hu & ?).
    exists r. split_and!; [done|apply Hu|done]. }
  intros fixture Hf. unfold prover_main. set (cleared := filter _ before).
  assert (Hcl : ∀ name, cleared !! name = None).
  { intros name. apply map_lookup_filter_None. right. intros b Hn E. simpl in E.
    by rewrite (Hb name) in E by (by exists b). }
  destruct (run_fixture_prover_ok Hsize Hagg odir c fixture t Hc Hth Hg Hdisk F true cleared) as
    (files & Hho & Hfr & Hrun); [done..|].
  rewrite <-Hlen, <-(length_fmap snd keypairs), <-Hm, Hrun. exists files. split; [done|].
  intros out Ho. by eapply honest_output_checks.
Qed.

(** ** The verifier over a full run *)

(** What a full run leaves: the honest output, the six forgeries, and nothing
    else that looks like an update or a forgery. *)
Record full_output (c : Committee) (t : nat) (F files : Files) : Prop := {
  fo_honest : honest_output c t F files;
  fo_forged : ∀ name, name ∈ forgery_names → rejected_file c files name;
  fo_updates : ∀ name, is_Some (files !! name) → String.prefix "update-" name = true →
    name ∈ update_name <$> seq 0 N_UPDATES;
  fo_attacks : ∀ name, is_Some (files !! name) → String.prefix "attack-" name = true →
    name ∈ forgery_names;
}.

Lemma update_names_sorted : Sorted name_le (update_name <$> seq 0 N_UPDATES).
Proof. apply (bool_decide_unpack _). vm_compute. exact I. Qed.

Lemma update_names_distinct : NoDup (update_name <$> seq 0 N_UPDATES).
Proof. apply (bool_decide_unpack _). vm_compute. exact I. Qed.

Lemma required_forgeries name : name ∈ required_attacks → name ∈ forgery_names.
Proof. revert name. apply Forall_forall, (bool_decide_unpack _). vm_compute. exact I. Qed.

Lemma proved_update_accepted c v r b :
  proved_update c v r b → ∃ s, snark_from_bytes b = Ok s ∧
    snark_verify (mkSnarkVerifier c 0) s = true ∧ sn_version s = Z.of_nat v.
Proof.
  intros (s & a & _ & Hs & Hp & Hv & _ & Hc & _). exists s. split_and!; [done| |done].
  unfold snark_verify. by rewrite Hp.
Qed.

Lemma full_output_listed c t F files out :
  full_output c t F files → holds out files →
  ∃ entries, d_list out = Ok entries ∧ files_with "update-" entries = update_name <$> seq 0 N_UPDATES.
Proof.
  intros [[Ha Hh] _ Hu _] Ho. apply (holds_files_with out files); [done|apply update_names_distinct|
    apply update_names_sorted|].
  intros name. split; [|intros []; by apply Hu].
  intros (v & -> & Hv%elem_of_seq)%list_elem_of_fmap. split; [|apply prefix_app].
  destruct (Hh v) as (r & b & _ & _ & -> & _); [lia|done].
Qed.

Lemma full_output_judged c t F files out entries :
  full_output c t F files → holds out files → d_list out = Ok entries →
  clean_judgement c out (files_with "update-" entries) (files_with "attack-" entries).
Proof.
  intros [[_ Hh] Hf Hu Ha] Ho Hl. split.
  - intros name [Hs Hp]%(holds_elem out files _ _ _ Ho Hl). specialize (Hu _ Hs Hp).
    apply list_elem_of_fmap in Hu as (v & -> & Hv%elem_of_seq).
    destruct (Hh v) as (r & b & _ & _ & Hb & Hpr & _); [lia|].
    destruct (proved_update_accepted _ _ _ _ Hpr) as (s & ? & ? & _). exists b, s.
    split; [by apply (holds_read _ files)|done].
  - intros name Hin. apply (holds_is_file _ files); [done|].
    destruct (Hf name) as (s & -> & _); [by apply required_forgeries|done].
  - intros name [Hs Hp]%(holds_elem out files _ _ _ Ho Hl). specialize (Ha _ Hs Hp).
    destruct (Hf name Ha) as (s & Hfile & Hwf & Hrej). exists (snark_to_bytes s).
    split; [by apply (holds_read _ files)|]. intros r Hr. rewrite (proj1 (snark_codec s [])) in Hr by done.
    injection Hr as <-. apply Hrej.
Qed.

Lemma forgeries_all c list (files : Files) :
  forgeries c list files →
  (∀ name, name ∈ forgery_names → rejected_file c files name) ∨ tamper_clash c list ∨ version_clash c list.
Proof.
  intros (Hs & [H1|?] & [H2|?]); [|by right; right|by right; left..]. left.
  intros name Hin. unfold forgery_names in Hin. rewrite !elem_of_cons, elem_of_nil in Hin.
  destruct Hin as [->|[->|[->|[->|[->|[->|[]]]]]]]; (exact H1 || exact H2 || (apply Hs; set_solver)).
Qed.

Lemma expected_prefix name :
  name ∈ expected_files → String.prefix "attack-" name = false ∧
  (String.prefix "update-" name = true → name ∈ update_name <$> seq 0 N_UPDATES).
Proof.
  unfold expected_files. rewrite elem_of_list_to_set, !elem_of_cons. intros [->|[->|Hin]]; [done..|].
  split; [|done]. by apply list_elem_of_fmap in Hin as (v & -> & _).
Qed.

Lemma forgery_prefix name :
  name ∈ forgery_names → String.prefix "update-" name = false ∧ name ∉ expected_files.
Proof.
  intros Hin. assert (Hp : String.prefix "update-" name = false ∧ String.prefix "attack-" name = true).
  { unfold forgery_names in Hin. rewrite !elem_of_cons, elem_of_nil in Hin.
    destruct Hin as [->|[->|[->|[->|[->|[->|[]]]]]]]; done. }
  split; [apply Hp|]. intros [E _]%expected_prefix. destruct Hp as [_ Hp]. by rewrite Hp in E.
Qed.

Lemma full_output_ok c t (F files files' before : Files) :
  honest_output c t F files → (∀ name, name ∉ expected_files → files !! name = before !! name) →
  (∀ name, is_Some (before !! name) → stale_artifact name = false) →
  (∀ name, name ∈ forgery_names → rejected_file c files' name) →
  (∀ name, name ∉ forgery_names → files' !! name = files !! name) →
  full_output c t F files'.
Proof.
  intros [Ha Hh] Hfr Hb Hf Hfr'.
  assert (Hkeep : ∀ name, name ∈ expected_files → files' !! name = files !! name).
  { intros name He. apply Hfr'. intros Hin.
    destruct (forgery_prefix _ Hin) as [_ Hn]. exact (Hn He). }
  assert (Hin : ∀ v, (v < N_UPDATES)%nat → update_name v ∈ expected_files).
  { intros v Hv. unfold expected_files. rewrite elem_of_list_to_set, !elem_of_cons. right; right.
    apply list_elem_of_fmap_2, elem_of_seq. lia. }
  assert (Hcan : "canonical.bin"%string ∈ expected_files) by (unfold expected_files; set_solver).
  assert (Hanc : "anchor.bin"%string ∈ expected_files) by (unfold expected_files; set_solver).
  assert (Hold : ∀ name, is_Some (files' !! name) → stale_artifact name = true →
    name ∈ expected_files ∨ name ∈ forgery_names).
  { intros name Hs Hst. destruct (decide (name ∈ forgery_names)); [by right|]. left.
    apply dec_stable. intros Hn. rewrite Hfr', Hfr in Hs by done. rewrite (Hb _ Hs) in Hst. done. }
  split; [split|done| |].
  - by rewrite (Hkeep _ Hanc).
  - intros v Hv. destruct (Hh v Hv) as (r & b & ? & ? & ? & ? & ?). exists r, b.
    rewrite (Hkeep _ (Hin _ Hv)), (Hkeep _ Hcan). split_and!; assumption.
  - intros name Hs Hp. destruct (Hold name Hs) as [He|He].
    + unfold stale_artifact. by rewrite Hp, orb_true_r.
    + by apply expected_prefix in He as [_ ?]; auto.
    + apply forgery_prefix in He as [E _]. by rewrite Hp in E.
  - intros name Hs Hp. destruct (Hold name Hs) as [He|He]; [|apply expected_prefix in He as [E _]|done].
    + unfold stale_artifact. by rewrite Hp, !orb_true_r.
    + by rewrite Hp in E.
Qed.

Lemma verifier_over_full_run dirs state_path dir c t (F files : Files) o w :
  verifier_args [dir] = Some (false, dir) → wf_committee c → full_output c t F files →
  holds (dirs dir) files → resting (state_path dir) (committee_to_bytes c) o w →
  ∃ w', verifier_main dirs state_path [dir] w = (Done ExitSuccess, w') ∧
    resting (state_path dir) (committee_to_bytes c) (Some (raised o (Z.of_nat N_UPDATES - 1))) w'.
Proof.
  intros Harg Hc Hfull Ho Hw. destruct (full_output_listed _ _ _ _ _ Hfull Ho) as (entries & Hl & Hnames).
  pose proof (full_output_judged _ _ _ _ _ _ Hfull Ho Hl) as Hcl.
  pose proof Hfull as [[Ha Hh] _ _ _].
  destruct (Hh (N_UPDATES - 1)%nat) as (r & b & _ & _ & _ & Hp & Hcan); [unfold N_UPDATES; lia|].
  destruct (proved_update_accepted _ _ _ _ Hp) as (s & Hs & Hv & Hsv).
  destruct (Hh 0%nat) as (r0 & b0 & _ & _ & Hb0 & Hp0 & _); [unfold N_UPDATES; lia|].
  destruct (proved_update_accepted _ _ _ _ Hp0) as (s0 & Hs0 & Hv0 & Hsv0).
  change (Z.of_nat N_UPDATES - 1) with (Z.of_nat (N_UPDATES - 1)). rewrite <-Hsv.
  eapply (verifier_main_passes dirs state_path [dir] dir (committee_to_bytes c) c entries (update_name 0)
    (update_name <$> seq 1 (N_UPDATES - 1)) b s s0); try done.
  - by apply (holds_read _ files).
  - by apply committee_from_to.
  - apply (holds_read _ files); [done|]. by apply Hcan.
  - eapply authentic_record; [|done..]. by apply (holds_read _ files).
  - rewrite Hsv, Hsv0. unfold N_UPDATES. lia.
Qed.

(** C20 The whole benchmark, forgeries included: from distinct fresh keys and
    [t >= 2], the fixture writer and the prover finish and the prover leaves the
    honest output and the six forgeries; and the verifier, over any directory
    that holds what the prover wrote and any mark of this anchor that nobody
    else has open, exits with success and leaves the mark on disk at the last
    update, or higher if it was higher; unless BLAKE2s collides on the honest
    statement of the last list and one forged from it. *)
Theorem verified_pipeline fdir odir n t keypairs outsider var entries fresh fixture_before (before : Files)
    rng unused :
  body_last → signs keypairs → signs [outsider] → NoDup (snd <$> keypairs ++ [outsider]) →
  length keypairs = n → (2 ≤ t)%nat → (t ≤ n)%nat → (n ≤ MAX_COMMITTEE_SIZE)%nat →
  list_entries_from_env var = Ok entries →
  ∃ c F st, committee_new (snd <$> keypairs) (Z.of_nat t) SLOT = Ok c ∧
    fixture_main fdir n t keypairs outsider var fresh fixture_before (mkSession rng []) = Ok (F, st) ∧
    ∀ fixture, holds fixture F →
      ∃ files, prover_main odir n t (Some fixture) false [] [] fresh before unused = Ok (files, unused) ∧
        (full_output c t F files ∧
         (∀ dirs state_path dir o w, verifier_args [dir] = Some (false, dir) → holds (dirs dir) files →
           resting (state_path dir) (committee_to_bytes c) o w →
           ∃ w', verifier_main dirs state_path [dir] w = (Done ExitSuccess, w') ∧
             resting (state_path dir) (committee_to_bytes c) (Some (raised o (Z.of_nat N_UPDATES - 1))) w') ∨
         ∃ list, attack_list F list ∧ (tamper_clash c list ∨ version_clash c list)).
Proof.
  intros Hbody Hs Hso Hnd Hlen Ht2 Ht Hmax Hvar.
  destruct (fixture_main_ok fdir n t keypairs outsider var entries fresh fixture_before rng) as
    (c & F & st & Hnew & Hmain & Hused & HF); [done..|lia|done|done|done|done|].
  pose proof Hnew as (Hc & Hm & Hth & Hg)%committee_new_ok; [|done].
  exists c, F, st. split_and!; [done..|]. intros fixture Hf. unfold prover_main. set (cleared := filter _ before).
  destruct (run_fixture_prover_ok Hsize Hagg odir c fixture t Hc Hth Hg Hdisk F false cleared) as
    (files & Hho & Hfr & Hrun); [done..|].
  destruct (fixture_forgeries_ok Hsize Hagg odir c fixture t Hc Hth Hg Hdisk Hbody Ht2 F files Hf HF) as
    (list & files' & Hforge & Hlist & Hbad & Hfr').
  rewrite <-Hlen, <-(length_fmap snd keypairs), <-Hm, Hrun, Hforge. exists files'. split; [done|].
  destruct (forgeries_all _ _ _ Hbad) as [Hall|?]; [left|right; by exists list].
  assert (Hfull : full_output c t F files').
  { eapply full_output_ok; [done|done| |done|done]. intros name [b Hb]. unfold cleared in Hb.
    by apply map_lookup_filter_Some in Hb as [_ ?]. }
  split; [done|]. intros dirs state_path dir o w Harg Ho Hw. by eapply verifier_over_full_run.
Qed.
End pipeline.
