(* ===== verification/Storage.v ===== *)
(** * The demo's volumes (demo/src/storage.rs)

    The shared committee and storage volumes and the private state volume of a
    node, as directories of the file-system model.  The storage volume holds one
    file: the current record. *)
From S2P Require Import Prelude Fs External Atomic.

Open Scope Z_scope.

Definition RUN_ID : string := "run-id".
Definition ANCHOR : string := "anchor.bin".
Definition CURRENT_RECORD : string := "status-current.ssz".

(** The three directories, from the environment. *)
Class Volumes := {
  committee_dir : list string;
  storage_dir : list string;
  state_dir : list string;
}.

Definition join (dir : list string) (name : string) : path := (dir, Some name).

(** Write a temporary file, sync it, rename it over the target, sync the
    directory. *)
Definition write_atomic (p : path) (b : bytes) : io io_error unit :=
  let tmp := sibling p "tmp" in
  f ← open_truncate tmp;
  f ← write_all f b;
  _ ← sync_file f;
  _ ← rename tmp p;
  _ ← open_dir;
  _ ← sync_dir;
  mret tt.

(** ** Waiting for a file *)

Inductive wait_error := TimedOut (message : string) | OutOfFuel.

(** [Instant::now]: the reading of the clock at each look at it, in milliseconds. *)
Class Clock := instant : nat → nat.

(** The clock passes every instant: a monotone clock under a loop that sleeps. *)
Definition clock_advances `{Clock} : Prop := ∀ T, ∃ n, ∀ k, (n ≤ k)%nat → (T ≤ instant k)%nat.

Section waiting.
Context `{CC : Clock}.

Definition now {E} : io E nat := k ← draw; mret (instant k).

(** [fuel] bounds the rounds of the loop. *)
Fixpoint wait_loop (fuel : nat) (p : path) (deadline timeout : nat) : io wait_error bytes :=
  match fuel with
  | O => throw OutOfFuel
  | S fuel' =>
      io_catch (fs_read p) (λ r,
        match r with
        | Ok (b :: bs) => mret (b :: bs)
        | _ =>
            t ← now;
            if (deadline <=? t)%nat
            then throw (TimedOut (display_path p +:+ " did not appear within " +:+ pretty timeout))
            else wait_loop fuel' p deadline timeout
        end)
  end.

Definition wait_for (fuel : nat) (p : path) (timeout : nat) : io wait_error bytes :=
  t ← now;
  wait_loop fuel p (t + timeout) timeout.

(** One look at the file. *)
Lemma fs_read_entropy p w : w_entropy (snd (fs_read p w)) = w_entropy w.
Proof.
  unfold fs_read, syscall. destruct (w_verdicts w) as [|[|k|k] vs]; simpl; [|..|done|done];
    by destruct (_ !! _).
Qed.

(** Waiting moves nothing but the clock. *)
Lemma wait_for_keeps fuel p timeout (P : world → Prop) :
  schedule_free P → entropy_free P → triple P (wait_for fuel p timeout) (λ _, P) P.
Proof.
  intros HP HE. assert (Hnow : ∀ E, triple P (now (E := E)) (λ _, P) P) by (intros E w Hw; by apply HE).
  assert (Hread : triple P (fs_read p) (λ _, P) P).
  { apply triple_syscall; [done| |done]. intros w Hw. by destruct (cur_dir w !! p). }
  eapply triple_bind; [apply Hnow|]. intros t. generalize (t + timeout)%nat as deadline. intros deadline.
  induction fuel as [|fuel IH]; [by apply triple_throw|]. cbn [wait_loop].
  assert (Hlate : triple P (t ← now; if (deadline <=? t)%nat
    then throw (TimedOut (display_path p +:+ " did not appear within " +:+ pretty timeout))
    else wait_loop fuel p deadline timeout) (λ _, P) P).
  { eapply triple_bind; [apply Hnow|]. intros t'. case_match; [by apply triple_throw|done]. }
  eapply triple_catch; [exact Hread|done| |by intros e].
  intros [|b bs]; [done|]. by apply triple_ret.
Qed.

Lemma wait_loop_ends fuel p deadline timeout w :
  (∀ k, (w_entropy w + pred fuel ≤ k)%nat → (deadline ≤ instant k)%nat) → (0 < fuel)%nat →
  ∃ o w', wait_loop fuel p deadline timeout w = (o, w') ∧
    match o with Done b => b ≠ [] | Failed e => e ≠ OutOfFuel | Halted => True end.
Proof.
  revert w. induction fuel as [|fuel IH]; intros w Hd Hf; [lia|].
  pose proof (fs_read_entropy p w) as Hw. cbn [wait_loop]. unfold io_catch.
  destruct (fs_read p w) as [[[|b bs]|e|] w1]; simpl in Hw; [|by eexists _, _| |by eexists _, _].
  all: unfold now, mbind, io_bind, draw, mret, io_ret.
  all: destruct (Nat.leb_spec deadline (instant (w_entropy w1))); [by eexists _, _|].
  all: apply IH; simpl; rewrite Hw in *.
  1,3: intros k Hk; apply Hd; simpl in *; lia.
  all: destruct fuel; [|lia]; specialize (Hd (w_entropy w)); simpl in Hd; lia.
Qed.

(** C39 Waiting for a file ends: with a clock that passes every instant there is
    a number of rounds after which, for any file system and any failures of the
    reads, the loop has returned a non-empty content or a time-out, or the
    process is dead. *)
Theorem wait_for_terminates p timeout w :
  clock_advances →
  ∃ rounds, ∀ fuel, (rounds ≤ fuel)%nat →
    ∃ o w', wait_for fuel p timeout w = (o, w') ∧
      match o with Done b => b ≠ [] | Failed e => e ≠ OutOfFuel | Halted => True end.
Proof.
  intros Hc. destruct (Hc (instant (w_entropy w) + timeout)%nat) as [n Hn].
  exists (S n). intros fuel Hf. apply wait_loop_ends; [|lia].
  simpl. intros k Hk. apply Hn. lia.
Qed.
End waiting.

Section storage.
Context `{HH : Hashes} `{VV : Volumes}.

Definition member_key_file (index : nat) : path :=
  join committee_dir ("pk-" +:+ two_digits index +:+ ".ssz").

Definition wait_for_run_id `{Clock} (fuel timeout : nat) : io wait_error bytes :=
  wait_for fuel (join committee_dir RUN_ID) timeout.

Definition member_seed (secret : string) (run_id : bytes) (index : nat) : bytes :=
  sha3_256 (ascii_bytes (str "drot-demo/member-seed/v1") ++ ascii_bytes (str secret) ++ run_id ++
            u64_le (Z.of_nat index)).

Definition record_path : path := join storage_dir CURRENT_RECORD.

Definition publish (b : bytes) : io io_error path :=
  _ ← write_atomic record_path b;
  mret record_path.

(** [fs::read(..).ok()]: also [None] when the read fails. *)
Definition current_record {E} : io E (option bytes) :=
  io_catch (fs_read record_path) (λ r, mret (result_ok r)).

(** ** Publication is atomic *)

(** The write is the replacement both state modules make. *)
Lemma write_atomic_replace p b w :
  write_atomic p b w = (_ ← replace_file (λ e, e) p b; mret tt) w.
Proof.
  unfold write_atomic, replace_file, mbind, io_bind, io_map_err, mret, io_ret.
  destruct (open_truncate _ w) as [[f|e|] w1]; [|done..].
  destruct (write_all f b w1) as [[g|e|] w2]; [|done..].
  destruct (sync_file g w2) as [[[]|e|] w3]; [|done..].
  destruct (rename _ p w3) as [[[]|e|] w4]; [|done..].
  destruct (open_dir w4) as [[[]|e|] w5]; [|done..].
  by destruct (sync_dir w5) as [[[]|e|] w6].
Qed.

Lemma write_atomic_ok p w0 Ψ b :
  wf_world p w0 → entries p Ψ w0 →
  triple (sched w0) (write_atomic p b)
    (λ _ w, wf_world p w ∧ entries p (λ o, o = Some [b]) w)
    (λ w, wf_world p w ∧ entries p (λ o, Ψ o ∨ o = Some [b]) w).
Proof.
  intros Hw He w [vs ->]. rewrite write_atomic_replace.
  pose proof (replace_file_ok p None w0 (λ o, Ψ o ∨ o = Some [b]) (λ e : io_error, e) b
    (or_intror eq_refl) (with_verdicts vs w0)) as H.
  unfold mbind, io_bind, mret, io_ret.
  destruct (replace_file _ p b _) as [[f|e|] w']; destruct H as (H1 & H2).
  1,3,5: apply schedule_free_held; split_and!; try done; intros d Hd; left; by apply He.
  - split; [apply H1|]. by eapply renamed_entries.
  - split; [done|apply H2].
  - split; [done|apply H2].
Qed.

Lemma publish_ok w0 Ψ b :
  wf_world record_path w0 → entries record_path Ψ w0 →
  triple (sched w0) (publish b)
    (λ r w, r = record_path ∧ wf_world record_path w ∧
            entries record_path (λ o, o = Some [b]) w)
    (λ w, wf_world record_path w ∧ entries record_path (λ o, Ψ o ∨ o = Some [b]) w).
Proof.
  intros Hw He. eapply triple_bind; [by apply write_atomic_ok|]. intros []. by apply triple_ret.
Qed.

(** A write that reports success is durable, whatever the world was. *)
Lemma write_atomic_durable p b w w' :
  write_atomic p b w = (Done tt, w') → entries p (λ o, o = Some [b]) w'.
Proof.
  rewrite write_atomic_replace. unfold mbind, io_bind.
  destruct (replace_file _ p b w) as [[f|e|] w1] eqn:E; [|done..]. intros [= <-].
  by eapply replace_durable.
Qed.

(** The disk can only show the content [old] for the file, or no file. *)
Definition shows (p : path) (old : option bytes) (w : world) : Prop :=
  entries p (λ o, o = (λ c, [c]) <$> old) w.

Lemma tearable_one (b : bytes) : tearable (λ o, o = Some [b]).
Proof.
  intros h m [= ->] Hm. do 2 f_equal. apply list_eq. intros k.
  by destruct (Hm k) as (c & ->%list_elem_of_singleton & ?).
Qed.

Lemma tearable_shown (old : option bytes) : tearable (λ o, o = (λ c, [c]) <$> old).
Proof. destruct old as [c|]; [apply tearable_one|]. by intros h m. Qed.

Lemma tearable_or Ψ Ψ' : tearable Ψ → tearable Ψ' → tearable (λ o, Ψ o ∨ Ψ' o).
Proof. intros H H' h m [Hh|Hh] Hm; [left; by eapply H|right; by eapply H']. Qed.

(** Now, or after a power loss. *)
Lemma entries_later p Ψ w w' :
  tearable Ψ → entries p Ψ w → w' = w ∨ power_loss w w' → entries p Ψ w'.
Proof. intros Ht He [->|Hpl]; [done|by eapply entries_power_loss]. Qed.

(** C38 [publish] is atomic and durable: from a storage volume that can only
    show [old], whatever call fails or is cut short by the death of the
    process, the volume shows [old] or exactly the published bytes, also after
    a power loss at that point; and when [publish] reports success it shows
    exactly the published bytes, and still does after a power loss. *)
Theorem publish_atomic w0 old b :
  wf_world record_path w0 → shows record_path old w0 →
  let '(o, w) := publish b w0 in
  ∀ w', w' = w ∨ power_loss w w' →
    entries record_path (λ s, s = Some [b] ∨ s = (λ c, [c]) <$> old ∧ o ≠ Done record_path) w'.
Proof.
  intros Hw He. pose proof (publish_ok w0 _ b Hw He w0 (sched_refl _)) as H.
  destruct (publish b w0) as [[r|e|] w]; [destruct H as (-> & _ & H2)|destruct H as [_ H2]..];
    intros w' Hw'; (eapply entries_mono; [|eapply entries_later; [|exact H2|exact Hw']]);
    try naive_solver; try apply tearable_one; apply tearable_or; apply tearable_shown || apply tearable_one.
Qed.

(** ** Reading a file *)

(** The operating system is about to fail the next call. *)
Definition call_fails (w : world) : bool :=
  match w_verdicts w with Fault _ :: _ => true | _ => false end.

(** What [fs::read(..).ok()] gives in [w], where the process lives: the bytes
    under the name, and nothing when there is no such file or the read fails. *)
Definition read_ok (q : path) (w : world) : option bytes :=
  if call_fails w then None else file_at w q.

Lemma fs_read_ok q w :
  match fs_read q w with
  | (Done b, w') => sched w w' ∧ read_ok q w = Some b
  | (Failed _, w') => sched w w' ∧ read_ok q w = None
  | (Halted, w') => sched w w'
  end.
Proof.
  unfold fs_read, syscall, read_ok, call_fails, file_at.
  destruct (w_verdicts w) as [|[|k|k] vs]; [pose proof (sched_refl w)| | |by exists vs].
  - by destruct (cur_dir w !! q).
  - change (cur_dir (with_verdicts vs w)) with (cur_dir w).
    destruct (cur_dir w !! q); (split; [by exists vs|done]).
  - split; [by exists vs|done].
Qed.

Lemma current_record_ok {E} w0 :
  triple (eq w0) (current_record (E := E)) (λ o w, o = read_ok record_path w0 ∧ sched w0 w)
    (sched w0).
Proof.
  intros w <-. unfold current_record, io_catch. pose proof (fs_read_ok record_path w0) as H.
  destruct (fs_read record_path w0) as [[b|e|] w]; simpl; [|..|done]; by destruct H as [? ->].
Qed.

(** ** When no call fails *)

(** The volume durably shows [o], and every call completes. *)
Record quiet_shows (o : option bytes) (w : world) : Prop := {
  qs_world : wf_world record_path w;
  qs_calls : w_verdicts w = [];
  qs_disk : shows record_path o w;
}.

Lemma entropy_free_quiet o : entropy_free (quiet_shows o).
Proof. intros k w [[] Hq He]. by split; [split| |]. Qed.

Lemma quiet_current_record {E} o w :
  quiet_shows o w → current_record (E := E) w = (Done o, w).
Proof.
  intros [Hw Hq He]. unfold current_record, io_catch, fs_read, syscall. rewrite Hq.
  specialize (He _ (cur_in_dirs record_path w Hw)). unfold shown in He. simpl in He.
  destruct (cur_dir w !! record_path) as [i|]; simpl.
  - destruct o as [c|]; [|done]. injection He as He. unfold content. by rewrite He.
  - by destruct o.
Qed.

Lemma quiet_write_atomic p b w :
  w_verdicts w = [] → ∃ w', write_atomic p b w = (Done tt, w') ∧ w_verdicts w' = [].
Proof.
  intros Hq. destruct (quiet_replace p (λ e, e) b w Hq) as (f & w' & E & Hq').
  exists w'. rewrite write_atomic_replace. unfold mbind, io_bind. by rewrite E.
Qed.

Lemma quiet_publish o b w :
  quiet_shows o w → ∃ w', publish b w = (Done record_path, w') ∧ quiet_shows (Some b) w'.
Proof.
  intros [Hw Hq He]. destruct (quiet_write_atomic record_path b w Hq) as (w' & E & Hq').
  assert (Ep : publish b w = (Done record_path, w')).
  { unfold publish, mbind, io_bind. by rewrite E. }
  exists w'. split; [exact Ep|]. pose proof (publish_ok w _ b Hw He w (sched_refl _)) as H.
  rewrite Ep in H. destruct H as (_ & Hw' & He'). by split.
Qed.
End storage.
