(* ===== verification/Rounds.v ===== *)
(** * A signing round, whatever the signature system (demo/src/bin/signer.rs and
    mldsa_signer.rs)

    Both kinds of member run the same round: a thread per member asks for a
    signature, a channel brings the answers in the order they arrive, the valid
    ones are counted up to the threshold, and a record made of them is published.
    What differs (the statement, the check, the record) is a parameter here. *)
From S2P Require Import Prelude Fs External Instances Atomic StatusLists Wire Credentials Network.
From S2P Require Import Storage.

Open Scope Z_scope.

(** A result of code that may panic: the error is the panic. *)
Abbreviation may_panic A := (result A string).

Definition Reply : Type := Z * bytes.

(** The demo network as one round sees it: what a connection to a member is, in
    which order the ten requests are answered, and how many of the answers come
    before the window closes. *)
Record Net := mkNet {
  connect : nat → io string (bytes → io string bytes);
  arrival_order : list nat;
  in_time : nat;
}.

Section rounds.
Context {Sg : Type}.

(** The threads: [read] is what the thread of one member makes of its answer. *)
Fixpoint ask_members (read : result Reply string → option Sg) (net : Net) (b : bytes)
    (order : list nat) : io Empty_set (list (nat * option Sg)) :=
  match order with
  | [] => mret []
  | index :: order =>
      io_catch (request (connect net index) MSG_PROPOSAL b) (λ answer,
        rest ← ask_members read net b order;
        mret ((index, read answer) :: rest))
  end.

(** What a thread sends on the channel, if anything. *)
Definition signature_of (x : nat * option Sg) : option (nat * Sg) :=
  (λ signature, (fst x, signature)) <$> snd x.

(** The loop over the channel: contributions are checked and counted until the
    threshold is reached or nothing more arrives. *)
Fixpoint count_valid (check : nat → Sg → may_panic bool) (arrived quorum : list (nat * Sg)) :
    may_panic (list (nat * Sg)) :=
  if (THRESHOLD <=? length quorum)%nat then Ok quorum
  else
    match arrived with
    | [] => Ok quorum
    | (index, signature) :: arrived =>
        let? ok := check index signature in
        if ok then count_valid check arrived (quorum ++ [(index, signature)])
        else count_valid check arrived quorum
    end.

(** ** The loop keeps the first valid contributions, up to the threshold *)

Lemma count_valid_eq check (good : nat * Sg → bool) arrived quorum :
  Forall (λ x, check x.1 x.2 = Ok (good x)) arrived → (length quorum ≤ THRESHOLD)%nat →
  count_valid check arrived quorum =
    Ok (quorum ++ take (THRESHOLD - length quorum) (List.filter good arrived)).
Proof.
  intros Hall. revert quorum. induction Hall as [|[i sig] arrived Hi _ IH]; intros quorum Hq;
    cbn [count_valid].
  - destruct (_ <=? _)%nat; simpl; by rewrite take_nil, app_nil_r.
  - destruct (Nat.leb_spec THRESHOLD (length quorum)) as [Hle|Hlt].
    { replace (THRESHOLD - length quorum)%nat with 0%nat by lia. by rewrite take_0, app_nil_r. }
    simpl in Hi. rewrite Hi. cbn [result_bind List.filter].
    destruct (good (i, sig)); [|by apply IH].
    rewrite IH by (rewrite length_app; simpl; lia). rewrite length_app. simpl length.
    replace (THRESHOLD - length quorum)%nat with (S (THRESHOLD - (length quorum + 1)))%nat by lia.
    by rewrite <-app_assoc.
Qed.

(** What the round keeps of what arrived. *)
Lemma counted_ok (good : nat * Sg → bool) arrived :
  let valid := List.filter good arrived in
  let quorum := take THRESHOLD valid in
  length quorum = Nat.min THRESHOLD (length valid) ∧
  (NoDup (fst <$> arrived) → NoDup (fst <$> quorum)) ∧
  Forall (λ x, good x = true) quorum ∧
  ((length valid < THRESHOLD)%nat → quorum = valid).
Proof.
  intros valid quorum. split_and!.
  - apply length_take.
  - intros Hnd. eapply sublist_NoDup; [exact Hnd|]. apply fmap_sublist. transitivity valid;
      [apply sublist_take|apply list_filter_sublist].
  - apply Forall_take, Forall_forall. intros x Hx%list_elem_of_In. by apply filter_In in Hx as [].
  - intros ?. apply take_ge. lia.
Qed.

Lemma signature_of_keys (l : list (nat * option Sg)) :
  sublist (fst <$> omap signature_of l) (fst <$> l).
Proof.
  induction l as [|[i [sig|]] l IH]; simpl; [constructor|by constructor|by apply sublist_cons].
Qed.

(** ** What the other members may do meanwhile *)

(** Whatever the other members do while they answer, [P] stays. *)
Definition net_keeps (net : Net) (P : world → Prop) : Prop :=
  ∀ index, triple P (connect net index)
    (λ peer w, P w ∧ ∀ frame, triple P (peer frame) (λ _, P) P) P.

Lemma request_keeps conn kind payload (P : world → Prop) :
  triple P conn (λ peer w, P w ∧ ∀ frame, triple P (peer frame) (λ _, P) P) P →
  triple P (request conn kind payload) (λ _, P) P.
Proof.
  intros Hc. eapply triple_bind; [exact Hc|]. intros peer.
  eapply (triple_pre (λ w, (∀ frame, triple P (peer frame) (λ _, P) P) ∧ P w)); [naive_solver|].
  apply triple_pure. intros Hpeer. apply triple_bind_lift; [|done]. intros framed _.
  eapply triple_bind; [apply Hpeer|]. intros stream. apply triple_bind_lift; [|done].
  intros [[k p] rest] _. by apply triple_ret.
Qed.

Lemma ask_members_keeps read net b order (P : world → Prop) :
  net_keeps net P →
  triple P (ask_members read net b order) (λ answers w, fst <$> answers = order ∧ P w) P.
Proof.
  intros Hnet. induction order as [|index order IH]; cbn [ask_members]; [by apply triple_ret|].
  eapply (triple_catch _ _ _ (λ _, P) P); [apply request_keeps, Hnet|done|..];
    intros a; (eapply triple_bind; [exact IH|]); intros rest; apply triple_ret; simpl;
    intros w [<- ?]; done.
Qed.

(** The contributions a round counts are valid and of distinct seats. *)
Lemma counted_from read net b check (good : nat * Sg → bool) (P : world → Prop) :
  net_keeps net P → NoDup (arrival_order net) →
  (∀ i sig, i ∈ arrival_order net → check i sig = Ok (good (i, sig))) →
  triple P (ask_members read net b (arrival_order net))
    (λ answers w, (∃ quorum,
       count_valid check (omap signature_of (take (in_time net) answers)) [] = Ok quorum ∧
       NoDup (fst <$> quorum) ∧ Forall (λ x, good x = true) quorum) ∧ P w) P.
Proof.
  intros Hnet Hnd Hr.
  eapply triple_weaken; [by apply ask_members_keeps|done| |done]. intros answers w [Ha Hw].
  split; [|done]. set (arrived := omap signature_of _).
  assert (Hs : sublist (fst <$> arrived) (arrival_order net)).
  { rewrite <-Ha. etransitivity; [apply signature_of_keys|]. apply fmap_sublist, sublist_take. }
  rewrite (count_valid_eq _ good); [|apply Forall_forall|simpl; lia].
  2:{ intros [i sig] Hx. apply Hr. eapply elem_of_submseteq; [|by apply sublist_submseteq].
      by apply (list_elem_of_fmap_2 fst _ (i, sig)). }
  eexists. split; [done|]. destruct (counted_ok good arrived) as (_ & Hd & Hall & _).
  split; [|done]. apply Hd. by eapply sublist_NoDup.
Qed.
(** ** When the members answer *)

Lemma ask_members_settles read net b order (P : world → Prop) (good : nat → option Sg → Prop) :
  (∀ i, i ∈ order → settles P (request (connect net i) MSG_PROPOSAL b)
                      (λ r w, good i (read r) ∧ P w)) →
  settles P (ask_members read net b order)
    (λ r w, (∃ answers, r = Ok answers ∧ fst <$> answers = order ∧
               Forall (λ x, good x.1 x.2) answers) ∧ P w).
Proof.
  induction order as [|i order IH]; intros H; cbn [ask_members].
  - apply settles_ret. intros w Hw. split; [|done]. by exists [].
  - eapply settles_catch; [apply H; constructor|]. intros r. simpl. apply settles_pure. intros Hr.
    eapply settles_bind; [apply IH; intros j Hj; apply H; by constructor|..].
    + intros rest. simpl. apply settles_pure. intros (answers & [= <-] & Hk & Hg).
      apply settles_ret. intros w Hw. split; [|done]. eexists. split; [done|].
      split; [by rewrite fmap_cons, Hk|by constructor].
    + intros []. 
Qed.

(** Every seat of [honest] whose answer is in time and valid is counted. *)
Lemma honest_counted (good : nat * Sg → bool) honest k (answers : list (nat * option Sg)) :
  NoDup honest → (∀ i, i ∈ honest → i ∈ take k (fst <$> answers)) →
  Forall (λ x, x.1 ∈ honest → ∃ sig, x.2 = Some sig ∧ good (x.1, sig) = true) answers →
  (length honest ≤ length (List.filter good (omap signature_of (take k answers))))%nat.
Proof.
  intros Hnd Hin Hall. rewrite <-(length_fmap fst (List.filter _ _)).
  apply submseteq_length, NoDup_submseteq; [done|]. intros i Hi.
  pose proof (Hin i Hi) as Ha. rewrite <-fmap_take in Ha.
  apply list_elem_of_fmap in Ha as ([j x] & -> & Hx). rewrite Forall_forall in Hall.
  destruct (Hall (j, x)) as (sig & E & Hg); [apply elem_of_take in Hx as (? & ? & _); by eapply list_elem_of_lookup_2|done|]. simpl in E. subst x.
  apply (list_elem_of_fmap_2 fst _ (j, sig)). apply list_elem_of_In, filter_In. split; [|done].
  apply list_elem_of_In, list_elem_of_omap. by exists (j, Some sig).
Qed.
End rounds.

(** ** The update a request asks for *)

Section updates.
Context `{HH : Hashes} `{VV : Volumes}.

(** The credential and list of the update a request asks for. *)
Definition updated (request : StatusRequest) (old : list bytes) (credential : bytes)
    (list : list bytes) : Prop :=
  sr_action request = ACTION_ISSUE ∧ add_valid old credential = (list, true) ∨
  sr_action request = ACTION_REVOKE ∧ credential = sr_data request ∧
    revoke old credential = (list, true).

Lemma updated_wf request old credential list :
  updated request old credential list → wf_entries old → wf_entries list.
Proof.
  intros [[_ E]|(_ & _ & E)] Ho.
  - unfold add_valid in E. destruct (contains _ _); [done|]. injection E as <-.
    apply Forall_app. split; [done|]. apply Forall_singleton, sha3_256_length.
  - unfold revoke in E. injection E as <- _. apply Forall_forall. intros x Hx.
    apply list_elem_of_In, filter_In in Hx as [Hx%list_elem_of_In _].
    unfold wf_entries in Ho. rewrite Forall_forall in Ho. by apply Ho.
Qed.

Lemma updated_length request old credential list :
  updated request old credential list → (length list ≤ S (length old))%nat.
Proof.
  intros [[_ E]|(_ & _ & E)].
  - unfold add_valid in E. destruct (contains _ _); [done|]. injection E as <-.
    rewrite length_app. simpl. lia.
  - unfold revoke in E. injection E as <- _.
    pose proof (proj1 (filter_length (λ e, negb (bool_decide (e = vc_fingerprint credential))) old)).
    lia.
Qed.

(** The update a request asks for, from the list [old] and at [version]: [issuer]
    issues the subject of the request a credential that is not in the list yet,
    which is appended; or the credential in the request, which must be in the
    list, is taken out of it. *)
Definition requested `{Jcs} `{IdSource} (issuer : nat) (request : StatusRequest) (version : Z)
    (old : list bytes) (credential : bytes) (list : list bytes) : Prop :=
  (sr_action request = ACTION_ISSUE ∧
     (∃ k subject, string_from_utf8 (sr_data request) = Ok subject ∧ subject ≠ ""%string ∧
        credential = jcs_to_vec (credential_json (random_id k) subject version issuer)) ∧
     hash_any credential ∉ old ∧ list = old ++ [hash_any credential]) ∨
  (sr_action request = ACTION_REVOKE ∧ credential = sr_data request ∧ credential ≠ [] ∧
     hash_any credential ∈ old ∧ list = filter (.≠ hash_any credential) old).

Lemma requested_wf `{Jcs} `{IdSource} issuer request version old credential list :
  requested issuer request version old credential list → wf_entries old → wf_entries list.
Proof.
  intros [(_ & _ & _ & ->)|(_ & _ & _ & _ & ->)] Ho.
  - apply Forall_app. split; [done|]. apply Forall_singleton, sha3_256_length.
  - apply Forall_forall. intros x [_ Hx]%list_elem_of_filter. unfold wf_entries in Ho.
    rewrite Forall_forall in Ho. by apply Ho.
Qed.

(** ** What a round does to the storage volume *)

(** The volume is well-formed and can only show [Ψ]. *)
Definition volume (Ψ : option (list bytes) → Prop) (w : world) : Prop :=
  wf_world record_path w ∧ entries record_path Ψ w.

Lemma schedule_free_volume Ψ : schedule_free (volume Ψ).
Proof. intros vs w [Hw He]. split; [by apply schedule_free_wf|done]. Qed.

Lemma entropy_free_volume Ψ : entropy_free (volume Ψ).
Proof. intros k w [[] He]. by split; [split|]. Qed.

Lemma volume_mono (Ψ Ψ' : option (list bytes) → Prop) w :
  (∀ o, Ψ o → Ψ' o) → volume Ψ w → volume Ψ' w.
Proof. intros H [? He]. split; [done|]. by eapply entries_mono. Qed.

(** What the volume may show after a publication that [A] allows. *)
Lemma publish_then {X} (m : result path io_error → io Empty_set X) (k : result path io_error → X) Ψ (A : option (list bytes) → Prop)
    (Q : X → world → Prop) b :
  (∀ r w, m r w = (Done (k r), w)) → (∀ o, Ψ o → A o) → A (Some [b]) →
  (∀ w, entries record_path (λ o, o = Some [b]) w → Q (k (Ok record_path)) w) →
  (∀ e w, Q (k (Err e)) w) →
  triple (volume Ψ) (io_catch (publish b) m)
    (λ x w, volume A w ∧ Q x w) (volume A).
Proof.
  intros Hm HA Hb Hok Herr w1 [Hw He]. unfold io_catch.
  pose proof (publish_ok w1 Ψ b Hw He w1 (sched_refl _)) as H.
  assert (Hor : ∀ o, Ψ o ∨ o = Some [b] → A o) by (intros o [?| ->]; auto).
  destruct (publish b w1) as [[r|e|] w]; rewrite ?Hm; simpl.
  - destruct H as (-> & Hw' & He'). split; [|by apply Hok].
    split; [done|]. eapply entries_mono; [|exact He']. by intros o ->.
  - destruct H as [Hw' He']. split; [|apply Herr]. split; [done|]. exact (entries_mono _ _ _ _ Hor He').
  - destruct H as [Hw' He']. split; [done|]. exact (entries_mono _ _ _ _ Hor He').
Qed.
End updates.
