(* ===== verification/Member.v ===== *)
(** * A committee member of the demo network (demo/src/bin/signer.rs)

    One process per member: it answers proposals with a signature or an
    abstention, and, when it may aggregate, runs a whole update round for a
    status request.  Printing, clocks and the threads themselves are not
    modelled; what a thread observes of the others is a parameter (the answers
    of the network, in the order they arrive), and a panic of a handler's thread
    is an error of its own. *)
From S2P Require Import Prelude Fs External Instances Atomic SlotCounter Signer Seats StatusLists.
From S2P Require Import Committees Verifiers Wire Credentials Params Network Storage Rounds.

Open Scope Z_scope.

Section member.
Context `{HH : Hashes} `{XX : Xmss} `{VM : !LeanVm} `{BL : BitListOps}.
Context `{SR : !Ssz RawStatusListWire} `{SS : !Ssz SnarkStatusListWire} `{SC : !Ssz CommitteeWire}.
Context `{SQ : !Ssz StatusRequest} `{SP : !Ssz Proposal} `{SU : !Ssz StatusUpdated}.
Context `{SF : !Ssz Failure} `{SG : !Ssz SignatureReply}.
Context `{VV : Volumes} `{JC : Jcs} `{IS : IdSource} `{OT : OsText}.

(** ** State *)

Record Node := mkNode {
  n_index : nat;
  n_mode : Mode;
  n_committee : Committee;
  n_signer : SignerNode;
  n_can_aggregate : bool;
  (** the prover is set up *)
  n_prover : bool;
  (** a thread panicked while it held the round lock *)
  n_round_poisoned : bool;
  n_rounds_served : nat;
}.

Definition with_signer (s : SignerNode) (n : Node) : Node :=
  mkNode (n_index n) (n_mode n) (n_committee n) s (n_can_aggregate n) (n_prover n)
    (n_round_poisoned n) (n_rounds_served n).
Definition with_rounds (poisoned : bool) (served : nat) (n : Node) : Node :=
  mkNode (n_index n) (n_mode n) (n_committee n) (n_signer n) (n_can_aggregate n) (n_prover n)
    poisoned served.

Definition abstain (reason : string) : bytes :=
  as_ssz_bytes (mkSignatureReply [] (string_bytes reason)).

Definition abstention (reason : string) : Reply := (MSG_SIGNATURE, abstain reason).
Definition refusal (reason : string) : Reply := (MSG_FAILURE, failure_of reason).

(** The version and list of a published record, in the form of the demo. *)
Definition decode_list (m : Mode) (b : bytes) : result (Z * list bytes) string :=
  match m with
  | ModeRaw => let? r := from_bytes b in Ok (sl_version r, sl_status_list r)
  | ModeSnark => let? r := snark_from_bytes b in Ok (sn_version r, sn_status_list r)
  end.

(** The version that follows what is published, and the list it starts from. *)
Definition following (m : Mode) (published : option bytes) : result (Z * list bytes) string :=
  match published with
  | None => Ok (0, [])
  | Some b =>
      match decode_list m b with
      | Ok (version, list) =>
          match checked_add_u32 version 1 with
          | Some next => Ok (next, list)
          | None => Err "the status-list version is exhausted"%string
          end
      | Err e => Err ("published record is unreadable: " +:+ e)%string
      end
  end.

(** ** The member's side of a round *)

Definition on_proposal (n : Node) (payload : bytes) : io Empty_set (Reply * Node) :=
  match from_ssz_bytes (A := Proposal) payload with
  | Err e => mret (refusal ("malformed proposal: " +:+ e), n)
  | Ok proposal =>
      published ← current_record;
      match following (n_mode n) published with
      | Err e => mret (abstention e, n)
      | Ok (expected, _) =>
          if negb (p_version proposal =? expected)
          then mret (abstention ("version " +:+ pretty (p_version proposal) +:+
                                 " is not the next version " +:+ pretty expected), n)
          else
            match slot_for (n_committee n) (p_version proposal) with
            | None => mret (abstention "version has no slot under this anchor", n)
            | Some slot =>
                let message := message_for (n_committee n) WotsXmss (p_list proposal)
                                 (p_version proposal) in
                '(signed, signer) ← sign_at (n_signer n) message slot;
                let n := with_signer signer n in
                match signed with
                | Ok signature =>
                    mret ((MSG_SIGNATURE, as_ssz_bytes (mkSignatureReply [signature] [])), n)
                | Err e => mret (abstention (display_signer_error e), n)
                end
            end
      end
  end.

(** ** The aggregator's side *)

(** What the thread of one member makes of its answer. *)
Definition answer_signature (answer : result Reply string) : option XmssSignature :=
  match answer with
  | Ok (kind, payload) =>
      if kind =? MSG_SIGNATURE then
        match from_ssz_bytes (A := SignatureReply) payload with
        | Ok reply => head (sr_signature reply)
        | Err _ => None
        end
      else None
  | Err _ => None
  end.

(** The check of the loop over the channel, and the loop. *)
Definition check_signature (c : Committee) (message : bytes) (slot : Z) (index : nat)
    (signature : XmssSignature) : may_panic bool :=
  let? pk := ok_or (members c !! index) "index out of bounds"%string in
  Ok (is_ok (verify (mkVerifierNode c) pk signature message slot)).

Definition count_signatures (c : Committee) (message : bytes) (slot : Z)
    (arrived : list (nat * XmssSignature)) : may_panic (list (nat * XmssSignature)) :=
  count_valid (check_signature c message slot) arrived [].

Definition collect_signatures (net : Net) (n : Node) (proposal : Proposal) :
    io Empty_set (may_panic (list (nat * XmssSignature))) :=
  let message := message_for (n_committee n) WotsXmss (p_list proposal) (p_version proposal) in
  match slot_for (n_committee n) (p_version proposal) with
  | None => mret (Err "checked by the caller"%string)
  | Some slot =>
      answers ← ask_members answer_signature net (as_ssz_bytes proposal) (arrival_order net);
      mret (count_signatures (n_committee n) message slot
              (omap signature_of (take (in_time net) answers)))
  end.

(** [members[i].clone()] for each pair of the quorum. *)
Definition seat_keys (ms : list XmssPublicKey) (quorum : list (nat * XmssSignature)) :
    may_panic (list (XmssPublicKey * XmssSignature)) :=
  collect_results (λ '(i, signature),
    let? pk := ok_or (ms !! i) "index out of bounds"%string in Ok (pk, signature)) quorum.

Definition build_record (n : Node) (list : list bytes) (version : Z)
    (quorum : Datatypes.list (nat * XmssSignature)) : may_panic (result bytes string) :=
  match n_mode n with
  | ModeRaw =>
      Ok (let? record := status_list_new WotsXmss list version N_MEMBERS quorum in
          Ok (to_bytes record))
  | ModeSnark =>
      let? raws := seat_keys (members (n_committee n)) quorum in
      if negb (n_prover n)
      then Ok (Err ("member " +:+ pretty (n_index n) +:+ " is not a configured SNARK aggregator")%string)
      else
        let? proof := make_proof (n_committee n) WotsXmss raws list version LOG_INV_RATE in
        Ok (Ok (snark_to_bytes (mkSnarkStatusList WotsXmss list version proof)))
  end.

(** The credential of the request and the list after it; the outer error is the
    failed assertion. *)
Definition apply_request (n : Node) (request : StatusRequest) (version : Z) (list : list bytes) :
    io Empty_set (may_panic (result (bytes * Datatypes.list bytes) string)) :=
  if sr_action request =? ACTION_ISSUE then
    match string_from_utf8 (sr_data request) with
    | Err _ => mret (Ok (Err "credential subject is not UTF-8"%string))
    | Ok subject =>
        if bool_decide (subject = "") then mret (Ok (Err "credential subject is empty"%string))
        else
          credential ← issue subject version (n_index n);
          let '(list, added) := add_valid list credential in
          if added then mret (Ok (Ok (credential, list)))
          else mret (Err "a newly random credential cannot already be in the valid set"%string)
    end
  else if sr_action request =? ACTION_REVOKE then
    if bool_decide (sr_data request = [])
    then mret (Ok (Err "revocation requires the canonical credential bytes"%string))
    else
      let '(list, removed) := revoke list (sr_data request) in
      if removed then mret (Ok (Ok (sr_data request, list)))
      else mret (Ok (Err "credential is not valid in the current snapshot"%string))
  else mret (Ok (Err ("unknown status action " +:+ pretty (sr_action request))%string)).

(** The round proper, under the round lock. *)
Definition run_update (net : Net) (window : Z) (n : Node) (request : StatusRequest) :
    io Empty_set (may_panic (Reply * Node)) :=
  published ← current_record;
  match following (n_mode n) published with
  | Err e => mret (Ok (refusal e, n))
  | Ok (version, list) =>
      applied ← apply_request n request version list;
      match applied with
      | Err panic => mret (Err panic)
      | Ok (Err why) => mret (Ok (refusal why, n))
      | Ok (Ok (credential, list)) =>
          quorum ← collect_signatures net n (mkProposal version list);
          match quorum with
          | Err panic => mret (Err panic)
          | Ok quorum =>
              if (length quorum <? THRESHOLD)%nat
              then mret (Ok (refusal ("only " +:+ pretty (length quorum) +:+ " of " +:+
                pretty THRESHOLD +:+ " signatures arrived within " +:+ pretty window), n))
              else
                match build_record n list version quorum with
                | Err panic => mret (Err panic)
                | Ok (Err e) => mret (Ok (refusal e, n))
                | Ok (Ok record) =>
                    io_catch (publish record) (λ r,
                      match r with
                      | Err e => mret (Ok (refusal ("cannot publish: " +:+ os_text e), n))
                      | Ok _ =>
                          let n := with_rounds (n_round_poisoned n) (S (n_rounds_served n)) n in
                          mret (Ok ((MSG_STATUS_UPDATED,
                                     as_ssz_bytes (mkStatusUpdated version credential)), n))
                      end)
                end
          end
      end
  end.

(** The reply, or the panic of the handler's thread; a panic under the round lock
    poisons it. *)
Definition on_status_request (net : Net) (window : Z) (n : Node) (payload : bytes) :
    io Empty_set (may_panic Reply * Node) :=
  if negb (n_can_aggregate n)
  then mret (Ok (refusal ("member " +:+ pretty (n_index n) +:+ " is signer-only in " +:+
         mode_as_str (n_mode n) +:+ " mode; ask one of [" +:+
         format_indices (aggregator_indices (n_mode n)) +:+ "]")), n)
  else
    match from_ssz_bytes (A := StatusRequest) payload with
    | Err e => mret (Ok (refusal ("malformed request: " +:+ e)), n)
    | Ok request =>
        if n_round_poisoned n then mret (Err "round lock poisoned"%string, n)
        else
          r ← run_update net window n request;
          match r with
          | Ok (reply, n) => mret (Ok reply, n)
          | Err panic => mret (Err panic, with_rounds true (n_rounds_served n) n)
          end
    end.

(** [serve]: one connection.  Nothing is written back when the request cannot be
    read, the handler panics or the reply is too large. *)
Definition serve (net : Net) (window : Z) (n : Node) (stream : bytes) :
    io Empty_set (option bytes * Node) :=
  match recv stream with
  | Err _ => mret (None, n)
  | Ok (kind, payload, _) =>
      '(reply, n) ← (if kind =? MSG_PROPOSAL then
                       '(reply, n) ← on_proposal n payload; mret (Ok reply, n)
                     else if kind =? MSG_STATUS_REQUEST then on_status_request net window n payload
                     else mret (Ok (refusal ("unknown message type " +:+ pretty kind)), n));
      mret (result_ok (let? (kind, reply) := reply in send kind reply), n)
  end.

(** ** What follows a published record *)

(** [version] is the next version after what was read, and [old] the list it
    starts from: version 0 and the empty list after nothing, otherwise one past
    the version of the record and the record's list. *)
Definition succeeds (m : Mode) (published : option bytes) (version : Z) (old : list bytes) : Prop :=
  match published with
  | None => version = 0 ∧ old = []
  | Some b =>
      match m with
      | ModeRaw => ∃ r, from_bytes b = Ok r ∧ version = sl_version r + 1 ∧ old = sl_status_list r
      | ModeSnark => ∃ r, snark_from_bytes b = Ok r ∧ version = sn_version r + 1 ∧
          old = sn_status_list r
      end
  end.

Lemma following_succeeds m published version old :
  following m published = Ok (version, old) → succeeds m published version old.
Proof.
  unfold following, succeeds. destruct published as [b|]; [|by intros [= <- <-]].
  destruct (decode_list m b) as [[v l]|e] eqn:E; [|done]. unfold checked_add_u32.
  destruct (v + 1 <=? u32_max); [|done]. intros [= <- <-].
  destruct m; apply result_bind_Ok in E as (r & Hr & [= <- <-]); by exists r.
Qed.

(** ** A member signs what follows what it read *)

Section proposals.
Context `{LG : !SszLaws SignatureReply any_value}.

Lemma abstention_no_signature reason : answer_signature (Ok (abstention reason)) = None.
Proof.
  unfold answer_signature, abstention, abstain. simpl.
  by rewrite (ssz_from_as (wf := any_value)).
Qed.

Lemma refusal_no_signature reason : answer_signature (Ok (refusal reason)) = None.
Proof. done. Qed.

(** What a handled proposal did: the key is applied to nothing and no signature
    is given; or it is applied to the proposed list and version, which is the one
    after the record read at the start, at the slot of that version. *)
Definition proposal_effect (n : Node) (payload : bytes) (w0 : world) (reply : Reply)
    (n' : Node) (w : world) : Prop :=
  n' = with_signer (n_signer n') n ∧
  ∃ log, signed_step w0 (n_signer n) (n_signer n') log w ∧
    (log = [] ∧ n' = n ∧ answer_signature (Ok reply) = None ∨
     ∃ p old slot,
       from_ssz_bytes (A := Proposal) payload = Ok p ∧
       succeeds (n_mode n) (read_ok record_path w0) (p_version p) old ∧
       slot = genesis_slot (n_committee n) + p_version p ∧ slot ≤ u32_max ∧
       log = [(slot, message_for (n_committee n) WotsXmss (p_list p) (p_version p))] ∧
       next (a_slot_counter (n_signer n')) = slot + 1).

Lemma signed_step_sched w0 w1 s s' log w :
  sched w0 w1 → signed_step w1 s s' log w → signed_step w0 s s' log w.
Proof. intros [vs ->] []. by split. Qed.

Lemma counter_state_sched s w0 w : sched w0 w → counter_state s w0 → counter_state s w.
Proof. intros [vs ->] []. by split. Qed.

Lemma no_effect n payload w0 w reply :
  counter_state (n_signer n) w0 → sched w0 w → answer_signature (Ok reply) = None →
  proposal_effect n payload w0 reply n w.
Proof.
  intros Hc Hw Hr. split; [by destruct n|]. exists []. split; [|by left].
  apply (signed_step_sched w0 w); [done|].
  apply (counter_state_sched _ w0 w Hw) in Hc as []. by apply signed_step_idle.
Qed.

Lemma on_proposal_effect n payload w0 :
  counter_state (n_signer n) w0 →
  triple (eq w0) (on_proposal n payload)
    (λ '(reply, n') w, proposal_effect n payload w0 reply n' w)
    (λ w, signed_step w0 (n_signer n) (n_signer n) [] w).
Proof.
  intros Hc. unfold on_proposal.
  destruct (from_ssz_bytes payload) as [p|e] eqn:Ep;
    [|apply triple_ret; intros w <-; apply no_effect; [done|apply sched_refl|done]].
  assert (Hidle : ∀ w, sched w0 w → signed_step w0 (n_signer n) (n_signer n) [] w).
  { intros w Hw. apply (signed_step_sched w0 w); [done|].
    apply (counter_state_sched _ w0 w Hw) in Hc as []. by apply signed_step_idle. }
  eapply triple_bind; [eapply triple_fail; [apply current_record_ok|done]|].
  intros published. apply triple_pure. intros ->.
  destruct (following (n_mode n) _) as [[expected list]|e] eqn:Ef;
    [|apply triple_ret; intros w Hw; apply no_effect; [done..|apply abstention_no_signature]].
  destruct (Z.eqb_spec (p_version p) expected) as [<-|]; cbn [negb];
    [|apply triple_ret; intros w Hw; apply no_effect; [done..|apply abstention_no_signature]].
  destruct (slot_for _ _) as [slot|] eqn:Es;
    [|apply triple_ret; intros w Hw; apply no_effect; [done..|apply abstention_no_signature]].
  apply following_succeeds in Ef. apply slot_for_Some in Es as [Es Hmax].
  intros w1 Hw1. pose proof (sign_at_step w1 (n_signer n)
    (message_for (n_committee n) WotsXmss (p_list p) (p_version p)) slot (proj1 Hc) w1
    (conj eq_refl (counter_state_sched _ _ _ Hw1 Hc))) as Hstep.
  unfold mbind, io_bind. destruct (sign_at _ _ _ w1) as [[[r s']|[]|] w2];
    [|by eapply signed_step_sched].
  destruct Hstep as (log & Hstep & Hspent). apply (signed_step_sched w0) in Hstep; [|done].
  assert (Heff : ∀ reply, (log = [] → answer_signature (Ok reply) = None) →
    proposal_effect n payload w0 reply (with_signer s' n) w2).
  { intros reply Hr. split; [done|]. exists log. split; [done|].
    destruct r as [sig|[e|m]]; simpl in Hspent; destruct Hspent as [-> Hs'].
    1,3: right; exists p, list, slot; split_and!; done.
    left. subst s'. split_and!; [done|by destruct n|by apply Hr]. }
  destruct r as [sig|e]; simpl; apply Heff.
  - by intros ->; destruct Hspent.
  - intros _. apply abstention_no_signature.
Qed.

(** C12 A member signs only what follows: whatever proposal arrives and whatever
    fails, the member's key is applied at most once: to the list of the proposal,
    under a version that is one past that of the record in storage, at the slot
    that many past the genesis slot, after the slot is durably spent.  The read of
    storage decides: where there is no record, or the read fails, the version is
    0, and then the durable counter alone stands against signing that version
    again.  Every other proposal leaves the signer as it was, and only an applied
    key puts a signature in the reply. *)
Theorem member_signs_next n payload w0 :
  counter_state (n_signer n) w0 →
  triple (eq w0) (on_proposal n payload)
    (λ '(reply, n') w, proposal_effect n payload w0 reply n' w)
    (λ w, signed_step w0 (n_signer n) (n_signer n) [] w).
Proof. apply on_proposal_effect. Qed.
End proposals.

(** ** A round publishes what its quorum signed *)

Definition wf_node (n : Node) : Prop :=
  wf_committee (n_committee n) ∧ length (members (n_committee n)) = N_MEMBERS ∧
  threshold (n_committee n) ≤ Z.of_nat THRESHOLD.

(** The bytes decode to a record of this list and version that the verifier of
    this anchor accepts. *)
Definition authorizes (n : Node) (list : list bytes) (version : Z) (b : bytes) : Prop :=
  match n_mode n with
  | ModeRaw => ∃ r, from_bytes b = Ok r ∧ sl_status_list r = list ∧ sl_version r = version ∧
      verify_status_list (mkVerifierNode (n_committee n)) r = true
  | ModeSnark => ∃ r, snark_from_bytes b = Ok r ∧ sn_status_list r = list ∧ sn_version r = version ∧
      ∀ last, snark_verify (mkSnarkVerifier (n_committee n) last) r = true
  end.

(** A contribution is valid: its seat's key signed the proposal at its slot. *)
Definition contributes (c : Committee) (list : list bytes) (version slot : Z)
    (x : nat * XmssSignature) : bool :=
  signature_ok (members c) (message_for c WotsXmss list version) slot x.

Section rounds.
Context `{BLL : !BitListLaws} `{LR : !SszLaws RawStatusListWire wf_raw_wire}.
Context `{LS : !SszLaws SnarkStatusListWire wf_snark_wire}.

Lemma verify_is_ok c pk i signature m slot :
  members c !! i = Some pk →
  is_ok (verify (mkVerifierNode c) pk signature m slot) = xmss_verify pk m signature slot.
Proof.
  intros Hi. unfold verify. simpl. rewrite bool_decide_eq_true_2 by (by eapply list_elem_of_lookup_2).
  simpl. by destruct (xmss_verify _ _ _ _).
Qed.

Lemma check_signature_good c list version slot i sig :
  (i < length (members c))%nat →
  check_signature c (message_for c WotsXmss list version) slot i sig =
    Ok (contributes c list version slot (i, sig)).
Proof.
  intros [pk Hpk]%lookup_lt_is_Some. unfold check_signature, contributes, signature_ok. simpl.
  rewrite Hpk. cbn [ok_or result_bind]. by rewrite (verify_is_ok c pk i) by done.
Qed.

(** A quorum of valid contributions makes a record the verifier accepts. *)
Lemma build_record_ok n list version slot quorum :
  aggregates → wf_node n → wf_entries list → is_u32 version →
  slot_for (n_committee n) version = Some slot →
  NoDup (fst <$> quorum) → (THRESHOLD ≤ length quorum)%nat →
  Forall (λ x, contributes (n_committee n) list version slot x = true) quorum →
  (n_mode n = ModeSnark → n_prover n = true) →
  ∃ b, build_record n list version quorum = Ok (Ok b) ∧ authorizes n list version b.
Proof.
  intros Hagg (Hc & HN & Ht) He Hv Hslot Hnd Hq Hall Hp. unfold build_record, authorizes.
  destruct (n_mode n).
  - destruct (quorum_verified (n_committee n) WotsXmss list version quorum slot)
      as (r & E & Hver & Ha & <- & <- & Hn); [done..|lia|done|].
    rewrite HN in E. rewrite E. exists (to_bytes r). split; [done|]. exists r. split; [|done].
    by apply (proj1 (raw_codec r [])).
  - destruct (seats_proved (n_committee n) WotsXmss quorum list version slot LOG_INV_RATE)
      as (raws & b & E & Hb & Hv'); [done..|lia|done|].
    unfold seat_keys. rewrite E, (Hp eq_refl). cbn [result_bind negb]. rewrite Hb. cbn [result_bind].
    eexists. split; [done|]. eexists. split; [by apply snark_codec|]. by split_and!.
Qed.

(** C13 A round with a quorum completes: among the signatures that arrive in time,
    in any order, the valid ones are counted and nothing else; as soon as seven
    are valid the round has a record of exactly the proposed list and version
    that the verifier of this anchor accepts, in raw and in SNARK mode; with
    fewer, the round keeps just the valid ones and is abandoned. *)
Theorem round_completes n list version slot arrived :
  aggregates → wf_node n → wf_entries list → is_u32 version →
  slot_for (n_committee n) version = Some slot →
  NoDup (fst <$> arrived) → Forall (λ x, x.1 < N_MEMBERS)%nat arrived →
  (n_mode n = ModeSnark → n_prover n = true) →
  let message := message_for (n_committee n) WotsXmss list version in
  let valid := List.filter (contributes (n_committee n) list version slot) arrived in
  ∃ quorum, count_signatures (n_committee n) message slot arrived = Ok quorum ∧
    length quorum = Nat.min THRESHOLD (length valid) ∧
    ((THRESHOLD ≤ length valid)%nat →
      ∃ b, build_record n list version quorum = Ok (Ok b) ∧ authorizes n list version b) ∧
    ((length valid < THRESHOLD)%nat → quorum = valid).
Proof.
  intros Hagg Hn He Hv Hslot Hnd Hr Hp message valid.
  destruct (counted_ok (contributes (n_committee n) list version slot) arrived)
    as (Hlen & Hd & Hall & Hfew). exists (take THRESHOLD valid). split_and!; [|done| |done].
  - unfold count_signatures, message.
    rewrite (count_valid_eq _ (contributes (n_committee n) list version slot)); [done| |simpl; lia].
    eapply Forall_impl; [exact Hr|]. intros [i sig] Hi. apply check_signature_good.
    by rewrite (proj1 (proj2 Hn)).
  - intros Hvalid. eapply build_record_ok; try done; [by apply Hd|]. fold valid in Hlen. lia.
Qed.

(** ** What a round does to the storage volume *)

(** The contributions a round counts are valid and of distinct seats. *)
Lemma collect_signatures_ok net n proposal (P : world → Prop) :
  net_keeps net P → NoDup (arrival_order net) →
  Forall (λ i, i < length (members (n_committee n)))%nat (arrival_order net) →
  triple P (collect_signatures net n proposal)
    (λ r w, (∀ quorum, r = Ok quorum →
       ∃ slot, slot_for (n_committee n) (p_version proposal) = Some slot ∧
         NoDup (fst <$> quorum) ∧
         Forall (λ x, contributes (n_committee n) (p_list proposal) (p_version proposal) slot x
                        = true) quorum) ∧ P w) P.
Proof.
  intros Hnet Hnd Hr. unfold collect_signatures.
  destruct (slot_for _ _) as [slot|]; [|by apply triple_ret].
  eapply triple_bind.
  - apply (counted_from answer_signature net (as_ssz_bytes proposal)
      (check_signature (n_committee n) (message_for (n_committee n) WotsXmss (p_list proposal)
         (p_version proposal)) slot)
      (contributes (n_committee n) (p_list proposal) (p_version proposal) slot) P Hnet Hnd).
    intros i sig Hi. apply check_signature_good. rewrite Forall_forall in Hr. by apply Hr.
  - intros answers. apply triple_pure. intros (quorum & E & Hd & Hall). apply triple_ret.
    intros w Hw. split; [|done]. unfold count_signatures. rewrite E. intros ? [= <-].
    by exists slot.
Qed.

Lemma apply_request_ok n request version old (P : world → Prop) :
  entropy_free P →
  triple P (apply_request n request version old)
    (λ r w, (∀ credential list, r = Ok (Ok (credential, list)) →
       requested (n_index n) request version old credential list) ∧ P w) P.
Proof.
  intros HP. unfold apply_request, requested.
  destruct (Z.eqb_spec (sr_action request) ACTION_ISSUE) as [Hi|_].
  - destruct (string_from_utf8 _) as [subject|] eqn:Es; [|by apply triple_ret].
    case_bool_decide; [by apply triple_ret|].
    apply (triple_bind _ _ _ _ (λ c w, (∃ k, c = jcs_to_vec
      (credential_json (random_id k) subject version (n_index n))) ∧ P w)).
    + intros w Hw. split; [by eexists|by apply HP].
    + intros credential. apply triple_pure. intros [k Hk].
      destruct (add_valid old credential) as [list []] eqn:E; [|by apply triple_ret].
      apply triple_ret. intros w Hw. split; [|done]. intros ?? [= <- <-].
      apply add_valid_true in E. left. split_and!; [done| |apply E..]. by exists k, subject.
  - destruct (Z.eqb_spec (sr_action request) ACTION_REVOKE); [|by apply triple_ret].
    case_bool_decide; [by apply triple_ret|].
    destruct (revoke old _) as [list []] eqn:E; [|by apply triple_ret].
    apply triple_ret. intros w Hw. split; [|done]. intros ?? [= <- <-].
    apply revoke_true in E as []. right. by split_and!.
Qed.

Lemma decode_list_wf m b version list :
  decode_list m b = Ok (version, list) → is_u32 version ∧ wf_entries list.
Proof.
  destruct m; intros (r & Hr & [= <- <-])%result_bind_Ok.
  - by apply (proj2 (raw_codec r b)) in Hr as (_ & ? & ? & _).
  - by apply (proj1 (proj2 (snark_codec r b))) in Hr as (_ & ? & ?).
Qed.

Lemma following_wf m published version list :
  following m published = Ok (version, list) → is_u32 version ∧ wf_entries list.
Proof.
  destruct published as [b|]; simpl; [|intros [= <- <-]; split; [by vm_compute|constructor]].
  destruct (decode_list m b) as [[v l]|e] eqn:E; [|done]. unfold checked_add_u32.
  destruct (Z.leb_spec (v + 1) u32_max); [|done]. intros [= <- <-].
  apply decode_list_wf in E as [[] ?]. split; [unfold is_u32; lia|done].
Qed.

(** The bytes are a record that the round which started in [w0] may publish: of
    the version after the record read then, of that record's list with the change
    the request asks for, and accepted by the verifier. *)
Definition next_record (n : Node) (request : StatusRequest) (w0 : world) (version : Z)
    (credential b : bytes) : Prop :=
  ∃ old list, succeeds (n_mode n) (read_ok record_path w0) version old ∧
    requested (n_index n) request version old credential list ∧ authorizes n list version b.

(** The volume can show what it could, or such a record. *)
Definition or_next (n : Node) (request : StatusRequest) (w0 : world)
    (Ψ : option (list bytes) → Prop) (o : option (list bytes)) : Prop :=
  Ψ o ∨ ∃ version credential b, next_record n request w0 version credential b ∧ o = Some [b].

(** A reply of success: the volume durably shows such a record, and the reply
    names its version and the credential. *)
Definition published_round (n : Node) (request : StatusRequest) (w0 : world) (reply : Reply)
    (n' : Node) (w : world) : Prop :=
  ∃ version credential b, next_record n request w0 version credential b ∧
    entries record_path (λ o, o = Some [b]) w ∧
    reply = (MSG_STATUS_UPDATED, as_ssz_bytes (mkStatusUpdated version credential)) ∧
    n' = with_rounds (n_round_poisoned n) (S (n_rounds_served n)) n.

Definition round_outcome (n : Node) (request : StatusRequest) (w0 : world)
    (r : may_panic (Reply * Node)) (w : world) : Prop :=
  match r with
  | Ok (reply, n') =>
      published_round n request w0 reply n' w ∨ fst reply = MSG_FAILURE ∧ n' = n
  | Err _ => True
  end.

Lemma build_record_authorizes n list version slot quorum b :
  aggregates → wf_node n → wf_entries list → is_u32 version →
  slot_for (n_committee n) version = Some slot →
  NoDup (fst <$> quorum) → (THRESHOLD ≤ length quorum)%nat →
  Forall (λ x, contributes (n_committee n) list version slot x = true) quorum →
  build_record n list version quorum = Ok (Ok b) → authorizes n list version b.
Proof.
  intros Hagg Hn He Hv Hslot Hnd Hq Hall Hb.
  destruct (build_record_ok n list version slot quorum) as (b' & Hb' & Ha); [done..| |congruence].
  intros Hm. unfold build_record in Hb. rewrite Hm in Hb. destruct (n_prover n); [done|].
  by apply result_bind_Ok in Hb as (? & _ & ?).
Qed.

Lemma publish_round n request w0 Ψ version credential b :
  next_record n request w0 version credential b →
  triple (volume Ψ)
    (io_catch (publish b) (λ r,
       match r with
       | Err e => mret (Ok (refusal ("cannot publish: " +:+ os_text e), n))
       | Ok _ => mret (Ok ((MSG_STATUS_UPDATED, as_ssz_bytes (mkStatusUpdated version credential)),
                           with_rounds (n_round_poisoned n) (S (n_rounds_served n)) n))
       end) : io Empty_set (may_panic (Reply * Node)))
    (λ r w, volume (or_next n request w0 Ψ) w ∧ round_outcome n request w0 r w)
    (volume (or_next n request w0 Ψ)).
Proof.
  intros Hn.
  apply (publish_then _ (λ r, match r with
    | Err e => Ok (refusal ("cannot publish: " +:+ os_text e), n)
    | Ok _ => Ok ((MSG_STATUS_UPDATED, as_ssz_bytes (mkStatusUpdated version credential)),
                  with_rounds (n_round_poisoned n) (S (n_rounds_served n)) n)
    end)).
  - by intros [].
  - intros o Ho. by left.
  - right. by exists version, credential, b.
  - intros w He. left. by exists version, credential, b.
  - intros e w. by right.
Qed.

Lemma run_update_ok net window n request w0 Ψ :
  aggregates → wf_node n → NoDup (arrival_order net) →
  Forall (λ i, i < N_MEMBERS)%nat (arrival_order net) → net_keeps net (volume Ψ) →
  volume Ψ w0 →
  triple (eq w0) (run_update net window n request)
    (λ r w, volume (or_next n request w0 Ψ) w ∧ round_outcome n request w0 r w)
    (volume (or_next n request w0 Ψ)).
Proof.
  intros Hagg Hn Hnd Hr Hnet Hv. pose proof Hn as (Hc & HN & Ht). rewrite <-HN in Hr.
  assert (Hs : ∀ w, sched w0 w → volume Ψ w) by (intros w [vs ->]; by apply schedule_free_volume).
  assert (Hor : ∀ w, volume Ψ w → volume (or_next n request w0 Ψ) w).
  { intros w. apply volume_mono. by left. }
  unfold run_update. eapply triple_bind; [eapply triple_fail; [apply current_record_ok|auto]|].
  intros published. apply triple_pure. intros ->. apply (triple_pre (volume Ψ)); [exact Hs|].
  destruct (following _ _) as [[version old]|e] eqn:Ef;
    [|apply triple_ret; intros w Hw; split; [by apply Hor|by right]].
  pose proof (following_wf _ _ _ _ Ef) as [Hver Hold]. apply following_succeeds in Ef.
  eapply triple_bind; [eapply triple_fail; [apply apply_request_ok, entropy_free_volume|auto]|].
  intros applied. apply triple_pure. intros Hup.
  destruct applied as [[[credential list]|why]|panic];
    [|apply triple_ret; intros w Hw; split; [by apply Hor|first [by right|done]]..].
  specialize (Hup credential list eq_refl). pose proof (requested_wf _ _ _ _ _ _ Hup Hold) as Hlist.
  eapply triple_bind; [eapply triple_fail; [by apply collect_signatures_ok|auto]|].
  intros quorum. apply triple_pure. intros Hq.
  destruct quorum as [quorum|panic]; [|apply triple_ret; intros w Hw; split; [by apply Hor|done]].
  destruct (Hq quorum eq_refl) as (slot & Hslot & Hqd & Hqv). simpl in Hslot, Hqv.
  destruct (Nat.ltb_spec (length quorum) THRESHOLD);
    [apply triple_ret; intros w Hw; split; [by apply Hor|by right]|].
  destruct (build_record n list version quorum) as [[b|e]|panic] eqn:Eb;
    [|apply triple_ret; intros w Hw; split; [by apply Hor|first [by right|done]]..].
  apply publish_round. exists old, list. split_and!; [done..|]. by eapply build_record_authorizes.
Qed.

(** C10 A round publishes exactly the requested change, signed by a quorum.  Take
    the record that the first read of the round returns (none, so version 0 and
    the empty list, where there is no record or the read fails).  Whatever a
    status request asks, whatever the other members answer and whatever fails, the
    storage volume afterwards can only show what it could before, or a record that
    the verifier of this anchor accepts, whose version is one past that record's
    and whose list is its list with the new credential's fingerprint appended or
    the named one removed.  The reply reports an update only when the volume
    durably shows such a record, and names its version and credential; any other
    reply is a refusal that leaves the node as it was, unless the handler's thread
    panicked. *)
Theorem round_publishes_authorized net window n payload w0 Ψ :
  aggregates → wf_node n → NoDup (arrival_order net) →
  Forall (λ i, i < N_MEMBERS)%nat (arrival_order net) → net_keeps net (volume Ψ) →
  volume Ψ w0 →
  let allowed o := Ψ o ∨ ∃ request version credential b, from_ssz_bytes payload = Ok request ∧
    next_record n request w0 version credential b ∧ o = Some [b] in
  triple (eq w0) (on_status_request net window n payload)
    (λ '(r, n') w, volume allowed w ∧
       match r with
       | Ok reply =>
           (∃ request, from_ssz_bytes payload = Ok request ∧
              published_round n request w0 reply n' w) ∨
           fst reply = MSG_FAILURE ∧ n' = n
       | Err _ => n_signer n' = n_signer n ∧ n_round_poisoned n' = true
       end)
    (volume allowed).
Proof.
  intros Hagg Hn Hnd Hr Hnet Hv allowed.
  assert (Hor : ∀ w, w0 = w → volume allowed w).
  { intros w <-. eapply volume_mono; [|exact Hv]. by left. }
  unfold on_status_request.
  destruct (negb (n_can_aggregate n)); [apply triple_ret; intros w Hw; split; [by apply Hor|by right]|].
  destruct (from_ssz_bytes payload) as [request|e] eqn:Ereq;
    [|apply triple_ret; intros w Hw; split; [by apply Hor|by right]].
  assert (Hall : ∀ w, volume (or_next n request w0 Ψ) w → volume allowed w).
  { intros w. apply volume_mono. intros o [Ho|(v & c & b & ? & ?)]; [by left|right].
    by exists request, v, c, b. }
  destruct (n_round_poisoned n) eqn:Hp;
    [apply triple_ret; intros w Hw; split; [by apply Hor|done]|].
  eapply triple_bind; [eapply triple_fail; [by eapply run_update_ok|exact Hall]|].
  intros [[reply n']|panic]; apply triple_ret.
  - intros w [Hw%Hall [H|H]]; (split; [done|]); [left; by exists request|by right].
  - intros w [Hw%Hall _]. done.
Qed.
End rounds.

(** C30 A version without a slot stops an aggregator for good: [collect_signatures]
    expects its caller to have checked that the version has a slot, and the
    caller does not; when the record in storage puts the next version past the
    last slot, the handler panics under the round lock, and from then on every
    status request this node can decode panics on the poisoned lock. *)
Theorem unchecked_slot_poisons net window n payload request published version old credential list
    w0 w1 w2 :
  n_can_aggregate n = true → n_round_poisoned n = false →
  from_ssz_bytes payload = Ok request →
  current_record (E := Empty_set) w0 = (Done published, w1) →
  following (n_mode n) published = Ok (version, old) →
  apply_request n request version old w1 = (Done (Ok (Ok (credential, list))), w2) →
  slot_for (n_committee n) version = None →
  ∃ n', on_status_request net window n payload w0 =
          (Done (Err "checked by the caller"%string, n'), w2) ∧
    ∀ net' window' payload' request' w, from_ssz_bytes (A := StatusRequest) payload' = Ok request' →
      on_status_request net' window' n' payload' w = (Done (Err "round lock poisoned"%string, n'), w).
Proof.
  intros Hagg Hp Hreq Hread Hf Ha Hs. exists (with_rounds true (n_rounds_served n) n). split.
  - unfold on_status_request, run_update. rewrite Hagg, Hreq, Hp. simpl.
    unfold mbind, io_bind. rewrite Hread, Hf, Ha. unfold collect_signatures. simpl. by rewrite Hs.
  - intros net' window' payload' request' w Hreq'. unfold on_status_request. simpl.
    by rewrite Hagg, Hreq'.
Qed.
End member.
