(* ===== verification/MlMember.v ===== *)
(** * An ML-DSA committee member of the demo network (demo/src/bin/mldsa_signer.rs)

    One process per member, as in [Member], but without slots: the signer has no
    state, every proposal is signed, and the record carries the signatures
    themselves.  Printing, clocks and the threads are not modelled; a panic of a
    handler's thread is an error of its own. *)
From S2P Require Import Prelude Fs External Instances Atomic Seats StatusLists MlStatusLists.
From S2P Require Import MlCommittees Wire Credentials Network Storage Rounds.

Open Scope Z_scope.

Section ml_member.
Context `{HH : Hashes} `{ML : MlDsa} `{BL : BitListOps}.
Context `{SM : !Ssz MlStatusListWire} `{SMC : !Ssz MlCommitteeWire} `{SST : !SszEncode StatementWire}.
Context `{SQ : !Ssz StatusRequest} `{SP : !Ssz Proposal} `{SU : !Ssz StatusUpdated}.
Context `{SF : !Ssz Failure} `{SG : !Ssz MlDsaSignatureReply}.
Context `{VV : Volumes} `{JC : Jcs} `{IS : IdSource} `{OT : OsText} `{RG : OsRng}.

(** ** State *)

Record MlNode := mkMlNode {
  mn_index : nat;
  mn_committee : MlCommittee;
  mn_signer : MlDsa65Signer;
  (** a thread panicked while it held the round lock *)
  mn_round_poisoned : bool;
  mn_rounds_served : nat;
}.

Definition ml_with_rounds (poisoned : bool) (served : nat) (n : MlNode) : MlNode :=
  mkMlNode (mn_index n) (mn_committee n) (mn_signer n) poisoned served.

Definition ml_refusal (reason : string) : Reply := (MSG_FAILURE, failure_of reason).

(** The version that follows what is published, and the list it starts from. *)
Definition ml_following (published : option bytes) : result (Z * list bytes) string :=
  match published with
  | Some b =>
      match ml_from_bytes b with
      | Ok record =>
          match checked_add_u32 (ml_version record) 1 with
          | Some version => Ok (version, ml_status_list record)
          | None => Err "status-list version exhausted"%string
          end
      | Err error => Err ("published record is unreadable: " +:+ error)%string
      end
  | None => Ok (0, [])
  end.

(** ** The member's side of a round *)

(** The text of the signer's own error is left out of the failure. *)
Definition ml_on_proposal {E} (n : MlNode) (payload : bytes) : io E Reply :=
  match from_ssz_bytes (A := Proposal) payload with
  | Err error => mret (ml_refusal ("malformed proposal: " +:+ error))
  | Ok proposal =>
      let statement := statement_for (mn_committee n) (p_list proposal) (p_version proposal) in
      request ← draw;
      match ml_sign (mn_signer n) (os_random request) statement with
      | None => mret (ml_refusal "ML-DSA signing failed: ")
      | Some signature =>
          let reply := mkMlDsaSignatureReply [ml_sig_encode signature] [] in
          mret (MSG_SIGNATURE, as_ssz_bytes reply)
      end
  end.

(** ** The aggregator's side *)

(** What the thread of one member makes of its answer. *)
Definition ml_answer_signature (answer : result Reply string) : option MlSignature :=
  match answer with
  | Ok (kind, payload) =>
      if kind =? MSG_SIGNATURE then
        match from_ssz_bytes (A := MlDsaSignatureReply) payload with
        | Ok reply => match mr_signature reply with [raw] => ml_sig_try_from raw | _ => None end
        | Err _ => None
        end
      else None
  | Err _ => None
  end.

(** The check of the loop over the channel; the error is the panic of an index
    outside the committee. *)
Definition ml_check_signature (c : MlCommittee) (statement : bytes) (index : nat)
    (signature : MlSignature) : may_panic bool :=
  let? pk := ok_or (ml_members c !! index) "index out of bounds"%string in
  Ok (ml_verify pk statement signature).

Definition ml_collect_signatures (net : Net) (n : MlNode) (proposal : Proposal) :
    io Empty_set (may_panic (list (nat * MlSignature))) :=
  let bytes := as_ssz_bytes proposal in
  answers ← ask_members ml_answer_signature net bytes (arrival_order net);
  let statement := statement_for (mn_committee n) (p_list proposal) (p_version proposal) in
  mret (count_valid (ml_check_signature (mn_committee n) statement)
          (omap signature_of (take (in_time net) answers)) []).

(** The credential of the request and the list after it. *)
Definition ml_apply_request (n : MlNode) (request : StatusRequest) (version : Z)
    (list : list bytes) : io Empty_set (result (bytes * Datatypes.list bytes) string) :=
  if sr_action request =? ACTION_ISSUE then
    match string_from_utf8 (sr_data request) with
    | Ok subject =>
        if bool_decide (subject = "")
        then mret (Err "credential subject is empty or not UTF-8"%string)
        else
          credential ← issue subject version (mn_index n);
          let '(list, added) := add_valid list credential in
          if negb added then mret (Err "new credential fingerprint already exists"%string)
          else mret (Ok (credential, list))
    | Err _ => mret (Err "credential subject is empty or not UTF-8"%string)
    end
  else if sr_action request =? ACTION_REVOKE then
    if bool_decide (sr_data request = [])
    then mret (Err "credential is absent from the current snapshot"%string)
    else
      let '(list, removed) := revoke list (sr_data request) in
      if negb removed then mret (Err "credential is absent from the current snapshot"%string)
      else mret (Ok (sr_data request, list))
  else mret (Err ("unknown status action " +:+ pretty (sr_action request))%string).

(** The round proper, under the round lock. *)
Definition ml_run_update (net : Net) (n : MlNode) (request : StatusRequest) :
    io Empty_set (may_panic (Reply * MlNode)) :=
  published ← current_record;
  match ml_following published with
  | Err why => mret (Ok (ml_refusal why, n))
  | Ok (version, list) =>
      applied ← ml_apply_request n request version list;
      match applied with
      | Err why => mret (Ok (ml_refusal why, n))
      | Ok (credential, list) =>
          let proposal := mkProposal version list in
          quorum ← ml_collect_signatures net n proposal;
          match quorum with
          | Err panic => mret (Err panic)
          | Ok quorum =>
              if (length quorum <? THRESHOLD)%nat
              then mret (Ok (ml_refusal ("only " +:+ pretty (length quorum) +:+ " of " +:+
                pretty THRESHOLD +:+ " signatures arrived"), n))
              else
                match ml_status_list_new list version N_MEMBERS quorum with
                | Err error => mret (Ok (ml_refusal error, n))
                | Ok record =>
                    io_catch (publish (ml_to_bytes record)) (λ r,
                      match r with
                      | Err error => mret (Ok (ml_refusal ("cannot publish: " +:+ os_text error), n))
                      | Ok _ =>
                          let n := ml_with_rounds (mn_round_poisoned n) (S (mn_rounds_served n)) n in
                          mret (Ok ((MSG_STATUS_UPDATED,
                                     as_ssz_bytes (mkStatusUpdated version credential)), n))
                      end)
                end
          end
      end
  end.

(** The reply, or the panic of the handler's thread; a panic under the round lock
    poisons it. *)
Definition ml_on_status_request (net : Net) (n : MlNode) (payload : bytes) :
    io Empty_set (may_panic Reply * MlNode) :=
  match from_ssz_bytes (A := StatusRequest) payload with
  | Err error => mret (Ok (ml_refusal ("malformed request: " +:+ error)), n)
  | Ok request =>
      if mn_round_poisoned n then mret (Err "round lock poisoned"%string, n)
      else
        r ← ml_run_update net n request;
        match r with
        | Ok (reply, n) => mret (Ok reply, n)
        | Err panic => mret (Err panic, ml_with_rounds true (mn_rounds_served n) n)
        end
  end.

(** [serve]: one connection.  Nothing is written back when the request cannot be
    read, the handler panics or the reply is too large. *)
Definition ml_serve (net : Net) (n : MlNode) (stream : bytes) :
    io Empty_set (option bytes * MlNode) :=
  match recv stream with
  | Err _ => mret (None, n)
  | Ok (kind, payload, _) =>
      '(reply, n) ← (if kind =? MSG_PROPOSAL then
                       reply ← ml_on_proposal n payload; mret (Ok reply, n)
                     else if kind =? MSG_STATUS_REQUEST then ml_on_status_request net n payload
                     else mret (Ok (ml_refusal ("unknown message type " +:+ pretty kind)), n));
      mret (result_ok (let? (kind, reply) := reply in send kind reply), n)
  end.

(** ** A round publishes what its quorum signed *)

Definition wf_ml_node (n : MlNode) : Prop :=
  wf_ml_committee (mn_committee n) ∧ member_count (mn_committee n) = N_MEMBERS ∧
  ml_threshold (mn_committee n) ≤ Z.of_nat THRESHOLD.

(** The bytes decode to a record of this list and version that the verifier of
    this anchor accepts. *)
Definition ml_authorizes (c : MlCommittee) (list : list bytes) (version : Z) (b : bytes) : Prop :=
  ∃ r, ml_from_bytes b = Ok r ∧ ml_status_list r = list ∧ ml_version r = version ∧
    ml_verify_status_list (mkMlVerifier c) r = true.

(** A contribution is valid: its seat's key signed the proposal. *)
Definition ml_contributes (c : MlCommittee) (list : list bytes) (version : Z)
    (x : nat * MlSignature) : bool :=
  ml_signature_ok (ml_members c) (statement_for c list version) x.

Lemma ml_check_good c list version i sig :
  (i < member_count c)%nat →
  ml_check_signature c (statement_for c list version) i sig =
    Ok (ml_contributes c list version (i, sig)).
Proof.
  intros [pk Hpk]%lookup_lt_is_Some. unfold ml_check_signature, ml_contributes, ml_signature_ok.
  simpl. by rewrite Hpk.
Qed.

Lemma ml_apply_ok n request version old (P : world → Prop) :
  entropy_free P →
  triple P (ml_apply_request n request version old)
    (λ r w, (∀ credential list, r = Ok (credential, list) →
       requested (mn_index n) request version old credential list) ∧ P w) P.
Proof.
  intros HP. unfold ml_apply_request, requested.
  destruct (Z.eqb_spec (sr_action request) ACTION_ISSUE) as [Hi|_].
  - destruct (string_from_utf8 _) as [subject|] eqn:Es; [|by apply triple_ret].
    case_bool_decide; [by apply triple_ret|].
    apply (triple_bind _ _ _ _ (λ c w, (∃ k, c = jcs_to_vec
      (credential_json (random_id k) subject version (mn_index n))) ∧ P w)).
    + intros w Hw. split; [by eexists|by apply HP].
    + intros credential. apply triple_pure. intros [k Hk].
      destruct (add_valid old credential) as [list []] eqn:E; [|by apply triple_ret].
      apply triple_ret. intros w Hw. split; [|done]. intros ?? [= <- <-].
      apply add_valid_true in E. left. split_and!; [done| |apply E..]. by exists k, subject.
  - destruct (Z.eqb_spec (sr_action request) ACTION_REVOKE); [|by apply triple_ret].
    case_bool_decide; [by apply triple_ret|].
    destruct (revoke old _) as [list []] eqn:E; [|by apply triple_ret].
    apply triple_ret. intros w Hw. split; [|done]. intros ?? [= <- <-].
    apply revoke_true in E as []. right. by split_and!.
Qed.

(** [version] is the next version after what was read, and [old] the list it
    starts from. *)
Definition ml_succeeds (published : option bytes) (version : Z) (old : list bytes) : Prop :=
  match published with
  | None => version = 0 ∧ old = []
  | Some b => ∃ r, ml_from_bytes b = Ok r ∧ version = ml_version r + 1 ∧ old = ml_status_list r
  end.

Lemma ml_following_succeeds published version old :
  ml_following published = Ok (version, old) → ml_succeeds published version old.
Proof.
  unfold ml_following, ml_succeeds. destruct published as [b|]; [|by intros [= <- <-]].
  destruct (ml_from_bytes b) as [r|e]; [|done]. unfold checked_add_u32.
  destruct (ml_version r + 1 <=? u32_max); [|done]. intros [= <- <-]. by exists r.
Qed.

Section rounds.
Context `{BLL : !BitListLaws} `{LM : !SszLaws MlStatusListWire wf_ml_wire}.
Context (ml_ssz_size : ∀ w : MlStatusListWire, wf_ml_wire w →
  Z.of_nat (length (as_ssz_bytes w)) =
    ml_size (bl_len (mw_signers w)) (length (mw_status_list w)) (length (mw_signatures w))).

Lemma ml_following_wf published version list :
  ml_following published = Ok (version, list) → is_u32 version ∧ wf_entries list.
Proof.
  destruct published as [b|]; simpl; [|intros [= <- <-]; split; [by vm_compute|constructor]].
  destruct (ml_from_bytes b) as [r|e] eqn:E; [|done]. unfold checked_add_u32.
  destruct (Z.leb_spec (ml_version r + 1) u32_max); [|done]. intros [= <- <-].
  apply (ml_from_bytes_ok ml_ssz_size) in E as [[He [Hv _] _ _ _] _].
  split; [unfold is_u32; lia|exact He].
Qed.

(** A quorum of valid contributions makes a record the verifier accepts, if the
    record has room for the list. *)
Lemma ml_record_authorizes n list version quorum r :
  wf_ml_node n → wf_entries list → is_u32 version →
  NoDup (fst <$> quorum) → (THRESHOLD ≤ length quorum)%nat →
  Forall (λ x, ml_contributes (mn_committee n) list version x = true) quorum →
  ml_status_list_new list version N_MEMBERS quorum = Ok r →
  ml_authorizes (mn_committee n) list version (ml_to_bytes r).
Proof.
  intros (Hc & HN & Ht) He Hv Hnd Hq Hall Hr. exists r.
  pose proof (ml_new_ok list version N_MEMBERS quorum) as Hnew. rewrite Hr in Hnew.
  destruct Hnew as ((_ & _ & _ & Hs) & _ & ? & ?). rewrite <-HN in Hr, Hs.
  split_and!; [by eapply (ml_new_from_to ml_ssz_size)|done..|].
  destruct (ml_quorum_verified (mn_committee n) list version quorum) as (r' & Hr' & Hver & _);
    [done..|lia|done|done|congruence].
Qed.

(** The bytes are a record that the round which started in [w0] may publish. *)
Definition ml_next_record (n : MlNode) (request : StatusRequest) (w0 : world) (version : Z)
    (credential b : bytes) : Prop :=
  ∃ old list, ml_succeeds (read_ok record_path w0) version old ∧
    requested (mn_index n) request version old credential list ∧
    ml_authorizes (mn_committee n) list version b.

(** The volume can show what it could, or such a record. *)
Definition ml_or_next (n : MlNode) (request : StatusRequest) (w0 : world)
    (Ψ : option (list bytes) → Prop) (o : option (list bytes)) : Prop :=
  Ψ o ∨ ∃ version credential b, ml_next_record n request w0 version credential b ∧ o = Some [b].

(** A reply of success: the volume durably shows such a record, and the reply
    names its version and the credential. *)
Definition ml_published_round (n : MlNode) (request : StatusRequest) (w0 : world) (reply : Reply)
    (n' : MlNode) (w : world) : Prop :=
  ∃ version credential b, ml_next_record n request w0 version credential b ∧
    entries record_path (λ o, o = Some [b]) w ∧
    reply = (MSG_STATUS_UPDATED, as_ssz_bytes (mkStatusUpdated version credential)) ∧
    n' = ml_with_rounds (mn_round_poisoned n) (S (mn_rounds_served n)) n.

(** A round never panics for a committee of the demo's size. *)
Definition ml_round_outcome (n : MlNode) (request : StatusRequest) (w0 : world)
    (r : may_panic (Reply * MlNode)) (w : world) : Prop :=
  ∃ reply n', r = Ok (reply, n') ∧
    (ml_published_round n request w0 reply n' w ∨ fst reply = MSG_FAILURE ∧ n' = n).

Lemma ml_run_update_ok net n request w0 Ψ :
  wf_ml_node n → NoDup (arrival_order net) →
  Forall (λ i, i < N_MEMBERS)%nat (arrival_order net) → net_keeps net (volume Ψ) →
  volume Ψ w0 →
  triple (eq w0) (ml_run_update net n request)
    (λ r w, volume (ml_or_next n request w0 Ψ) w ∧ ml_round_outcome n request w0 r w)
    (volume (ml_or_next n request w0 Ψ)).
Proof.
  intros Hn Hnd Hr Hnet Hv. pose proof Hn as (Hc & HN & Ht).
  assert (Hs : ∀ w, sched w0 w → volume Ψ w) by (intros w [vs ->]; by apply schedule_free_volume).
  assert (Hor : ∀ w, volume Ψ w → volume (ml_or_next n request w0 Ψ) w).
  { intros w. apply volume_mono. by left. }
  assert (Hrefuse : ∀ why w, volume Ψ w → volume (ml_or_next n request w0 Ψ) w ∧
    ml_round_outcome n request w0 (Ok (ml_refusal why, n)) w).
  { intros why w Hw. split; [by apply Hor|]. eexists _, _. split; [done|]. by right. }
  unfold ml_run_update. eapply triple_bind; [eapply triple_fail; [apply current_record_ok|auto]|].
  intros published. apply triple_pure. intros ->. apply (triple_pre (volume Ψ)); [exact Hs|].
  destruct (ml_following _) as [[version old]|e] eqn:Ef; [|apply triple_ret; apply Hrefuse].
  pose proof (ml_following_wf _ _ _ Ef) as [Hver Hold]. apply ml_following_succeeds in Ef.
  eapply triple_bind; [eapply triple_fail; [apply ml_apply_ok, entropy_free_volume|auto]|].
  intros applied. apply triple_pure. intros Hup.
  destruct applied as [[credential list]|why]; [|apply triple_ret; apply Hrefuse].
  specialize (Hup credential list eq_refl). pose proof (requested_wf _ _ _ _ _ _ Hup Hold) as Hlist.
  unfold ml_collect_signatures. eapply triple_bind.
  { eapply triple_bind.
    - eapply triple_fail; [|apply Hor].
      apply (counted_from ml_answer_signature net (as_ssz_bytes (mkProposal version list))
        (ml_check_signature (mn_committee n) (statement_for (mn_committee n) list version))
        (ml_contributes (mn_committee n) list version) _ Hnet Hnd).
      intros i sig Hi. apply ml_check_good. rewrite HN. rewrite Forall_forall in Hr. by apply Hr.
    - intros answers. apply triple_pure. intros (quorum & E & Hd & Hall). simpl.
      apply (triple_ret _ _ (λ r w, (∃ quorum, r = Ok quorum ∧ NoDup (fst <$> quorum) ∧
        Forall (λ x, ml_contributes (mn_committee n) list version x = true) quorum) ∧ volume Ψ w)).
      intros w Hw. split; [|done]. exists quorum. by split_and!. }
  intros r. apply triple_pure. intros (quorum & -> & Hqd & Hqv).
  destruct (Nat.ltb_spec (length quorum) THRESHOLD); [apply triple_ret; apply Hrefuse|].
  destruct (ml_status_list_new list version N_MEMBERS quorum) as [r|e] eqn:Er;
    [|apply triple_ret; apply Hrefuse].
  assert (Ha : ml_next_record n request w0 version credential (ml_to_bytes r)).
  { exists old, list. split_and!; [done..|]. by eapply ml_record_authorizes. }
  apply (publish_then _ (λ r, match r with
    | Err e => Ok (ml_refusal ("cannot publish: " +:+ os_text e), n)
    | Ok _ => Ok ((MSG_STATUS_UPDATED, as_ssz_bytes (mkStatusUpdated version credential)),
                  ml_with_rounds (mn_round_poisoned n) (S (mn_rounds_served n)) n)
    end)).
  - by intros [].
  - by left.
  - right. by exists version, credential, (ml_to_bytes r).
  - intros w He. eexists _, _. split; [done|]. left.
    by exists version, credential, (ml_to_bytes r).
  - intros e w. eexists _, _. split; [done|]. by right.
Qed.

(** C17 An ML-DSA round publishes exactly the requested change, signed by a quorum,
    and never panics.  Take the record that the first read of the round returns
    (none, so version 0 and the empty list, where there is no record or the read
    fails).  Whatever a status request asks, whatever the other members answer and
    whatever fails, the storage volume afterwards can only show what it could
    before, or a record that the verifier of this anchor accepts, whose version is
    one past that record's and whose list is its list with the new credential's
    fingerprint appended or the named one removed; an update is reported only when
    the volume durably shows such a record, with its version and credential; any
    other reply is a failure that leaves the node as it was; and an unpoisoned
    node stays one. *)
Theorem ml_round_publishes_authorized net n payload w0 Ψ :
  wf_ml_node n → mn_round_poisoned n = false → NoDup (arrival_order net) →
  Forall (λ i, i < N_MEMBERS)%nat (arrival_order net) → net_keeps net (volume Ψ) →
  volume Ψ w0 →
  let allowed o := Ψ o ∨ ∃ request version credential b, from_ssz_bytes payload = Ok request ∧
    ml_next_record n request w0 version credential b ∧ o = Some [b] in
  triple (eq w0) (ml_on_status_request net n payload)
    (λ '(r, n') w, volume allowed w ∧
       mn_round_poisoned n' = false ∧
       ∃ reply, r = Ok reply ∧
         ((∃ request, from_ssz_bytes payload = Ok request ∧
             ml_published_round n request w0 reply n' w) ∨
          fst reply = MSG_FAILURE ∧ n' = n))
    (volume allowed).
Proof.
  intros Hn Hp Hnd Hr Hnet Hv allowed. unfold ml_on_status_request.
  destruct (from_ssz_bytes payload) as [request|e] eqn:Ereq.
  2:{ apply triple_ret. intros w <-. split_and!; [|done|].
      - eapply volume_mono; [|exact Hv]. by left.
      - eexists. split; [done|]. by right. }
  assert (Hall : ∀ w, volume (ml_or_next n request w0 Ψ) w → volume allowed w).
  { intros w. apply volume_mono. intros o [Ho|(v & c & b & ? & ?)]; [by left|right].
    by exists request, v, c, b. }
  rewrite Hp. eapply triple_bind; [eapply triple_fail; [by eapply ml_run_update_ok|exact Hall]|].
  intros r. simpl. intros w [Hw%Hall (reply & n' & -> & H)]. split; [done|]. split.
  - destruct H as [(?&?&?& _ & _ & _ & ->)|[_ ->]]; [|done]. exact Hp.
  - exists reply. split; [done|]. destruct H as [H|H]; [left; by exists request|by right].
Qed.
End rounds.
End ml_member.
