(* ===== verification/Holder.v ===== *)
(** * The relying party of the demo network (demo/src/bin/holder.rs)

    Node A holds no key: it asks a member for an update, fetches the published
    record, lets its node decode, verify and gate it, and only then looks its
    credential up in the signed list.  Printing is not modelled; a connection to
    a member is a parameter. *)
From S2P Require Import Prelude Fs External Instances Atomic Freshness Seats StatusLists Committees.
From S2P Require Import Verifiers Nodes Wire Credentials Network Storage.

Open Scope Z_scope.

Inductive Action := ActionIssue (subject : string) | ActionRevoke | ActionVerify.

Section holder.
Context `{HH : Hashes} `{XX : Xmss} `{VM : !LeanVm} `{BL : BitListOps}.
Context `{SR : !Ssz RawStatusListWire} `{SS : !Ssz SnarkStatusListWire}.
Context `{SQ : !Ssz StatusRequest} `{SU : !Ssz StatusUpdated} `{SF : !Ssz Failure}.
Context `{VV : Volumes} `{OT : OsText}.
Context {G : Type} `{GG : !FreshnessGate G}.

(** ** The node, in one of the two forms *)

Inductive HolderNode :=
| HRaw (node : RawNode (G := G))
| HSnark (node : SnarkNode (G := G)).

Definition holder_mode (n : HolderNode) : Mode :=
  match n with HRaw _ => ModeRaw | HSnark _ => ModeSnark end.

Definition holder_accept (n : HolderNode) (b : bytes) : io Empty_set (Outcome * HolderNode) :=
  match n with
  | HRaw node => '(o, node) ← accept node b; mret (o, HRaw node)
  | HSnark node => '(o, node) ← snark_accept node b; mret (o, HSnark node)
  end.

(** [report]: the list of the record, for the caller. *)
Definition report_list (n : HolderNode) (b : bytes) : list bytes :=
  match n with
  | HRaw _ => match from_bytes b with Ok record => sl_status_list record | Err _ => [] end
  | HSnark _ => match snark_from_bytes b with Ok record => sn_status_list record | Err _ => [] end
  end.

(** ** Credentials on the private volume *)

Definition credential_path : path := join state_dir "credential.bin".

Definition load_credential : io string bytes :=
  io_map_err (λ e, "no issued credential is available to revoke: " +:+ os_text e)%string
    (fs_read credential_path).

Definition load_credential_if_present {E} : io E (option bytes) :=
  io_catch (fs_read credential_path) (λ r, mret (result_ok r)).

(** ** Asking a member *)

Section dialing.
(** A connection to member [i], and the variable TARGET_MEMBER. *)
Context (dial : nat → io string (bytes → io string bytes)) (target_member : option string).

Definition mode_role (m : Mode) : string :=
  match m with ModeRaw => "member" | ModeSnark => "SNARK aggregator" end.

(** The random choice is a draw reduced modulo the number of candidates. *)
Definition choose_target (m : Mode) : io string nat :=
  let candidates := aggregator_indices m in
  match target_member with
  | Some raw =>
      lift (let? target := map_err
              (λ _, "TARGET_MEMBER must be a committee index, got `" +:+ raw +:+ "`")%string
              (parse_unsigned u64_max (str raw)) in
            let target := Z.to_nat target in
            if bool_decide (target ∈ candidates) then Ok target
            else Err ("member " +:+ pretty target +:+ " cannot aggregate in " +:+ mode_as_str m +:+
                      " mode; allowed targets: [" +:+ format_indices candidates +:+ "]")%string)
  | None =>
      n ← draw;
      lift (ok_or (candidates !! (n mod length candidates)%nat) "index out of bounds"%string)
  end.

Definition request_status_update (m : Mode) (action : Z) (data : bytes) : io string StatusUpdated :=
  target ← choose_target m;
  if negb ((action =? ACTION_ISSUE) || (action =? ACTION_REVOKE))
  then throw ("unsupported status action " +:+ pretty action)%string
  else
    let who := (mode_role m +:+ " " +:+ pretty target)%string in
    '(kind, reply) ← io_map_err (λ e, who +:+ " did not answer: " +:+ e)%string
      (request (dial target) MSG_STATUS_REQUEST (as_ssz_bytes (mkStatusRequest action data)));
    if kind =? MSG_STATUS_UPDATED
    then lift (map_err (λ _, "malformed status-update response"%string)
                 (from_ssz_bytes (A := StatusUpdated) reply))
    else throw (who +:+ " failed the round: " +:+ failure_text reply)%string.

(** The update the action needs, and whether the credential must then be present. *)
Definition request_update (n : HolderNode) (action : Action) :
    io string (option StatusUpdated * option bool) :=
  match action with
  | ActionIssue subject =>
      updated ← request_status_update (holder_mode n) ACTION_ISSUE (string_bytes subject);
      mret (Some updated, Some true)
  | ActionRevoke =>
      credential ← load_credential;
      updated ← request_status_update (holder_mode n) ACTION_REVOKE credential;
      mret (Some updated, Some false)
  | ActionVerify => mret (None, None)
  end.

(** ** One round *)

Definition judged (o : Outcome) : option (Z * string) :=
  match o with
  | OAccepted version => Some (version, "high-water now v" +:+ pretty version)
  | OStale version mark => Some (version, "already seen, high-water stays at v" +:+ pretty mark)
  | Refused => None
  end.

(** The credential asked about: the one in the answer, or the saved one. *)
Definition credential_of (updated : option StatusUpdated) : io string (option bytes) :=
  match updated with
  | Some updated => mret (Some (su_credential updated))
  | None => load_credential_if_present
  end.

(** What follows a record the node did not refuse. *)
Definition conclude (list : list bytes) (version : Z) (note : string)
    (updated : option StatusUpdated) (expected : option bool) : io string string :=
  _ ← (match updated with
       | Some u =>
           if su_version u =? version then mret tt
           else throw ("aggregator reported v" +:+ pretty (su_version u) +:+
                       " but storage returned v" +:+ pretty version)%string
       | None => mret tt
       end);
  credential ← credential_of updated;
  let membership := is_valid list <$> credential in
  _ ← (match expected, membership with
       | Some true, Some false =>
           throw ("v" +:+ pretty version +:+ " verified, but the issued credential is absent")%string
       | Some false, Some true =>
           throw ("v" +:+ pretty version +:+
                  " verified, but the revoked credential is still present")%string
       | _, _ => mret tt
       end);
  operation ←
    (match expected, membership with
     | Some true, _ =>
         credential ← lift (ok_or credential "an issuance response carries a credential"%string);
         _ ← io_map_err (λ e, "cannot persist the issued credential: " +:+ os_text e)%string
               (write_atomic credential_path credential);
         mret "credential issued and present: valid"%string
     | Some false, _ => mret "credential removed: revoked"%string
     | None, Some true => mret "saved credential is present: valid"%string
     | None, Some false => mret "saved credential is absent: revoked"%string
     | None, None => mret "no saved credential to query"%string
     end);
  mret ("v" +:+ pretty version +:+ " verified, " +:+ operation +:+ ", " +:+ note)%string.

(** The verdict, and the node afterwards: a round that fails after the gate has
    still moved the mark. *)
Definition run_round (n : HolderNode) (action : Action) :
    io Empty_set (result string string * HolderNode) :=
  io_catch (request_update n action) (λ r,
    match r with
    | Err e => mret (Err e, n)
    | Ok (updated, expected) =>
        published ← current_record;
        match published with
        | None => mret (Err "nothing is published"%string, n)
        | Some b =>
            '(outcome, n) ← holder_accept n b;
            let list := report_list n b in
            match judged outcome with
            | None => mret (Err "the canonical record did not verify, refusing it"%string, n)
            | Some (version, note) =>
                io_catch (conclude list version note updated expected) (λ r, mret (r, n))
            end
        end
    end).

(** ** Serving rounds *)

(** The action a trigger asks for. *)
Definition decode_action (subject : string) (payload : bytes) : result Action string :=
  let? request := map_err (λ e, "malformed status request: " +:+ e)%string
                    (from_ssz_bytes (A := StatusRequest) payload) in
  if sr_action request =? ACTION_VERIFY then Ok ActionVerify
  else if sr_action request =? ACTION_REVOKE then Ok ActionRevoke
  else if sr_action request =? ACTION_ISSUE then
    let? asked := map_err (λ _, "credential subject is not UTF-8"%string)
                    (string_from_utf8 (sr_data request)) in
    Ok (ActionIssue (if bool_decide (asked = "default"%string) then subject else asked))
  else Err ("unknown status action " +:+ pretty (sr_action request))%string.

(** [handle]: what is written back, if anything, and the node afterwards. *)
Definition handle (n : HolderNode) (subject : string) (stream : bytes) :
    io Empty_set (option bytes * HolderNode) :=
  match recv stream with
  | Err _ => mret (None, n)
  | Ok (kind, payload, _) =>
      if negb (kind =? MSG_ROUND_REQUEST)
      then mret (result_ok (send MSG_FAILURE (failure_of "not a round request")), n)
      else
        match decode_action subject payload with
        | Err e => mret (result_ok (send MSG_FAILURE (failure_of e)), n)
        | Ok action =>
            '(verdict, n) ← run_round n action;
            let '(kind, text) := match verdict with
                                 | Ok summary => (MSG_ROUND_RESULT, summary)
                                 | Err reason => (MSG_FAILURE, reason)
                                 end in
            mret (result_ok (send kind (failure_of text)), n)
        end
  end.

(** [serve]: the triggers one after the other. *)
Fixpoint serve_triggers (n : HolderNode) (subject : string) (streams : list bytes) :
    io Empty_set (list (option bytes) * HolderNode) :=
  match streams with
  | [] => mret ([], n)
  | stream :: streams =>
      '(answer, n) ← handle n subject stream;
      '(answers, n) ← serve_triggers n subject streams;
      mret (answer :: answers, n)
  end.
End dialing.

(** [trigger]: the exit code; the error is the panic of a node that is not there. *)
Definition trigger (dial_holder : io string (bytes → io string bytes)) (kind subject : string) :
    io string Z :=
  let asked :=
    if bool_decide (kind = "round"%string) then Some (ACTION_ISSUE, string_bytes subject)
    else if bool_decide (kind = "revoke"%string) then Some (ACTION_REVOKE, [])
    else if bool_decide (kind = "verify"%string) then Some (ACTION_VERIFY, [])
    else None in
  match asked with
  | None => mret 2
  | Some (action, data) =>
      '(kind, _) ← io_map_err
        (λ e, "node A is not resident: start the network first: " +:+ e)%string
        (request dial_holder MSG_ROUND_REQUEST (as_ssz_bytes (mkStatusRequest action data)));
      mret (if kind =? MSG_ROUND_RESULT then 0 else 1)
  end.

(** ** What a verdict of the relying party means *)

Definition holder_mark (n : HolderNode) : option Z :=
  match n with HRaw node => high_water node | HSnark node => snark_high_water node end.

(** The version and list of bytes that decode and verify under the node's anchor. *)
Definition verified_list (n : HolderNode) (b : bytes) : option (Z * list bytes) :=
  match n with
  | HRaw node =>
      record ← result_ok (from_bytes b);
      if verify_status_list (rn_verifier node) record
      then Some (sl_version record, sl_status_list record) else None
  | HSnark node =>
      record ← result_ok (snark_from_bytes b);
      if snark_verify (sn_verifier node) record
      then Some (sn_version record, sn_status_list record) else None
  end.

(** What a verdict on version [v] did to the mark. *)
Definition mark_verdict (o : Outcome) (v : Z) (m m' : option Z) : Prop :=
  match o with
  | OAccepted version => version = v ∧ m' = Some v ∧ ∀ k, m = Some k → k < v
  | OStale version k => version = v ∧ m' = m ∧ m = Some k ∧ v ≤ k
  | Refused => m' = m
  end.

Lemma gate_verdict_mark o v g g' :
  gate_verdict o v g g' → mark_verdict o v (gate_current g) (gate_current g').
Proof. destruct o; simpl; naive_solver. Qed.

Lemma holder_accept_cases n b w :
  match holder_accept n b w with
  | (Done (o, n'), w') =>
      match verified_list n b with
      | Some (v, list) => report_list n' b = list ∧ mark_verdict o v (holder_mark n) (holder_mark n')
      | None => o = Refused ∧ n' = n ∧ w' = w
      end
  | (Failed _, _) => False
  | (Halted, _) => True
  end.
Proof.
  destruct n as [node|node]; simpl; unfold mbind, io_bind.
  - pose proof (accept_cases node b w) as H. destruct (accept node b w) as [[[o n']|e|] w']; [|done..].
    destruct H as [_ H]. simpl. destruct (from_bytes b) as [r|e]; simpl; [|naive_solver].
    destruct (verify_status_list _ r); [|naive_solver]. split; [done|]. by apply gate_verdict_mark.
  - pose proof (snark_accept_cases node b w) as H.
    destruct (snark_accept node b w) as [[[o n']|e|] w']; [|done..].
    destruct H as [_ H]. simpl. destruct (snark_from_bytes b) as [r|e]; simpl; [|naive_solver].
    destruct (snark_verify _ r); [|naive_solver]. split; [done|]. by apply gate_verdict_mark.
Qed.

Definition summary_of (version : Z) (operation note : string) : string :=
  ("v" +:+ pretty version +:+ " verified, " +:+ operation +:+ ", " +:+ note)%string.

(** *** What a round asked and was told *)

(** A member that may be asked, [target], carried out the exchange from [w] to
    [w'], and its answer decodes to [u]; choosing it may have drawn a number. *)
Definition replied (dial : nat → io string (bytes → io string bytes)) (candidates : list nat)
    (action : Z) (data : bytes) (w : world) (u : StatusUpdated) (w' : world) : Prop :=
  ∃ target k raw, target ∈ candidates ∧
    request (dial target) MSG_STATUS_REQUEST (as_ssz_bytes (mkStatusRequest action data))
      (with_entropy k w) = (Done (MSG_STATUS_UPDATED, raw), w') ∧
    from_ssz_bytes raw = Ok u.

(** The whole exchange of an action: an issuance asks for its subject, a revocation
    for the bytes of the credential file, a verification asks nothing. *)
Definition exchanged (dial : nat → io string (bytes → io string bytes)) (candidates : list nat)
    (action : Action) (w : world) (reply : option StatusUpdated) (w' : world) : Prop :=
  match action with
  | ActionIssue subject => ∃ u, reply = Some u ∧
      replied dial candidates ACTION_ISSUE (string_bytes subject) w u w'
  | ActionRevoke => ∃ u c w1, reply = Some u ∧ read_ok credential_path w = Some c ∧ sched w w1 ∧
      replied dial candidates ACTION_REVOKE c w1 u w'
  | ActionVerify => reply = None ∧ w' = w
  end.

(** What the note says of the mark, before and after: it moved up to the version,
    or it stays, at or above it. *)
Definition noted (seen : string) (o : Outcome) (version : Z) (note : string) (m m' : option Z) :
    Prop :=
  (o = OAccepted version ∧ note = ("high-water now v" +:+ pretty version)%string ∧
     m' = Some version ∧ ∀ k, m = Some k → k < version) ∨
  (∃ k, o = OStale version k ∧ note = (seen +:+ pretty k)%string ∧
     m' = m ∧ m = Some k ∧ version ≤ k).

(** What a summary says: of an issuance, that the credential of the reply is in the
    list and durably saved; of a revocation, that the credential of the reply is
    not in the list; of a verification, whether the saved credential is, as read in
    [w]. *)
Definition answered (action : Action) (reply : option StatusUpdated) (list : list bytes)
    (version : Z) (note summary : string) (w w' : world) : Prop :=
  match action with
  | ActionIssue _ => ∃ u, reply = Some u ∧ su_version u = version ∧
      hash_any (su_credential u) ∈ list ∧
      entries credential_path (λ o, o = Some [su_credential u]) w' ∧
      summary = summary_of version "credential issued and present: valid" note
  | ActionRevoke => ∃ u, reply = Some u ∧ su_version u = version ∧
      hash_any (su_credential u) ∉ list ∧
      summary = summary_of version "credential removed: revoked" note
  | ActionVerify => summary = summary_of version
      (match read_ok credential_path w with
       | Some c => if bool_decide (hash_any c ∈ list) then "saved credential is present: valid"
                   else "saved credential is absent: revoked"
       | None => "no saved credential to query"
       end) note
  end.

(** The shape of the request that an action makes. *)
Definition planned (action : Action) (reply : option StatusUpdated) (expected : option bool) :
    Prop :=
  match action with
  | ActionIssue _ => is_Some reply ∧ expected = Some true
  | ActionRevoke => is_Some reply ∧ expected = Some false
  | ActionVerify => reply = None ∧ expected = None
  end.

Lemma is_valid_in list c : is_valid list c = bool_decide (hash_any c ∈ list).
Proof.
  unfold is_valid, vc_fingerprint. rewrite contains_spec. unfold valid_set.
  apply bool_decide_ext, elem_of_list_to_set.
Qed.

Lemma mark_verdict_noted seen o version note m m' :
  mark_verdict o version m m' →
  match o with
  | OAccepted v => v = version ∧ note = ("high-water now v" +:+ pretty version)%string
  | OStale v k => v = version ∧ note = (seen +:+ pretty k)%string
  | Refused => False
  end → noted seen o version note m m'.
Proof.
  destruct o; simpl; [intros (-> & ? & ?) [_ ->]; by left|intros (-> & ? & ? & ?) [_ ->]|done].
  right. by eexists.
Qed.

(** A failed round left the mark, or moved it up to the record's version. *)
Lemma mark_verdict_moved o version m m' :
  mark_verdict o version m m' →
  m' = m ∨ m' = Some version ∧ ∀ k, m = Some k → k < version.
Proof. destruct o; simpl; naive_solver. Qed.

Lemma load_credential_present w :
  match load_credential_if_present (E := string) w with
  | (Done saved, _) => saved = read_ok credential_path w
  | (Failed _, _) => False
  | (Halted, _) => True
  end.
Proof.
  unfold load_credential_if_present, io_catch. pose proof (fs_read_ok credential_path w) as H.
  destruct (fs_read _ w) as [[b|e|] w']; simpl; [|..|done]; by destruct H as [_ ->].
Qed.

(** A random choice, or the configured one. *)
Lemma choose_target_in var m w target w' :
  choose_target var m w = (Done target, w') →
  target ∈ aggregator_indices m ∧ ∃ k, w' = with_entropy k w.
Proof.
  unfold choose_target. destruct var as [raw|].
  - unfold lift. destruct (map_err _ _) as [target'|]; simpl; [|done].
    case_bool_decide as Hin; [|done]. intros [= <- <-]. split; [done|].
    exists (w_entropy w). by destruct w.
  - unfold mbind, io_bind, draw, lift. destruct (_ !! _) as [target'|] eqn:E; simpl; [|done].
    intros [= <- <-]. split; [by eapply list_elem_of_lookup_2|by eexists].
Qed.

Lemma request_status_update_replied dial var m action data w u w' :
  request_status_update dial var m action data w = (Done u, w') →
  replied dial (aggregator_indices m) action data w u w'.
Proof.
  unfold request_status_update. unfold mbind at 1, io_bind at 1.
  destruct (choose_target var m w) as [[target|e|] w1] eqn:Et; [|done..].
  apply choose_target_in in Et as [Hin [k ->]]. destruct (negb _); [done|].
  unfold mbind, io_bind, io_map_err.
  destruct (request _ _ _ _) as [[[kind raw]|e|] w2] eqn:Er; [|done..].
  destruct (Z.eqb_spec kind MSG_STATUS_UPDATED) as [->|]; [|done]. unfold lift.
  destruct (from_ssz_bytes raw) as [u'|] eqn:Eu; simpl; [|done]. intros [= <- <-].
  by exists target, k, raw.
Qed.

Lemma request_update_exchanged dial var n action w reply expected w' :
  request_update dial var n action w = (Done (reply, expected), w') →
  planned action reply expected ∧
  exchanged dial (aggregator_indices (holder_mode n)) action w reply w'.
Proof.
  destruct action; cbn [request_update]; unfold mbind, io_bind.
  - destruct (request_status_update _ _ _ _ _ w) as [[u|e|] w1] eqn:E; try done.
    intros [= <- <- <-]. apply request_status_update_replied in E.
    split; [by split; [eexists|]|by exists u].
  - unfold load_credential, io_map_err. pose proof (fs_read_ok credential_path w) as H.
    destruct (fs_read credential_path w) as [[c|e|] w1]; try done. destruct H as [Hs Hc].
    destruct (request_status_update _ _ _ _ _ w1) as [[u|e|] w2] eqn:E; try done.
    intros [= <- <- <-]. apply request_status_update_replied in E.
    split; [by split; [eexists|]|by exists u, c, w1].
  - by intros [= <- <- <-].
Qed.

Lemma conclude_answered action list version note reply expected w summary w' :
  planned action reply expected →
  conclude list version note reply expected w = (Done summary, w') →
  answered action reply list version note summary w w'.
Proof.
  intros Hp H. unfold conclude, mbind, io_bind in H.
  destruct action as [subject| |]; destruct Hp as [Hu ->]; [destruct Hu as [u ->]..|subst reply].
  - simpl in H. destruct (Z.eqb_spec (su_version u) version) as [Hv|]; [|done]. simpl in H.
    rewrite is_valid_in in H. case_bool_decide as Hin; [|done]. simpl in H.
    unfold io_map_err in H. destruct (write_atomic _ _ w) as [[[]|e|] w1] eqn:Ew; try done.
    injection H as <- <-. exists u. split_and!; [done..|by eapply write_atomic_durable|done].
  - simpl in H. destruct (Z.eqb_spec (su_version u) version) as [Hv|]; [|done]. simpl in H.
    rewrite is_valid_in in H. case_bool_decide as Hin; [done|]. injection H as <- _. by exists u.
  - simpl in H. pose proof (load_credential_present w) as Hc.
    destruct (load_credential_if_present w) as [[saved|e|] w1]; try done. simpl. rewrite <-Hc.
    destruct saved as [c|]; simpl in H; [rewrite is_valid_in in H; case_bool_decide|];
      by injection H as <- _.
Qed.

(** C11 What node A reports, a quorum signed, about the credential in question.  A
    round that reports success made the exchange its action calls for, with a
    member that may be asked; the bytes in storage after it decode to a record
    which the anchor's verifier accepts; an update's announced version is the
    record's; and what the summary says holds of the record's list: an issued
    credential is the one in the reply, it is in the list and durably saved; a
    revoked one is the one in the reply, and is not in the list; a verified one is
    the one in the credential file.  The record need not be new: either the mark
    moved up to its version and the note says so, or the mark stays where it was,
    at or above that version, and the note says it was seen before.  A round that
    fails leaves the mark alone or moved it up to the version of such a record. *)
Theorem run_round_sound dial var n action w :
  let candidates := aggregator_indices (holder_mode n) in
  match run_round dial var n action w with
  | (Done (Ok summary, n'), w') =>
      ∃ reply w1 b version list w2 o w3 note,
        exchanged dial candidates action w reply w1 ∧
        read_ok record_path w1 = Some b ∧ verified_list n b = Some (version, list) ∧
        sched w1 w2 ∧ holder_accept n b w2 = (Done (o, n'), w3) ∧
        noted "already seen, high-water stays at v" o version note (holder_mark n) (holder_mark n') ∧
        answered action reply list version note summary w3 w'
  | (Done (Err _, n'), _) =>
      holder_mark n' = holder_mark n ∨
      ∃ reply w1 b version list,
        exchanged dial candidates action w reply w1 ∧
        read_ok record_path w1 = Some b ∧ verified_list n b = Some (version, list) ∧
        holder_mark n' = Some version ∧ ∀ k, holder_mark n = Some k → k < version
  | (Failed _, _) => False
  | (Halted, _) => True
  end.
Proof.
  intros candidates. unfold run_round, io_catch.
  destruct (request_update dial var n action w) as [[[reply expected]|e|] w1] eqn:Ep;
    [|by left|done].
  apply request_update_exchanged in Ep as [Ep Hex]. unfold mbind, io_bind.
  pose proof (current_record_ok (E := Empty_set) w1 w1 eq_refl) as Hread.
  destruct (current_record w1) as [[[b|]|e|] w2]; [|by left|done|done]. destruct Hread as [Hb Hs].
  pose proof (holder_accept_cases n b w2) as Ha.
  destruct (holder_accept n b w2) as [[[o n']|e|] w3] eqn:Eacc; [|done..].
  destruct (verified_list n b) as [[version list]|] eqn:Ev.
  2:{ destruct Ha as (-> & -> & _). by left. }
  destruct Ha as [-> Ha].
  assert (Hmoved : holder_mark n' = holder_mark n ∨ ∃ reply w1 b version list,
    exchanged dial candidates action w reply w1 ∧ read_ok record_path w1 = Some b ∧
    verified_list n b = Some (version, list) ∧
    holder_mark n' = Some version ∧ ∀ k, holder_mark n = Some k → k < version).
  { destruct (mark_verdict_moved _ _ _ _ Ha) as [?|[? ?]]; [by left|right].
    by exists reply, w1, b, version, list. }
  destruct (judged o) as [[v note]|] eqn:Ej; [|exact Hmoved].
  assert (Hnote : v = version ∧ noted "already seen, high-water stays at v" o version note
    (holder_mark n) (holder_mark n')).
  { destruct o; simpl in Ej; [| |done]; injection Ej as <- <-; pose proof Ha as [E _]; subst;
      (split; [done|]); by apply mark_verdict_noted. }
  destruct Hnote as [-> Hnote].
  destruct (conclude list version note reply expected w3) as [[summary|e|] w4] eqn:Ec; simpl;
    [|exact Hmoved|done].
  exists reply, w1, b, version, list, w2, o, w3, note. split_and!; [done..|].
  by eapply conclude_answered.
Qed.

(** C31 Two ways a success misleads.  A record older than the mark is not refused:
    when storage is rolled back, [verify] still answers from the old list that
    the saved credential is valid.  And after a revocation the presence of the
    credential the aggregator returned is checked, not of the one that was to be
    revoked, so an aggregator that returns another credential makes node A
    report a revocation while its own credential is still listed. *)
Theorem holder_gaps dial var n b list c u mark w0 w1 w2 w3 w4 o note :
  verified_list n b = Some (su_version u, list) →
  is_valid list c = true →
  (current_record (E := Empty_set) w0 = (Done (Some b), w1) →
   holder_accept n b w1 = (Done (OStale (su_version u) mark, n), w2) →
   load_credential_if_present (E := string) w2 = (Done (Some c), w3) →
   su_version u < mark →
   run_round dial var n ActionVerify w0 =
     (Done (Ok (summary_of (su_version u) "saved credential is present: valid"
                  ("already seen, high-water stays at v" +:+ pretty mark)), n), w3)) ∧
  (load_credential w0 = (Done c, w1) →
   request_status_update dial var (holder_mode n) ACTION_REVOKE c w1 = (Done u, w2) →
   is_valid list (su_credential u) = false →
   current_record (E := Empty_set) w2 = (Done (Some b), w3) →
   holder_accept n b w3 = (Done (o, n), w4) → judged o = Some (su_version u, note) →
   run_round dial var n ActionRevoke w0 =
     (Done (Ok (summary_of (su_version u) "credential removed: revoked" note), n), w4)).
Proof.
  intros Hv Hc. assert (Hl : ∀ w o' n' w', holder_accept n b w = (Done (o', n'), w') →
    report_list n' b = list).
  { intros w o' n' w' E. pose proof (holder_accept_cases n b w) as H. rewrite E, Hv in H.
    by destruct H. }
  split.
  - intros Hr Ha Hs _. unfold run_round, io_catch, mbind, io_bind. simpl. rewrite Hr, Ha.
    rewrite (Hl _ _ _ _ Ha). cbn [judged]. unfold conclude, mbind, io_bind. simpl. rewrite Hs.
    simpl. by rewrite Hc.
  - intros Hs Hreq Hn Hr Ha Hj. unfold run_round, io_catch, mbind, io_bind. simpl.
    unfold mbind, io_bind. rewrite Hs, Hreq. simpl. rewrite Hr, Ha, (Hl _ _ _ _ Ha), Hj.
    unfold conclude, mbind, io_bind. simpl. rewrite Z.eqb_refl. simpl. by rewrite Hn.
Qed.
End holder.
