(* ===== verification/MlHolder.v ===== *)
(** * The ML-DSA relying party of the demo network (demo/src/bin/mldsa_holder.rs)

    The same round as [Holder] over ML-DSA records: the node is a verifier and a
    mark, and any member may be asked.  The action, the credential file and the
    meaning of a summary are shared with [Holder]. *)
From S2P Require Import Prelude Fs External Instances Atomic Freshness Seats StatusLists MlStatusLists.
From S2P Require Import Committees Verifiers MlCommittees Nodes Wire Credentials Network Storage Holder.

Open Scope Z_scope.

Section ml_holder.
Context `{HH : Hashes} `{ML : MlDsa} `{BL : BitListOps}.
Context `{SM : !Ssz MlStatusListWire} `{SST : !SszEncode StatementWire}.
Context `{SQ : !Ssz StatusRequest} `{SU : !Ssz StatusUpdated} `{SF : !Ssz Failure}.
Context `{VV : Volumes} `{OT : OsText}.
Context {G : Type} `{GG : !FreshnessGate G}.

(** ** The node *)

Record MlHolder := mkMlHolder { mh_verifier : MlRawVerifier; mh_mark : G }.

(** The arms of the match on [try_advance] are those of [Outcome::advance]. *)
Definition ml_accept (n : MlHolder) (b : bytes) : io Empty_set (Outcome * MlHolder) :=
  match ml_from_bytes b with
  | Err _ => mret (Refused, n)
  | Ok record =>
      if negb (ml_verify_status_list (mh_verifier n) record) then mret (Refused, n)
      else
        '(outcome, mark) ← advance (mh_mark n) (ml_version record);
        mret (outcome, mkMlHolder (mh_verifier n) mark)
  end.

(** [report]: the list of the record, for the caller. *)
Definition ml_report (b : bytes) : list bytes :=
  match ml_from_bytes b with Ok record => ml_status_list record | Err _ => [] end.

Definition ml_load_credential : io string bytes :=
  io_map_err (λ e, "no issued credential is available: " +:+ os_text e)%string
    (fs_read credential_path).

(** ** Asking a member *)

Section dialing.
(** A connection to member [i], and the variable TARGET_MEMBER. *)
Context (dial : nat → io string (bytes → io string bytes)) (target_member : option string).

(** The random choice is a draw reduced modulo the number of candidates. *)
Definition ml_choose_target : io string nat :=
  let candidates := ALL_MEMBER_INDICES in
  match target_member with
  | Some value =>
      lift (let? target := map_err (λ _, "invalid TARGET_MEMBER " +:+ value)%string
              (parse_unsigned u64_max (str value)) in
            let target := Z.to_nat target in
            if negb (bool_decide (target ∈ candidates))
            then Err ("member " +:+ pretty target +:+ " is outside the committee")%string
            else Ok target)
  | None =>
      n ← draw;
      lift (ok_or (candidates !! (n mod length candidates)%nat) "index out of bounds"%string)
  end.

Definition ml_request_status_update (action : Z) (data : bytes) : io string StatusUpdated :=
  target ← ml_choose_target;
  let who := ("aggregator " +:+ pretty target)%string in
  let payload := as_ssz_bytes (mkStatusRequest action data) in
  '(kind, reply) ← io_map_err (λ e, who +:+ " did not answer: " +:+ e)%string
    (request (dial target) MSG_STATUS_REQUEST payload);
  if negb (kind =? MSG_STATUS_UPDATED)
  then throw (who +:+ " failed: " +:+ failure_text reply)%string
  else lift (map_err (λ e, "malformed update response: " +:+ e)%string
               (from_ssz_bytes (A := StatusUpdated) reply)).

(** The update the action needs, and whether the credential must then be present. *)
Definition ml_request_update (action : Action) : io string (option StatusUpdated * option bool) :=
  match action with
  | ActionIssue subject =>
      updated ← ml_request_status_update ACTION_ISSUE (string_bytes subject);
      mret (Some updated, Some true)
  | ActionRevoke =>
      credential ← ml_load_credential;
      updated ← ml_request_status_update ACTION_REVOKE credential;
      mret (Some updated, Some false)
  | ActionVerify => mret (None, None)
  end.

(** ** One round *)

Definition ml_judged (o : Outcome) : option (Z * string) :=
  match o with
  | OAccepted version => Some (version, "high-water now v" +:+ pretty version)
  | OStale version mark => Some (version, "already seen, high-water remains v" +:+ pretty mark)
  | Refused => None
  end.

(** What follows a record the node did not refuse. *)
Definition ml_conclude (list : list bytes) (version : Z) (note : string)
    (updated : option StatusUpdated) (expected : option bool) : io string string :=
  if (match updated with Some value => negb (su_version value =? version) | None => false end)
  then throw "aggregator version differs from stored record"%string
  else
    credential ← credential_of updated;
    let membership := is_valid list <$> credential in
    if (match expected, membership with
        | Some expected, Some actual => negb (Bool.eqb expected actual)
        | _, _ => false
        end)
    then throw "authenticated snapshot has the wrong credential state"%string
    else
      operation ←
        (match expected, membership with
         | Some true, _ =>
             credential ← lift (ok_or credential "issuance returns a credential"%string);
             _ ← io_map_err (λ e, "cannot save credential: " +:+ os_text e)%string
                   (write_atomic credential_path credential);
             mret "credential issued and present: valid"%string
         | Some false, _ => mret "credential removed: revoked"%string
         | None, Some true => mret "saved credential is present: valid"%string
         | None, Some false => mret "saved credential is absent: revoked"%string
         | None, None => mret "no saved credential to query"%string
         end);
      mret ("v" +:+ pretty version +:+ " verified, " +:+ operation +:+ ", " +:+ note)%string.

(** The verdict, and the node afterwards. *)
Definition ml_run_round (n : MlHolder) (action : Action) :
    io Empty_set (result string string * MlHolder) :=
  io_catch (ml_request_update action) (λ r,
    match r with
    | Err e => mret (Err e, n)
    | Ok (updated, expected) =>
        published ← current_record;
        match published with
        | None => mret (Err "nothing is published"%string, n)
        | Some b =>
            '(outcome, n) ← ml_accept n b;
            let list := ml_report b in
            match ml_judged outcome with
            | None => mret (Err "record failed ML-DSA quorum verification; freshness unchanged"%string, n)
            | Some (version, note) =>
                io_catch (ml_conclude list version note updated expected) (λ r, mret (r, n))
            end
        end
    end).

(** ** Serving rounds *)

(** The action a trigger asks for. *)
Definition ml_decode_action (subject : string) (payload : bytes) : result Action string :=
  let? request := map_err (λ e, "malformed request: " +:+ e)%string
                    (from_ssz_bytes (A := StatusRequest) payload) in
  if sr_action request =? ACTION_VERIFY then Ok ActionVerify
  else if sr_action request =? ACTION_REVOKE then Ok ActionRevoke
  else if sr_action request =? ACTION_ISSUE then
    let? value := map_err (λ _, "credential subject is not UTF-8"%string)
                    (string_from_utf8 (sr_data request)) in
    Ok (ActionIssue (if bool_decide (value = "default"%string) then subject else value))
  else Err ("unknown status action " +:+ pretty (sr_action request))%string.

(** [handle]: what is written back, if anything, and the node afterwards. *)
Definition ml_handle (n : MlHolder) (subject : string) (stream : bytes) :
    io Empty_set (option bytes * MlHolder) :=
  match recv stream with
  | Err _ => mret (None, n)
  | Ok (kind, payload, _) =>
      if negb (kind =? MSG_ROUND_REQUEST)
      then mret (result_ok (send MSG_FAILURE (failure_of "not a round request")), n)
      else
        match ml_decode_action subject payload with
        | Err e => mret (result_ok (send MSG_FAILURE (failure_of e)), n)
        | Ok action =>
            '(verdict, n) ← ml_run_round n action;
            let '(kind, text) := match verdict with
                                 | Ok text => (MSG_ROUND_RESULT, text)
                                 | Err text => (MSG_FAILURE, text)
                                 end in
            mret (result_ok (send kind (failure_of text)), n)
        end
  end.

(** [serve]: the triggers one after the other. *)
Fixpoint ml_serve_triggers (n : MlHolder) (subject : string) (streams : list bytes) :
    io Empty_set (list (option bytes) * MlHolder) :=
  match streams with
  | [] => mret ([], n)
  | stream :: streams =>
      '(answer, n) ← ml_handle n subject stream;
      '(answers, n) ← ml_serve_triggers n subject streams;
      mret (answer :: answers, n)
  end.
End dialing.

(** [trigger]: the exit code; the error is the panic of a node that is not there. *)
Definition ml_trigger (dial_holder : io string (bytes → io string bytes)) (kind subject : string) :
    io string Z :=
  let asked :=
    if bool_decide (kind = "round"%string) then Some (ACTION_ISSUE, string_bytes subject)
    else if bool_decide (kind = "revoke"%string) then Some (ACTION_REVOKE, [])
    else if bool_decide (kind = "verify"%string) then Some (ACTION_VERIFY, [])
    else None in
  match asked with
  | None => mret 2
  | Some (action, data) =>
      let payload := as_ssz_bytes (mkStatusRequest action data) in
      '(kind, _) ← io_map_err (λ e, "node A is not resident: " +:+ e)%string
        (request dial_holder MSG_ROUND_REQUEST payload);
      mret (if negb (kind =? MSG_ROUND_RESULT) then 1 else 0)
  end.

(** ** What a verdict means *)

Definition ml_holder_mark (n : MlHolder) : option Z := gate_current (mh_mark n).

(** The version and list of bytes that decode and verify under the node's anchor. *)
Definition ml_verified_list (n : MlHolder) (b : bytes) : option (Z * list bytes) :=
  record ← result_ok (ml_from_bytes b);
  if ml_verify_status_list (mh_verifier n) record
  then Some (ml_version record, ml_status_list record) else None.

Lemma ml_accept_cases n b w :
  match ml_accept n b w with
  | (Done (o, n'), w') => mh_verifier n' = mh_verifier n ∧
      match ml_verified_list n b with
      | Some (v, list) => ml_report b = list ∧ mark_verdict o v (ml_holder_mark n) (ml_holder_mark n')
      | None => o = Refused ∧ n' = n ∧ w' = w
      end
  | (Failed _, _) => False
  | (Halted, _) => True
  end.
Proof.
  unfold ml_accept, ml_verified_list, ml_report. destruct (ml_from_bytes b) as [r|e]; [|done]. simpl.
  destruct (ml_verify_status_list _ r); [|done]. simpl. unfold mbind, io_bind.
  pose proof (advance_verdict (mh_mark n) (ml_version r) w) as H.
  destruct (advance _ _ w) as [[[o g]|e|] w']; [|done..]. destruct H as [H _]. simpl.
  split_and!; [done..|]. by apply gate_verdict_mark.
Qed.

Lemma ml_choose_target_in var w target w' :
  ml_choose_target var w = (Done target, w') →
  target ∈ ALL_MEMBER_INDICES ∧ ∃ k, w' = with_entropy k w.
Proof.
  unfold ml_choose_target. destruct var as [raw|].
  - unfold lift. destruct (map_err _ _) as [target'|]; simpl; [|done].
    case_bool_decide as Hin; simpl; [|done]. intros [= <- <-]. split; [done|].
    exists (w_entropy w). by destruct w.
  - unfold mbind, io_bind, draw, lift. destruct (_ !! _) as [target'|] eqn:E; simpl; [|done].
    intros [= <- <-]. split; [by eapply list_elem_of_lookup_2|by eexists].
Qed.

Lemma ml_request_status_update_replied dial var action data w u w' :
  ml_request_status_update dial var action data w = (Done u, w') →
  replied dial ALL_MEMBER_INDICES action data w u w'.
Proof.
  unfold ml_request_status_update. unfold mbind at 1, io_bind at 1.
  destruct (ml_choose_target var w) as [[target|e|] w1] eqn:Et; [|done..].
  apply ml_choose_target_in in Et as [Hin [k ->]]. unfold mbind, io_bind, io_map_err.
  destruct (request _ _ _ _) as [[[kind raw]|e|] w2] eqn:Er; [|done..].
  destruct (Z.eqb_spec kind MSG_STATUS_UPDATED) as [->|]; [|done]. simpl. unfold lift.
  destruct (from_ssz_bytes raw) as [u'|] eqn:Eu; simpl; [|done]. intros [= <- <-].
  by exists target, k, raw.
Qed.

Lemma ml_request_update_exchanged dial var action w reply expected w' :
  ml_request_update dial var action w = (Done (reply, expected), w') →
  planned action reply expected ∧ exchanged dial ALL_MEMBER_INDICES action w reply w'.
Proof.
  destruct action; cbn [ml_request_update]; unfold mbind, io_bind.
  - destruct (ml_request_status_update _ _ _ _ w) as [[u|e|] w1] eqn:E; try done.
    intros [= <- <- <-]. apply ml_request_status_update_replied in E.
    split; [by split; [eexists|]|by exists u].
  - unfold ml_load_credential, io_map_err. pose proof (fs_read_ok credential_path w) as H.
    destruct (fs_read credential_path w) as [[c|e|] w1]; try done. destruct H as [Hs Hc].
    destruct (ml_request_status_update _ _ _ _ w1) as [[u|e|] w2] eqn:E; try done.
    intros [= <- <- <-]. apply ml_request_status_update_replied in E.
    split; [by split; [eexists|]|by exists u, c, w1].
  - by intros [= <- <- <-].
Qed.

Lemma ml_conclude_answered action list version note reply expected w summary w' :
  planned action reply expected →
  ml_conclude list version note reply expected w = (Done summary, w') →
  answered action reply list version note summary w w'.
Proof.
  intros Hp H. unfold ml_conclude, mbind, io_bind in H.
  destruct action as [subject| |]; destruct Hp as [Hu ->]; [destruct Hu as [u ->]..|subst reply].
  - simpl in H. destruct (Z.eqb_spec (su_version u) version) as [Hv|]; [|done]. simpl in H.
    rewrite is_valid_in in H. case_bool_decide as Hin; [|done]. simpl in H.
    unfold io_map_err in H. destruct (write_atomic _ _ w) as [[[]|e|] w1] eqn:Ew; try done.
    injection H as <- <-. exists u. split_and!; [done..|by eapply write_atomic_durable|done].
  - simpl in H. destruct (Z.eqb_spec (su_version u) version) as [Hv|]; [|done]. simpl in H.
    rewrite is_valid_in in H. case_bool_decide as Hin; [done|]. injection H as <- _. by exists u.
  - simpl in H. pose proof (load_credential_present w) as Hc.
    destruct (load_credential_if_present w) as [[saved|e|] w1]; try done. simpl. rewrite <-Hc.
    destruct saved as [c|]; simpl in H; [rewrite is_valid_in in H; case_bool_decide|];
      by injection H as <- _.
Qed.

(** C18 What the ML-DSA relying party reports, a quorum signed, about the credential
    in question.  A round that reports success made the exchange its action calls
    for, with a member; the bytes in storage after it decode to a record which the
    anchor's predicate accepts; an update's announced version is the record's; and
    what the summary says holds of the record's list: an issued credential is the
    one in the reply, it is in the list and durably saved; a revoked one is the
    one in the reply, and is not in the list; a verified one is the one in the
    credential file.  The record need not be new: either the mark moved up to its
    version and the note says so, or the mark stays where it was, at or above that
    version, and the note says it was seen before.  A round that fails leaves the
    mark alone or moved it up to the version of such a record; and the anchor the
    node verifies under never changes. *)
Theorem ml_run_round_sound dial var n action w :
  match ml_run_round dial var n action w with
  | (Done (verdict, n'), w') =>
      mh_verifier n' = mh_verifier n ∧
      match verdict with
      | Ok summary =>
          ∃ reply w1 b version list w2 o w3 note,
            exchanged dial ALL_MEMBER_INDICES action w reply w1 ∧
            read_ok record_path w1 = Some b ∧ ml_verified_list n b = Some (version, list) ∧
            sched w1 w2 ∧ ml_accept n b w2 = (Done (o, n'), w3) ∧
            noted "already seen, high-water remains v" o version note
              (ml_holder_mark n) (ml_holder_mark n') ∧
            answered action reply list version note summary w3 w'
      | Err _ =>
          ml_holder_mark n' = ml_holder_mark n ∨
          ∃ reply w1 b version list,
            exchanged dial ALL_MEMBER_INDICES action w reply w1 ∧
            read_ok record_path w1 = Some b ∧ ml_verified_list n b = Some (version, list) ∧
            ml_holder_mark n' = Some version ∧ ∀ k, ml_holder_mark n = Some k → k < version
      end
  | (Failed _, _) => False
  | (Halted, _) => True
  end.
Proof.
  unfold ml_run_round, io_catch.
  destruct (ml_request_update dial var action w) as [[[reply expected]|e|] w1] eqn:Ep;
    [|split; [done|by left]|done].
  apply ml_request_update_exchanged in Ep as [Ep Hex]. unfold mbind, io_bind.
  pose proof (current_record_ok (E := Empty_set) w1 w1 eq_refl) as Hread.
  destruct (current_record w1) as [[[b|]|e|] w2]; [|split; [done|by left]|done|done].
  destruct Hread as [Hb Hs]. pose proof (ml_accept_cases n b w2) as Ha.
  destruct (ml_accept n b w2) as [[[o n']|e|] w3] eqn:Eacc; [|done..]. destruct Ha as [Hver Ha].
  destruct (ml_verified_list n b) as [[version list]|] eqn:Ev.
  2:{ destruct Ha as (-> & -> & _). split; [done|by left]. }
  destruct Ha as [-> Ha].
  assert (Hmoved : ml_holder_mark n' = ml_holder_mark n ∨ ∃ reply w1 b version list,
    exchanged dial ALL_MEMBER_INDICES action w reply w1 ∧ read_ok record_path w1 = Some b ∧
    ml_verified_list n b = Some (version, list) ∧
    ml_holder_mark n' = Some version ∧ ∀ k, ml_holder_mark n = Some k → k < version).
  { destruct (mark_verdict_moved _ _ _ _ Ha) as [?|[? ?]]; [by left|right].
    by exists reply, w1, b, version, list. }
  destruct (ml_judged o) as [[v note]|] eqn:Ej; [|by split].
  assert (Hnote : v = version ∧ noted "already seen, high-water remains v" o version note
    (ml_holder_mark n) (ml_holder_mark n')).
  { destruct o; simpl in Ej; [| |done]; injection Ej as <- <-; pose proof Ha as [E _]; subst;
      (split; [done|]); by apply mark_verdict_noted. }
  destruct Hnote as [-> Hnote].
  destruct (ml_conclude list version note reply expected w3) as [[summary|e|] w4] eqn:Ec; simpl;
    [|by split|done].
  split; [done|]. exists reply, w1, b, version, list, w2, o, w3, note. split_and!; [done..|].
  by eapply ml_conclude_answered.
Qed.
End ml_holder.
