(* ===== verification/MlRuns.v ===== *)
(** * The ML-DSA demo network when its processes answer

    [MlMember] and [MlHolder] say what a round and a verdict can mean at most; here
    the processes are connected to each other, and the theorems say that the
    network then does its work: a request to any member, with seven honest members
    answering in time whatever the others do, ends in a published record, and an
    issuance asked by node A ends with the new version accepted and the credential
    found in the list. *)
From S2P Require Import Prelude Fs External Instances Atomic Freshness Seats StatusLists MlStatusLists.
From S2P Require Import Committees Verifiers MlCommittees Nodes Wire Credentials Network Storage.
From S2P Require Import Rounds MlMember Holder MlHolder.

Open Scope Z_scope.

Section runs.
Context `{HH : Hashes} `{ML : MlDsa} `{BL : BitListOps}.
Context `{SM : !Ssz MlStatusListWire} `{SMC : !Ssz MlCommitteeWire} `{SST : !SszEncode StatementWire}.
Context `{SQ : !Ssz StatusRequest} `{SP : !Ssz Proposal} `{SU : !Ssz StatusUpdated}.
Context `{SF : !Ssz Failure} `{SG : !Ssz MlDsaSignatureReply}.
Context `{VV : Volumes} `{JC : Jcs} `{IS : IdSource} `{OT : OsText} `{RG : OsRng}.

(** ** Connections *)

(** A connection to a process that runs [ml_serve]. *)
Definition ml_connection (net : Net) (n : MlNode) : io string (bytes → io string bytes) :=
  mret (λ frame, io_catch (ml_serve net n frame) (λ r,
    match r with
    | Ok (Some reply, _) => mret reply
    | _ => throw "connection closed"%string
    end)).

(** What the theorems rely on: the system's generator answers and signatures
    verify under their key; the layouts of the messages. *)
Context `{BLL : !BitListLaws} `{LM : !SszLaws MlStatusListWire wf_ml_wire}.
Context `{LP : !SszLaws Proposal wf_proposal} `{LQ : !SszLaws StatusRequest wf_status_request}.
Context `{LU : !SszLaws StatusUpdated wf_status_updated}.
Context (ml_ssz_size : ∀ w : MlStatusListWire, wf_ml_wire w →
  Z.of_nat (length (as_ssz_bytes w)) =
    ml_size (bl_len (mw_signers w)) (length (mw_status_list w)) (length (mw_signatures w))).
Context (signs : ∀ k s m, ∃ sig,
  ml_sign s (os_random k) m = Some sig ∧ ml_verify (ml_public_key s) m sig = true).
Context (reply_round_trip : ∀ sig,
  let reply := mkMlDsaSignatureReply [ml_sig_encode sig] [] in
  from_ssz_bytes (as_ssz_bytes reply) = Ok reply ∧
  Z.of_nat (length (as_ssz_bytes reply)) ≤ MAX_FRAME).
Context (proposal_size : ∀ p, wf_proposal p →
  Z.of_nat (length (as_ssz_bytes p)) = 8 + 32 * Z.of_nat (length (p_list p))).
Context (request_size : ∀ r, wf_status_request r →
  Z.of_nat (length (as_ssz_bytes r)) = 5 + Z.of_nat (length (sr_data r))).
Context (updated_size : ∀ u, wf_status_updated u →
  Z.of_nat (length (as_ssz_bytes u)) = 8 + Z.of_nat (length (su_credential u))).

(** A member that holds the key of seat [i] of [c]. *)
Definition seated_at (c : MlCommittee) (i : nat) (n : MlNode) : Prop :=
  mn_committee n = c ∧ ml_members c !! i = Some (ml_public_key (mn_signer n)).

(** ** A member's answer *)

Lemma ml_serve_proposal net n p (P : world → Prop) frame w :
  entropy_free P → wf_proposal p →
  recv frame = Ok (MSG_PROPOSAL, as_ssz_bytes p, []) → P w →
  ∃ sig reply w', ml_serve net n frame w = (Done (Some reply, n), w') ∧ P w' ∧
    recv reply = Ok (MSG_SIGNATURE, as_ssz_bytes (mkMlDsaSignatureReply [ml_sig_encode sig] []), []) ∧
    ml_verify (ml_public_key (mn_signer n))
      (statement_for (mn_committee n) (p_list p) (p_version p)) sig = true.
Proof.
  intros HP Hp Hf Hw. unfold ml_serve. rewrite Hf. cbn [Z.eqb MSG_PROPOSAL].
  unfold ml_on_proposal. rewrite (ssz_from_as (wf := wf_proposal)) by done.
  unfold mbind, io_bind. cbn.
  destruct (signs (w_entropy w) (mn_signer n)
    (statement_for (mn_committee n) (p_list p) (p_version p))) as (sig & -> & Hv).
  destruct (reply_round_trip sig) as [_ Hfit].
  destruct (send_recv MSG_SIGNATURE (as_ssz_bytes (mkMlDsaSignatureReply [ml_sig_encode sig] [])))
    as (reply & Hs & Hr); [done|exact Hfit|].
  exists sig, reply. eexists. cbn. rewrite Hs. split; [done|]. split_and!; [by apply HP|done..].
Qed.

Lemma ml_member_answers net n p (P : world → Prop) :
  entropy_free P → wf_proposal p → Z.of_nat (length (as_ssz_bytes p)) ≤ MAX_FRAME →
  settles P (request (ml_connection net n) MSG_PROPOSAL (as_ssz_bytes p))
    (λ r w, (∃ sig, ml_answer_signature r = Some sig ∧
               ml_verify (ml_public_key (mn_signer n))
                 (statement_for (mn_committee n) (p_list p) (p_version p)) sig = true) ∧ P w).
Proof.
  intros HP Hp Hfit w Hw. unfold request, ml_connection.
  destruct (send_recv MSG_PROPOSAL (as_ssz_bytes p)) as (frame & Hs & Hr); [done..|].
  rewrite Hs. unfold mbind, io_bind, lift, mret, io_ret, io_catch. cbn.
  destruct (ml_serve_proposal net n p P frame w HP Hp Hr Hw) as (sig & reply & w' & -> & Hw' & Hr' & Hv).
  rewrite Hr'. cbn. split; [|done]. exists sig. split; [|done].
  rewrite (proj1 (reply_round_trip sig)). simpl. by rewrite ml_sig_try_from_encode.
Qed.

(** Whatever it is asked to sign, a member answers or closes the connection. *)
Lemma ml_on_proposal_keeps n b (P : world → Prop) w :
  entropy_free P → P w → ∃ r w', ml_on_proposal (E := Empty_set) n b w = (Done r, w') ∧ P w'.
Proof.
  intros HP Hw. unfold ml_on_proposal. destruct (from_ssz_bytes b) as [p|e]; [|by eexists _, w].
  unfold mbind, io_bind. cbn. destruct (ml_sign _ _ _); eexists _, _; (split; [done|by apply HP]).
Qed.

Lemma ml_peer_settles net n b (P : world → Prop) :
  entropy_free P → settles P (request (ml_connection net n) MSG_PROPOSAL b) (λ _, P).
Proof.
  intros HP w Hw. unfold request, ml_connection. unfold mbind at 1, io_bind at 1. cbn [mret io_ret].
  destruct (decide (Z.of_nat (length b) ≤ MAX_FRAME)) as [Hb|Hb].
  2:{ unfold send. rewrite (proj2 (Z.ltb_lt _ _)) by lia. done. }
  destruct (send_recv MSG_PROPOSAL b) as (frame & -> & Hr); [done..|].
  destruct (ml_on_proposal_keeps n b P w HP Hw) as (r & w' & E & Hw').
  unfold mbind, io_bind, lift, io_catch, ml_serve. rewrite Hr. cbn. unfold mbind, io_bind. rewrite E. cbn.
  destruct r as [kind reply]. destruct (send kind reply) as [answer|]; cbn; [|done].
  destruct (recv answer) as [[[k payload] rest]|]; cbn; done.
Qed.

(** ** A round with seven honest members *)

(** A reply that carries the credential is within the frame ceiling. *)
Definition fits_reply (credential : bytes) : Prop :=
  8 + Z.of_nat (length credential) ≤ MAX_FRAME.

(** The request can be carried out on the list [old]: a credential to issue is
    new whatever identifier is drawn, a credential to revoke is listed. *)
Definition applicable (n : MlNode) (request : StatusRequest) (version : Z) (old : list bytes) : Prop :=
  (∃ subject, sr_action request = ACTION_ISSUE ∧
     string_from_utf8 (sr_data request) = Ok subject ∧ subject ≠ ""%string ∧
     ∀ k, let credential :=
            jcs_to_vec (credential_json (random_id k) subject version (mn_index n)) in
          is_valid old credential = false ∧ fits_reply credential) ∨
  (sr_action request = ACTION_REVOKE ∧ sr_data request ≠ [] ∧
     is_valid old (sr_data request) = true ∧ fits_reply (sr_data request)).

Lemma ml_apply_settles n request version old (P : world → Prop) :
  entropy_free P → applicable n request version old →
  settles P (ml_apply_request n request version old)
    (λ r w, (∃ credential list, r = Ok (Ok (credential, list)) ∧
               updated request old credential list ∧ fits_reply credential) ∧ P w).
Proof.
  intros HP [(subject & Ha & Hs & Hne & Hnew)|(Ha & Hd & Hl & Hfit)]; unfold ml_apply_request, updated;
    rewrite Ha; cbn [Z.eqb ACTION_ISSUE ACTION_REVOKE Pos.eqb].
  - rewrite Hs, bool_decide_eq_false_2 by done. intros w Hw. unfold issue, mbind, io_bind. cbn.
    destruct (Hnew (w_entropy w)) as [Hnew' Hfit]. clear Hnew. rename Hnew' into Hnew.
    unfold add_valid. unfold is_valid in Hnew. rewrite Hnew. cbn.
    split; [|by apply HP]. eexists _, _. split_and!; [done| |done]. left. by rewrite Hnew.
  - rewrite bool_decide_eq_false_2 by done. intros w Hw.
    pose proof (revoke_changed old (sr_data request)) as Hr.
    unfold is_valid in Hl. rewrite contains_spec in Hl. rewrite Hl in Hr.
    destruct (revoke old (sr_data request)) as [list b] eqn:E. simpl in Hr. subst b. cbn.
    split; [|done]. eexists _, _. split_and!; [done| |done]. right. by split_and!.
Qed.

(** The seats in [honest] answer from processes that hold their keys, in time; the
    other connections may answer anything or fail, but do return. *)
Record seven_honest (net : Net) (c : MlCommittee) (honest : list nat) (P : world → Prop) : Prop := {
  sh_enough : (THRESHOLD ≤ length honest)%nat;
  sh_distinct : NoDup honest;
  sh_in_time : ∀ i, i ∈ honest → i ∈ take (in_time net) (arrival_order net);
  sh_connected : ∀ i, i ∈ honest →
    ∃ net' n, connect net i = ml_connection net' n ∧ seated_at c i n;
  sh_others : ∀ i b, i ∈ arrival_order net → i ∉ honest →
    settles P (request (connect net i) MSG_PROPOSAL b) (λ _, P);
}.

Lemma ml_collect_settles net n p honest (P : world → Prop) :
  entropy_free P → wf_proposal p → Z.of_nat (length (as_ssz_bytes p)) ≤ MAX_FRAME →
  NoDup (arrival_order net) →
  Forall (λ i, i < member_count (mn_committee n))%nat (arrival_order net) →
  seven_honest net (mn_committee n) honest P →
  settles P (ml_collect_signatures net n p)
    (λ r w, (∃ quorum, r = Ok (Ok quorum) ∧ length quorum = THRESHOLD ∧ NoDup (fst <$> quorum) ∧
       Forall (λ x, ml_contributes (mn_committee n) (p_list p) (p_version p) x = true) quorum) ∧ P w).
Proof.
  intros HP Hp Hfit Hnd Hr Hs. set (good := ml_contributes (mn_committee n) (p_list p) (p_version p)).
  unfold ml_collect_signatures. eapply settles_bind; [|intros answers|intros []].
  - apply (ask_members_settles ml_answer_signature net _ _ P (λ i x, i ∈ honest →
      ∃ sig, x = Some sig ∧ good (i, sig) = true)). intros i Hi.
    destruct (decide (i ∈ honest)) as [Hh|Hh].
    + destruct (sh_connected _ _ _ _ Hs i Hh) as (net' & m & -> & Hc & Hk).
      eapply settles_weaken; [by apply ml_member_answers|done|].
      intros r w [(sig & -> & Hv) Hw]. split; [|done]. intros _. exists sig. split; [done|].
      unfold good, ml_contributes, ml_signature_ok. simpl. by rewrite Hk, <-Hc.
    + eapply settles_weaken; [by apply (sh_others _ _ _ _ Hs)|done|]. by intros r w Hw.
  - simpl. apply settles_pure. intros (answers' & [= <-] & Hk & Hall). apply settles_ret.
    intros w Hw. split; [|done]. set (arrived := omap signature_of _).
    assert (Hsub : sublist (fst <$> arrived) (arrival_order net)).
    { rewrite <-Hk. etransitivity; [apply signature_of_keys|]. apply fmap_sublist, sublist_take. }
    destruct (counted_ok good arrived) as (Hlen & Hd & Hg & _).
    rewrite (count_valid_eq _ good); [|apply Forall_forall|simpl; lia].
    2:{ intros [i sig] Hx. apply ml_check_good. rewrite Forall_forall in Hr. apply Hr.
        eapply elem_of_submseteq; [|by apply sublist_submseteq].
        by apply (list_elem_of_fmap_2 fst _ (i, sig)). }
    eexists. split; [done|]. split_and!; [|apply Hd; by eapply sublist_NoDup|done].
    rewrite app_nil_l. cbn [length]. rewrite Nat.sub_0_r, Hlen. apply Nat.min_l.
    etransitivity; [apply (sh_enough _ _ _ _ Hs)|].
    apply honest_counted; [apply Hs| |done]. intros i Hi. rewrite Hk. by apply Hs.
Qed.

Lemma succeeding_round_fits version (old list : list bytes) :
  is_u32 version → wf_entries list → (length list ≤ S (length old))%nat →
  8 + 32 * (Z.of_nat (length old) + 1) ≤ MAX_FRAME →
  Z.of_nat (length (as_ssz_bytes (mkProposal version list))) ≤ MAX_FRAME ∧
  ml_size N_MEMBERS (length list) THRESHOLD ≤ MAX_RECORD_BYTES.
Proof.
  intros Hv Hl Hlen Hfit. rewrite proposal_size by done. simpl.
  unfold ml_size, MAX_FRAME, MAX_RECORD_BYTES, SIGNATURE_BYTES in *.
  change (Z.of_nat N_MEMBERS) with 10. change (Z.of_nat THRESHOLD) with 7.
  change ((10 + 8) / 8) with 2. lia.
Qed.

(** Something that neither the random generator nor a publication disturbs, such as
    what another process keeps on its own volume. *)
Record undisturbed (I : world → Prop) : Prop := {
  ud_entropy : entropy_free I;
  ud_publish : ∀ o b w, I w → quiet_shows o w → I (snd (publish b w));
}.

(** The storage volume shows [o], no call fails, and [I] holds. *)
Definition calm (I : world → Prop) (o : option bytes) (w : world) : Prop := I w ∧ quiet_shows o w.

Lemma entropy_free_calm I o : undisturbed I → entropy_free (calm I o).
Proof. intros [H _] k w [Hi Hw]. split; [by apply H|by apply entropy_free_quiet]. Qed.

Lemma ml_update_settles net n honest request published version old (I : world → Prop) :
  undisturbed I →
  wf_ml_node n → ml_following published = Ok (version, old) →
  applicable n request version old → 8 + 32 * (Z.of_nat (length old) + 1) ≤ MAX_FRAME →
  NoDup (arrival_order net) → Forall (λ i, i < N_MEMBERS)%nat (arrival_order net) →
  seven_honest net (mn_committee n) honest (calm I published) →
  settles (calm I published) (ml_run_update net n request)
    (λ r w, ∃ credential list b, updated request old credential list ∧ fits_reply credential ∧
       ml_authorizes (mn_committee n) list version b ∧
       r = Ok (Ok ((MSG_STATUS_UPDATED, as_ssz_bytes (mkStatusUpdated version credential)),
                   ml_with_rounds (mn_round_poisoned n) (S (mn_rounds_served n)) n)) ∧
       calm I (Some b) w).
Proof.
  intros HI Hn Hf Ha Hfit Hnd Hr Hs. pose proof (entropy_free_calm I published HI) as HE. pose proof Hn as (Hc & HN & Ht).
  pose proof (ml_following_wf ml_ssz_size _ _ _ Hf) as [Hver Hold]. unfold ml_run_update.
  apply (settles_bind _ _ _ (λ r w, r = Ok published ∧ calm I published w)); [|intros o|intros []].
  { intros w [Hi Hw]. by rewrite (quiet_current_record published w Hw). }
  apply settles_pure. intros [= ->]. rewrite Hf.
  eapply settles_bind; [by apply (ml_apply_settles n request version old)|intros applied|intros []].
  simpl. apply settles_pure. intros (credential & list & [= ->] & Hu & Hcf).
  pose proof (updated_wf _ _ _ _ Hu Hold) as Hlist.
  destruct (succeeding_round_fits version old list) as [Hpf Hrf];
    [done..|by eapply updated_length|done|].
  eapply settles_bind; [apply (ml_collect_settles net n (mkProposal version list) honest);
    [done|by split|done|done|by rewrite HN|done]|intros r|intros []].
  simpl. apply settles_pure. intros (quorum & [= ->] & Hq & Hqd & Hqv).
  rewrite Hq, (proj2 (Nat.ltb_ge _ _)) by done.
  destruct (ml_quorum_verified (mn_committee n) list version quorum) as (rec & Hnew & _);
    [done|done|by rewrite Hq|by rewrite Hq, HN|done|]. rewrite HN in Hnew. rewrite Hnew.
  intros w [Hi Hw]. unfold io_catch.
  destruct (quiet_publish _ (ml_to_bytes rec) w Hw) as (w' & Ep & Hw').
  pose proof (ud_publish _ HI _ (ml_to_bytes rec) w Hi Hw) as Hi'. rewrite Ep in Hi' |- *. simpl in Hi'. cbn.
  exists credential, list, (ml_to_bytes rec). split; [done|]. split; [done|]. split; [|done].
  eapply (ml_record_authorizes ml_ssz_size); try done. by rewrite Hq.
Qed.

(** A round with seven honest members succeeds: when no call of the operating
    system fails and seven members that hold the keys of their seats answer in
    time, in any order and whatever the other three answer, every status request
    that can be carried out on the published list is answered with the update, of
    the following version; and the volume then shows a record of exactly the
    updated list, which the verifier of this anchor accepts. *)
Lemma ml_request_settles net n honest request published version old (I : world → Prop) :
  undisturbed I →
  wf_ml_node n → mn_round_poisoned n = false → wf_status_request request →
  ml_following published = Ok (version, old) →
  applicable n request version old → 8 + 32 * (Z.of_nat (length old) + 1) ≤ MAX_FRAME →
  NoDup (arrival_order net) → Forall (λ i, i < N_MEMBERS)%nat (arrival_order net) →
  seven_honest net (mn_committee n) honest (calm I published) →
  settles (calm I published) (ml_on_status_request net n (as_ssz_bytes request))
    (λ r w, ∃ credential list b n', updated request old credential list ∧ fits_reply credential ∧
       ml_authorizes (mn_committee n) list version b ∧
       r = Ok (Ok (MSG_STATUS_UPDATED, as_ssz_bytes (mkStatusUpdated version credential)), n') ∧
       calm I (Some b) w).
Proof.
  intros HI Hn Hp Hw Hf Ha Hfit Hnd Hr Hs. unfold ml_on_status_request.
  rewrite (ssz_from_as (wf := wf_status_request)), Hp by done.
  eapply settles_bind; [by apply (ml_update_settles net n honest request published version old I)|
    intros r|intros []].
  intros w (credential & list & b & Hu & Hcf & Hau & [= ->] & Hw').
  exists credential, list, b. eexists. by split_and!.
Qed.

(** ** An issuance, from node A's request to its verdict *)

Lemma ml_member_updates net n honest request published version old (I : world → Prop) :
  undisturbed I →
  wf_ml_node n → mn_round_poisoned n = false → wf_status_request request →
  5 + Z.of_nat (length (sr_data request)) ≤ MAX_FRAME → is_u32 version →
  ml_following published = Ok (version, old) →
  applicable n request version old → 8 + 32 * (Z.of_nat (length old) + 1) ≤ MAX_FRAME →
  NoDup (arrival_order net) → Forall (λ i, i < N_MEMBERS)%nat (arrival_order net) →
  seven_honest net (mn_committee n) honest (calm I published) →
  settles (calm I published)
    (Wire.request (ml_connection net n) MSG_STATUS_REQUEST (as_ssz_bytes request))
    (λ r w, ∃ credential list b, updated request old credential list ∧
       ml_authorizes (mn_committee n) list version b ∧
       r = Ok (MSG_STATUS_UPDATED, as_ssz_bytes (mkStatusUpdated version credential)) ∧
       calm I (Some b) w).
Proof.
  intros HI Hn Hp Hwf Hfit Hv Hf Ha Hlen Hnd Hr Hs w Hw.
  destruct (send_recv MSG_STATUS_REQUEST (as_ssz_bytes request)) as (frame & Hsend & Hrecv);
    [done|by rewrite request_size|].
  pose proof (ml_request_settles net n honest request published version old I HI Hn Hp Hwf Hf Ha Hlen
    Hnd Hr Hs w Hw) as H.
  unfold Wire.request, ml_connection. rewrite Hsend. unfold mbind, io_bind, lift, mret, io_ret, io_catch.
  cbn -[ml_serve]. unfold ml_serve. rewrite Hrecv. cbn -[ml_on_status_request].
  unfold mbind, io_bind.
  destruct (ml_on_status_request net n (as_ssz_bytes request) w) as [[[reply n1]|[]|] w1]; [|done].
  destruct H as (credential & list & b & n' & Hu & Hcf & Hau & [= -> ->] & Hw1). cbn.
  destruct (send_recv MSG_STATUS_UPDATED (as_ssz_bytes (mkStatusUpdated version credential)))
    as (answer & Hsend' & Hrecv'); [done|by rewrite updated_size|].
  rewrite Hsend'. cbn. rewrite Hrecv'. cbn. by exists credential, list, b.
Qed.

Context {G : Type} `{GG : !FreshnessGate G}.

(** The mark takes the version, and taking it does not touch the storage volume. *)
Definition takes (I : world → Prop) (g : G) (version : Z) : Prop :=
  ∀ o, settles (calm I o) (gate_try_advance g version)
    (λ r w, (∃ g', r = Ok (Accepted, g')) ∧ quiet_shows o w).

(** Member [n] can run the round: its own node is sound, and seven members
    answer it. *)
Record can_run (c : MlCommittee) (net : Net) (n : MlNode) (request : StatusRequest)
    (published : option bytes) (version : Z) (old : list bytes) (I : world → Prop) : Prop := {
  cr_node : wf_ml_node n;
  cr_committee : mn_committee n = c;
  cr_sound : mn_round_poisoned n = false;
  cr_applicable : applicable n request version old;
  cr_order : NoDup (arrival_order net) ∧ Forall (λ i, i < N_MEMBERS)%nat (arrival_order net);
  cr_honest : ∃ honest, seven_honest net c honest (calm I published);
}.

(** What follows the gate, for an update that is as announced. *)
Lemma ml_conclude_issued list version note credential w :
  w_verdicts w = [] → is_valid list credential = true →
  ∃ w', ml_conclude list version note (Some (mkStatusUpdated version credential)) (Some true) w =
    (Done (summary_of version "credential issued and present: valid" note), w').
Proof.
  intros Hq Hv. unfold ml_conclude. simpl. rewrite Z.eqb_refl. simpl.
  unfold mbind, io_bind. cbn. rewrite Hv. cbn. unfold io_map_err.
  destruct (quiet_write_atomic credential_path credential w Hq) as (w' & -> & _). by exists w'.
Qed.

(** Whatever is drawn, some member of the committee is asked. *)
Lemma ml_choose_target_draws w :
  ∃ k, (k < N_MEMBERS)%nat ∧
    ml_choose_target None w = (Done k, with_entropy (S (w_entropy w)) w).
Proof.
  exists (w_entropy w mod 10)%nat. assert (H : (w_entropy w mod 10 < 10)%nat) by (by apply Nat.mod_upper_bound).
  split; [done|]. unfold ml_choose_target, mbind, io_bind, draw.
  change ALL_MEMBER_INDICES with (seq 0 10). rewrite length_seq.
  rewrite (proj2 (lookup_seq 0 10 _ (w_entropy w mod 10)%nat)) by (split; [done|exact H]). done.
Qed.

Lemma ml_issue_requested dial (nets : nat → Net) c subject published version
    old (I : world → Prop) :
  let request := mkStatusRequest ACTION_ISSUE (string_bytes subject) in
  undisturbed I → is_u32 version → ml_following published = Ok (version, old) →
  8 + 32 * (Z.of_nat (length old) + 1) ≤ MAX_FRAME →
  5 + Z.of_nat (length (string_bytes subject)) ≤ MAX_FRAME →
  (∀ i, (i < N_MEMBERS)%nat → ∃ n, dial i = ml_connection (nets i) n ∧
     can_run c (nets i) n request published version old I) →
  settles (calm I published) (ml_request_update dial None (ActionIssue subject))
    (λ r w, ∃ credential list b, r = Ok (Some (mkStatusUpdated version credential), Some true) ∧
       updated request old credential list ∧ ml_authorizes c list version b ∧ calm I (Some b) w).
Proof.
  intros request HI Hv Hf Hlen Hsub Hall w Hw. unfold ml_request_update, ml_request_status_update.
  destruct (ml_choose_target_draws w) as (k & Hk & E).
  unfold mbind at 2, io_bind at 2. unfold mbind at 1, io_bind at 1. rewrite E.
  destruct (Hall k Hk) as (n & -> & [Hn <- Hp Ha [Hnd Hr] [honest Hs]]).
  assert (Hw' : calm I published (with_entropy (S (w_entropy w)) w)) by (by apply entropy_free_calm).
  pose proof (ml_member_updates (nets k) n honest request published version old I HI Hn Hp
    ltac:(done) Hsub Hv Hf Ha Hlen Hnd Hr Hs _ Hw') as H.
  unfold mbind, io_bind, io_map_err. change (mkStatusRequest ACTION_ISSUE (string_bytes subject)) with request.
  destruct (Wire.request _ _ _ _) as [[[kind reply]|e|] w1]; [| |done].
  - destruct H as (credential & list & b & Hu & Hau & [= -> ->] & Hw1). cbn.
    rewrite (ssz_from_as (wf := wf_status_updated)) by done. cbn. by exists credential, list, b.
  - by destruct H as (? & ? & ? & _ & _ & ? & _).
Qed.

Lemma ml_accept_takes c (h : MlHolder (G := G)) list version b o (I : world → Prop) :
  mh_verifier h = mkMlVerifier c → ml_authorizes c list version b → takes I (mh_mark h) version →
  settles (calm I o) (ml_accept h b)
    (λ r w, (∃ h', r = Ok (OAccepted version, h') ∧ ml_holder_mark h' = Some version) ∧
       quiet_shows o w).
Proof.
  intros Hh (rec & E & _ & Hver & Hv) Hg w Hw. unfold ml_accept. rewrite E, Hh, Hv, Hver. cbn.
  specialize (Hg o w Hw). unfold mbind, io_bind, advance, io_catch.
  destruct (gate_try_advance (mh_mark h) version w) as [[[d g']|e|] w1] eqn:Eg; [| |done].
  - destruct Hg as [(g'' & [= -> <-]) Hq]. cbn. split; [|done]. eexists. split; [done|].
    by apply gate_accepted in Eg as [? _].
  - by destruct Hg as [(? & ?) _].
Qed.

Lemma updated_issue_valid request old credential list :
  sr_action request = ACTION_ISSUE → updated request old credential list →
  is_valid list credential = true.
Proof.
  intros Ha [[_ E]|(Hr & _)]; [|by rewrite Ha in Hr]. unfold add_valid in E.
  destruct (contains _ _); [done|]. injection E as <-. unfold is_valid, contains.
  rewrite existsb_app. simpl. by rewrite bool_decide_eq_true_2, orb_true_r.
Qed.

(** An issuance goes through end to end: when no call of the operating system
    fails, every member can run a round in which seven honest members answer, and
    node A's mark is below the next version, then whichever member node A draws,
    asking it to issue a credential ends with that version accepted, the mark
    moved to it, and the report that the credential is present in the list. *)
Lemma ml_issue_settles dial (nets : nat → Net) c (h : MlHolder (G := G))
    subject published version old (I : world → Prop) :
  let request := mkStatusRequest ACTION_ISSUE (string_bytes subject) in
  undisturbed I → mh_verifier h = mkMlVerifier c →
  ml_following published = Ok (version, old) →
  8 + 32 * (Z.of_nat (length old) + 1) ≤ MAX_FRAME →
  5 + Z.of_nat (length (string_bytes subject)) ≤ MAX_FRAME →
  (∀ i, (i < N_MEMBERS)%nat → ∃ n, dial i = ml_connection (nets i) n ∧
     can_run c (nets i) n request published version old I) →
  takes I (mh_mark h) version →
  settles (calm I published) (ml_run_round dial None h (ActionIssue subject))
    (λ r _, ∃ h', r = Ok (Ok (summary_of version "credential issued and present: valid"
                              ("high-water now v" +:+ pretty version)), h') ∧
       ml_holder_mark h' = Some version).
Proof.
  intros request HI Hh Hf Hlen Hsub Hall Hg.
  pose proof (ml_following_wf ml_ssz_size _ _ _ Hf) as [Hver _].
  eapply settles_catch; [by eapply ml_issue_requested|].
  intros r w (credential & list & b & -> & Hu & Hau & Hi & Hw).
  unfold mbind, io_bind. rewrite (quiet_current_record (Some b) w Hw).
  pose proof (ml_accept_takes c h list version b (Some b) I Hh Hau Hg w (conj Hi Hw)) as Ha.
  destruct (ml_accept h b w) as [[[o h']|[]|] w1]; [|done].
  destruct Ha as [(h'' & [= -> ->] & Hm) [_ Hq1 _]].
  assert (ml_report b = list) as -> by (destruct Hau as (rec & E & <- & _); unfold ml_report; by rewrite E).
  cbn [ml_judged]. unfold io_catch.
  destruct (ml_conclude_issued list version ("high-water now v" +:+ pretty version) credential w1 Hq1)
    as (w2 & ->); [by eapply (updated_issue_valid request)|].
  by exists h''.
Qed.
End runs.
