(* ===== verification/Boot.v ===== *)
(** * The start of the demo network

    demo/src/bin/bootstrap.rs and mldsa_bootstrap.rs, and the start of
    bin/signer.rs and bin/mldsa_signer.rs.  The bootstrap publishes the identifier
    of the run, collects one key per member and assembles the anchor; a member
    derives its key from the identifier, publishes it, opens its state and joins
    when the anchor names it.  Printing and sockets are left out; a panic is an
    error, whose text is that of the XMSS program where the two differ in wording. *)
From S2P Require Import Prelude Fs External Instances Atomic SlotCounter Signer Seats StatusLists.
From S2P Require Import Committees Verifiers MlStatusLists MlCommittees Wire Credentials Params Network.
From S2P Require Import Storage Rounds Member MlMember SlotRuns.

Open Scope Z_scope.

(** ** Waiting and reading directories *)

(** In milliseconds. *)
Definition KEY_WAIT : nat := Z.to_nat (300 * 1000).
Definition BOOTSTRAP_WAIT : nat := Z.to_nat (300 * 1000).

(** The text of a time-out; a run with enough rounds has no other error. *)
Definition wait_text (e : wait_error) : string :=
  match e with TimedOut message => message | OutOfFuel => "out of fuel" end.

(** [fs::read_dir]; an entry that cannot be read stays, like one that cannot be
    removed. *)
Definition read_dir (dir : list string) : io io_error (list path) :=
  syscall id no_partial (λ w,
    (Ok (filter (λ p : path, p.1 = dir) (map_to_list (cur_dir w)).*1), w)).

(** 32 random bytes, as a function of the draw. *)
Class RunIds := {
  run_id_at : nat → bytes;
  run_id_length : ∀ k, length (run_id_at k) = 32%nat;
}.

Section boot.
Context `{HH : Hashes} `{VV : Volumes} `{CC : Clock} `{RI : RunIds}.

Definition run_id_path : path := join committee_dir RUN_ID.
Definition anchor_path : path := join committee_dir ANCHOR.

(** ** The bootstrap *)

Fixpoint remove_all (ps : list path) : io string unit :=
  match ps with
  | [] => mret tt
  | p :: ps => io_catch (remove_file p) (λ _, remove_all ps)
  end.

Definition reset_dir (dir : list string) : io string unit :=
  io_catch (read_dir dir) (λ r,
    match r with Ok entries => remove_all entries | Err _ => mret tt end).

(** [reset]: both shared volumes. *)
Definition reset : io string unit :=
  _ ← reset_dir committee_dir;
  reset_dir storage_dir.

(** The run identifier: resumed, or a new one over empty volumes. *)
Definition ensure_run_id : io string unit :=
  io_catch (fs_read run_id_path) (λ r,
    match r with
    | Ok (_ :: _) => mret tt
    | _ =>
        _ ← reset;
        k ← draw;
        io_map_err (λ _, "cannot publish the run identifier"%string)
          (write_atomic run_id_path (run_id_at k))
    end).

(** The keys of [count] members from [index] on, in index order. *)
Fixpoint member_keys {K} (decode : nat → bytes → result K string) (fuel count index deadline : nat) :
    io string (list K) :=
  match count with
  | O => mret []
  | S count =>
      t ← now;
      b ← io_map_err (λ e, "member " +:+ pretty index +:+ " never published a key: " +:+ wait_text e)%string
            (wait_for fuel (member_key_file index) (deadline - t));
      pk ← lift (decode index b);
      pks ← member_keys decode fuel count (S index) deadline;
      mret (pk :: pks)
  end.

(** [main] from the wait on: the anchor of the keys, published. *)
Definition assemble {K C} (decode : nat → bytes → result K string) (new : list K → result C string)
    (to_bytes : C → bytes) (fuel : nat) : io string C :=
  t ← now;
  members ← member_keys decode fuel N_MEMBERS 0 (t + KEY_WAIT);
  c ← lift (new members);
  _ ← io_map_err (λ _, "cannot publish the anchor"%string) (write_atomic anchor_path (to_bytes c));
  mret c.

Definition bootstrap {K C} (decode : nat → bytes → result K string) (new : list K → result C string)
    (to_bytes : C → bytes) (fuel : nat) : io string C :=
  _ ← ensure_run_id;
  assemble decode new to_bytes fuel.

(** ** Publishing a key *)

(** [if !key_file.exists() { write_atomic(..) }]. *)
Definition publish_key (index : nat) (encoded : bytes) : io string unit :=
  published ← path_exists (member_key_file index);
  if (published : bool) then mret tt
  else io_map_err (λ _, "cannot publish the key"%string) (write_atomic (member_key_file index) encoded).

(** A variable that must be set. *)
Definition required (name : string) (var : option string) : result string string :=
  ok_or var (name +:+ " is not set")%string.

(** The index, of MEMBER_INDEX. *)
Definition member_index (var : option string) : result nat string :=
  let? var := required "MEMBER_INDEX" var in
  match parse_unsigned u64_max (str var) with
  | Err _ => Err "MEMBER_INDEX must be a number"%string
  | Ok index =>
      if index <? Z.of_nat N_MEMBERS then Ok (Z.to_nat index)
      else Err ("MEMBER_INDEX " +:+ pretty index +:+ " outside a committee of 10")%string
  end.

(** The address the process runs at is the one its index has. *)
Definition check_address (index : nat) (own : string) : result unit string :=
  if bool_decide (MEMBER_IPS !! index = Some own) then Ok tt
  else Err ("member " +:+ pretty index +:+ " is running at " +:+ own)%string.

(** ** XMSS *)

Section xmss.
Context `{XX : Xmss} `{XK : !XmssKeys} `{SC : !Ssz CommitteeWire}.

Definition decode_key (index : nat) (b : bytes) : result XmssPublicKey string :=
  map_err (λ e, "member " +:+ pretty index +:+ " published a malformed key: " +:+ e)%string
    (xmss_pk_from_ssz b).

(** bootstrap.rs, [main]. *)
Definition xmss_bootstrap (fuel : nat) : io string Committee :=
  bootstrap decode_key (λ members, committee_new members (Z.of_nat THRESHOLD) SLOT) committee_to_bytes fuel.

Definition wait_for_committee (fuel timeout : nat) : io string Committee :=
  b ← io_map_err wait_text (wait_for fuel anchor_path timeout);
  lift (committee_from_bytes b).

(** signer.rs, [main] up to the wait for the anchor: the key of this run, its file
    and its counter, created on a first start and opened on a restart. *)
Definition member_publish (fuel index : nat) (secret : string) : io string SignerNode :=
  run_id ← io_map_err (λ e, "bootstrap never started: " +:+ wait_text e)%string
             (wait_for_run_id fuel BOOTSTRAP_WAIT);
  let seed := member_seed secret run_id index in
  '(sk, pk) ← lift (map_err (λ e, "keygen: " +:+ e)%string
                (key_gen_from_seed seed SLOT (SLOT + KEY_SLOTS)));
  _ ← publish_key index (xmss_pk_ssz pk);
  let state := join state_dir "slot-counter" in
  started ← path_exists state;
  counter ← io_map_err (λ _, "counter state"%string)
              (if (started : bool) then SlotCounter.open state pk (SLOT + KEY_SLOTS)
               else create state pk SLOT (SLOT + KEY_SLOTS));
  mret (mkSignerNode pk sk counter).

(** The rest of [main] up to the listener. *)
Definition member_join (fuel index : nat) (mode : Mode) (signer : SignerNode) : io string Node :=
  committee ← io_map_err (λ e, "no anchor: " +:+ e)%string (wait_for_committee fuel BOOTSTRAP_WAIT);
  if negb (bool_decide (index_of committee (pk signer) = Some index))
  then throw ("the anchor does not name this key at index " +:+ pretty index)%string
  else
    let can := can_aggregate mode index in
    mret (mkNode index mode committee signer can (bool_decide (mode = ModeSnark) && can) false 0).

(** [main] up to the listener, of its variables and the address it runs at. *)
Definition member_main (fuel : nat) (index secret mode : option string) (own : string) : io string Node :=
  index ← lift (member_index index);
  secret ← lift (required "MEMBER_SECRET" secret);
  mode ← lift (mode_from_env mode);
  _ ← lift (check_address index own);
  signer ← member_publish fuel index secret;
  member_join fuel index mode signer.
End xmss.

(** ** ML-DSA *)

Section mldsa.
Context `{ML : MlDsa} `{SMC : !Ssz MlCommitteeWire}.

Definition ml_decode_key (index : nat) (b : bytes) : result MlPublicKey string :=
  if negb (Z.of_nat (length b) =? PUBLIC_KEY_BYTES)
  then Err ("member " +:+ pretty index +:+ " key has " +:+ pretty (length b) +:+ " bytes")%string
  else map_err (λ e, "member " +:+ pretty index +:+ " published an invalid key: " +:+ e)%string
         (decode_public_key b).

(** mldsa_bootstrap.rs, [main]. *)
Definition ml_bootstrap (fuel : nat) : io string MlCommittee :=
  bootstrap ml_decode_key
    (λ members, map_err (λ e, "invalid ML-DSA committee: " +:+ e)%string
                  (ml_committee_new members (Z.of_nat THRESHOLD)))
    ml_committee_to_bytes fuel.

(** The seed of the signature scheme, apart from the XMSS one. *)
Definition scheme_seed (secret : string) (run_id : bytes) (index : nat) : bytes :=
  sha3_256 (ascii_bytes (str "drot-demo/ml-dsa-65/member-seed/v1") ++ [Byte.x00] ++
            member_seed secret run_id index).

(** mldsa_signer.rs, [main] up to the wait for the anchor; the signer has no state,
    and the secret is asked for after the run identifier. *)
Definition ml_member_publish (fuel index : nat) (secret : option string) : io string MlDsa65Signer :=
  run_id ← io_map_err (λ e, "bootstrap never started: " +:+ wait_text e)%string
             (wait_for_run_id fuel BOOTSTRAP_WAIT);
  secret ← lift (required "MEMBER_SECRET" secret);
  let signer := from_seed (scheme_seed secret run_id index) in
  _ ← publish_key index (encode_public_key (ml_public_key signer));
  mret signer.

Definition ml_member_join (fuel index : nat) (signer : MlDsa65Signer) : io string MlNode :=
  b ← io_map_err (λ e, "no anchor: " +:+ wait_text e)%string (wait_for fuel anchor_path BOOTSTRAP_WAIT);
  committee ← lift (map_err (λ e, "invalid ML-DSA anchor: " +:+ e)%string (ml_committee_from_bytes b));
  if negb (bool_decide (ml_index_of committee (ml_public_key signer) = Some index))
  then throw "anchor does not name this key at the configured index"%string
  else mret (mkMlNode index committee signer false 0).

Definition ml_member_main (fuel : nat) (index secret : option string) (own : string) : io string MlNode :=
  index ← lift (member_index index);
  _ ← lift (check_address index own);
  signer ← ml_member_publish fuel index secret;
  ml_member_join fuel index signer.
End mldsa.
End boot.
