(* ===== verification/BootRuns.v ===== *)
(** * The demo network starts

    When no call of the operating system fails, the processes of [Boot], run in any
    order the volumes allow, end with one anchor that names every member's key at
    its index and with every member joined to it. *)
From S2P Require Import Prelude Fs External Instances Atomic SlotCounter Signer Seats StatusLists.
From S2P Require Import Committees Verifiers MlStatusLists MlCommittees Wire Credentials Params Network.
From S2P Require Import Storage Rounds Member MlMember SlotRuns Boot.

Open Scope Z_scope.

(** ** What a directory shows *)

(** Calls complete, and the next inode is fresh. *)
Record tidy (w : world) : Prop := {
  td_calls : w_verdicts w = [];
  td_dir : ∀ q i, cur_dir w !! q = Some i → (i < w_next w)%nat;
  td_nodes : ∀ i, is_Some (w_nodes w !! i) → (i < w_next w)%nat;
  td_locks : ∀ i, i ∈ w_locks w → (i < w_next w)%nat;
}.

(** From [w] to [w'] nothing but the paths in [S] changed, durably. *)
Record only (S : path → Prop) (w w' : world) : Prop := {
  on_tidy : tidy w';
  on_dir : ∀ q, ¬ S q → cur_dir w' !! q = cur_dir w !! q;
  on_file : ∀ q, ¬ S q → file_at w' q = file_at w q;
  on_synced : w_dirs w' = w_dirs w ∨ w_dirs w' = [cur_dir w'];
}.

Lemma only_refl (S : path → Prop) w : tidy w → only S w w.
Proof. intros Ht. split; [done|done|done|by left]. Qed.

Lemma only_trans (S : path → Prop) w w1 w2 : only S w w1 → only S w1 w2 → only S w w2.
Proof.
  intros [_ Hd Hf Hs] [Ht Hd' Hf' Hs']. split; [done|intros q Hq..|].
  - by rewrite Hd', Hd.
  - by rewrite Hf', Hf.
  - destruct Hs' as [E|E]; [|by right]. destruct Hs as [E1|E1]; [left; congruence|right].
    rewrite E, E1. unfold cur_dir. by rewrite E, E1.
Qed.

Lemma only_mono (S S' : path → Prop) w w' : (∀ q, S q → S' q) → only S w w' → only S' w w'.
Proof. intros H [Ht Hd Hf Hs]. split; [done|intros q Hq..|done]; [apply Hd|apply Hf]; auto. Qed.

Lemma only_entropy S n w : tidy w → only S w (with_entropy n w).
Proof. intros [? ? ? ?]. split; [by split|done|done|by left]. Qed.

Lemma file_at_None w q : cur_dir w !! q = None ↔ file_at w q = None.
Proof. unfold file_at. symmetry. apply fmap_None. Qed.

(** ** Calls that complete *)

Lemma fs_read_run p b w : w_verdicts w = [] → file_at w p = Some b → fs_read p w = (Done b, w).
Proof.
  intros Hq (i & Hi & ->)%fmap_Some. apply run_syscall; [done|]. by rewrite Hi.
Qed.

Lemma fs_read_absent p w : w_verdicts w = [] → file_at w p = None → fs_read p w = (Failed NotFound, w).
Proof. intros Hq Hp%file_at_None. unfold fs_read, syscall. by rewrite Hq, Hp. Qed.

(** A file that is there is returned at the first look. *)
Lemma wait_for_run `{Clock} fuel p timeout b w :
  (0 < fuel)%nat → tidy w → file_at w p = Some b → b ≠ [] →
  ∃ w', wait_for fuel p timeout w = (Done b, w') ∧ only (λ _, False) w w'.
Proof.
  intros Hf Ht Hp Hb. exists (with_entropy (S (w_entropy w)) w). split; [|by apply only_entropy].
  destruct fuel as [|fuel]; [lia|]. unfold wait_for. erewrite run_bind by done. cbv beta.
  cbn [wait_loop]. unfold io_catch. rewrite (fs_read_run p b); [by destruct b|apply Ht|done].
Qed.

Lemma write_atomic_replaced p b w :
  w_verdicts w = [] → cur_dir w !! sibling p "tmp" = None →
  ∃ w', write_atomic p b w = (Done tt, w') ∧ replaced p b w w'.
Proof.
  intros Hq Ht. destruct (replace_run (λ e, e) p b w Hq Ht) as (w' & E & Hr).
  exists w'. split; [|done]. rewrite write_atomic_replace. by erewrite run_bind by exact E.
Qed.

Lemma write_atomic_run p b w :
  tidy w → cur_dir w !! sibling p "tmp" = None →
  ∃ w', write_atomic p b w = (Done tt, w') ∧ only (λ q, q = p ∨ q = sibling p "tmp") w w' ∧
    file_at w' p = Some b ∧ cur_dir w' !! sibling p "tmp" = None ∧ w_dirs w' = [cur_dir w'].
Proof.
  intros [Hq Hd Hn Hl] Ht. pose proof (sibling_ne p "tmp") as Hne.
  destruct (write_atomic_replaced p b w Hq Ht) as (w' & E & Hr). pose proof (replaced_dir _ _ _ _ Hr) as Hc.
  destruct Hr as [Hq' Hds Hnx Hlk _ Hnew Hold].
  assert (Hdir : ∀ q, q ≠ p → q ≠ sibling p "tmp" → cur_dir w' !! q = cur_dir w !! q).
  { intros q H1 H2. by rewrite Hc, lookup_insert_ne, lookup_delete_ne. }
  exists w'. split; [done|]. split_and!; [split; [split|..]|..].
  - done.
  - rewrite Hc, Hnx. intros q i [[_ <-]|[_ [_ Hi]%lookup_delete_Some]]%lookup_insert_Some; [lia|].
    specialize (Hd _ _ Hi). lia.
  - rewrite Hnx. intros i. destruct (decide (i = w_next w)) as [->|Hi]; [lia|]. rewrite Hold by done.
    intros H%Hn. lia.
  - rewrite Hlk, Hnx. intros i Hi. specialize (Hl i Hi). lia.
  - intros q Hnq. apply Hdir; tauto.
  - intros q Hnq. unfold file_at. rewrite Hdir by tauto. destruct (cur_dir w !! q) as [i|] eqn:Ei; [|done].
    simpl. f_equal. unfold content, versions. rewrite Hold; [done|]. specialize (Hd q i Ei). lia.
  - right. by rewrite Hds, Hc.
  - unfold file_at, content, versions. by rewrite Hc, lookup_insert_eq; simpl; rewrite Hnew.
  - by rewrite Hc, lookup_insert_ne, lookup_delete_eq.
  - by rewrite Hds, Hc.
Qed.

(** A counter is created within its own directory. *)
Lemma create_only `{HH : Hashes} `{XX : Xmss} p pk slot_start slot_end w :
  tidy w → cur_dir w !! p = None → cur_dir w !! sibling p "lock" = None → cur_dir w !! sibling p "tmp" = None →
  ∃ c w', create p pk slot_start slot_end w = (Done c, w') ∧ only (λ q, q.1 = p.1) w w' ∧
    next c = slot_start ∧ end_ c = slot_end.
Proof.
  intros [Hq Hd Hn Hl] H1 H2 H3.
  destruct (create_run_dir p pk slot_start slot_end w) as (c & w' & E & Hinst & Hds & Hnodes);
    [done|intros Hin%Hl; lia|done..|].
  destruct Hinst as [Hq' (_ & _ & Hnext & Hend) _ Hnx Hlk _ Hold Hother _ _].
  assert (Hc : cur_dir w' = <[p := S (w_next w)]> (delete (sibling p "tmp") (<[sibling p "lock" := w_next w]> (cur_dir w))))
    by (unfold cur_dir at 1; by rewrite Hds).
  exists c, w'. split; [done|]. split; [|done]. split; [split; [done|..]|..].
  - rewrite Hc, Hnx. intros q j [[_ <-]|[_ [_ Hj]%lookup_delete_Some]]%lookup_insert_Some; [lia|].
    apply lookup_insert_Some in Hj as [[_ <-]|[_ Hj]]; [lia|]. specialize (Hd _ _ Hj). lia.
  - rewrite Hnx in *. intros j [Hj%Hn|Hj]%Hnodes; lia.
  - rewrite Hlk, Hnx. intros j [->%elem_of_singleton|Hj]%elem_of_union; [lia|]. specialize (Hl j Hj). lia.
  - intros q Hq''. apply Hother; intros ->; by apply Hq''.
  - intros q Hq''. unfold file_at. rewrite Hother by (intros ->; by apply Hq'').
    destruct (cur_dir w !! q) as [j|] eqn:Ej; [|done]. simpl. unfold content, versions.
    by rewrite (Hold j) by by apply (Hd q).
  - right. by rewrite Hds, Hc.
Qed.

(** ** The volumes *)

(** The names in the committee volume and their temporary files are apart. *)
Definition key_name (i : nat) : string := ("pk-" +:+ two_digits i +:+ ".ssz")%string.
Definition committee_names : list string := RUN_ID :: ANCHOR :: (key_name <$> seq 0 N_MEMBERS).
Definition temporary (name : string) : string := (name +:+ "." +:+ "tmp")%string.

Lemma names_apart : NoDup (committee_names ++ (temporary <$> committee_names)).
Proof. apply (bool_decide_unpack _). vm_compute. exact I. Qed.

Lemma key_name_in i : (i < N_MEMBERS)%nat → key_name i ∈ committee_names.
Proof.
  intros Hi. apply list_elem_of_further, list_elem_of_further, list_elem_of_fmap_2, elem_of_seq. lia.
Qed.

Lemma temporary_apart a b : a ∈ committee_names → b ∈ committee_names → temporary a ≠ b.
Proof.
  intros Ha Hb E. pose proof names_apart as (_ & H & _)%NoDup_app.
  apply (H b Hb). rewrite <-E. by apply list_elem_of_fmap_2.
Qed.

Lemma key_name_run i : (i < N_MEMBERS)%nat → key_name i ≠ RUN_ID.
Proof.
  intros Hi E. pose proof names_apart as (H & _)%NoDup_app. apply NoDup_cons in H as [H _]. apply H.
  rewrite <-E. apply list_elem_of_further, list_elem_of_fmap_2, elem_of_seq. lia.
Qed.

Lemma key_name_inj i j : (i < N_MEMBERS)%nat → (j < N_MEMBERS)%nat → key_name i = key_name j → i = j.
Proof.
  intros Hi Hj E. pose proof names_apart as (H & _)%NoDup_app.
  apply NoDup_cons in H as [_ H]. apply NoDup_cons in H as [_ H].
  eapply (NoDup_lookup _ i j (key_name i)); [exact H| |rewrite E];
    rewrite list_lookup_fmap, lookup_seq_lt by done; done.
Qed.

Section network.
Context `{HH : Hashes} `{VV : Volumes} `{CC : Clock} `{RI : RunIds}.

Definition key_path (i : nat) : path := join committee_dir (key_name i).

(** ** The run identifier *)

Lemma remove_all_run ps w :
  tidy w → ∃ w', remove_all ps w = (Done tt, w') ∧ tidy w' ∧
    (∀ q, q ∈ ps → cur_dir w' !! q = None) ∧ (∀ q, cur_dir w !! q = None → cur_dir w' !! q = None).
Proof.
  revert w. induction ps as [|p ps IH]; intros w Ht.
  { exists w. split_and!; try done. by intros q ?%not_elem_of_nil. }
  cbn [remove_all]. destruct Ht as [Hq Hd Hnd Hl].
  destruct (remove_file_run p w Hq) as (r & w1 & -> & Hq1 & Hd1 & Hn1 & Hl1 & _ & Hnd1).
  destruct (IH w1) as (w' & -> & Ht' & Hin & Hkeep).
  { split; [done|..].
    - rewrite Hd1, Hn1. intros q i [_ Hi]%lookup_delete_Some. by eapply Hd.
    - rewrite Hnd1, Hn1. done.
    - rewrite Hl1, Hn1. done. }
  exists w'. split_and!; [done|done|..].
  - intros q [->|Hq']%elem_of_cons; [|by apply Hin]. apply Hkeep. by rewrite Hd1, lookup_delete_eq.
  - intros q Hq'. apply Hkeep. rewrite Hd1. apply lookup_delete_None. by right.
Qed.

Lemma reset_dir_run dir w :
  tidy w → ∃ w', reset_dir dir w = (Done tt, w') ∧ tidy w' ∧
    (∀ q, q.1 = dir → cur_dir w' !! q = None) ∧ (∀ q, cur_dir w !! q = None → cur_dir w' !! q = None).
Proof.
  intros Ht. set (ps := filter (λ p : path, p.1 = dir) (map_to_list (cur_dir w)).*1).
  destruct (remove_all_run ps w Ht) as (w' & E & Ht' & Hin & Hkeep).
  exists w'. split_and!; [|done| |done].
  - unfold reset_dir, io_catch, read_dir. rewrite (run_syscall _ _ _ ps w w) by (apply Ht || done). done.
  - intros q Hq. destruct (cur_dir w !! q) as [i|] eqn:Ei; [|by apply Hkeep].
    apply Hin, list_elem_of_filter. split; [done|]. apply list_elem_of_fmap. exists (q, i).
    split; [done|]. by apply elem_of_map_to_list.
Qed.

(** Over volumes without a run identifier the bootstrap leaves only a new one. *)
Lemma ensure_run_id_run w :
  tidy w → file_at w run_id_path = None →
  ∃ k w', ensure_run_id w = (Done tt, w') ∧ tidy w' ∧ file_at w' run_id_path = Some (run_id_at k) ∧
    (∀ q, q.1 = committee_dir → q ≠ run_id_path → cur_dir w' !! q = None) ∧
    (∀ q, q ≠ run_id_path → q.1 = storage_dir ∨ cur_dir w !! q = None → cur_dir w' !! q = None).
Proof.
  intros Ht Hrun. unfold ensure_run_id, io_catch at 1. rewrite fs_read_absent by (apply Ht || done).
  destruct (reset_dir_run committee_dir w Ht) as (w1 & E1 & Ht1 & Hc1 & Hk1).
  destruct (reset_dir_run storage_dir w1 Ht1) as (w2 & E2 & Ht2 & Hs2 & Hk2).
  assert (E : reset w = (Done tt, w2)) by (unfold reset; by erewrite run_bind by exact E1).
  erewrite run_bind by exact E. cbv beta. set (k := w_entropy w2). set (w3 := with_entropy (S k) w2).
  erewrite run_bind by done. cbv beta.
  assert (Ht3 : tidy w3) by (destruct Ht2; by split).
  pose proof (sibling_ne run_id_path "tmp") as Hne.
  assert (Hnone : ∀ q, q.1 = committee_dir → cur_dir w3 !! q = None) by (intros q Hq; by apply Hk2, Hc1).
  destruct (write_atomic_run run_id_path (run_id_at k) w3 Ht3) as (w' & E' & [Ht' Hd' Hf' _] & Hfile & Htmp & _);
    [by apply Hnone|].
  exists k, w'. split; [by apply run_map_err|]. split_and!; [done|done|..].
  - intros q Hq Hn. destruct (decide (q = sibling run_id_path "tmp")) as [->|]; [done|].
    rewrite Hd' by tauto. by apply Hnone.
  - intros q Hn Hq. destruct (decide (q = sibling run_id_path "tmp")) as [->|]; [done|].
    rewrite Hd' by tauto. destruct Hq as [Hq|Hq]; [by apply Hs2|by apply Hk2, Hk1].
Qed.

(** ** Keys and the anchor *)

(** What a member may touch: its key file and the file it is written through, and
    paths of its [own]. *)
Definition own_paths (own : path → Prop) (i : nat) (q : path) : Prop :=
  q = key_path i ∨ q = sibling (key_path i) "tmp" ∨ own q.

(** The volume while keys arrive: the members of [done] have published. *)
Record collecting (key : nat → bytes) (rid : bytes) (done : list nat) (w : world) : Prop := {
  co_tidy : tidy w;
  co_run : file_at w run_id_path = Some rid;
  co_keys : ∀ i, (i < N_MEMBERS)%nat →
    file_at w (key_path i) = if decide (i ∈ done) then Some (key i) else None;
  co_tmp : ∀ name, name ∈ committee_names → cur_dir w !! sibling (join committee_dir name) "tmp" = None;
}.

Lemma publish_key_run i b w :
  tidy w → file_at w (key_path i) = None → cur_dir w !! sibling (key_path i) "tmp" = None →
  ∃ w', publish_key i b w = (Done tt, w') ∧
    only (λ q, q = key_path i ∨ q = sibling (key_path i) "tmp") w w' ∧
    file_at w' (key_path i) = Some b ∧ cur_dir w' !! sibling (key_path i) "tmp" = None.
Proof.
  intros Ht Hk%file_at_None Htmp. destruct (write_atomic_run (key_path i) b w Ht Htmp) as (w' & E & H).
  destruct H as (Ho & Hfile & Hgone & _). exists w'. split; [|done].
  unfold publish_key. unfold mbind, io_bind, path_exists.
  change (member_key_file i) with (key_path i). rewrite Hk, bool_decide_eq_false_2 by (by intros []).
  rewrite andb_false_r. by apply run_map_err.
Qed.

(** A step of member [i] takes the collection one key further. *)
Lemma collecting_step key rid done (own : path → Prop) i w w' :
  collecting key rid done w → (i < N_MEMBERS)%nat → i ∉ done → (∀ q, own q → q.1 ≠ committee_dir) →
  only (own_paths own i) w w' → file_at w' (key_path i) = Some (key i) →
  cur_dir w' !! sibling (key_path i) "tmp" = None → collecting key rid (i :: done) w'.
Proof.
  intros [Ht Hr Hk Htmp] Hi Hn Hs [Ht' Hd Hf _] Hfile Hgone.
  assert (Hin := key_name_in i Hi).
  assert (Hout : ∀ name, name ∈ committee_names → name ≠ key_name i →
    ¬ own_paths own i (join committee_dir name)).
  { intros name Hname Hne [[= E]|[[= E]|E]]; [done| |by apply Hs in E].
    by apply (temporary_apart (key_name i) name). }
  split; [done|..].
  - rewrite Hf; [done|]. apply Hout; [apply list_elem_of_here|]. by apply not_eq_sym, key_name_run.
  - intros j Hj. destruct (decide (j = i)) as [->|Hne].
    { by rewrite decide_True by apply list_elem_of_here. }
    rewrite Hf, Hk by (done || (apply Hout; [by apply key_name_in|by intros E%key_name_inj])).
    destruct (decide (j ∈ done)) as [Hd1|Hd1].
    + by rewrite decide_True by by apply list_elem_of_further.
    + rewrite decide_False; [done|]. by intros [->|?]%elem_of_cons.
  - intros name Hname. destruct (decide (name = key_name i)) as [->|Hne]; [done|].
    rewrite Hd; [by apply Htmp|]. intros [[= E]|[E|E]]; [| |by apply Hs in E].
    + by apply (temporary_apart name (key_name i)).
    + apply Hne. by eapply sibling_inj.
Qed.

Lemma member_keys_run {K} (decode : nat → bytes → result K string) (key : nat → bytes) (value : nat → K)
    fuel count index deadline w :
  (0 < fuel)%nat → tidy w →
  (∀ i, (index ≤ i < index + count)%nat → file_at w (key_path i) = Some (key i) ∧ key i ≠ [] ∧
     decode i (key i) = Ok (value i)) →
  ∃ w', member_keys decode fuel count index deadline w = (Done (value <$> seq index count), w') ∧
    only (λ _, False) w w'.
Proof.
  intros Hf. revert index w. induction count as [|count IH]; intros index w Ht Hall.
  { exists w. split; [done|by apply only_refl]. }
  destruct (Hall index) as (Hfile & Hne & Hdec); [lia|]. cbn [member_keys].
  set (w0 := with_entropy (S (w_entropy w)) w).
  assert (H0 : only (λ _, False) w w0) by by apply only_entropy.
  erewrite run_bind by done. cbv beta. fold w0.
  destruct (wait_for_run fuel (key_path index) (deadline - instant (w_entropy w)) (key index) w0) as (w1 & E1 & H1);
    [done|apply H0|done|done|].
  erewrite run_bind by (apply run_map_err; exact E1). cbv beta. rewrite Hdec, lift_Ok. cbv beta.
  destruct (IH (S index) w1) as (w' & E' & H'); [apply H1| |].
  - intros i Hi. rewrite (on_file _ _ _ H1) by auto. rewrite (on_file _ _ _ H0) by auto. apply Hall. lia.
  - exists w'. erewrite run_bind by exact E'. split; [done|].
    eapply only_trans; [exact H0|]. by eapply only_trans.
Qed.

Lemma assemble_run {K C} (decode : nat → bytes → result K string) (new : list K → result C string)
    (to_bytes : C → bytes) key rid done value c fuel w :
  (0 < fuel)%nat → collecting key rid done w → (∀ i, (i < N_MEMBERS)%nat → i ∈ done) →
  (∀ i, (i < N_MEMBERS)%nat → key i ≠ [] ∧ decode i (key i) = Ok (value i)) →
  new (value <$> seq 0 N_MEMBERS) = Ok c →
  ∃ w', assemble decode new to_bytes fuel w = (Done c, w') ∧ only (λ q, q.1 = committee_dir) w w' ∧
    w_dirs w' = [cur_dir w'] ∧ file_at w' anchor_path = Some (to_bytes c).
Proof.
  intros Hf [Ht Hr Hk Htmp] Hdone Hdec Hnew. unfold assemble.
  set (w0 := with_entropy (S (w_entropy w)) w). erewrite run_bind by done. cbv beta. fold w0.
  assert (H0 : only (λ _, False) w w0) by by apply only_entropy.
  destruct (member_keys_run decode key value fuel N_MEMBERS 0 (instant (w_entropy w) + KEY_WAIT) w0)
    as (w1 & E1 & H1); [done|apply H0| |].
  { intros i Hi. rewrite (on_file _ _ _ H0), Hk, decide_True by (auto || lia || (apply Hdone; lia)).
    split; [done|]. apply Hdec. lia. }
  erewrite run_bind by exact E1. cbv beta. rewrite Hnew, lift_Ok. cbv beta.
  destruct (write_atomic_run anchor_path (to_bytes c) w1) as (w' & E' & H' & Hfile & _ & Hds); [apply H1| |].
  { rewrite (on_dir _ _ _ H1), (on_dir _ _ _ H0) by auto. apply (Htmp ANCHOR).
    apply list_elem_of_further, list_elem_of_here. }
  exists w'. erewrite run_bind by (apply run_map_err; exact E'). split; [done|]. split; [|done].
  eapply only_trans; [eapply only_mono; [|exact H0]; done|].
  eapply only_trans; [eapply only_mono; [|exact H1]; done|].
  eapply only_mono; [|exact H']. by intros q [-> | ->].
Qed.

(** ** The network *)

Section start.
Context {K C Sg N : Type} (decode : nat → bytes → result K string) (new : list K → result C string).
Context (to_bytes : C → bytes) (publish : nat → io string Sg) (join_network : nat → Sg → io string N).

Fixpoint publish_all (order : list nat) : io string (list (nat * Sg)) :=
  match order with
  | [] => mret []
  | i :: order => s ← publish i; rest ← publish_all order; mret ((i, s) :: rest)
  end.

Fixpoint join_all (signers : list (nat * Sg)) : io string (list (nat * N)) :=
  match signers with
  | [] => mret []
  | (i, s) :: signers => n ← join_network i s; rest ← join_all signers; mret ((i, n) :: rest)
  end.

(** The bootstrap publishes the identifier, the members publish in some [order],
    the bootstrap assembles the anchor, the members join. *)
Definition network_start (fuel : nat) (order : list nat) : io string (C * list (nat * N)) :=
  _ ← ensure_run_id;
  signers ← publish_all order;
  c ← assemble decode new to_bytes fuel;
  nodes ← join_all signers;
  mret (c, nodes).

(** What the start relies on from a signature system. *)
Context (key : bytes → nat → bytes) (value : bytes → nat → K) (own : nat → path → Prop).
Context (good_signer : bytes → nat → Sg → Prop) (good_anchor : bytes → C → Prop).
Context (good_node : C → nat → N → Prop).

Record start_laws : Prop := {
  sl_own : ∀ i q, (i < N_MEMBERS)%nat → own i q → q.1 ≠ committee_dir;
  sl_apart : ∀ i j q, (i < N_MEMBERS)%nat → (j < N_MEMBERS)%nat → own i q → own j q → i = j;
  sl_key : ∀ rid i, key rid i ≠ [] ∧ decode i (key rid i) = Ok (value rid i);
  sl_publish : ∀ i rid done w, (i < N_MEMBERS)%nat → rid ≠ [] → collecting (key rid) rid done w → i ∉ done →
    (∀ q, own i q → cur_dir w !! q = None) →
    ∃ s w', publish i w = (Done s, w') ∧ only (own_paths (own i) i) w w' ∧
      file_at w' (key_path i) = Some (key rid i) ∧ cur_dir w' !! sibling (key_path i) "tmp" = None ∧
      good_signer rid i s;
  sl_new : ∀ k, ∃ c, new (value (run_id_at k) <$> seq 0 N_MEMBERS) = Ok c ∧ good_anchor (run_id_at k) c;
  sl_join : ∀ i rid s c w, (i < N_MEMBERS)%nat → tidy w → file_at w anchor_path = Some (to_bytes c) →
    good_signer rid i s → good_anchor rid c →
    ∃ n w', join_network i s w = (Done n, w') ∧ only (λ _, False) w w' ∧ good_node c i n;
}.

Context (L : start_laws).

(** The committee volume and the members' own paths. *)
Definition shared_or_own (q : path) : Prop :=
  q.1 = committee_dir ∨ ∃ i, (i < N_MEMBERS)%nat ∧ own i q.

(** The start left one durable version of the directory, and nothing on the storage
    volume or where nothing was before. *)
Record settled (w w' : world) : Prop := {
  se_tidy : tidy w';
  se_synced : w_dirs w' = [cur_dir w'];
  se_clear : ∀ q, ¬ shared_or_own q → q.1 = storage_dir ∨ cur_dir w !! q = None → cur_dir w' !! q = None;
}.

Lemma publish_all_run rid done order w :
  rid ≠ [] → collecting (key rid) rid done w → NoDup (order ++ done) →
  Forall (λ i, i < N_MEMBERS)%nat order →
  (∀ i q, i ∈ order → own i q → cur_dir w !! q = None) →
  ∃ signers w', publish_all order w = (Done signers, w') ∧ collecting (key rid) rid (reverse order ++ done) w' ∧
    only shared_or_own w w' ∧ fst <$> signers = order ∧ Forall (λ x, good_signer rid x.1 x.2) signers.
Proof.
  intros Hrid. revert done w. induction order as [|i order IH]; intros done w Hc Hnd Hlt Hs.
  { exists [], w. split_and!; try done. by apply only_refl, Hc. }
  apply Forall_cons in Hlt as [Hi Hlt]. cbn [app] in Hnd. apply NoDup_cons in Hnd as [Hni Hnd].
  assert (Hid : i ∉ done) by (intros H; apply Hni, elem_of_app; by right).
  destruct (sl_publish L i rid done w Hi Hrid Hc Hid) as (s & w1 & E1 & Ho & Hfile & Htmp & Hgood).
  { intros q. apply Hs, list_elem_of_here. }
  pose proof (collecting_step (key rid) rid done (own i) i w w1 Hc Hi Hid (λ q, sl_own L i q Hi) Ho Hfile Htmp) as Hc1.
  destruct (IH (i :: done) w1 Hc1) as (signers & w' & E' & Hc' & Ho' & Hf & Hg); [| |..].
  { rewrite <-Permutation_middle. by apply NoDup_cons. }
  { done. }
  { intros j q Hj Hq. rewrite Forall_forall in Hlt. specialize (Hlt j Hj). rewrite (on_dir _ _ _ Ho).
    - apply (Hs j); [by apply list_elem_of_further|done].
    - intros [->|[->|E]]; [by apply (sl_own L j) in Hq|by apply (sl_own L j) in Hq|].
      assert (j = i) as -> by by apply (sl_apart L j i q).
      apply Hni, elem_of_app. by left. }
  exists ((i, s) :: signers), w'. cbn [publish_all]. erewrite run_bind by exact E1. cbv beta.
  erewrite run_bind by exact E'.
  split_and!; [done|by rewrite reverse_cons, <-app_assoc| |simpl; by f_equal|by constructor].
  eapply only_trans; [|exact Ho']. eapply only_mono; [|exact Ho].
  intros q [-> |[-> |E]]; [by left|by left|right; by exists i].
Qed.

Lemma join_all_run rid c signers w :
  tidy w → file_at w anchor_path = Some (to_bytes c) → good_anchor rid c →
  Forall (λ x, x.1 < N_MEMBERS)%nat signers → Forall (λ x, good_signer rid x.1 x.2) signers →
  ∃ nodes w', join_all signers w = (Done nodes, w') ∧ only (λ _, False) w w' ∧
    fst <$> nodes = fst <$> signers ∧ Forall (λ x, good_node c x.1 x.2) nodes.
Proof.
  intros Ht Ha Hc Hlt Hg. revert w Ht Ha. induction Hg as [|[i s] signers Hs _ IH]; intros w Ht Ha.
  { exists [], w. split_and!; try done. by apply only_refl. }
  apply Forall_cons in Hlt as [Hi Hlt].
  destruct (sl_join L i rid s c w Hi Ht Ha Hs Hc) as (n & w1 & E1 & Ho & Hn).
  destruct (IH Hlt w1) as (nodes & w' & E' & Ho' & Hf & Hnodes); [apply Ho|by rewrite (on_file _ _ _ Ho) by auto|].
  exists ((i, n) :: nodes), w'. cbn [join_all]. erewrite run_bind by exact E1. cbv beta.
  erewrite run_bind by exact E'. split_and!; [done|by eapply only_trans|simpl; by f_equal|by constructor].
Qed.

Lemma network_start_run fuel order w :
  (0 < fuel)%nat → order ≡ₚ seq 0 N_MEMBERS → tidy w → file_at w run_id_path = None →
  (∀ i q, (i < N_MEMBERS)%nat → own i q → cur_dir w !! q = None) →
  ∃ k c nodes w', network_start fuel order w = (Done (c, nodes), w') ∧
    new (value (run_id_at k) <$> seq 0 N_MEMBERS) = Ok c ∧ good_anchor (run_id_at k) c ∧
    file_at w' anchor_path = Some (to_bytes c) ∧ settled w w' ∧
    fst <$> nodes = order ∧ Forall (λ x, good_node c x.1 x.2) nodes.
Proof.
  intros Hf Hperm Ht Hrun Hs.
  destruct (ensure_run_id_run w Ht Hrun) as (k & w1 & E1 & Ht1 & Hr1 & Hc1 & Hk1).
  set (rid := run_id_at k) in *.
  assert (Hrid : rid ≠ []) by (intros E; pose proof (run_id_length k) as H; unfold rid in E; by rewrite E in H).
  assert (Hlt : Forall (λ i, i < N_MEMBERS)%nat order).
  { rewrite Hperm. apply Forall_forall. intros i Hi%elem_of_seq. lia. }
  assert (Hother : ∀ name, name ≠ RUN_ID → join committee_dir name ≠ run_id_path) by (intros name Hne [= E]; done).
  assert (Hc : collecting (key rid) rid [] w1).
  { split; [done|done| |].
    - intros i Hi. rewrite decide_False by apply not_elem_of_nil. apply file_at_None, Hc1; [done|].
      by apply Hother, key_name_run.
    - intros name Hname. apply Hc1; [done|]. unfold sibling. simpl.
      apply (Hother (temporary name)). apply temporary_apart; [done|apply list_elem_of_here]. }
  destruct (publish_all_run rid [] order w1 Hrid Hc) as (signers & w2 & E2 & Hc2 & Ho2 & Hf2 & Hg2); [..|].
  { rewrite app_nil_r, Hperm. apply NoDup_seq. } { done. }
  { intros i q Hi Hq. rewrite Forall_forall in Hlt. apply Hk1; [|right; by apply (Hs i); [apply Hlt|]].
    intros ->. by apply (sl_own L i _ (Hlt i Hi)) in Hq. }
  destruct (sl_new L k) as (c & Hnew & Hgood).
  destruct (assemble_run decode new to_bytes (key rid) rid (reverse order ++ []) (value rid) c fuel w2 Hf Hc2)
    as (w3 & E3 & Ho3 & Hds3 & Hanchor); [|intros i _; exact (sl_key L rid i)|done|].
  { intros i Hi. rewrite app_nil_r, elem_of_reverse, Hperm. apply elem_of_seq. lia. }
  destruct (join_all_run rid c signers w3 (on_tidy _ _ _ Ho3) Hanchor Hgood) as (nodes & w4 & E4 & Ho4 & Hf4 & Hg4); [|done|].
  { apply (Forall_fmap fst (λ i, (i < N_MEMBERS)%nat)). by rewrite Hf2. }
  exists k, c, nodes, w4. unfold network_start. erewrite run_bind by exact E1. cbv beta.
  erewrite run_bind by exact E2. cbv beta. erewrite run_bind by exact E3. cbv beta.
  erewrite run_bind by exact E4. split_and!; [done|done|done|by rewrite (on_file _ _ _ Ho4) by auto| |by rewrite Hf4|done].
  split; [apply Ho4| |].
  - destruct (on_synced _ _ _ Ho4) as [E|E]; [|done]. rewrite E, Hds3. unfold cur_dir. by rewrite E, Hds3.
  - intros q Hq Hclear. rewrite (on_dir _ _ _ Ho4) by auto.
    rewrite (on_dir _ _ _ Ho3) by (intros E; apply Hq; by left). rewrite (on_dir _ _ _ Ho2) by done.
    apply Hk1; [|done]. intros ->. apply Hq. by left.
Qed.
End start.
End network.

(** ** The XMSS network *)

Section xmss_network.
Context `{HH : Hashes} `{XX : Xmss} `{XK : !XmssKeys} `{SC : !Ssz CommitteeWire} `{VV : Volumes}.
Context `{CC : Clock} `{RI : RunIds} `{LC : !SszLaws CommitteeWire wf_committee_wire}.
Context (Hsize : ∀ w : CommitteeWire,
  Z.of_nat (length (as_ssz_bytes w)) = 16 + 32 * Z.of_nat (length (cw_members w))).

Abbreviation KeyPair := (XmssSecretKey * XmssPublicKey)%type.

(** Member [i] has a state volume of its own. *)
Definition member_volumes (states : nat → list string) (i : nat) : Volumes := {|
  Storage.committee_dir := committee_dir; Storage.storage_dir := storage_dir; Storage.state_dir := states i
|}.

Context (states : nat → list string) (secrets : nat → string) (modes : nat → Mode) (fuel : nat).

Definition xmss_network_start (order : list nat) : io string (Committee * list (nat * Node)) :=
  network_start decode_key (λ members, committee_new members (Z.of_nat THRESHOLD) SLOT) committee_to_bytes
    (λ i, member_publish (VV := member_volumes states i) fuel i (secrets i))
    (λ i s, member_join (VV := member_volumes states i) fuel i (modes i) s) fuel order.

(** The keys of a run. *)
Context (keys : bytes → nat → KeyPair).
Context (Hkeys : ∀ rid i,
  key_gen_from_seed (member_seed (secrets i) rid i) SLOT (SLOT + KEY_SLOTS) = Ok (keys rid i)).
Context (Hdistinct : ∀ k, NoDup ((λ i, (keys (run_id_at k) i).2) <$> seq 0 N_MEMBERS)).

Definition member_ready (rid : bytes) (i : nat) (s : SignerNode) : Prop :=
  pk s = (keys rid i).2 ∧ sk s = (keys rid i).1 ∧ next (a_slot_counter s) = SLOT ∧
  end_ (a_slot_counter s) = SLOT + KEY_SLOTS.

(** The anchor names every member's key at its index. *)
Definition anchor_of (rid : bytes) (c : Committee) : Prop :=
  wf_committee c ∧ members c = (λ i, (keys rid i).2) <$> seq 0 N_MEMBERS ∧
  threshold c = Z.of_nat THRESHOLD ∧ genesis_slot c = SLOT.

Definition joined (c : Committee) (i : nat) (n : Node) : Prop :=
  n_index n = i ∧ n_mode n = modes i ∧ n_committee n = c ∧ members c !! i = Some (pk (n_signer n)) ∧
  next (a_slot_counter (n_signer n)) = SLOT ∧ n_round_poisoned n = false.

Lemma member_publish_run i rid done w :
  (0 < fuel)%nat → (i < N_MEMBERS)%nat → rid ≠ [] →
  collecting (λ i, xmss_pk_ssz (keys rid i).2) rid done w → i ∉ done → states i ≠ committee_dir →
  (∀ q, q.1 = states i → cur_dir w !! q = None) →
  ∃ s w', member_publish (VV := member_volumes states i) fuel i (secrets i) w = (Done s, w') ∧
    only (own_paths (λ q, q.1 = states i) i) w w' ∧ file_at w' (key_path i) = Some (xmss_pk_ssz (keys rid i).2) ∧
    cur_dir w' !! sibling (key_path i) "tmp" = None ∧ member_ready rid i s.
Proof.
  intros Hf Hi Hrid [Ht Hr Hk Htmp] Hn Hs Hst. unfold member_publish, wait_for_run_id.
  destruct (wait_for_run fuel run_id_path BOOTSTRAP_WAIT rid w) as (w1 & E1 & H1); [done..|].
  erewrite run_bind by (apply run_map_err; exact E1). cbv beta.
  rewrite Hkeys. cbn [map_err]. rewrite lift_Ok. destruct (keys rid i) as [sec pub] eqn:Ekeys. cbv beta iota.
  destruct (publish_key_run i (xmss_pk_ssz pub) w1) as (w2 & E2 & H2 & Hfile2 & Htmp2).
  { apply H1. } { rewrite (on_file _ _ _ H1), Hk, decide_False by auto. done. }
  { rewrite (on_dir _ _ _ H1) by auto. apply (Htmp (key_name i)). by apply key_name_in. }
  erewrite run_bind by exact E2. cbv beta.
  set (state := join (states i) "slot-counter"). change (join state_dir "slot-counter") with state.
  assert (Hnone : ∀ q, q.1 = states i → cur_dir w2 !! q = None).
  { intros q Hq. rewrite (on_dir _ _ _ H2), (on_dir _ _ _ H1) by (auto || (intros [->| ->]; by apply Hs)).
    by apply Hst. }
  assert (Hex : path_exists (E := string) state w2 = (Done false, w2)).
  { unfold path_exists. rewrite Hnone by done. rewrite bool_decide_eq_false_2 by (by intros []).
    by rewrite andb_false_r. }
  erewrite run_bind by exact Hex. cbv beta iota.
  destruct (create_only state pub SLOT (SLOT + KEY_SLOTS) w2 (on_tidy _ _ _ H2)) as (c & w3 & E3 & H3 & Hnext & Hend);
    [by apply Hnone..|].
  erewrite run_bind by (apply run_map_err; exact E3). cbv beta.
  exists (mkSignerNode pub sec c), w3. split; [done|]. split_and!.
  - eapply only_trans; [eapply only_mono; [|exact H1]; done|].
    eapply only_trans; [eapply only_mono; [|exact H2]|eapply only_mono; [|exact H3]]; unfold own_paths; tauto.
  - rewrite (on_file _ _ _ H3); [done|]. by apply not_eq_sym.
  - rewrite (on_dir _ _ _ H3); [done|]. by apply not_eq_sym.
  - unfold member_ready. by rewrite Ekeys.
Qed.

Lemma anchor_of_new k :
  ∃ c, committee_new ((λ i, (keys (run_id_at k) i).2) <$> seq 0 N_MEMBERS) (Z.of_nat THRESHOLD) SLOT = Ok c ∧
    anchor_of (run_id_at k) c.
Proof.
  set (ms := _ <$> seq 0 N_MEMBERS).
  set (c := mkCommittee ms (Z.of_nat THRESHOLD) SLOT (fingerprint_of ms (Z.of_nat THRESHOLD) SLOT)).
  assert (Hl : length ms = N_MEMBERS) by (unfold ms; by rewrite length_fmap, length_seq).
  assert (Hc : wf_committee c).
  { split; simpl; rewrite ?Hl; [by unfold THRESHOLD, N_MEMBERS; lia|by apply Nat.leb_le; vm_compute| |done|done].
    apply Hdistinct. }
  exists c. split; [|by split_and!]. by apply committee_new_ok.
Qed.

Lemma member_join_run i rid s c w :
  (0 < fuel)%nat → (i < N_MEMBERS)%nat → tidy w → file_at w anchor_path = Some (committee_to_bytes c) →
  member_ready rid i s → anchor_of rid c →
  ∃ n w', member_join (VV := member_volumes states i) fuel i (modes i) s w = (Done n, w') ∧
    only (λ _, False) w w' ∧ joined c i n.
Proof.
  intros Hf Hi Ht Ha (Hpk & _ & Hn & _) (Hc & Hm & _).
  assert (Hne : committee_to_bytes c ≠ []).
  { intros E. pose proof (Hsize (mkCommitteeWire (members c) (t c) (genesis_slot c))) as H.
    change (as_ssz_bytes _) with (committee_to_bytes c) in H. rewrite E in H. simpl in H. lia. }
  destruct (wait_for_run fuel anchor_path BOOTSTRAP_WAIT _ w Hf Ht Ha Hne) as (w' & E & Ho).
  assert (Hlk : members c !! i = Some (pk s)) by (rewrite Hm, list_lookup_fmap, lookup_seq_lt, Hpk by done; done).
  eexists _, w'. split; [|split; [exact Ho|]].
  - unfold member_join. erewrite run_bind.
    2:{ apply run_map_err. unfold wait_for_committee. erewrite run_bind by (apply run_map_err; exact E).
      rewrite committee_from_to by done. done. }
    cbv beta. rewrite bool_decide_eq_true_2; [done|]. by apply position_spec; [apply Hc|].
  - by split_and!.
Qed.

(** C15 The network starts: over empty volumes, with one state volume per member,
    keys that are generated and distinct, and no failing call, the bootstrap and
    the ten members run to their end in whatever order the members publish; the
    anchor on the volume is the seven-of-ten committee that names every member's
    key at its own index, and every member has joined exactly that committee with
    a counter at the first slot. *)
Theorem network_starts order w :
  (0 < fuel)%nat → order ≡ₚ seq 0 N_MEMBERS → tidy w → file_at w run_id_path = None →
  (∀ i, (i < N_MEMBERS)%nat → states i ≠ committee_dir) →
  (∀ i j, (i < N_MEMBERS)%nat → (j < N_MEMBERS)%nat → states i = states j → i = j) →
  (∀ i q, (i < N_MEMBERS)%nat → q.1 = states i → cur_dir w !! q = None) →
  ∃ k c nodes w', xmss_network_start order w = (Done (c, nodes), w') ∧ anchor_of (run_id_at k) c ∧
    file_at w' anchor_path = Some (committee_to_bytes c) ∧
    fst <$> nodes = order ∧ Forall (λ x, joined c x.1 x.2) nodes.
Proof.
  intros Hf Hperm Ht Hrun Hs Hinj Hempty.
  destruct (network_start_run decode_key (λ members, committee_new members (Z.of_nat THRESHOLD) SLOT)
    committee_to_bytes (λ i, member_publish (VV := member_volumes states i) fuel i (secrets i))
    (λ i s, member_join (VV := member_volumes states i) fuel i (modes i) s)
    (λ rid i, xmss_pk_ssz (keys rid i).2) (λ rid i, (keys rid i).2) (λ i q, q.1 = states i) member_ready anchor_of joined)
    with (fuel := fuel) (order := order) (w := w) as (k & c & nodes & w' & E & _ & Ha & Hfile & _ & Hrest); try done.
  - split.
    + intros i q Hi ->. by apply Hs.
    + intros i j q Hi Hj E E'. apply Hinj; congruence.
    + intros rid i. split.
      * intros E. pose proof (xmss_pk_ssz_length (keys rid i).2) as H. by rewrite E in H.
      * unfold decode_key. by rewrite xmss_pk_from_as.
    + intros i rid done' w0 Hi Hrid Hc Hn He. apply (member_publish_run i rid done'); auto.
    + apply anchor_of_new.
    + intros i rid s c w0 Hi Ht0 Hfile Hgs Hga. by apply (member_join_run i rid s c w0).
  - by exists k, c, nodes, w'.
Qed.
End xmss_network.

(** ** The ML-DSA network *)

Section ml_network.
Context `{HH : Hashes} `{ML : MlDsa} `{SMC : !Ssz MlCommitteeWire} `{VV : Volumes} `{CC : Clock} `{RI : RunIds}.
Context `{LMC : !SszLaws MlCommitteeWire wf_ml_committee_wire}.
Context (ml_committee_size : ∀ w : MlCommitteeWire, wf_ml_committee_wire w →
  Z.of_nat (length (as_ssz_bytes w)) =
    ML_COMMITTEE_FIXED_WIRE_BYTES + PUBLIC_KEY_BYTES * Z.of_nat (length (mcw_members w))).
Context (secrets : nat → string) (fuel : nat).

Definition ml_network_start (order : list nat) : io string (MlCommittee * list (nat * MlNode)) :=
  network_start ml_decode_key
    (λ members, map_err (λ e, "invalid ML-DSA committee: " +:+ e)%string
                  (ml_committee_new members (Z.of_nat THRESHOLD)))
    ml_committee_to_bytes (λ i, ml_member_publish fuel i (Some (secrets i))) (λ i s, ml_member_join fuel i s) fuel order.

(** The signer of member [i] in a run. *)
Definition ml_signer_of (rid : bytes) (i : nat) : MlDsa65Signer := from_seed (scheme_seed (secrets i) rid i).
Context (Hdistinct : ∀ k, NoDup ((λ i, ml_public_key (ml_signer_of (run_id_at k) i)) <$> seq 0 N_MEMBERS)).

Definition ml_anchor_of (rid : bytes) (c : MlCommittee) : Prop :=
  wf_ml_committee c ∧ ml_members c = (λ i, ml_public_key (ml_signer_of rid i)) <$> seq 0 N_MEMBERS ∧
  ml_threshold c = Z.of_nat THRESHOLD.

Definition ml_joined (c : MlCommittee) (i : nat) (n : MlNode) : Prop :=
  mn_index n = i ∧ mn_committee n = c ∧ ml_members c !! i = Some (ml_public_key (mn_signer n)) ∧
  mn_round_poisoned n = false.

Lemma ml_member_publish_run i rid done w :
  (0 < fuel)%nat → (i < N_MEMBERS)%nat → rid ≠ [] →
  collecting (λ i, encode_public_key (ml_public_key (ml_signer_of rid i))) rid done w → i ∉ done →
  ∃ s w', ml_member_publish fuel i (Some (secrets i)) w = (Done s, w') ∧ only (own_paths (λ _, False) i) w w' ∧
    file_at w' (key_path i) = Some (encode_public_key (ml_public_key (ml_signer_of rid i))) ∧
    cur_dir w' !! sibling (key_path i) "tmp" = None ∧ s = ml_signer_of rid i.
Proof.
  intros Hf Hi Hrid [Ht Hr Hk Htmp] Hn. unfold ml_member_publish, wait_for_run_id.
  destruct (wait_for_run fuel run_id_path BOOTSTRAP_WAIT rid w) as (w1 & E1 & H1); [done..|].
  erewrite run_bind by (apply run_map_err; exact E1). cbv beta. cbn [required ok_or]. rewrite lift_Ok. cbv beta zeta.
  fold (ml_signer_of rid i).
  destruct (publish_key_run i (encode_public_key (ml_public_key (ml_signer_of rid i))) w1) as (w2 & E2 & H2 & Hfile2 & Htmp2).
  { apply H1. } { rewrite (on_file _ _ _ H1), Hk, decide_False by auto. done. }
  { rewrite (on_dir _ _ _ H1) by auto. apply (Htmp (key_name i)). by apply key_name_in. }
  erewrite run_bind by exact E2. eexists _, w2. split; [done|]. split_and!; [|done..].
  eapply only_trans; [eapply only_mono; [|exact H1]; done|].
  eapply only_mono; [|exact H2]. unfold own_paths. tauto.
Qed.

Lemma ml_anchor_of_new k :
  ∃ c, map_err (λ e, "invalid ML-DSA committee: " +:+ e)%string
         (ml_committee_new ((λ i, ml_public_key (ml_signer_of (run_id_at k) i)) <$> seq 0 N_MEMBERS)
            (Z.of_nat THRESHOLD)) = Ok c ∧ ml_anchor_of (run_id_at k) c.
Proof.
  set (ms := _ <$> seq 0 N_MEMBERS).
  set (c := mkMlCommittee ms (Z.of_nat THRESHOLD)
    (anchor_id_from_canonical_bytes (wire_bytes ms (Z.of_nat THRESHOLD)))).
  assert (Hl : length ms = N_MEMBERS) by (unfold ms; by rewrite length_fmap, length_seq).
  assert (Hc : wf_ml_committee c).
  { split; unfold member_count; simpl; rewrite ?Hl; [by unfold THRESHOLD, N_MEMBERS; lia| | |done].
    - by apply Nat.leb_le; vm_compute.
    - apply Hdistinct. }
  exists c. split; [|by split_and!]. by rewrite (proj2 (ml_committee_new_ok ms (Z.of_nat THRESHOLD) c)).
Qed.

Lemma ml_member_join_run i rid c w :
  (0 < fuel)%nat → (i < N_MEMBERS)%nat → tidy w → file_at w anchor_path = Some (ml_committee_to_bytes c) →
  ml_anchor_of rid c →
  ∃ n w', ml_member_join fuel i (ml_signer_of rid i) w = (Done n, w') ∧ only (λ _, False) w w' ∧ ml_joined c i n.
Proof.
  intros Hf Hi Ht Ha (Hc & Hm & _).
  assert (Hne : ml_committee_to_bytes c ≠ []).
  { intros E. pose proof (ml_committee_size _ (wf_ml_committee_wire_of c Hc)) as H.
    change (as_ssz_bytes _) with (ml_committee_to_bytes c) in H. rewrite E in H.
    unfold ML_COMMITTEE_FIXED_WIRE_BYTES, PUBLIC_KEY_BYTES in H. simpl in H. lia. }
  destruct (wait_for_run fuel anchor_path BOOTSTRAP_WAIT _ w Hf Ht Ha Hne) as (w' & E & Ho).
  assert (Hlk : ml_members c !! i = Some (ml_public_key (ml_signer_of rid i)))
    by (rewrite Hm, list_lookup_fmap, lookup_seq_lt by done; done).
  eexists _, w'. split; [|split; [exact Ho|]].
  - unfold ml_member_join. erewrite run_bind by (apply run_map_err; exact E). cbv beta.
    rewrite (ml_committee_from_to ml_committee_size) by done. cbn [map_err]. rewrite lift_Ok. cbv beta.
    rewrite bool_decide_eq_true_2; [done|]. by apply position_spec; [apply Hc|].
  - by split_and!.
Qed.

(** The ML-DSA network starts in the same way: over empty volumes, with distinct
    keys and no failing call, the bootstrap and the ten members run to their end
    in whatever order they publish; the anchor on the volume is the seven-of-ten
    committee that names every member's key at its own index, and every member has
    joined exactly that committee, and what is left is one durable version of the
    volumes, with nothing published. *)
Lemma ml_network_starts order w :
  (0 < fuel)%nat → order ≡ₚ seq 0 N_MEMBERS → tidy w → file_at w run_id_path = None →
  ∃ k c nodes w', ml_network_start order w = (Done (c, nodes), w') ∧ ml_anchor_of (run_id_at k) c ∧
    file_at w' anchor_path = Some (ml_committee_to_bytes c) ∧ settled (λ _ _, False) w w' ∧
    fst <$> nodes = order ∧ Forall (λ x, ml_joined c x.1 x.2) nodes.
Proof.
  intros Hf Hperm Ht Hrun.
  destruct (network_start_run ml_decode_key
    (λ members, map_err (λ e, "invalid ML-DSA committee: " +:+ e)%string
                  (ml_committee_new members (Z.of_nat THRESHOLD)))
    ml_committee_to_bytes (λ i, ml_member_publish fuel i (Some (secrets i))) (λ i s, ml_member_join fuel i s)
    (λ rid i, encode_public_key (ml_public_key (ml_signer_of rid i)))
    (λ rid i, ml_public_key (ml_signer_of rid i)) (λ _ _, False) (λ rid i s, s = ml_signer_of rid i) ml_anchor_of ml_joined)
    with (fuel := fuel) (order := order) (w := w) as (k & c & nodes & w' & E & _ & Ha & Hrest); try done.
  - split; [by intros ? ? _ []|by intros ? ? ? _ _ []|..].
    + intros rid i. split.
      * intros E. pose proof (ml_pk_encode_length (ml_public_key (ml_signer_of rid i))) as H.
        unfold encode_public_key in E. by rewrite E in H.
      * unfold ml_decode_key, encode_public_key at 1. rewrite ml_pk_encode_length.
        by rewrite (proj2 (decode_public_key_Ok _ _) eq_refl).
    + intros i rid done' w0 Hi Hrid Hc Hn _. by apply (ml_member_publish_run i rid done').
    + apply ml_anchor_of_new.
    + intros i rid s c w0 Hi Ht0 Hfile -> Hga. by apply (ml_member_join_run i rid c w0).
  - by exists k, c, nodes, w'.
Qed.
End ml_network.
