(* ===== verification/HolderMain.v ===== *)
(** * The start of the relying parties (demo/src/bin/holder.rs, mldsa_holder.rs)

    [main] and [Node::build]: node A waits for the anchor, provisions or opens its
    durable mark, and serves triggers or runs one round; a process with
    HOLDER_TRIGGER set is a client of the resident one.  Printing is left out and
    the listener is the sequence of its connections; a panic is an error. *)
From S2P Require Import Prelude Fs External Atomic Freshness Seats StatusLists Committees Verifiers.
From S2P Require Import MlStatusLists MlCommittees Nodes Wire Network Storage Holder MlHolder Instances SlotCounter.
From S2P Require Import Signer Boot.

Open Scope Z_scope.

Definition ANCHOR_WAIT : nat := Z.to_nat (300 * 1000).

(** The variables of the process: the values that are set, and which flags are. *)
Record HolderEnv := mkHolderEnv {
  he_mode : option string;
  he_subject : option string;
  he_trigger : option string;
  he_state_mode : option string;
  he_target_member : option string;
  he_serve : bool;
  he_verify_only : bool;
}.

(** How a process ends: as a client with an exit code, having served the
    connections that arrived, or after one round. *)
Inductive HolderRun (N : Type) :=
| Triggered (code : Z)
| Resident (answers : list (option bytes)) (n : N)
| OneShot (verdict : result string string) (n : N).
Arguments Triggered {N} code.
Arguments Resident {N} answers n.
Arguments OneShot {N} verdict n.

Definition subject_of (env : HolderEnv) : string := default "did:demo:alice"%string (he_subject env).

Definition one_shot_action (env : HolderEnv) : Action :=
  if he_verify_only env then ActionVerify else ActionIssue (subject_of env).

Section holder_main.
Context `{HH : Hashes} `{VV : Volumes} `{CC : Clock}.

Definition highwater_path : path := join state_dir "highwater".

(** The mark, as HOLDER_STATE_MODE says; [open] unless it is set. *)
Definition provision (state_mode : option string) (anchor : bytes) : io string HighWaterMark :=
  let state_mode := default "open"%string state_mode in
  let failed (e : HighWaterMarkError) := ("cannot " +:+ state_mode +:+ " high-water mark")%string in
  if bool_decide (state_mode = "create"%string) then io_map_err failed (mark_create highwater_path anchor)
  else if bool_decide (state_mode = "open"%string) then io_map_err failed (mark_open highwater_path anchor)
  else throw ("invalid HOLDER_STATE_MODE=" +:+ state_mode)%string.

(** ** XMSS *)

Section xmss.
Context `{XX : Xmss} `{VM : !LeanVm} `{BL : BitListOps}.
Context `{SR : !Ssz RawStatusListWire} `{SS : !Ssz SnarkStatusListWire} `{SC : !Ssz CommitteeWire}.
Context `{SQ : !Ssz StatusRequest} `{SU : !Ssz StatusUpdated} `{SF : !Ssz Failure} `{OT : OsText}.

Abbreviation XmssHolder := (HolderNode (G := HighWaterMark)).

(** [Node::build]. *)
Definition holder_build (state_mode : option string) (mode : Mode) (c : Committee) : io string XmssHolder :=
  mark ← provision state_mode (committee_to_bytes c);
  mret match mode with
       | ModeRaw => HRaw (raw_node_new c mark)
       | ModeSnark => HSnark (snark_node_new c mark)
       end.

(** [main]. *)
Definition holder_main (dial : nat → io string (bytes → io string bytes))
    (dial_holder : io string (bytes → io string bytes)) (fuel : nat) (env : HolderEnv) (streams : list bytes) :
    io string (HolderRun XmssHolder) :=
  mode ← lift (mode_from_env (he_mode env));
  match he_trigger env with
  | Some kind => code ← trigger dial_holder kind (subject_of env); mret (Triggered code)
  | None =>
      c ← io_map_err (λ e, "no anchor to trust: " +:+ e)%string (wait_for_committee fuel ANCHOR_WAIT);
      node ← holder_build (he_state_mode env) mode c;
      if he_serve env then
        '(answers, node) ← no_panic (serve_triggers dial (he_target_member env) node (subject_of env) streams);
        mret (Resident answers node)
      else
        '(verdict, node) ← no_panic (run_round dial (he_target_member env) node (one_shot_action env));
        mret (OneShot verdict node)
  end.
End xmss.

(** ** ML-DSA *)

Section mldsa.
Context `{ML : MlDsa} `{BL : BitListOps}.
Context `{SM : !Ssz MlStatusListWire} `{SMC : !Ssz MlCommitteeWire} `{SST : !SszEncode StatementWire}.
Context `{SQ : !Ssz StatusRequest} `{SU : !Ssz StatusUpdated} `{SF : !Ssz Failure} `{OT : OsText}.

Abbreviation MlDsaHolder := (MlHolder (G := HighWaterMark)).

(** [Node::build]; the mark is bound to the bytes of the anchor that was read. *)
Definition ml_holder_build (state_mode : option string) (c : MlCommittee) (anchor : bytes) :
    io string MlDsaHolder :=
  mark ← provision state_mode anchor;
  mret (mkMlHolder (mkMlVerifier c) mark).

(** [main] up to the built node. *)
Definition ml_holder_start (fuel : nat) (state_mode : option string) : io string MlDsaHolder :=
  anchor ← io_map_err (λ e, "no ML-DSA anchor: " +:+ wait_text e)%string (wait_for fuel anchor_path ANCHOR_WAIT);
  c ← lift (map_err (λ e, "invalid ML-DSA anchor: " +:+ e)%string (ml_committee_from_bytes anchor));
  ml_holder_build state_mode c anchor.

(** [main]. *)
Definition ml_holder_main (dial : nat → io string (bytes → io string bytes))
    (dial_holder : io string (bytes → io string bytes)) (fuel : nat) (env : HolderEnv) (streams : list bytes) :
    io string (HolderRun MlDsaHolder) :=
  match he_trigger env with
  | Some kind => code ← ml_trigger dial_holder kind (subject_of env); mret (Triggered code)
  | None =>
      node ← ml_holder_start fuel (he_state_mode env);
      if he_serve env then
        '(answers, node) ← no_panic (ml_serve_triggers dial (he_target_member env) node (subject_of env) streams);
        mret (Resident answers node)
      else
        '(verdict, node) ← no_panic (ml_run_round dial (he_target_member env) node (one_shot_action env));
        mret (OneShot verdict node)
  end.
End mldsa.
End holder_main.
