(* ===== verification/FirstCredential.v ===== *)
(** * From empty volumes to the first credential

    The ML-DSA network as a whole, when no call of the operating system fails: the
    bootstrap and the ten members of [Boot] start, node A of [HolderMain] provisions
    its mark on its own volume, and its first round of [MlRuns] goes through. *)
From S2P Require Import Prelude Fs External Instances Atomic SlotCounter Freshness FreshnessSystem SlotRuns FreshnessRuns Seats StatusLists.
From S2P Require Import MlStatusLists Committees Verifiers MlCommittees Nodes Wire Credentials Network Storage.
From S2P Require Import Rounds MlMember Holder MlHolder MlRuns Boot BootRuns HolderMain.

Open Scope Z_scope.

Section first_credential.
Context `{HH : Hashes} `{ML : MlDsa} `{BL : BitListOps}.
Context `{SM : !Ssz MlStatusListWire} `{SMC : !Ssz MlCommitteeWire} `{SST : !SszEncode StatementWire}.
Context `{SQ : !Ssz StatusRequest} `{SP : !Ssz Proposal} `{SU : !Ssz StatusUpdated}.
Context `{SF : !Ssz Failure} `{SG : !Ssz MlDsaSignatureReply}.
Context `{VV : Volumes} `{CC : Clock} `{RI : RunIds} `{JC : Jcs} `{IS : IdSource} `{OT : OsText} `{RG : OsRng}.

(** ** The connected network *)

(** The process of member [i] that runs over [net]. *)
Definition dial_member (nodes : list (nat * MlNode)) (net : nat → Net) (i : nat) :
    io string (bytes → io string bytes) :=
  match (list_to_map nodes : gmap nat MlNode) !! i with
  | Some n => ml_connection (net i) n
  | None => throw "connection refused"%string
  end.

(** A member asked for a signature dials nobody. *)
Definition no_net (_ : nat) : Net := mkNet (λ _, throw "not dialed"%string) [] 0.

(** Member [i] coordinates: it dials its peers, whose answers come in the order
    [arrivals i], [in_time i] of them within the window. *)
Definition member_net (arrivals : nat → list nat) (in_time : nat → nat) (nodes : list (nat * MlNode))
    (i : nat) : Net :=
  mkNet (dial_member nodes no_net) (arrivals i) (in_time i).

(** The network starts, node A starts over a new mark and runs one round. *)
Definition first_credential (secrets : nat → string) (arrivals : nat → list nat) (in_time : nat → nat)
    (fuel : nat) (order : list nat) (subject : string) : io string (HolderRun (MlHolder (G := HighWaterMark))) :=
  '(_, nodes) ← ml_network_start secrets fuel order;
  ml_holder_main (dial_member nodes (member_net arrivals in_time nodes)) (throw "not dialed"%string) fuel
    (mkHolderEnv None (Some subject) None (Some "create"%string) None false false) [].

(** ** Node A's mark beside the storage volume *)

Context (apart : state_dir ≠ storage_dir).

Section mark.
Context (anchor : bytes).

(** The mark is open and nothing was accepted; no temporary file is left. *)
Record fresh_mark (m : HighWaterMark) (w : world) : Prop := {
  fm_holding : holding highwater_path anchor None m w;
  fm_tmp : cur_dir w !! sibling highwater_path "tmp" = None;
  fm_record : cur_dir w !! sibling record_path "tmp" = None;
}.

Lemma replaced_gone p b w w' : replaced p b w w' → cur_dir w' !! sibling p "tmp" = None.
Proof.
  intros Hr. rewrite (replaced_dir _ _ _ _ Hr). pose proof (sibling_ne p "tmp").
  by rewrite lookup_insert_ne, lookup_delete_eq.
Qed.

(** A publication leaves the mark alone. *)
Lemma fresh_mark_undisturbed m : undisturbed (fresh_mark m).
Proof.
  split.
  - intros k w [[[] Hq [? ? [] ?] ? ?] ? ?]. by split; [split; [split|..]|..].
  - intros o b w [[Hw Hq [Hp Hf [Hl Hin] Ha] Hc He] Ht Hrt] Hs.
    destruct (write_atomic_replaced record_path b w Hq Hrt) as (w' & E & Hr).
    unfold publish. erewrite run_bind by exact E. cbn [snd mret io_ret].
    destruct (replaced_frame highwater_path record_path b w w' (marks anchor None) Hr) as (Hw' & He' & Hd); [done..|].
    split; [|by rewrite Hd|by eapply replaced_gone].
    split; [done|apply Hr| |done|done]. split; [done|done| |done].
    split; [by rewrite Hd|by rewrite (rp_locks _ _ _ _ Hr)].
Qed.

(** The mark takes the first version, and the storage volume shows what it showed. *)
Lemma fresh_mark_takes m : takes (fresh_mark m) m 0.
Proof.
  intros o w [[[Hw Hq [Hp Hf Hl Ha] Hc He] Ht Hrt] [Hrw _ Hs]]. simpl. unfold try_advance.
  unfold current in Hc. destruct (hw_have m) eqn:Hh; [done|]. cbn [andb].
  destruct (persist_run m (Some 0) w) as (b & w' & E & Hr); [done|by rewrite Hp|].
  erewrite run_bind by exact E. split; [by eexists|].
  destruct (replaced_frame record_path (hw_path m) b w w' (λ o', o' = (λ b, [b]) <$> o) Hr) as (Hw' & He' & _);
    [|done|exact Hs|].
  { rewrite Hp. simpl. by apply not_eq_sym. }
  split; [done|apply Hr|exact He'].
Qed.

(** *** Provisioning *)

(** A path that no version of the directory shows. *)
Lemma absent_wf p w :
  w_dirs w ≠ [] → (∀ d, d ∈ w_dirs w → d !! p = None) →
  (∀ d q i, d ∈ w_dirs w → d !! q = Some i → (i < w_next w)%nat) →
  (∀ i, is_Some (w_nodes w !! i) → (i < w_next w)%nat) → wf_world p w ∧ shows p None w.
Proof.
  intros Hd Hn He Hi. split; [split; try done; intros d i H; by rewrite Hn|].
  intros d H. unfold shown. by rewrite Hn.
Qed.

(** What node A starts over: one version of the directory, with nothing on the
    storage volume and on its own. *)
Record clean (w : world) : Prop := {
  cl_tidy : tidy w;
  cl_dirs : w_dirs w = [cur_dir w];
  cl_state : ∀ q, q.1 = state_dir → cur_dir w !! q = None;
  cl_storage : ∀ q, q.1 = storage_dir → cur_dir w !! q = None;
}.

Lemma provision_run w :
  clean w →
  ∃ m w', provision (Some "create"%string) anchor w = (Done m, w') ∧ fresh_mark m w' ∧ quiet_shows None w'.
Proof.
  intros [[Hq Hd Hn Hl] Hds Hs Hst].
  destruct (create_mark_run highwater_path anchor w) as (m & b & w' & E & Hp & _ & Hr);
    [done|intros Hin%Hl; lia|by apply Hs..|].
  assert (Hwf : wf_world highwater_path w).
  { apply absent_wf; rewrite ?Hds; [done|..|done]; [intros d|intros d q i]; intros ->%list_elem_of_singleton;
      [by apply Hs|apply Hd]. }
  destruct (quiet_create highwater_path anchor w) as (m' & w'' & E' & Hh); [done|done| |by apply Hs|].
  { unfold unlocked. rewrite Hs by done. intros Hin%Hl. lia. }
  rewrite E in E'. injection E' as <- <-. cbv zeta in Hr. set (w1 := with_locks _ _) in Hr.
  destruct (absent_wf record_path w1) as [Hw1 He1]; try (unfold w1; simpl; rewrite ?Hds).
  { done. }
  { intros d [->| ->%list_elem_of_singleton]%elem_of_cons; [|by apply Hst].
    rewrite lookup_insert_ne; [by apply Hst|]. by intros [= E1 _]. }
  { intros d q i [->| ->%list_elem_of_singleton]%elem_of_cons.
    - intros [[_ <-]|[_ Hi%Hd]]%lookup_insert_Some; lia.
    - intros Hi%Hd. lia. }
  { intros i. destruct (decide (i = w_next w)) as [->|]; [lia|]. rewrite lookup_insert_ne by done. intros H%Hn. lia. }
  destruct (replaced_frame record_path highwater_path b w1 w' _ Hr (not_eq_sym apart) Hw1 He1) as (Hw' & He' & Hsame).
  exists m, w'. split; [by apply run_map_err|]. split; [split; [done|by eapply replaced_gone|]|by split; [|apply Hr|]].
  rewrite Hsame by done. change (cur_dir w1) with (<[sibling highwater_path "lock" := w_next w]> (cur_dir w)).
  rewrite lookup_insert_ne; [by apply Hst|]. by intros [= E1 _].
Qed.
End mark.

(** ** The whole run *)

Context `{BLL : !BitListLaws} `{LM : !SszLaws MlStatusListWire wf_ml_wire}.
Context `{LMC : !SszLaws MlCommitteeWire wf_ml_committee_wire}.
Context `{LP : !SszLaws Proposal wf_proposal} `{LQ : !SszLaws StatusRequest wf_status_request}.
Context `{LU : !SszLaws StatusUpdated wf_status_updated}.
Context (ml_ssz_size : ∀ w : MlStatusListWire, wf_ml_wire w →
  Z.of_nat (length (as_ssz_bytes w)) =
    ml_size (bl_len (mw_signers w)) (length (mw_status_list w)) (length (mw_signatures w))).
Context (ml_committee_size : ∀ w : MlCommitteeWire, wf_ml_committee_wire w →
  Z.of_nat (length (as_ssz_bytes w)) =
    ML_COMMITTEE_FIXED_WIRE_BYTES + PUBLIC_KEY_BYTES * Z.of_nat (length (mcw_members w))).
Context (signs : ∀ k s m, ∃ sig,
  ml_sign s (os_random k) m = Some sig ∧ ml_verify (ml_public_key s) m sig = true).
Context (reply_round_trip : ∀ sig,
  let reply := mkMlDsaSignatureReply [ml_sig_encode sig] [] in
  from_ssz_bytes (as_ssz_bytes reply) = Ok reply ∧
  Z.of_nat (length (as_ssz_bytes reply)) ≤ MAX_FRAME).
Context (proposal_size : ∀ p, wf_proposal p →
  Z.of_nat (length (as_ssz_bytes p)) = 8 + 32 * Z.of_nat (length (p_list p))).
Context (request_size : ∀ r, wf_status_request r →
  Z.of_nat (length (as_ssz_bytes r)) = 5 + Z.of_nat (length (sr_data r))).
Context (updated_size : ∀ u, wf_status_updated u →
  Z.of_nat (length (as_ssz_bytes u)) = 8 + Z.of_nat (length (su_credential u))).
Context (secrets : nat → string) (arrivals : nat → list nat) (in_time : nat → nat) (fuel : nat).
Context (Hdistinct : ∀ k,
  NoDup ((λ i, ml_public_key (ml_signer_of secrets (run_id_at k) i)) <$> seq 0 N_MEMBERS)).

(** The coordinator gets at least seven answers of its peers within the window. *)
Definition answers_suffice (i : nat) : Prop :=
  NoDup (arrivals i) ∧ Forall (λ j, j < N_MEMBERS)%nat (arrivals i) ∧
  (THRESHOLD ≤ length (take (in_time i) (arrivals i)))%nat.

(** A joined network has a process for every member. *)
Lemma joined_lookup nodes c i :
  fst <$> nodes ≡ₚ seq 0 N_MEMBERS → Forall (λ x, ml_joined c x.1 x.2) nodes → (i < N_MEMBERS)%nat →
  ∃ n, (list_to_map nodes : gmap nat MlNode) !! i = Some n ∧ ml_joined c i n.
Proof.
  intros Hf Hj Hi. assert (Hin : i ∈ fst <$> nodes) by (rewrite Hf; apply elem_of_seq; lia).
  apply list_elem_of_fmap in Hin as ([i' n] & -> & Hin). exists n. split.
  - apply elem_of_list_to_map_1; [|done]. rewrite Hf. apply NoDup_seq.
  - rewrite Forall_forall in Hj. apply (Hj _ Hin).
Qed.

(** Every member of a network that started can run the round. *)
Lemma joined_can_run nodes k c i subject I :
  undisturbed I → fst <$> nodes ≡ₚ seq 0 N_MEMBERS → Forall (λ x, ml_joined c x.1 x.2) nodes →
  ml_anchor_of secrets (run_id_at k) c → (i < N_MEMBERS)%nat → answers_suffice i →
  string_from_utf8 (string_bytes subject) = Ok subject → subject ≠ ""%string →
  (∀ k, fits_reply (jcs_to_vec (credential_json (random_id k) subject 0 i))) →
  ∃ n, dial_member nodes (member_net arrivals in_time nodes) i =
         ml_connection (member_net arrivals in_time nodes i) n ∧
    can_run c (member_net arrivals in_time nodes i) n (mkStatusRequest ACTION_ISSUE (string_bytes subject))
      None 0 [] I.
Proof.
  intros HI Hf Hj (Hc & Hm & Ht) Hi (Hnd & Hlt & Hen) Hs Hne Hfit.
  destruct (joined_lookup nodes c i Hf Hj Hi) as (n & En & Hidx & Hnc & Hkey & Hp).
  exists n. split; [unfold dial_member; by rewrite En|]. split; [|done|done| |done|].
  - split; [by rewrite Hnc|]. rewrite Hnc. unfold member_count. rewrite Hm, Ht, length_fmap, length_seq. done.
  - left. exists subject. split_and!; [done|done|done|]. intros k'. rewrite Hidx. by split.
  - exists (take (in_time i) (arrivals i)). split; try done.
    + eapply sublist_NoDup; [exact Hnd|apply sublist_take].
    + intros j Hin. assert (Hjn : (j < N_MEMBERS)%nat).
      { rewrite Forall_forall in Hlt. apply Hlt. eapply elem_of_submseteq; [exact Hin|].
        apply sublist_submseteq, sublist_take. }
      destruct (joined_lookup nodes c j Hf Hj Hjn) as (n' & En' & _ & Hnc' & Hkey' & _).
      exists (no_net j), n'. split; [simpl; unfold dial_member; by rewrite En'|by split].
    + intros j b Hin _. rewrite Forall_forall in Hlt.
      destruct (joined_lookup nodes c j Hf Hj (Hlt j Hin)) as (n' & En' & _).
      simpl. unfold dial_member. rewrite En'. by apply ml_peer_settles, entropy_free_calm.
Qed.

(** C14 From empty volumes to the first credential: when no call of the operating
    system fails, the members' keys are distinct, and whichever member coordinates
    hears from seven of its peers in time, then, in whatever order the members come
    up, the bootstrap, the ten members and node A run to their end: the network
    starts, node A provisions its durable mark over the anchor it finds and asks a
    member it draws for a credential; seven members sign version 0, the record is
    published, node A verifies it against its anchor, moves its mark to 0 and
    reports that its credential is present in the authenticated list. *)
Theorem first_credential_issued order subject w :
  (0 < fuel)%nat → order ≡ₚ seq 0 N_MEMBERS → clean w → file_at w run_id_path = None →
  committee_dir ≠ state_dir → committee_dir ≠ storage_dir →
  (∀ i, (i < N_MEMBERS)%nat → answers_suffice i) →
  string_from_utf8 (string_bytes subject) = Ok subject → subject ≠ ""%string →
  5 + Z.of_nat (length (string_bytes subject)) ≤ MAX_FRAME →
  (∀ k i, (i < N_MEMBERS)%nat → fits_reply (jcs_to_vec (credential_json (random_id k) subject 0 i))) →
  ∃ h w', first_credential secrets arrivals in_time fuel order subject w =
      (Done (OneShot (Ok (summary_of 0 "credential issued and present: valid" "high-water now v0")) h), w') ∧
    ml_holder_mark h = Some 0.
Proof.
  intros Hf Hperm [Ht Hds Hst Hsto] Hrun Hcs Hcst Hans Hutf Hne Hlen Hfit.
  destruct (ml_network_starts ml_committee_size secrets fuel Hdistinct order w) as
    (k & c & nodes & w1 & E1 & Ha & Hanchor & [Ht1 Hds1 Hclear] & Hord & Hj); [done..|].
  assert (Hperm' : fst <$> nodes ≡ₚ seq 0 N_MEMBERS) by (by rewrite Hord).
  unfold first_credential. erewrite run_bind by exact E1. cbv beta iota.
  pose proof Ha as (Hc & _).
  assert (Hnb : ml_committee_to_bytes c ≠ []).
  { intros E. pose proof (ml_committee_size _ (wf_ml_committee_wire_of c Hc)) as H.
    change (as_ssz_bytes _) with (ml_committee_to_bytes c) in H. rewrite E in H.
    unfold ML_COMMITTEE_FIXED_WIRE_BYTES, PUBLIC_KEY_BYTES in H. simpl in H. lia. }
  destruct (wait_for_run fuel anchor_path ANCHOR_WAIT _ w1 Hf Ht1 Hanchor Hnb) as (w2 & E2 & H2).
  assert (Hclean : clean w2).
  { split; [apply H2| |intros q Hq..].
    - destruct (on_synced _ _ _ H2) as [E|E]; [|done]. rewrite E, Hds1. unfold cur_dir. by rewrite E, Hds1.
    - rewrite (on_dir _ _ _ H2) by auto. apply Hclear; [|right; by apply Hst].
      intros [E|(? & _ & [])]. by rewrite Hq in E.
    - rewrite (on_dir _ _ _ H2) by auto. apply Hclear; [|by left].
      intros [E|(? & _ & [])]. by rewrite Hq in E. }
  destruct (provision_run (ml_committee_to_bytes c) w2 Hclean) as (m & w3 & E3 & Hm & Hq3).
  set (h := mkMlHolder (mkMlVerifier c) m).
  assert (Es : ml_holder_start fuel (Some "create"%string) w1 = (Done h, w3)).
  { unfold ml_holder_start. erewrite run_bind by (apply run_map_err; exact E2). cbv beta.
    rewrite (ml_committee_from_to ml_committee_size) by done. cbn [map_err]. rewrite lift_Ok. cbv beta.
    unfold ml_holder_build. by erewrite run_bind by exact E3. }
  unfold ml_holder_main. cbn [he_trigger he_state_mode he_serve]. erewrite run_bind by exact Es. cbv beta iota.
  unfold one_shot_action, subject_of. cbn [he_verify_only he_subject he_target_member default from_option].
  pose proof (ml_issue_settles ml_ssz_size signs reply_round_trip proposal_size request_size updated_size
    (dial_member nodes (member_net arrivals in_time nodes)) (member_net arrivals in_time nodes) c h subject None 0 []
    (fresh_mark (ml_committee_to_bytes c) m)) as Hissue.
  specialize (Hissue (fresh_mark_undisturbed _ m) eq_refl eq_refl ltac:(done) Hlen).
  assert (Hrun_w : calm (fresh_mark (ml_committee_to_bytes c) m) None w3) by by split.
  specialize (Hissue (λ i Hi, joined_can_run nodes k c i subject _ (fresh_mark_undisturbed _ m) Hperm' Hj Ha Hi
    (Hans i Hi) Hutf Hne (λ k', Hfit k' i Hi)) (fresh_mark_takes _ m) w3 Hrun_w).
  unfold no_panic, io_map_err. unfold id.
  destruct (ml_run_round _ None h (ActionIssue subject) w3) as [[[r h']|[]|] w'] eqn:Er; [|done].
  destruct Hissue as (h'' & [= -> ->] & Hmark). exists h'', w'. split; [|done].
  erewrite run_bind; [|by rewrite Er]. done.
Qed.
End first_credential.
