(* ===== verification/Probe.v ===== *)
(** * The probe (demo/src/bin/probe.rs)

    The program of an aggregator that misbehaves: it asks one member to sign a
    version directly, with an entry of its own, and tells by its exit code whether
    it got a signature.  Printing is left out; a panic is an error. *)
From S2P Require Import Prelude Fs External Atomic SlotCounter Signer SlotSystem SlotRuns Seats StatusLists.
From S2P Require Import Committees Verifiers Wire Credentials Network Storage Rounds Member Instances Boot.

Open Scope Z_scope.

Record ProbeArgs := mkProbeArgs {
  pa_member : nat;
  pa_label : string;
  pa_version : option Z;
}.

(** The loop over the arguments: a flag takes the next argument, or the empty text
    when there is none. *)
Fixpoint probe_args (args : list string) (a : ProbeArgs) : result ProbeArgs string :=
  match args with
  | [] => Ok a
  | flag :: rest =>
      let value := default ""%string (head rest) in
      let? a :=
        if bool_decide (flag = "--member"%string) then
          let? member := map_err (λ _, "--member takes an index"%string) (parse_unsigned u64_max (str value)) in
          Ok (mkProbeArgs (Z.to_nat member) (pa_label a) (pa_version a))
        else if bool_decide (flag = "--entry"%string) then Ok (mkProbeArgs (pa_member a) value (pa_version a))
        else if bool_decide (flag = "--version"%string) then
          let? version := map_err (λ _, "--version takes a number"%string) (parse_unsigned u32_max (str value)) in
          Ok (mkProbeArgs (pa_member a) (pa_label a) (Some version))
        else Err ("unknown argument " +:+ flag)%string in
      match rest with [] => Ok a | _ :: rest => probe_args rest a end
  end.

(** The version it asks for. *)
Definition probe_version (a : ProbeArgs) (published : Z) : Z :=
  default (wrapping_succ_u32 published) (pa_version a).

Lemma probe_args_version args a a' :
  probe_args args a = Ok a' → (∀ v, pa_version a = Some v → is_u32 v) → ∀ v, pa_version a' = Some v → is_u32 v.
Proof.
  revert a. induction args as [args IH] using (induction_ltof1 _ length). unfold ltof in IH. intros a E Ha.
  destruct args as [|flag rest]; [by injection E as <-|]. cbn [probe_args] in E.
  apply result_bind_Ok in E as (a1 & E1 & E).
  assert (Ha1 : ∀ v, pa_version a1 = Some v → is_u32 v).
  { case_bool_decide; [by apply result_bind_Ok in E1 as (k & _ & [= <-])|].
    case_bool_decide; [by injection E1 as <-|]. case_bool_decide; [|done].
    apply result_bind_Ok in E1 as (k & Ek & [= <-]). intros v [= <-].
    destruct (parse_unsigned u32_max _) as [k'|] eqn:Ep; [|done]. injection Ek as ->.
    by apply parse_unsigned_range in Ep. }
  destruct rest as [|x rest]; [by injection E as <-|]. apply (IH rest ltac:(simpl; lia) _ E Ha1).
Qed.

Lemma probe_version_u32 args a published :
  probe_args args (mkProbeArgs 0 "probe" None) = Ok a → is_u32 (probe_version a published).
Proof.
  intros Ha. pose proof (probe_args_version _ _ _ Ha) as H. unfold probe_version.
  destruct (pa_version a) as [v|]; [by apply H|]. cbn [default from_option].
  unfold wrapping_succ_u32. pose proof (Z.mod_pos_bound (published + 1) (2 ^ 32)). unfold is_u32, u32_max. lia.
Qed.

Section probe.
Context `{HH : Hashes} `{XX : Xmss} `{VM : !LeanVm} `{BL : BitListOps}.
Context `{SR : !Ssz RawStatusListWire} `{SS : !Ssz SnarkStatusListWire} `{SC : !Ssz CommitteeWire}.
Context `{SP : !Ssz Proposal} `{SQ : !Ssz StatusRequest} `{SU : !Ssz StatusUpdated}.
Context `{SF : !Ssz Failure} `{SG : !Ssz SignatureReply}.
Context `{VV : Volumes} `{CC : Clock}.

(** [main], to its exit code. *)
Definition probe_main (dial : nat → io string (bytes → io string bytes)) (fuel : nat)
    (mode : option string) (args : list string) : io string Z :=
  mode ← lift (mode_from_env mode);
  a ← lift (probe_args args (mkProbeArgs 0 "probe" None));
  current ← current_record;
  b ← lift (ok_or current "nothing is published yet; run a normal round first"%string);
  '(published, list) ← lift (map_err (λ e, "the published record does not decode: " +:+ e)%string
                               (decode_list mode b));
  let version := probe_version a published in
  committee ← io_map_err (λ e, "no anchor: " +:+ e)%string (wait_for_committee fuel (Z.to_nat (60 * 1000)));
  let list := list ++ [hash_any (string_bytes (pa_label a))] in
  _ ← lift (ok_or (slot_for committee version) "version has no slot"%string);
  _ ← lift (ok_or (MEMBER_IPS !! pa_member a) "index out of bounds"%string);
  io_catch (request (dial (pa_member a)) MSG_PROPOSAL (as_ssz_bytes (mkProposal version list))) (λ answer,
    match answer with
    | Err _ => mret 1
    | Ok (kind, reply) =>
        if negb (kind =? MSG_SIGNATURE) then mret 1
        else
          reply ← lift (map_err (λ e, "malformed reply: " +:+ e)%string (from_ssz_bytes (A := SignatureReply) reply));
          mret match sr_signature reply with _ :: _ => 0 | [] => 3 end
    end).

Context `{JC : Jcs} `{IS : IdSource} `{OT : OsText}.

(** A connection to a process that runs [serve]. *)
Definition member_connection (net : Net) (window : Z) (n : Node) : io string (bytes → io string bytes) :=
  mret (λ frame, io_catch (serve net window n frame) (λ r,
    match r with
    | Ok (Some reply, _) => mret reply
    | _ => throw "connection closed"%string
    end)).

(** ** What an exit code says *)

Section laws.
Context `{LG : !SszLaws SignatureReply any_value} `{LP : !SszLaws Proposal wf_proposal}.
Context `{BLL : !BitListLaws} `{LR : !SszLaws RawStatusListWire wf_raw_wire}.
Context `{LS : !SszLaws SnarkStatusListWire wf_snark_wire}.

Lemma on_proposal_kind n payload w kind reply n' w' :
  on_proposal n payload w = (Done ((kind, reply), n'), w') → 0 ≤ kind < 256.
Proof.
  unfold on_proposal, refusal, abstention. destruct (from_ssz_bytes payload) as [p|e]; [|by intros [= <- _ _ _]].
  unfold mbind, io_bind. destruct (current_record w) as [[published|[]|] w1]; [|done].
  destruct (following _ _) as [[expected list]|]; [|by intros [= <- _ _ _]].
  destruct (negb _); [by intros [= <- _ _ _]|]. destruct (slot_for _ _); [|by intros [= <- _ _ _]].
  destruct (sign_at _ _ _ w1) as [[[[sig|e] s]|[]|] w2]; [..|done]; by intros [= <- _ _ _].
Qed.

(** A signature in the answer was made now, at a slot the counter had not passed. *)
Lemma member_asked net window n p w0 :
  wf_proposal p → counter_state (n_signer n) w0 →
  match request (member_connection net window n) MSG_PROPOSAL (as_ssz_bytes p) w0 with
  | (Done answer, w) => answer_signature (Ok answer) ≠ None →
      ∃ slot, slot_for (n_committee n) (p_version p) = Some slot ∧
        next (a_slot_counter (n_signer n)) ≤ slot ∧
        w_signed w = (slot, message_for (n_committee n) WotsXmss (p_list p) (p_version p)) :: w_signed w0
  | _ => True
  end.
Proof.
  intros Hp Hc. unfold request, member_connection. unfold mbind at 1, io_bind at 1. cbn [mret io_ret].
  destruct (decide (Z.of_nat (length (as_ssz_bytes p)) ≤ MAX_FRAME)) as [Hb|Hb].
  2:{ unfold send. by rewrite (proj2 (Z.ltb_lt _ _)) by lia. }
  destruct (send_recv MSG_PROPOSAL (as_ssz_bytes p)) as (frame & -> & Hr); [done..|].
  unfold mbind, io_bind, lift, io_catch, serve. rewrite Hr. cbn -[on_proposal answer_signature]. unfold mbind, io_bind.
  pose proof (on_proposal_effect n (as_ssz_bytes p) w0 Hc w0 eq_refl) as H.
  destruct (on_proposal n (as_ssz_bytes p) w0) as [[[[kind payload] n']|[]|] w] eqn:Eo; cbn -[answer_signature]; [|done].
  apply on_proposal_kind in Eo.
  destruct H as (_ & log & Hstep & Heff).
  destruct (decide (Z.of_nat (length payload) ≤ MAX_FRAME)) as [Hb'|Hb'].
  2:{ unfold send. by rewrite (proj2 (Z.ltb_lt _ _)) by lia. }
  destruct (send_recv kind payload) as (answer & -> & Hr'); [done..|]. cbn -[answer_signature]. rewrite Hr'. cbn -[answer_signature]. intros Hsig.
  destruct Heff as [(_ & _ & Hno)|(p' & old & slot & Ep & _ & Hslot & Hmax & -> & _)]; [exfalso; apply Hsig; exact Hno|].
  rewrite (ssz_from_as (wf := wf_proposal)) in Ep by done. injection Ep as <-.
  exists slot. split_and!; [by apply slot_for_spec; subst slot|apply (ss_fresh _ _ _ _ _ Hstep)|apply (ss_signed _ _ _ _ _ Hstep)].
Qed.

(** C16 The probe cannot get a second signature out of a slot: whatever the volumes
    show, whatever fails and whatever entry and version it is told to propose, it
    exits with success only when the member's key was applied by this very request,
    once, to the version it asked for (by default the one after the record it
    read) and to that record's list with its own entry added, at the slot the
    anchor derives for it, and that slot was not below the member's counter. *)
Theorem probe_needs_fresh_slot net window n dial fuel mode args w0 :
  counter_state (n_signer n) w0 → (∀ i, dial i = member_connection net window n) →
  triple (eq w0) (probe_main dial fuel mode args)
    (λ code w, code = 0 → ∃ a m b published list slot,
       probe_args args (mkProbeArgs 0 "probe" None) = Ok a ∧ mode_from_env mode = Ok m ∧
       read_ok record_path w0 = Some b ∧ decode_list m b = Ok (published, list) ∧
       let version := probe_version a published in
       let list := list ++ [hash_any (string_bytes (pa_label a))] in
       slot_for (n_committee n) version = Some slot ∧ next (a_slot_counter (n_signer n)) ≤ slot ∧
       w_signed w = (slot, message_for (n_committee n) WotsXmss list version) :: w_signed w0)
    (λ _, True).
Proof.
  intros Hc Hdial. unfold probe_main.
  apply triple_bind_lift; [|done]. intros m Hm. apply triple_bind_lift; [|done]. intros a Ha.
  eapply triple_bind; [eapply triple_fail; [apply current_record_ok|done]|]. intros current.
  apply triple_pure. intros Hread.
  apply triple_bind_lift; [|done]. intros b Hb. apply triple_bind_lift; [|done]. intros [published list] Hdec.
  destruct (decode_list m b) as [[published' list']|] eqn:Ed; [|done]. injection Hdec as -> ->.
  destruct current as [b'|]; [|done]. injection Hb as ->.
  set (J := λ w, counter_state (n_signer n) w ∧ w_signed w = w_signed w0).
  assert (HJs : schedule_free J) by (intros vs w [[]]; by split).
  assert (HJe : entropy_free J) by (intros vs w [[]]; by split).
  apply (triple_pre J). { intros w [vs ->]. apply HJs. by split. }
  eapply triple_bind.
  { apply triple_map_err. unfold wait_for_committee.
    eapply triple_bind; [apply triple_map_err, (triple_fail _ _ _ _ J); [by apply wait_for_keeps|done]|].
    intros bs. apply (triple_lift _ J (λ _, J)); done. }
  intros c. apply triple_bind_lift; [|done]. intros slot0 _. apply triple_bind_lift; [|done]. intros ip _.
  intros w [Hcw Hlog]. rewrite Hdial. unfold io_catch.
  assert (Hp : wf_proposal (mkProposal (probe_version a published) (list ++ [hash_any (string_bytes (pa_label a))]))).
  { apply decode_list_wf in Ed as [_ Hl]. split.
    - by eapply probe_version_u32.
    - apply Forall_app_2; [done|apply Forall_singleton, sha3_256_length]. }
  pose proof (member_asked net window n _ w Hp Hcw) as H.
  destruct (request _ _ _ w) as [[[kind reply]|e|] w']; [|done..].
  destruct (kind =? MSG_SIGNATURE) eqn:Ek; cbn [negb]; [|done].
  unfold answer_signature in H. rewrite Ek in H. unfold mbind, io_bind, lift.
  destruct (from_ssz_bytes reply) as [r|]; cbn; [|done]. intros Hcode.
  destruct H as (slot & Hslot & Hnext & Hsigned); [by destruct (sr_signature r)|].
  exists a, m, b, published, list, slot. by rewrite Hsigned, Hlog.
Qed.
End laws.
End probe.
