(* ===== verification/MlExamples.v ===== *)
(** * A small ML-DSA committee, evaluated

    Stand-ins for ML-DSA and for the codecs of the three containers at the
    layouts the SSZ specification gives them, and concrete inputs at which the
    hypotheses of the ML-DSA theorems hold. *)
From S2P Require Import Prelude External Instances Seats MlStatusLists MlCommittees.

Open Scope Z_scope.

(** ** Keys and signatures *)

Definition toy_check (m : bytes) : byte :=
  byte_of_Z (foldl (λ acc x, (acc * 31 + Z_of_byte x + 1) mod 251) 7 m).

#[refine] Definition toy_mldsa : MlDsa := {|
  MlPublicKey := byte;
  MlSignature := byte * byte;
  MlSigningKey := byte;
  ml_pk_encode := λ pk, pk :: replicate 1951 Byte.x00;
  ml_pk_decode := λ b, default Byte.x00 (head b);
  ml_sig_encode := λ s, s.1 :: s.2 :: replicate 3307 Byte.x00;
  ml_sig_try_from := λ b, match b with x :: y :: _ => Some (x, y) | _ => None end;
  ml_from_seed := λ b, default Byte.x00 (head b);
  ml_to_seed := λ k, k :: replicate 31 Byte.x00;
  ml_verifying_key := λ k, k;
  ml_try_generate := λ rng, byte_of_Z ∘ Z.of_nat <$> rng;
  ml_sign_randomized := λ rng k m _, (λ _, (k, toy_check m)) <$> rng;
  ml_verify_with_context := λ pk m _ s, bool_decide (s = (pk, toy_check m));
|}.
Proof. all: intros; simpl; rewrite ?length_replicate; try done. by destruct s. Defined.

#[local] Existing Instance toy_hashes.
#[local] Existing Instance toy_mldsa.
#[local] Existing Instance toy_bit_list.
#[local] Existing Instance toy_bit_laws.

(** ** Codecs *)

#[local] Instance toy_statement_ssz : SszEncode StatementWire := {|
  ssz_encode := λ w, [byte_of_Z (st_alg w)] ++ st_anchor_id w ++ u32_le (st_version w) ++
                     u32_le 57 ++ mjoin (st_status_list w)
|}.

Definition offset_signers (w : MlStatusListWire) : Z := 17 + 32 * Z.of_nat (length (mw_status_list w)).
Definition offset_signatures (w : MlStatusListWire) : Z :=
  offset_signers w + (Z.of_nat (bl_len (mw_signers w)) + 8) / 8.

Definition toy_ml_header (w : MlStatusListWire) : bytes :=
  [byte_of_Z (mw_alg w)] ++ u32_le 17 ++ u32_le (mw_version w) ++ u32_le (offset_signers w) ++
  u32_le (offset_signatures w).
Definition toy_ml_bytes (w : MlStatusListWire) : bytes :=
  toy_ml_header w ++ mjoin (mw_status_list w) ++ bitmap_bytes (bl_iter (mw_signers w)) ++
  mjoin (mw_signatures w).

Definition toy_bits_of (l : list bool) : ToyBits := default ([] ↾ (eq_refl : short [])) (toy_bits l).

Definition toy_ml_parse (b : bytes) : MlStatusListWire :=
  let o2 := Z.to_nat (le_val (slice 9 4 b)) in
  let o3 := Z.to_nat (le_val (slice 13 4 b)) in
  mkMlWire (Z_of_byte (default Byte.x00 (head b))) (chunks (length b) 32 (slice 17 (o2 - 17) b))
    (le_val (slice 5 4 b)) (toy_bits_of (pos_bits (Z.to_pos (le_val (slice o2 (o3 - o2) b)))))
    (chunks (length b) 3309 (drop o3 b)).

#[local] Instance wf_ml_wire_dec w : Decision (wf_ml_wire w).
Proof. unfold wf_ml_wire, wf_entries32, is_u32. apply _. Defined.

#[local] Instance toy_ml_ssz : Ssz MlStatusListWire := layout_ssz toy_ml_bytes toy_ml_parse wf_ml_wire.

Lemma length_bitmap_bytes l :
  Z.of_nat (length (bitmap_bytes l)) = (Z.of_nat (length l) + 8) / 8.
Proof.
  unfold bitmap_bytes. rewrite length_le_bytes, Nat2Z.inj_add, Nat2Z.inj_div.
  change (Z.of_nat (length l) + 8) with (Z.of_nat (length l) + 1 * 8). by rewrite Z.div_add.
Qed.

Lemma length_toy_header w : length (toy_ml_header w) = 17%nat.
Proof. unfold toy_ml_header, u32_le. by rewrite !length_app, !length_le_bytes. Qed.

Lemma toy_bits_of_iter (b : ToyBits) : toy_bits_of (proj1_sig b) = b.
Proof.
  unfold toy_bits_of. destruct b as [l Hl]. simpl.
  destruct (toy_bits_Some l) as (b' & -> & E); [by apply Nat.leb_le|]. simpl.
  destruct b' as [l' Hl']. simpl in E. subst l'. f_equal. apply proof_irrel.
Qed.

Lemma toy_ml_size (w : MlStatusListWire) :
  wf_ml_wire w →
  Z.of_nat (length (as_ssz_bytes w)) =
    ml_size (bl_len (mw_signers w)) (length (mw_status_list w)) (length (mw_signatures w)).
Proof.
  intros (_ & He & _ & Hs & _). change (as_ssz_bytes w) with (toy_ml_bytes w).
  unfold toy_ml_bytes, ml_size. rewrite !length_app, length_toy_header, (length_mjoin 32) by done.
  rewrite (length_mjoin (Z.to_nat SIGNATURE_BYTES)) by done.
  rewrite !Nat2Z.inj_add, length_bitmap_bytes. unfold SIGNATURE_BYTES.
  rewrite !Nat2Z.inj_mul. change (Z.of_nat (Z.to_nat 3309)) with 3309.
  change (bl_len (mw_signers w)) with (length (bl_iter (mw_signers w))). lia.
Qed.

(** The header's fields, each where the schema puts it. *)
Lemma toy_header_fields w rest :
  let b := toy_ml_header w ++ rest in
  default Byte.x00 (head b) = byte_of_Z (mw_alg w) ∧
  slice 5 4 b = u32_le (mw_version w) ∧ slice 9 4 b = u32_le (offset_signers w) ∧
  slice 13 4 b = u32_le (offset_signatures w) ∧ drop 17 b = rest.
Proof. split_and!; reflexivity. Qed.

Lemma toy_ml_parse_bytes w : wf_ml_wire w → toy_ml_parse (toy_ml_bytes w) = w.
Proof.
  intros (Ha & He & Hv & Hs & Ho).
  assert (Hlen := length_bitmap_bytes (bl_iter (mw_signers w))).
  change (length (bl_iter (mw_signers w))) with (bl_len (mw_signers w)) in Hlen.
  assert (Hdiv : 0 ≤ (Z.of_nat (bl_len (mw_signers w)) + 8) / 8) by (apply Z.div_pos; lia).
  assert (Ho2 : is_u32 (offset_signers w)) by (unfold is_u32, offset_signers in *; lia).
  assert (Ho3 : is_u32 (offset_signatures w)) by (unfold is_u32, offset_signatures, offset_signers in *; lia).
  assert (Hl : length (mjoin (mw_status_list w)) = (32 * length (mw_status_list w))%nat)
    by (by apply length_mjoin).
  assert (Hsl : length (mjoin (mw_signatures w)) = (Z.to_nat 3309 * length (mw_signatures w))%nat)
    by (by apply length_mjoin).
  set (rest := mjoin (mw_status_list w) ++ bitmap_bytes (bl_iter (mw_signers w)) ++ mjoin (mw_signatures w)).
  pose proof (toy_header_fields w rest) as (E1 & E2 & E3 & E4 & E5). cbv zeta in *.
  change (toy_ml_bytes w) with (toy_ml_header w ++ rest).
  unfold toy_ml_parse. rewrite E1, E2, E3, E4, !u32_le_val by done.
  set (o2 := Z.to_nat (offset_signers w)). set (o3 := Z.to_nat (offset_signatures w)).
  assert (Hb : (length (bitmap_bytes (bl_iter (mw_signers w))) = o3 - o2)%nat).
  { apply Nat2Z.inj. rewrite Hlen. unfold o2, o3, offset_signatures, offset_signers in *. lia. }
  assert (Ho2' : (o2 = 17 + 32 * length (mw_status_list w))%nat)
    by (unfold o2, offset_signers in *; lia).
  assert (Hle : (o2 ≤ o3)%nat) by (unfold o2, o3, offset_signatures in *; lia).
  assert (Hd2 : drop o2 (toy_ml_header w ++ rest) =
    bitmap_bytes (bl_iter (mw_signers w)) ++ mjoin (mw_signatures w)).
  { rewrite Ho2', <-drop_drop, E5. unfold rest. rewrite <-Hl. apply drop_app_length. }
  assert (Hd3 : drop o3 (toy_ml_header w ++ rest) = mjoin (mw_signatures w)).
  { replace o3 with (o2 + (o3 - o2))%nat by lia.
    rewrite <-drop_drop, Hd2, <-Hb. apply drop_app_length. }
  assert (Hs1 : slice 17 (o2 - 17) (toy_ml_header w ++ rest) = mjoin (mw_status_list w)).
  { unfold slice. rewrite E5. unfold rest. replace (o2 - 17)%nat with (length (mjoin (mw_status_list w)))
      by (rewrite Hl, Ho2'; lia). apply take_app_length. }
  assert (Hs2 : slice o2 (o3 - o2) (toy_ml_header w ++ rest) = bitmap_bytes (bl_iter (mw_signers w))).
  { unfold slice. rewrite Hd2, <-Hb. apply take_app_length. }
  assert (Hfuel : (length (mw_status_list w) ≤ length (toy_ml_header w ++ rest))%nat ∧
    (length (mw_signatures w) ≤ length (toy_ml_header w ++ rest))%nat).
  { unfold rest. rewrite !length_app, Hl, Hsl. lia. }
  rewrite Hs1, Hs2, Hd3, bitmap_bytes_val. simpl Z.to_pos. rewrite pos_bits_pos.
  rewrite Z_of_byte_of_Z, Z.mod_small by done.
  rewrite (chunks_mjoin _ 32) by (done || lia || apply Hfuel).
  rewrite (chunks_mjoin _ 3309) by (done || lia || apply Hfuel).
  change (bl_iter (mw_signers w)) with (proj1_sig (mw_signers w)). rewrite toy_bits_of_iter.
  by destruct w.
Qed.

#[local] Instance toy_ml_laws : SszLaws MlStatusListWire wf_ml_wire.
Proof. apply layout_laws, toy_ml_parse_bytes. Qed.

Definition toy_mlc_bytes (w : MlCommitteeWire) : bytes :=
  (u32_le 12 ++ u64_le (mcw_threshold w)) ++ mjoin (mcw_members w).
Definition toy_mlc_parse (b : bytes) : MlCommitteeWire :=
  mkMlCommitteeWire (chunks (length b) 1952 (drop 12 b)) (le_val (slice 4 8 b)).

#[local] Instance wf_ml_committee_wire_dec w : Decision (wf_ml_committee_wire w).
Proof. unfold wf_ml_committee_wire, is_u64. apply _. Defined.

#[local] Instance toy_mlc_ssz : Ssz MlCommitteeWire :=
  layout_ssz toy_mlc_bytes toy_mlc_parse wf_ml_committee_wire.

Lemma toy_mlc_size (w : MlCommitteeWire) :
  wf_ml_committee_wire w →
  Z.of_nat (length (as_ssz_bytes w)) =
    ML_COMMITTEE_FIXED_WIRE_BYTES + PUBLIC_KEY_BYTES * Z.of_nat (length (mcw_members w)).
Proof.
  intros [Hm _]. change (as_ssz_bytes w) with (toy_mlc_bytes w).
  unfold toy_mlc_bytes, u32_le, u64_le. rewrite !length_app, !length_le_bytes.
  rewrite (length_mjoin (Z.to_nat PUBLIC_KEY_BYTES)) by done.
  unfold ML_COMMITTEE_FIXED_WIRE_BYTES, PUBLIC_KEY_BYTES. lia.
Qed.

Lemma toy_mlc_parse_bytes w : wf_ml_committee_wire w → toy_mlc_parse (toy_mlc_bytes w) = w.
Proof.
  intros Hw. pose proof (toy_mlc_size w Hw) as Hsz. destruct Hw as [Hm Ht].
  change (as_ssz_bytes w) with (toy_mlc_bytes w) in Hsz.
  assert (E : drop 12 (toy_mlc_bytes w) = mjoin (mcw_members w)) by reflexivity.
  assert (E' : slice 4 8 (toy_mlc_bytes w) = u64_le (mcw_threshold w)) by reflexivity.
  unfold toy_mlc_parse. rewrite E, E', u64_le_val by done.
  unfold ML_COMMITTEE_FIXED_WIRE_BYTES, PUBLIC_KEY_BYTES in *.
  rewrite (chunks_mjoin _ 1952) by (done || lia). by destruct w.
Qed.

#[local] Instance toy_mlc_laws : SszLaws MlCommitteeWire wf_ml_committee_wire.
Proof. apply layout_laws, toy_mlc_parse_bytes. Qed.

(** ** The committee, its statement and its record *)

Definition toy_ml_members : list MlPublicKey := [Byte.x10; Byte.x20; Byte.x30].
Definition toy_ml_committee : MlCommittee :=
  mkMlCommittee toy_ml_members 2 (anchor_id_from_canonical_bytes (wire_bytes toy_ml_members 2)).
Definition toy_ml_list : list bytes := [sha3_256 [Byte.x01]; sha3_256 [Byte.x02]].
Definition toy_ml_statement : bytes := statement_for toy_ml_committee toy_ml_list 9.
Definition toy_ml_pairs : list (nat * MlSignature) :=
  [(2%nat, (Byte.x30, toy_check toy_ml_statement)); (0%nat, (Byte.x10, toy_check toy_ml_statement))].
Definition toy_ml_record : MlDsaStatusList :=
  match ml_status_list_new toy_ml_list 9 3 toy_ml_pairs with
  | Ok r => r
  | Err _ => mkMlStatusList [] 0 (toy_bits_of []) []
  end.

Lemma toy_ml_committee_wf : wf_ml_committee toy_ml_committee.
Proof.
  split; [done|by apply Nat.leb_le; vm_compute| |done]. apply (bool_decide_unpack _). by vm_compute.
Qed.

Lemma toy_ml_new : ml_status_list_new toy_ml_list 9 3 toy_ml_pairs = Ok toy_ml_record.
Proof.
  assert (is_ok (ml_status_list_new toy_ml_list 9 3 toy_ml_pairs) = true) as H by (by vm_compute).
  unfold toy_ml_record. by destruct (ml_status_list_new _ _ _ _).
Qed.

Lemma toy_ml_entries : wf_entries32 toy_ml_list.
Proof. by repeat constructor. Qed.

Lemma toy_nine : is_u32 9.
Proof. done. Qed.

Lemma ml_status_list_new_spec_witness :
  match ml_status_list_new toy_ml_list 9 3 toy_ml_pairs with
  | Ok r => ml_acceptable 3 (length toy_ml_list) toy_ml_pairs ∧ ml_canonical 3 toy_ml_pairs r ∧
            ml_status_list r = toy_ml_list ∧ ml_version r = 9
  | Err e => ¬ ml_acceptable 3 (length toy_ml_list) toy_ml_pairs ∧
             e ≠ "indices checked against bitmap size above"%string
  end.
Proof. exact (ml_status_list_new_spec (BLL := toy_bit_laws) toy_ml_list 9 3 toy_ml_pairs). Defined.

Lemma ml_record_wire_canonical_witness :
  ml_from_bytes (ml_to_bytes toy_ml_record) = Ok toy_ml_record ↔
  wf_ml_record toy_ml_record ∧ ml_to_bytes toy_ml_record = ml_to_bytes toy_ml_record.
Proof.
  exact (ml_record_wire_canonical (LM := toy_ml_laws) toy_ml_size (ml_to_bytes toy_ml_record)
    toy_ml_record).
Defined.

Lemma ml_new_decodes_witness : ml_from_bytes (ml_to_bytes toy_ml_record) = Ok toy_ml_record.
Proof.
  exact (ml_new_decodes (LM := toy_ml_laws) toy_ml_size toy_ml_list 9 3 toy_ml_pairs toy_ml_record
    toy_ml_entries toy_nine toy_ml_new).
Defined.

Lemma ml_committee_wire_canonical_witness :
  ml_committee_from_bytes (ml_committee_to_bytes toy_ml_committee) = Ok toy_ml_committee ↔
  wf_ml_committee toy_ml_committee ∧
  ml_committee_to_bytes toy_ml_committee = ml_committee_to_bytes toy_ml_committee.
Proof.
  exact (ml_committee_wire_canonical (LMC := toy_mlc_laws) toy_mlc_size
    (ml_committee_to_bytes toy_ml_committee) toy_ml_committee).
Defined.

Lemma statement_binds_anchor_witness :
  (toy_ml_committee = toy_ml_committee ∧ toy_ml_list = toy_ml_list ∧ 9 = 9) ∨
  collides sha3_384 (ANCHOR_ID_DOMAIN ++ ml_committee_to_bytes toy_ml_committee)
    (ANCHOR_ID_DOMAIN ++ ml_committee_to_bytes toy_ml_committee) ∨
  collides shake256_64 (committee_statement_preimage toy_ml_committee toy_ml_list 9)
    (committee_statement_preimage toy_ml_committee toy_ml_list 9).
Proof.
  exact (statement_binds_anchor (LMC := toy_mlc_laws) toy_mlc_size toy_ml_committee toy_ml_committee
    toy_ml_list toy_ml_list 9 9 (λ w _ _ _ _, eq_refl) toy_ml_committee_wf toy_ml_committee_wf
    toy_ml_entries toy_ml_entries toy_nine toy_nine eq_refl).
Defined.

Lemma ml_predicate_witness :
  ml_verify_status_list (mkMlVerifier toy_ml_committee) toy_ml_record = true ∧
  (∀ r, ml_verify_status_list (mkMlVerifier toy_ml_committee) r = true →
        ml_quorum toy_ml_committee (ml_status_list r) (ml_version r) (ml_signatures r)) ∧
  (∀ list version pairs,
    NoDup (fst <$> pairs) → ml_threshold toy_ml_committee ≤ Z.of_nat (length pairs) →
    ml_size (member_count toy_ml_committee) (length list) (length pairs) ≤ MAX_RECORD_BYTES →
    Forall (λ x, ml_signature_ok (ml_members toy_ml_committee)
      (statement_for toy_ml_committee list version) x = true) pairs →
    ∃ r, ml_status_list_new list version (member_count toy_ml_committee) pairs = Ok r ∧
         ml_verify_status_list (mkMlVerifier toy_ml_committee) r = true).
Proof.
  split; [vm_compute; reflexivity|].
  exact (ml_predicate (BLL := toy_bit_laws) toy_ml_committee toy_ml_committee_wf).
Defined.
