(* ===== verification/Examples.v ===== *)
(** * A small committee, evaluated

    Instances of the wire codecs at the stand-ins of [Instances], and concrete
    inputs at which the hypotheses of the protocol theorems hold: a committee of
    five with threshold three, signing one list at one version. *)
From S2P Require Import Prelude Fs External Instances Atomic SlotCounter Signer Freshness.
From S2P Require Import FreshnessSystem Seats StatusLists Committees Verifiers Nodes SlotSystem.

Open Scope Z_scope.

#[local] Existing Instance toy_hashes.
#[local] Existing Instance toy_xmss.
#[local] Existing Instance toy_leanvm.
#[local] Existing Instance toy_bit_list.
#[local] Existing Instance toy_bit_laws.

(** ** Codecs *)

Definition toy_raw_tuple (w : RawStatusListWire) :
    Z * list bytes * Z * ToyBits * list (byte * bytes * Z) :=
  (rw_alg w, rw_status_list w, rw_version w, rw_signers w, rw_signatures w).
Definition toy_raw_of (x : Z * list bytes * Z * ToyBits * list (byte * bytes * Z)) :
    RawStatusListWire :=
  let '(a, l, v, b, s) := x in mkRawWire a l v b s.

#[local] Instance toy_raw_inj : Inj (=) (=) toy_raw_tuple.
Proof. intros [] [] E. by injection E as -> -> -> -> ->. Qed.
#[local] Instance toy_raw_eq_dec : EqDecision RawStatusListWire.
Proof.
  intros x y. destruct (decide (toy_raw_tuple x = toy_raw_tuple y)) as [E|E].
  - left. by apply (inj toy_raw_tuple).
  - right. by intros ->.
Defined.
#[local] Program Instance toy_raw_countable : Countable RawStatusListWire :=
  inj_countable' toy_raw_tuple toy_raw_of _.
Next Obligation. by intros []. Qed.

#[local] Instance wf_raw_wire_dec w : Decision (wf_raw_wire w).
Proof. unfold wf_raw_wire, wf_entries, is_u32. apply _. Defined.

#[local] Instance toy_raw_ssz : Ssz RawStatusListWire := toy_ssz wf_raw_wire.
#[local] Instance toy_raw_laws : SszLaws RawStatusListWire wf_raw_wire.
Proof. apply toy_ssz_laws. Qed.

Definition toy_snark_tuple (w : SnarkStatusListWire) : Z * list bytes * Z * bytes :=
  (sw_alg w, sw_status_list w, sw_version w, sw_zk_proof w).
Definition toy_snark_of (x : Z * list bytes * Z * bytes) : SnarkStatusListWire :=
  let '(a, l, v, b) := x in mkSnarkWire a l v b.
#[local] Instance toy_snark_inj : Inj (=) (=) toy_snark_tuple.
Proof. intros [] [] E. by injection E as -> -> -> ->. Qed.
#[local] Instance toy_snark_eq_dec : EqDecision SnarkStatusListWire.
Proof.
  intros x y. destruct (decide (toy_snark_tuple x = toy_snark_tuple y)) as [E|E].
  - left. by apply (inj toy_snark_tuple).
  - right. by intros ->.
Defined.
#[local] Program Instance toy_snark_countable : Countable SnarkStatusListWire :=
  inj_countable' toy_snark_tuple toy_snark_of _.
Next Obligation. by intros []. Qed.
#[local] Instance wf_snark_wire_dec w : Decision (wf_snark_wire w).
Proof. unfold wf_snark_wire, wf_entries, is_u32. apply _. Defined.
#[local] Instance toy_snark_ssz : Ssz SnarkStatusListWire := toy_ssz wf_snark_wire.
#[local] Instance toy_snark_laws : SszLaws SnarkStatusListWire wf_snark_wire.
Proof. apply toy_ssz_laws. Qed.

(** The anchor's SSZ container as the specification lays it out: the offset of
    the members, the two integers, the members. *)
Definition toy_committee_bytes (w : CommitteeWire) : bytes :=
  u32_le 16 ++ u64_le (cw_t w) ++ u32_le (cw_genesis_slot w) ++
  mjoin (xmss_pk_ssz <$> cw_members w).

Fixpoint toy_keys (fuel : nat) (b : bytes) : list byte :=
  match fuel, drop 31 b with
  | S fuel', pk :: b' => pk :: toy_keys fuel' b'
  | _, _ => []
  end.

Definition toy_committee_parse (b : bytes) : CommitteeWire :=
  mkCommitteeWire (toy_keys (length b) (drop 16 b)) (le_val (slice 4 8 b)) (le_val (slice 12 4 b)).

#[local] Instance wf_committee_wire_dec w : Decision (wf_committee_wire w).
Proof. unfold wf_committee_wire, is_u64, is_u32. apply _. Defined.

#[local] Instance toy_committee_ssz : Ssz CommitteeWire := {|
  as_ssz_bytes := toy_committee_bytes;
  from_ssz_bytes := λ b,
    let w := toy_committee_parse b in
    if bool_decide (wf_committee_wire w ∧ toy_committee_bytes w = b) then Ok w
    else Err "not canonical"%string;
|}.

Lemma toy_keys_spec fuel (ms : list XmssPublicKey) :
  (length ms ≤ fuel)%nat → toy_keys fuel (mjoin (xmss_pk_ssz <$> ms)) = ms.
Proof.
  revert fuel. induction ms as [|pk ms IH]; intros fuel Hf; [by destruct fuel|].
  destruct fuel as [|fuel]; [by apply Nat.nle_succ_0 in Hf|]. apply le_S_n in Hf.
  rewrite fmap_cons. cbn [mjoin list_join]. change (@xmss_pk_ssz toy_xmss pk) with (replicate 31 Byte.x00 ++ [pk]).
  cbn [toy_keys]. rewrite <-app_assoc, drop_app_length'; [|done]. cbn [app]. f_equal. by apply IH.
Qed.

Lemma length_mjoin_keys (ms : list XmssPublicKey) :
  length (mjoin (xmss_pk_ssz <$> ms)) = (32 * length ms)%nat.
Proof.
  induction ms as [|pk ms IH]; [done|].
  trans (length (xmss_pk_ssz pk ++ mjoin (xmss_pk_ssz <$> ms))); [done|].
  rewrite length_app, IH, (@xmss_pk_ssz_length toy_xmss pk). change (length (pk :: ms)) with (S (length ms)). lia.
Qed.

Lemma toy_committee_size (w : CommitteeWire) :
  Z.of_nat (length (as_ssz_bytes w)) = 16 + 32 * Z.of_nat (length (cw_members w)).
Proof.
  change (as_ssz_bytes w) with (toy_committee_bytes w). unfold toy_committee_bytes, u32_le, u64_le.
  rewrite !length_app, !length_le_bytes, length_mjoin_keys. lia.
Qed.

#[local] Instance toy_committee_laws : SszLaws CommitteeWire wf_committee_wire.
Proof.
  split; simpl.
  - intros w Hw. assert (toy_committee_parse (toy_committee_bytes w) = w) as ->;
      [|by rewrite bool_decide_eq_true_2].
    destruct w as [ms v g], Hw as [Hv Hg]. simpl in *. unfold toy_committee_parse. f_equal.
    + assert (E : drop 16 (toy_committee_bytes (mkCommitteeWire ms v g)) =
        mjoin (xmss_pk_ssz <$> ms)) by reflexivity.
      rewrite E. apply toy_keys_spec.
      pose proof (toy_committee_size (mkCommitteeWire ms v g)) as Hs.
      apply Nat2Z.inj_le. eapply Z.le_trans; [|apply Z.eq_le_incl; symmetry; exact Hs].
      cbn [cw_members]. lia.
    + trans (le_val (u64_le v)); [reflexivity|by apply u64_le_val].
    + trans (le_val (u32_le g)); [reflexivity|by apply u32_le_val].
  - intros b w. case_bool_decide as H; [|done]. intros [= <-]. apply H.
  - intros b w. case_bool_decide as H; [|done]. intros [= <-]. apply H.
Qed.

(** ** The committee, its statement and its record *)

Definition toy_members : list XmssPublicKey := [Byte.x00; Byte.x01; Byte.x02; Byte.x03; Byte.x04].
Definition toy_committee : Committee :=
  mkCommittee toy_members 3 100 (fingerprint_of toy_members 3 100).
Definition toy_list : list bytes := [hash_any (ascii_bytes (str "vc-1")); hash_any (ascii_bytes (str "vc-2"))].
Definition toy_statement : bytes := message_for toy_committee WotsXmss toy_list 7.

Definition toy_pair (i : nat) (pk : byte) : nat * XmssSignature := (i, (pk, toy_statement, 107)).
Definition toy_pairs : list (nat * XmssSignature) :=
  [toy_pair 4 Byte.x04; toy_pair 0 Byte.x00; toy_pair 2 Byte.x02].
Definition toy_pairs' : list (nat * XmssSignature) :=
  [toy_pair 0 Byte.x00; toy_pair 4 Byte.x04; toy_pair 2 Byte.x02].

Definition toy_empty : StatusList :=
  mkStatusList WotsXmss [] 0 ([] ↾ (eq_refl : short [])) [].
Definition ok_default {A E} (d : A) (r : result A E) : A := match r with Ok a => a | Err _ => d end.
Definition toy_record : StatusList :=
  ok_default toy_empty (status_list_new WotsXmss toy_list 7 5 toy_pairs).

Lemma toy_wf_entries : wf_entries toy_list.
Proof. by repeat constructor. Qed.

Lemma toy_committee_wf : wf_committee toy_committee.
Proof.
  split; [done|by apply Nat.leb_le; vm_compute| |done|done].
  apply (bool_decide_unpack _). by vm_compute.
Qed.

(** *** Anchors *)

Lemma committee_new_spec_witness :
  committee_new toy_members 3 100 = Ok toy_committee ∧
  (committee_new toy_members 3 100 = Ok toy_committee ↔
   wf_committee toy_committee ∧ members toy_committee = toy_members ∧ t toy_committee = 3 ∧
   genesis_slot toy_committee = 100).
Proof.
  split; [vm_compute; reflexivity|]. apply committee_new_spec. done.
Defined.

Lemma committee_wire_canonical_witness :
  ∃ b, committee_from_bytes b = Ok toy_committee ∧
       (committee_from_bytes b = Ok toy_committee ↔
        wf_committee toy_committee ∧ committee_to_bytes toy_committee = b).
Proof.
  exists (committee_to_bytes toy_committee). split; [vm_compute; reflexivity|].
  exact (committee_wire_canonical (LC := toy_committee_laws) toy_committee_size
    (committee_to_bytes toy_committee) toy_committee).
Defined.

Lemma message_binds_anchor_witness :
  (toy_committee = toy_committee ∧ WotsXmss = WotsXmss ∧ toy_list = toy_list ∧ 7 = 7) ∨
  message_clash toy_committee toy_committee WotsXmss WotsXmss toy_list toy_list 7 7.
Proof.
  apply (message_binds_anchor (LC := toy_committee_laws) toy_committee toy_committee WotsXmss WotsXmss
    toy_list toy_list 7 7); try (exact toy_committee_wf); try (exact toy_wf_entries); done.
Defined.

Lemma index_of_spec_witness :
  (index_of toy_committee Byte.x03 = Some 3%nat ↔ members toy_committee !! 3%nat = Some Byte.x03) ∧
  (index_of toy_committee Byte.x03 = None ↔ Byte.x03 ∉ members toy_committee).
Proof. exact (index_of_spec toy_committee Byte.x03 3 toy_committee_wf). Defined.

(** *** Records *)

Lemma status_list_new_spec_witness :
  match status_list_new WotsXmss toy_list 7 5 toy_pairs with
  | Ok r => acceptable 5 toy_pairs ∧ canonical 5 toy_pairs r ∧
            sl_alg r = WotsXmss ∧ sl_status_list r = toy_list ∧ sl_version r = 7
  | Err e => ¬ acceptable 5 toy_pairs ∧ e ≠ "index bounded by n_members above"%string
  end.
Proof. exact (status_list_new_spec (BLL := toy_bit_laws) WotsXmss toy_list 7 5 toy_pairs). Defined.

Lemma toy_perm : toy_pairs ≡ₚ toy_pairs'.
Proof. apply Permutation_swap. Qed.

Lemma status_list_new_perm_witness :
  toy_pairs ≠ toy_pairs' ∧
  status_list_new WotsXmss toy_list 7 5 toy_pairs = status_list_new WotsXmss toy_list 7 5 toy_pairs'.
Proof.
  split; [done|]. exact (status_list_new_perm WotsXmss toy_list 7 5 _ _ toy_perm).
Defined.

Lemma status_list_roundtrip_witness :
  signer_indices toy_record = [0; 2; 4]%nat ∧
  (wf_status_list toy_record → from_bytes (to_bytes toy_record) = Ok toy_record) ∧
  (from_bytes (to_bytes toy_record) = Ok toy_record →
   to_bytes toy_record = to_bytes toy_record ∧ wf_status_list toy_record).
Proof.
  split; [vm_compute; reflexivity|].
  exact (status_list_roundtrip (LR := toy_raw_laws) toy_record (to_bytes toy_record)).
Defined.

Definition toy_raws : list (XmssPublicKey * XmssSignature) :=
  (λ x, (x.2.1.1, x.2)) <$> toy_pairs.
Definition toy_proof : bytes :=
  ok_default [] (make_proof toy_committee WotsXmss toy_raws toy_list 7 2).
Definition toy_snark_record : SnarkStatusList := mkSnarkStatusList WotsXmss toy_list 7 toy_proof.

Lemma snark_status_list_roundtrip_witness :
  (wf_snark_status_list toy_snark_record →
     snark_from_bytes (snark_to_bytes toy_snark_record) = Ok toy_snark_record) ∧
  (snark_from_bytes (snark_to_bytes toy_snark_record) = Ok toy_snark_record →
     snark_to_bytes toy_snark_record = snark_to_bytes toy_snark_record ∧
     wf_snark_status_list toy_snark_record) ∧
  (∀ d, decode toy_snark_record = Ok d →
     record d = toy_snark_record ∧ agg_to_bytes (aggregate d) = sn_zk_proof toy_snark_record).
Proof.
  exact (snark_status_list_roundtrip (LS := toy_snark_laws) toy_snark_record
    (snark_to_bytes toy_snark_record)).
Defined.

Lemma status_list_message_binds_witness :
  (sha3_256 [] = sha3_256 [] ∧ toy_list = toy_list ∧ 7 = 7) ∨
  collides blake2s_256 (message_preimage (sha3_256 []) toy_list 7) (message_preimage (sha3_256 []) toy_list 7).
Proof.
  apply (status_list_message_binds (sha3_256 []) (sha3_256 []) toy_list toy_list 7 7);
    try (exact toy_wf_entries); done.
Defined.

(** *** Predicates *)

Lemma raw_sound_witness :
  verify_status_list (mkVerifierNode toy_committee) toy_record = true ∧
  quorum toy_committee (sl_alg toy_record) (sl_status_list toy_record) (sl_version toy_record)
    (valid_signature (sl_signatures toy_record)).
Proof.
  split; [vm_compute; reflexivity|].
  apply (raw_sound (BLL := toy_bit_laws) toy_committee toy_record);
    [exact toy_committee_wf|vm_compute; reflexivity].
Defined.

Lemma toy_pairs_ok :
  Forall (λ x, signature_ok (members toy_committee) (message_for toy_committee WotsXmss toy_list 7)
    107 x = true) toy_pairs.
Proof. apply (bool_decide_unpack _). vm_compute. exact I. Qed.

Lemma raw_complete_witness :
  ∃ s, status_list_new WotsXmss toy_list 7 (length (members toy_committee)) toy_pairs = Ok s ∧
       verify_status_list (mkVerifierNode toy_committee) s = true.
Proof.
  apply (raw_complete (BLL := toy_bit_laws) toy_committee WotsXmss toy_list 7 toy_pairs 107).
  - exact toy_committee_wf.
  - reflexivity.
  - apply (bool_decide_unpack _). vm_compute. exact I.
  - vm_compute. discriminate.
  - exact toy_pairs_ok.
Defined.

Definition toy_attested (pk : XmssPublicKey) (m : bytes) (slot : Z) : Prop :=
  ∃ sig, xmss_verify pk m sig slot = true.

Lemma toy_agg_attests : agg_attests toy_attested.
Proof.
  intros [[[slot0 m0] pks0] body] slot m pks Hv Hg. apply list_elem_of_singleton in Hg.
  injection Hg as -> -> ->. apply andb_true_iff in Hv as [Hv _].
  apply bool_decide_eq_true in Hv. split; [exact Hv|].
  intros pk _. exists (pk, m0, slot0). by apply bool_decide_eq_true.
Qed.

Lemma snark_sound_witness :
  snark_verify (mkSnarkVerifier toy_committee 0) toy_snark_record = true ∧
  quorum toy_committee (sn_alg toy_snark_record) (sn_status_list toy_snark_record)
    (sn_version toy_snark_record) toy_attested.
Proof.
  split; [vm_compute; reflexivity|].
  apply (snark_sound toy_attested toy_committee 0 toy_snark_record);
    [exact toy_agg_attests|vm_compute; reflexivity].
Defined.

Lemma toy_aggregates : aggregates.
Proof.
  intros raws m slot rate Hs Hm Hne Hnd Hall. exists (slot, m, fst <$> raws, Byte.x00), (fst <$> raws).
  assert (Hs64 : is_u64 slot) by (unfold is_u64, is_u32, u64_max, u32_max in *; lia).
  split_and!; [|by apply toy_agg_roundtrip|done|done|done|by apply andb_true_iff; split; apply bool_decide_eq_true].
  destruct raws as [|[pk0 sig0] raws]; [done|].
  assert (Hg : (λ x : byte * Z * bytes * (byte * bytes * Z), x.1.1.1) <$>
    ((λ '(public, signature), (public, slot, m, signature)) <$> ((pk0, sig0) :: raws)) =
    fst <$> ((pk0, sig0) :: raws)).
  { rewrite <-list_fmap_compose. apply list_fmap_ext. by intros i []. }
  set (l := (λ '(public, signature), (public, slot, m, signature)) <$> ((pk0, sig0) :: raws)) in *.
  assert (Hok : forallb (toy_entry_ok slot m) l = true).
  { apply forallb_forall. intros x Hx%list_elem_of_In.
    apply list_elem_of_fmap in Hx as ([pk sig] & -> & Hx).
    rewrite Forall_forall in Hall. specialize (Hall _ Hx).
    apply bool_decide_eq_true in Hall. simpl in *. by rewrite !bool_decide_eq_true_2. }
  change (lean_aggregate l rate) with
    (if forallb (toy_entry_ok slot m) l then Ok (slot, m, (λ x, x.1.1.1) <$> l, Byte.x00)
     else Err "invalid signature"%string).
  rewrite Hok. exact (f_equal (λ k, Ok (slot, m, k, Byte.x00)) Hg).
Qed.

Lemma toy_raws_ok :
  Forall (λ x, x.1 ∈ members toy_committee ∧
    xmss_verify x.1 (message_for toy_committee WotsXmss toy_list 7) x.2 107 = true) toy_raws.
Proof.
  apply (bool_decide_unpack _). vm_compute. exact I.
Qed.

Lemma make_proof_verifies_witness :
  ∃ b, make_proof toy_committee WotsXmss toy_raws toy_list 7 2 = Ok b ∧
    let s := mkSnarkStatusList WotsXmss toy_list 7 b in
    snark_verify (mkSnarkVerifier toy_committee 0) s = true ∧
    ∃ d, decode s = Ok d ∧ verify_decoded (mkSnarkVerifier toy_committee 0) d = true.
Proof.
  apply (make_proof_verifies toy_committee 0 WotsXmss toy_raws toy_list 7 107 2).
  - exact toy_aggregates.
  - exact toy_committee_wf.
  - done.
  - reflexivity.
  - apply (bool_decide_unpack _). vm_compute. exact I.
  - vm_compute. discriminate.
  - exact toy_raws_ok.
Defined.

(** ** Durable state *)

Definition toy_tag : bytes := key_fingerprint Byte.x07.
Definition toy_first : JournalRecord := mkJournalRecord 0 10 toy_tag.
(** A journal whose second record write was cut after nine bytes. *)
Definition toy_torn : bytes :=
  overwrite (Z.to_nat 4096) (ascii_bytes (str "DROTSL03!"))
    (overwrite 0 (encode_record toy_first) (replicate (Z.to_nat 8192) Byte.x00)).

Lemma toy_first_wf : wf_record toy_first.
Proof. split_and!; [done|done|apply sha3_256_length]. Qed.

Lemma toy_torn_region : region (slot_of (jr_generation toy_first)) toy_torn = encode_record toy_first.
Proof. vm_compute. reflexivity. Qed.

Lemma recovery_never_regresses_witness :
  recover_journal toy_torn toy_tag 20 = Ok toy_first ∧ jr_next_free toy_first ≤ jr_next_free toy_first.
Proof.
  split; [vm_compute; reflexivity|].
  apply (recovery_never_regresses toy_torn toy_tag 20 toy_first toy_first);
    [exact toy_first_wf|exact toy_torn_region|vm_compute; reflexivity].
Defined.

Lemma toy_torn_other o : record_at toy_torn (1 - slot_of (jr_generation toy_first)) ≠ Ok (Some o).
Proof.
  assert (E : record_at toy_torn (1 - slot_of (jr_generation toy_first)) =
    Err "checksum mismatch"%string) by (vm_compute; reflexivity).
  by rewrite E.
Qed.

Lemma recovery_survives_torn_write_witness : recover_journal toy_torn toy_tag 20 = Ok toy_first.
Proof.
  apply (recovery_survives_torn_write toy_torn toy_tag 20 toy_first);
    [exact toy_first_wf|vm_compute; reflexivity|exact toy_torn_region|done|done|exact toy_torn_other].
Defined.

Definition toy_counter : AtomicSlotCounter := mkCounter (File 1 0) toy_tag 0 10 20 (File 0 0).

Lemma toy_counter_wf : wf_counter toy_counter.
Proof. split; [exact toy_first_wf|done]. Qed.

(** The disk on which that counter was created. *)
Definition toy_disk : world := s_world (go_create toy_sys).

Lemma toy_counter_on_disk : counter_on_disk toy_disk toy_counter toy_disk.
Proof.
  split; [apply same_but_refl|]. split; [vm_compute; discriminate|].
  assert (E : versions toy_disk (f_ino (state_file toy_counter)) = [image Byte.x07 10])
    by (vm_compute; reflexivity).
  rewrite E. constructor; [apply good_image|constructor].
Qed.

Lemma burn_before_use_witness :
  counter_on_disk toy_disk toy_counter toy_disk ∧
  triple (counter_on_disk toy_disk toy_counter) (reserve toy_counter)
    (λ '(slot, c') w, slot = next toy_counter ∧ handed_out toy_disk toy_counter slot c' w)
    (counter_on_disk toy_disk toy_counter) ∧
  (∀ requested, triple (counter_on_disk toy_disk toy_counter) (reserve_at toy_counter requested)
    (λ '(slot, c') w, slot = requested ∧ handed_out toy_disk toy_counter slot c' w)
    (counter_on_disk toy_disk toy_counter)).
Proof.
  split; [exact toy_counter_on_disk|exact (burn_before_use toy_disk toy_counter toy_counter_wf)].
Defined.

Definition toy_signer : SignerNode := mkSignerNode Byte.x07 Byte.x07 toy_counter.

Lemma toy_signer_state : toy_disk = toy_disk ∧ counter_state toy_signer toy_disk.
Proof. split; [done|]. split; [exact toy_counter_wf|apply toy_counter_on_disk]. Qed.

Lemma sign_burns_witness :
  match sign toy_signer toy_statement toy_disk with
  | (Done (r, s'), w) => ∃ log, signed_step toy_disk toy_signer s' log w ∧
       spent toy_signer s' (next (a_slot_counter toy_signer)) toy_statement r log ∧
       (∀ slot sig, r = Ok (slot, sig) → slot = next (a_slot_counter toy_signer))
  | (_, w) => signed_step toy_disk toy_signer toy_signer [] w
  end.
Proof.
  pose proof (sign_burns toy_disk toy_signer toy_statement toy_counter_wf toy_disk toy_signer_state)
    as H.
  destruct (sign toy_signer toy_statement toy_disk) as [[[r s']|e|] w]; exact H.
Defined.

Lemma sign_at_burns_witness :
  match sign_at toy_signer toy_statement 15 toy_disk with
  | (Done (r, s'), w) => ∃ log, signed_step toy_disk toy_signer s' log w ∧
       spent toy_signer s' 15 toy_statement r log
  | (_, w) => signed_step toy_disk toy_signer toy_signer [] w
  end.
Proof.
  pose proof (sign_at_burns toy_disk toy_signer toy_statement 15 toy_counter_wf toy_disk
    toy_signer_state) as H.
  destruct (sign_at toy_signer toy_statement 15 toy_disk) as [[[r s']|e|] w]; exact H.
Defined.

(** *** Freshness *)

Lemma mark_roundtrip_witness :
  read_mark (ascii_bytes (mark_line (fingerprint toy_anchor) (Some 42))) toy_anchor = Ok (Some 42) ∧
  ∀ anchor' v,
    read_mark (ascii_bytes (mark_line (fingerprint toy_anchor) (Some 42))) anchor' = Ok v →
    anchor' = toy_anchor ∨ collides sha3_256 toy_anchor anchor'.
Proof. apply (mark_roundtrip toy_anchor (Some 42)). done. Defined.

Definition toy_mark : HighWaterMark :=
  mkHighWaterMark toy_path (fingerprint toy_anchor) 0 false (File 0 0).
Definition toy_mark_disk : world := g_world run_create.

Lemma toy_mark_state :
  wf_world toy_path toy_mark_disk ∧ entries toy_path (remembers toy_anchor []) toy_mark_disk ∧
  running toy_path toy_anchor [] toy_mark toy_mark_disk ∧ toy_mark_disk = toy_mark_disk.
Proof.
  assert (Hi : gate_inv toy_path toy_anchor run_create).
  { eapply gate_step_inv; [|by apply gs_create].
    split; [apply wf_blank|by intros d _ []|apply SSorted_nil|by left]. }
  destruct Hi as [Hw He _ _]. split_and!; [exact Hw|exact He| |done].
  split; [done|done|split; [vm_compute; reflexivity|]|done].
  apply (bool_decide_unpack _). vm_compute. exact I.
Qed.

Lemma advance_persists_first_witness :
  match try_advance toy_mark 42 toy_mark_disk with
  | (Done (d, m'), w) =>
      let accepted' := log_decision d 42 [] in
      wf_world toy_path w ∧ entries toy_path (remembers toy_anchor accepted') w ∧
      running toy_path toy_anchor accepted' m' w ∧
      (d = Freshness.Accepted → ∀ v, current toy_mark = Some v → v < 42)
  | (_, w) => wf_world toy_path w ∧ entries toy_path (remembers toy_anchor []) w ∧
              running toy_path toy_anchor [] toy_mark w
  end.
Proof.
  assert (Hv : is_u32 42) by done.
  pose proof (advance_persists_first toy_path toy_anchor toy_mark_disk [] toy_mark 42 Hv
    toy_mark_disk toy_mark_state) as H.
  destruct (try_advance toy_mark 42 toy_mark_disk) as [[[d m']|e|] w]; exact H.
Defined.
