(* ===== verification/DemoExamples.v ===== *)
(** * A small demo network, evaluated

    Codecs of the demo's messages, a committee of ten with its volumes, and
    concrete inputs at which the hypotheses of the demo's and the command-line
    programs' theorems hold. *)
From S2P Require Import Prelude Fs External Instances Atomic SlotCounter Signer Freshness Seats.
From S2P Require Import StatusLists Committees Verifiers Nodes Wire Credentials Params Workload.
From S2P Require Import Artifacts CheckOutput Network Corpus Storage Rounds Member Holder SlotSystem Examples.

Open Scope Z_scope.

#[local] Existing Instance toy_hashes.
#[local] Existing Instance toy_xmss.
#[local] Existing Instance toy_leanvm.
#[local] Existing Instance toy_bit_list.
#[local] Existing Instance toy_bit_laws.
#[local] Existing Instance toy_raw_ssz.
#[local] Existing Instance toy_raw_laws.
#[local] Existing Instance toy_snark_ssz.
#[local] Existing Instance toy_snark_laws.
#[local] Existing Instance toy_committee_ssz.

(** ** Messages, as the SSZ specification lays them out *)

Definition status_request_bytes (r : StatusRequest) : bytes :=
  byte_of_Z (sr_action r) :: u32_le 5 ++ sr_data r.
Definition status_request_parse (b : bytes) : StatusRequest :=
  mkStatusRequest (Z_of_byte (default Byte.x00 (head b))) (drop 5 b).
#[local] Instance wf_status_request_dec r : Decision (wf_status_request r).
Proof. unfold wf_status_request. apply _. Defined.
#[local] Instance demo_request_ssz : Ssz StatusRequest :=
  layout_ssz status_request_bytes status_request_parse wf_status_request.

Definition proposal_bytes (p : Proposal) : bytes :=
  u32_le (p_version p) ++ u32_le 8 ++ mjoin (p_list p).
Definition proposal_parse (b : bytes) : Proposal :=
  mkProposal (le_val (take 4 b)) (chunks (length b) 32 (drop 8 b)).
#[local] Instance wf_proposal_dec p : Decision (wf_proposal p).
Proof. unfold wf_proposal, is_u32. apply _. Defined.
#[local] Instance demo_proposal_ssz : Ssz Proposal :=
  layout_ssz proposal_bytes proposal_parse wf_proposal.

Definition status_updated_bytes (u : StatusUpdated) : bytes :=
  u32_le (su_version u) ++ u32_le 8 ++ su_credential u.
Definition status_updated_parse (b : bytes) : StatusUpdated :=
  mkStatusUpdated (le_val (take 4 b)) (drop 8 b).
#[local] Instance wf_status_updated_dec u : Decision (wf_status_updated u).
Proof. unfold wf_status_updated, is_u32. apply _. Defined.
#[local] Instance demo_updated_ssz : Ssz StatusUpdated :=
  layout_ssz status_updated_bytes status_updated_parse wf_status_updated.

#[local] Instance any_value_dec {A} (a : A) : Decision (any_value a).
Proof. left. exact I. Defined.
#[local] Instance demo_failure_ssz : Ssz Failure :=
  layout_ssz (λ f, u32_le 4 ++ f_reason f) (λ b, mkFailure (drop 4 b)) any_value.

Definition reply_tuple (r : SignatureReply) : list (byte * bytes * Z) * bytes :=
  (sr_signature r, sr_reason r).
#[local] Instance reply_inj : Inj (=) (=) reply_tuple.
Proof. intros [] [] E. by injection E as -> ->. Qed.
#[local] Instance reply_eq_dec : EqDecision SignatureReply.
Proof.
  intros x y. destruct (decide (reply_tuple x = reply_tuple y)) as [E|E].
  - left. by apply (inj reply_tuple).
  - right. by intros ->.
Defined.
#[local] Program Instance reply_countable : Countable SignatureReply :=
  inj_countable' reply_tuple (λ x, mkSignatureReply x.1 x.2) _.
Next Obligation. by intros []. Qed.
#[local] Instance demo_reply_ssz : Ssz SignatureReply := toy_ssz any_value.
#[local] Instance demo_reply_laws : SszLaws SignatureReply any_value.
Proof. apply toy_ssz_laws. Qed.

#[local] Instance demo_volumes : Volumes :=
  {| committee_dir := ["shared"; "committee"]; storage_dir := ["shared"; "storage"];
     state_dir := ["state"] |}%string.
Fixpoint demo_jcs_go (fuel : nat) (j : json) : bytes :=
  match fuel, j with
  | S fuel, JString s => string_bytes s
  | S fuel, JNumber n => ascii_bytes (decimal n)
  | S fuel, JArray l => mjoin (demo_jcs_go fuel <$> l)
  | S fuel, JObject l => mjoin ((λ x, string_bytes x.1 ++ demo_jcs_go fuel x.2) <$> l)
  | O, _ => []
  end.
#[local] Instance demo_jcs : Jcs := {| jcs_to_vec := demo_jcs_go 5 |}.
#[local] Instance demo_ids : IdSource := λ n, le_bytes 16 (Z.of_nat n).
#[local] Instance demo_os : OsText := λ e,
  match e with NotFound => "No such file or directory" | OtherError => "Input/output error" end%string.
#[local] Instance demo_clock : Clock := λ k, (200 * k)%nat.

(** ** Storage and framing *)

Lemma framing_witness :
  let payload := ascii_bytes (str "payload") in
  (Z.of_nat (length payload) ≤ MAX_FRAME →
     ∃ framed, send 3 payload = Ok framed ∧ recv (framed ++ []) = Ok (3, payload, [])) ∧
  (MAX_FRAME < Z.of_nat (length payload) → is_ok (send 3 payload) = false) ∧
  (∀ k p s, recv [] = Ok (k, p, s) →
     ∃ framed, send k p = Ok framed ∧ [] = framed ++ s ∧
       (length framed = 5 + length p)%nat ∧ Z.of_nat (length p) ≤ MAX_FRAME).
Proof. intros payload. apply (framing 3 payload [] []). done. Defined.

Lemma blank_shows_nothing p : shows p None blank_world.
Proof. by intros d ->%list_elem_of_singleton. Qed.

Lemma publish_atomic_witness :
  match publish (ascii_bytes (str "record")) blank_world with
  | (o, w) => ∀ w', w' = w ∨ power_loss w w' →
      entries record_path (λ s, s = Some [ascii_bytes (str "record")] ∨
        s = (λ c, [c]) <$> None ∧ o ≠ Done record_path) w'
  end.
Proof.
  pose proof (publish_atomic blank_world None (ascii_bytes (str "record")) (wf_blank record_path)
    (blank_shows_nothing record_path)) as H.
  destruct (publish _ blank_world) as [o w]. exact H.
Defined.

Lemma demo_clock_advances : clock_advances.
Proof. intros T. exists T. intros k Hk. unfold instant, demo_clock. lia. Qed.

Lemma wait_for_terminates_witness :
  ∃ rounds, ∀ fuel, (rounds ≤ fuel)%nat →
    ∃ o w', wait_for fuel record_path 1000 blank_world = (o, w') ∧
      match o with Done b => b ≠ [] | Failed e => e ≠ OutOfFuel | Halted => True end.
Proof. exact (wait_for_terminates record_path 1000 blank_world demo_clock_advances). Defined.

(** ** A committee of ten and one of its members *)

Definition demo_keys : list XmssPublicKey := byte_of_Z ∘ Z.of_nat <$> seq 0 10.
Definition demo_fingerprint : bytes := Eval vm_compute in fingerprint_of demo_keys 7 SLOT.
Definition demo_committee : Committee := mkCommittee demo_keys 7 SLOT demo_fingerprint.

Lemma demo_committee_wf : wf_committee demo_committee.
Proof.
  split; [done|by apply Nat.leb_le; vm_compute| |done|vm_compute; reflexivity].
  apply (bool_decide_unpack _). vm_compute. exact I.
Qed.

(** Member [i] in raw mode, over the counter of [toy_signer]. *)
Definition demo_node : Node := mkNode 7 ModeRaw demo_committee toy_signer true false false 0.

Lemma demo_node_wf : wf_node demo_node.
Proof. split_and!; [exact demo_committee_wf|done|done]. Qed.

(** ** The demonstration of three members, two of which are a quorum *)

Definition show_pairs : list (byte * byte) := (λ i, (byte_of_Z i, byte_of_Z i)) <$> [1; 2; 3].
Definition show_outsiders : list (byte * byte) := (λ i, (byte_of_Z i, byte_of_Z i)) <$> [8; 9].
Definition show_fresh (i : nat) : bytes := [byte_of_Z (Z.of_nat i)].

Lemma twin_signs (l : list Z) : signs ((λ i, (byte_of_Z i, byte_of_Z i)) <$> l).
Proof.
  intros sk pk rng m slot Hin [_ Hs]. apply list_elem_of_fmap in Hin as (i & [= -> ->] & _).
  exists (byte_of_Z i, m, slot). split; [|by apply bool_decide_eq_true].
  trans (if slot <? 1000 then Ok (byte_of_Z i, m, slot) else Err "EpochOutOfRange"%string);
    [reflexivity|].
  by rewrite (proj2 (Z.ltb_lt _ _)) by (unfold SLOT, KEY_SLOTS in *; lia).
Qed.

Lemma show_keys_distinct : NoDup (snd <$> show_pairs ++ show_outsiders).
Proof. apply (bool_decide_unpack _). vm_compute. exact I. Qed.

Lemma demonstration_secure_witness :
  ∃ sec_ok sls st,
    demo_main 3 2 show_pairs show_outsiders show_fresh (mkSession 0 []) = Ok (sec_ok, sls, st) ∧
    length sls = N_UPDATES ∧ NoDup (s_used st) ∧
    (∀ c, committee_new (snd <$> show_pairs) 2 SLOT = Ok c →
       Forall (λ sl, snark_verify (mkSnarkVerifier c 0) sl = true) sls) ∧
    (sec_ok = true ∨ ∃ c, committee_new (snd <$> show_pairs) 2 SLOT = Ok c ∧
       (tamper_clash c (grown show_fresh 0 N_UPDATES) ∨ version_clash c (grown show_fresh 0 N_UPDATES))).
Proof.
  apply (demonstration_secure (XX := toy_xmss) (VM := toy_leanvm) 3 2 show_pairs show_outsiders show_fresh 0 toy_aggregates
    (twin_signs _) (twin_signs _) show_keys_distinct eq_refl eq_refl);
    apply Nat.leb_le; vm_compute; reflexivity.
Defined.

(** ** A round *)

(** What an honest member answers to a frame: the signature its key makes. *)
Definition honest_answer (i : nat) (frame : bytes) : bytes :=
  match recv frame with
  | Ok (_, payload, _) =>
      match from_ssz_bytes (A := Proposal) payload with
      | Ok p =>
          let m := message_for demo_committee WotsXmss (p_list p) (p_version p) in
          let reply := mkSignatureReply [(byte_of_Z (Z.of_nat i), m, SLOT + p_version p)] [] in
          ok_default [] (send MSG_SIGNATURE (as_ssz_bytes reply))
      | Err _ => []
      end
  | Err _ => []
  end.

(** Members 1 and 5 are down; the others answer in time, in a mixed order. *)
Definition demo_net : Net :=
  mkNet (λ i, if bool_decide (i ∈ [1; 5]%nat) then throw "connection refused"%string
              else mret (λ frame, mret (honest_answer i frame)))
    [3; 0; 9; 1; 4; 2; 8; 5; 7; 6]%nat 10.

Definition demo_volume_world : world := blank_world.

Lemma demo_volume : volume (λ o, o = None) demo_volume_world.
Proof. split; [apply wf_blank|apply (blank_shows_nothing record_path)]. Qed.

Lemma demo_net_keeps P : net_keeps demo_net P.
Proof.
  intros i. unfold demo_net, connect. case_bool_decide.
  - by apply triple_throw.
  - apply triple_ret. intros w Hw. split; [done|]. intros frame. by apply triple_ret.
Qed.

Definition demo_request : bytes := as_ssz_bytes (mkStatusRequest ACTION_ISSUE (string_bytes "did:demo:alice")).

(** Codecs that are quick to evaluate: values of the sizes the demo has are laid out
    in blocks, after a byte that tells them from the others. *)
Module Evaluation.
Definition short_signature (s : byte * bytes * Z) : Prop := length s.1.2 = 32%nat ∧ is_u64 s.2.
#[local] Instance short_signature_dec s : Decision (short_signature s).
Proof. unfold short_signature, is_u64. apply _. Defined.

Definition quick_signature (s : byte * bytes * Z) : bytes := s.1.1 :: s.1.2 ++ u64_le s.2.
Definition quick_signature_parse (c : bytes) : byte * bytes * Z :=
  (default Byte.x00 (head c), slice 1 32 c, le_val (slice 33 8 c)).
Definition quick_signatures (b : bytes) : list (byte * bytes * Z) :=
  quick_signature_parse <$> chunks (length b) 41 b.

Lemma quick_signature_parsed s : short_signature s → quick_signature_parse (quick_signature s) = s.
Proof.
  destruct s as [[k m] z]. intros [Hm Hz]. unfold quick_signature, quick_signature_parse, slice. simpl in *.
  rewrite drop_0, take_app_length' by done. rewrite (drop_app_length' m) by done.
  rewrite take_ge by (unfold u64_le; by rewrite length_le_bytes). by rewrite u64_le_val.
Qed.

Lemma quick_signatures_parsed l :
  Forall short_signature l → quick_signatures (mjoin (quick_signature <$> l)) = l.
Proof.
  intros Hl. assert (H41 : Forall (λ c, length c = 41%nat) (quick_signature <$> l)).
  { apply Forall_fmap. eapply Forall_impl; [exact Hl|]. intros [[k m] z] [Hm _]. simpl in *.
    unfold u64_le. by rewrite length_app, length_le_bytes, Hm. }
  unfold quick_signatures. rewrite chunks_mjoin; [|lia|done|].
  - rewrite <-list_fmap_compose. rewrite <-(list_fmap_id l) at 2. apply list_fmap_ext.
    intros i s Hs. rewrite Forall_lookup in Hl. by apply quick_signature_parsed, (Hl i).
  - rewrite (length_mjoin 41) by done. lia.
Qed.

(** [short] values laid out by [enc], the others by the codec of countable types. *)
Section hybrid.
Context {A : Type} `{Countable A} (short_value : A → Prop) `{∀ a, Decision (short_value a)}.
Context (wf : A → Prop) `{∀ a, Decision (wf a)} (enc : A → bytes) (parse : bytes → A).

Definition hybrid_bytes (a : A) : bytes :=
  if bool_decide (short_value a) then Byte.x01 :: enc a else Byte.x00 :: toy_encode a.
Definition hybrid_parse (b : bytes) : A :=
  match b with
  | Byte.x00 :: rest => match toy_decode wf rest with Ok a => a | Err _ => parse [] end
  | _ => parse (tail b)
  end.

Lemma hybrid_laws :
  (∀ a, short_value a → parse (enc a) = a) → @SszLaws A (layout_ssz hybrid_bytes hybrid_parse wf) wf.
Proof.
  intros Hp. apply layout_laws. intros a Ha. unfold hybrid_bytes. case_bool_decide; simpl; [by apply Hp|].
  by rewrite toy_decode_encode.
Qed.
End hybrid.

Definition short_reply (r : SignatureReply) : Prop :=
  Forall short_signature (sr_signature r) ∧ sr_reason r = [].
#[local] Instance short_reply_dec r : Decision (short_reply r).
Proof. unfold short_reply. apply _. Defined.
Definition quick_reply_bytes (r : SignatureReply) : bytes := mjoin (quick_signature <$> sr_signature r).
Definition quick_reply_parse (b : bytes) : SignatureReply := mkSignatureReply (quick_signatures b) [].
#[local] Instance quick_reply_ssz : Ssz SignatureReply := layout_ssz
  (hybrid_bytes short_reply quick_reply_bytes) (hybrid_parse any_value quick_reply_parse) any_value.
#[local] Instance quick_reply_laws : SszLaws SignatureReply any_value.
Proof.
  apply hybrid_laws. intros [sigs reason] [Hs Hr]. unfold quick_reply_parse, quick_reply_bytes. simpl in *.
  by rewrite quick_signatures_parsed, Hr.
Qed.

#[local] Existing Instance toy_raw_eq_dec.
#[local] Existing Instance toy_raw_countable.
#[local] Existing Instance wf_raw_wire_dec.
Definition short_wire (w : RawStatusListWire) : Prop :=
  wf_raw_wire w ∧ is_u32 (Z.of_nat (length (rw_status_list w))) ∧
  Forall short_signature (rw_signatures w) ∧ length (bl_iter (rw_signers w)) = 10%nat.
#[local] Instance short_wire_dec w : Decision (short_wire w).
Proof. unfold short_wire, is_u32. apply _. Defined.
Definition quick_raw_bytes (w : RawStatusListWire) : bytes :=
  byte_of_Z (rw_alg w) :: u32_le (rw_version w) ++ u32_le (Z.of_nat (length (rw_status_list w))) ++
  mjoin (rw_status_list w) ++
  ((λ b : bool, if b then Byte.x01 else Byte.x00) <$> bl_iter (rw_signers w)) ++
  mjoin (quick_signature <$> rw_signatures w).
Definition quick_raw_parse (b : bytes) : RawStatusListWire :=
  let b1 := tail b in
  let b2 := drop 4 b1 in
  let b3 := drop 4 b2 in
  let n := Z.to_nat (le_val (take 4 b2)) in
  let b4 := drop (32 * n) b3 in
  mkRawWire (Z_of_byte (default Byte.x00 (head b))) (chunks n 32 (take (32 * n) b3)) (le_val (take 4 b1))
    (default (([] : list bool) ↾ (eq_refl : short []))
       (toy_bits ((λ x, bool_decide (x = Byte.x01)) <$> take 10 b4)))
    (quick_signatures (drop 10 b4)).

Lemma quick_raw_parsed w : short_wire w → quick_raw_parse (quick_raw_bytes w) = w.
Proof.
  intros ((Ha & Hl & Hv) & Hn & Hs & Hb). destruct w as [alg l v bits sigs].
  unfold quick_raw_bytes. cbn [rw_alg rw_status_list rw_version rw_signers rw_signatures] in *.
  assert (H4 : ∀ z, length (u32_le z) = 4%nat) by (intros z; apply length_le_bytes).
  set (bs := _ <$> bl_iter bits).
  assert (H10 : length bs = 10%nat) by (unfold bs; by rewrite length_fmap).
  pose proof (length_mjoin 32 l Hl) as Hj. unfold quick_raw_parse. cbv zeta. cbn [tail head].
  rewrite (drop_app_length' (u32_le v)), (take_app_length' (u32_le v)) by done.
  rewrite (drop_app_length' (u32_le _)), (take_app_length' (u32_le _)) by done.
  rewrite !u32_le_val, Nat2Z.id by done.
  rewrite (take_app_length' (mjoin l)), (drop_app_length' (mjoin l)) by lia.
  rewrite (take_app_length' bs), (drop_app_length' bs) by done.
  rewrite chunks_mjoin, quick_signatures_parsed by (done || lia).
  replace (Z_of_byte (default _ _)) with alg by (simpl; rewrite Z_of_byte_of_Z, Z.mod_small; done).
  f_equal.
  unfold bs. rewrite <-list_fmap_compose. replace (_ <$> bl_iter bits) with (bl_iter bits).
  - destruct bits as [bl Hsh]. simpl. unfold toy_bits. destruct (decide (short bl)) as [H|H]; [|done].
    simpl. by apply (sig_eq_pi _).
  - rewrite <-(list_fmap_id (bl_iter bits)) at 1. apply list_fmap_ext. by intros i [] _.
Qed.

#[local] Instance quick_raw_ssz : Ssz RawStatusListWire := layout_ssz
  (hybrid_bytes short_wire quick_raw_bytes) (hybrid_parse wf_raw_wire quick_raw_parse) wf_raw_wire.
#[local] Instance quick_raw_laws : SszLaws RawStatusListWire wf_raw_wire.
Proof. apply hybrid_laws, quick_raw_parsed. Qed.

Definition quick_answer (i : nat) (frame : bytes) : bytes :=
  match recv frame with
  | Ok (_, payload, _) =>
      match from_ssz_bytes (A := Proposal) payload with
      | Ok p =>
          let m := message_for demo_committee WotsXmss (p_list p) (p_version p) in
          let reply := mkSignatureReply [(byte_of_Z (Z.of_nat i), m, SLOT + p_version p)] [] in
          ok_default [] (send MSG_SIGNATURE (as_ssz_bytes reply))
      | Err _ => []
      end
  | Err _ => []
  end.
Definition quick_net : Net :=
  mkNet (λ i, if bool_decide (i ∈ [1; 5]%nat) then throw "connection refused"%string
              else mret (λ frame, mret (quick_answer i frame)))
    [3; 0; 9; 1; 4; 2; 8; 5; 7; 6]%nat 10.

Lemma quick_net_keeps P : net_keeps quick_net P.
Proof.
  intros i. unfold quick_net, connect. case_bool_decide.
  - by apply triple_throw.
  - apply triple_ret. intros w Hw. split; [done|]. intros frame. by apply triple_ret.
Qed.

(** The round publishes a record of seven signatures that the verifier of the
    anchor accepts. *)
Lemma demo_round_runs :
  match on_status_request quick_net 5000 demo_node demo_request demo_volume_world with
  | (Done (Ok (kind, reply), n'), w) =>
      (kind =? MSG_STATUS_UPDATED) && (n_rounds_served n' =? 1)%nat &&
      match cur_dir w !! record_path with
      | Some i => match from_bytes (content w i) with
                  | Ok r => verify_status_list (mkVerifierNode demo_committee) r &&
                            (length (signer_indices r) =? 7)%nat
                  | Err _ => false
                  end
      | None => false
      end
  | _ => false
  end = true.
Proof. vm_compute. reflexivity. Qed.

(** It is the round of the theorem: the update is reported, so the record is of
    version 0 and lists just the new credential. *)
Lemma round_publishes_authorized_witness :
  ∃ request reply n' w, from_ssz_bytes demo_request = Ok request ∧
    on_status_request quick_net 5000 demo_node demo_request demo_volume_world =
      (Done (Ok reply, n'), w) ∧
    published_round demo_node request demo_volume_world reply n' w.
Proof.
  assert (Hd : NoDup (arrival_order quick_net)) by (apply (bool_decide_unpack _); exact I).
  assert (Hr : Forall (λ i, i < N_MEMBERS)%nat (arrival_order quick_net))
    by (apply (bool_decide_unpack _); exact I).
  pose proof (round_publishes_authorized quick_net 5000 demo_node demo_request demo_volume_world
    (λ o, o = None) toy_aggregates demo_node_wf Hd Hr (quick_net_keeps _) demo_volume
    demo_volume_world eq_refl) as H.
  pose proof demo_round_runs as E. revert H E.
  destruct (on_status_request quick_net 5000 demo_node demo_request demo_volume_world)
    as [[[[[kind reply]|] n']|e|] w]; [|done..].
  intros [_ [(request & Hreq & H)|[Hf _]]] E.
  - by exists request, (kind, reply), n', w.
  - simpl in Hf. subst kind. discriminate E.
Defined.

(** *** A member asked to sign *)

Definition demo_proposal (version : Z) : bytes := as_ssz_bytes (mkProposal version toy_list).

(** The same member over a counter with room for the slots of the demo, and a
    volume that holds a record of version 4. *)
Definition demo_counter : AtomicSlotCounter := mkCounter (File 1 0) toy_tag 0 10 107 (File 0 0).
Definition demo_signing_node : Node :=
  mkNode 7 ModeRaw demo_committee (mkSignerNode Byte.x07 Byte.x07 demo_counter) true false false 0.
Definition fourth_record : bytes := Eval vm_compute in
  to_bytes (mkStatusList WotsXmss toy_list 4
    (replicate 10 false ↾ (eq_refl : short (replicate 10 false))) []).
Definition demo_disk : world := snd (publish fourth_record toy_disk).

Lemma demo_counter_state : counter_state (n_signer demo_signing_node) demo_disk.
Proof.
  split; [split; [exact toy_first_wf|done]|].
  assert (E : versions demo_disk (f_ino (state_file demo_counter)) = [image Byte.x07 10])
    by (vm_compute; reflexivity).
  change (SlotCounter.holds (f_ino (state_file demo_counter)) (counter_record demo_counter) demo_disk).
  unfold SlotCounter.holds. rewrite E. split; [done|]. constructor; [apply good_image|constructor].
Qed.

(** Asked for version 5, at slot 48, the member signs; asked for version 4 or 6 it
    does not. *)
Lemma member_signs_next_witness :
  ∃ reply n' w, on_proposal demo_signing_node (demo_proposal 5) demo_disk = (Done (reply, n'), w) ∧
    w_signed w = [(48, message_for demo_committee WotsXmss toy_list 5)] ∧
    proposal_effect demo_signing_node (demo_proposal 5) demo_disk reply n' w.
Proof.
  pose proof (member_signs_next demo_signing_node (demo_proposal 5) demo_disk demo_counter_state
    demo_disk eq_refl) as H.
  assert (Es : w_signed (snd (on_proposal demo_signing_node (demo_proposal 5) demo_disk)) =
    [(48, message_for demo_committee WotsXmss toy_list 5)]) by (vm_compute; reflexivity).
  assert (Ed : match fst (on_proposal demo_signing_node (demo_proposal 5) demo_disk) with
               | Done _ => true | _ => false end = true) by (vm_compute; reflexivity).
  destruct (on_proposal _ _ demo_disk) as [[[reply n']|e|] w]; [|done..]. by exists reply, n', w.
Defined.

Lemma demo_proposal_refused :
  w_signed (snd (on_proposal demo_signing_node (demo_proposal 4) demo_disk)) = [] ∧
  w_signed (snd (on_proposal demo_signing_node (demo_proposal 6) demo_disk)) = [].
Proof. split; vm_compute; reflexivity. Qed.

(** *** A record past the last slot *)

(** The world after [o]. *)
Definition after {E A} (o : io E A) (w : world) : world := snd (o w).

Lemma after_ran {E A} (o : io E A) w a : fst (o w) = a → o w = (a, after o w).
Proof. unfold after. by destruct (o w); intros <-. Qed.

Definition last_version : Z := u32_max - SLOT.
Definition spent_record : bytes :=
  to_bytes (mkStatusList WotsXmss [] last_version (replicate 10 false ↾ (eq_refl : short (replicate 10 false))) []).
Definition spent_world : world := after (publish spent_record) blank_world.
Definition spent_read : world := after (E := Empty_set) current_record spent_world.

Definition alice : StatusRequest := mkStatusRequest ACTION_ISSUE (string_bytes "did:demo:alice").
Definition alice_applied : outcome Empty_set (may_panic (result (bytes * list bytes) string)) :=
  fst (apply_request demo_node alice (last_version + 1) [] spent_read).
Definition alice_update : bytes * list bytes :=
  match alice_applied with Done (Ok (Ok u)) => u | _ => ([], []) end.
Definition alice_world : world :=
  after (apply_request demo_node alice (last_version + 1) []) spent_read.

Lemma unchecked_slot_poisons_witness :
  ∃ n', on_status_request demo_net 5000 demo_node demo_request spent_world =
          (Done (Err "checked by the caller"%string, n'), alice_world) ∧
    ∀ net' window' payload' request' w, from_ssz_bytes (A := StatusRequest) payload' = Ok request' →
      on_status_request net' window' n' payload' w = (Done (Err "round lock poisoned"%string, n'), w).
Proof.
  apply (unchecked_slot_poisons demo_net 5000 demo_node demo_request alice (Some spent_record)
    (last_version + 1) [] (fst alice_update) (snd alice_update) spent_world spent_read alice_world).
  - reflexivity.
  - reflexivity.
  - vm_compute. reflexivity.
  - unfold spent_read; apply after_ran. vm_compute. reflexivity.
  - vm_compute. reflexivity.
  - unfold alice_world; apply after_ran. vm_compute. reflexivity.
  - vm_compute. reflexivity.
Defined.

(** *** A record older than the mark *)

Definition holder_pairs : list (nat * (byte * bytes * Z)) := Eval vm_compute in
  (λ i, (i, (byte_of_Z (Z.of_nat i), message_for demo_committee WotsXmss toy_list 0, SLOT)))
    <$> seq 0 7.
Definition old_record : bytes := Eval vm_compute in
  match status_list_new WotsXmss toy_list 0 10 holder_pairs with
  | Ok r => to_bytes r
  | Err _ => []
  end.
Definition holder_world : world :=
  after (write_atomic credential_path (ascii_bytes (str "vc-1")))
    (after (publish old_record) blank_world).
(** Node A has accepted version 3 before storage was rolled back. *)
Definition holder_node : HolderNode (G := HighWaterMark) :=
  HRaw (mkRawNode (mkVerifierNode demo_committee)
    (mkHighWaterMark toy_path (fingerprint (committee_to_bytes demo_committee)) 3 true (File 0 0))).
Definition holder_read : world := after (E := Empty_set) current_record holder_world.
Definition holder_gated : world := after (holder_accept holder_node old_record) holder_read.

(** What member 0 answers to a revocation: version 0, of another credential. *)
Definition foreign : StatusUpdated := mkStatusUpdated 0 (ascii_bytes (str "vc-9")).
Definition foreign_dial (_ : nat) : io string (bytes → io string bytes) :=
  mret (λ _, mret (ok_default [] (send MSG_STATUS_UPDATED (as_ssz_bytes foreign)))).
Definition revoke_asked : world := after load_credential holder_world.
Definition revoke_answered : world :=
  after (request_status_update foreign_dial None ModeRaw ACTION_REVOKE (ascii_bytes (str "vc-1")))
    revoke_asked.

Lemma holder_gaps_witness :
  (∃ w', run_round foreign_dial None holder_node ActionVerify holder_world =
     (Done (Ok (summary_of 0 "saved credential is present: valid"
                  "already seen, high-water stays at v3"), holder_node), w')) ∧
  (∃ w', run_round foreign_dial None holder_node ActionRevoke holder_world =
     (Done (Ok (summary_of 0 "credential removed: revoked"
                  "already seen, high-water stays at v3"), holder_node), w')).
Proof.
  assert (Hv : verified_list holder_node old_record = Some (su_version foreign, toy_list))
    by (vm_compute; reflexivity).
  assert (Hc : is_valid toy_list (ascii_bytes (str "vc-1")) = true) by (vm_compute; reflexivity).
  split; eexists.
  - refine (proj1 (holder_gaps foreign_dial None holder_node old_record toy_list
      (ascii_bytes (str "vc-1")) foreign 3 holder_world holder_read holder_gated _ holder_world Refused
      EmptyString Hv Hc) _ _ _ _).
    + unfold holder_read; apply after_ran. vm_compute. reflexivity.
    + unfold holder_gated; apply after_ran. vm_compute. reflexivity.
    + apply after_ran. vm_compute. reflexivity.
    + vm_compute. reflexivity.
  - refine (proj2 (holder_gaps foreign_dial None holder_node old_record toy_list
      (ascii_bytes (str "vc-1")) foreign 3 holder_world revoke_asked revoke_answered
      (after (E := Empty_set) current_record revoke_answered) _ (OStale 0 3)
      _ Hv Hc) _ _ _ _ _ _).
    + unfold revoke_asked; apply after_ran. vm_compute. reflexivity.
    + unfold revoke_answered; apply after_ran. vm_compute. reflexivity.
    + vm_compute. reflexivity.
    + apply after_ran. vm_compute. reflexivity.
    + apply after_ran. vm_compute. reflexivity.
    + vm_compute. reflexivity.
Defined.
(** *** The files of a run, checked *)

Definition quick_snark_bytes (w : SnarkStatusListWire) : bytes :=
  byte_of_Z (sw_alg w) :: u32_le (sw_version w) ++ u32_le (Z.of_nat (length (sw_status_list w))) ++
  mjoin (sw_status_list w) ++ sw_zk_proof w.
Definition quick_snark_parse (b : bytes) : SnarkStatusListWire :=
  let n := Z.to_nat (le_val (slice 5 4 b)) in
  mkSnarkWire (Z_of_byte (default Byte.x00 (head b))) (chunks n 32 (slice 9 (32 * n) b))
    (le_val (slice 1 4 b)) (drop (9 + 32 * n) b).
#[local] Instance quick_snark_ssz : Ssz SnarkStatusListWire :=
  {| as_ssz_bytes := quick_snark_bytes; from_ssz_bytes := λ b, Ok (quick_snark_parse b) |}.

Definition run_updates : list bytes := Eval vm_compute in
  match demo_main (XX := toy_xmss) (VM := toy_leanvm) 3 2 show_pairs show_outsiders show_fresh (mkSession 0 []) with
  | Ok (_, sls, _) => snark_to_bytes <$> sls
  | Err _ => []
  end.
Definition run_files : list (string * bytes) := Eval vm_compute in
  ("anchor.bin"%string, match committee_new (XX := toy_xmss) (snd <$> show_pairs) 2 SLOT with
                        | Ok c => committee_to_bytes c | Err _ => [] end) ::
  ("canonical.bin"%string, default [] (last run_updates)) ::
  ("attack-replay.bin"%string, []) ::
  zip (update_name <$> seq 0 N_UPDATES) run_updates.
Definition run_directory : Directory :=
  mkDirectory "out" (Ok (Ok <$> run_files.*1))
    (λ name, match list_find (λ x, x.1 = name) run_files with
             | Some (_, x) => Ok x.2
             | None => Err "No such file"%string
             end)
    (λ name, bool_decide (name ∈ run_files.*1)).

Lemma run_accepted : check_main run_directory None = true.
Proof. vm_cast_no_check (eq_refl true). Qed.

Lemma check_success_witness :
  check_main run_directory None = true ∧
  ∃ anchor c records entries,
    d_read run_directory "anchor.bin" = Ok anchor ∧ committee_from_bytes anchor = Ok c ∧
    (∀ fx, None = Some fx → d_read fx "anchor.bin" = Ok anchor) ∧
    d_list run_directory = Ok entries ∧ expected_files ⊆ listed entries ∧
    (is_Some (None : option Directory) → listed entries ⊆ expected_files) ∧
    length records = N_UPDATES ∧
    (∀ index x, records !! index = Some x →
       accepted_update (mkSnarkVerifier c 0) run_directory None index x.1 x.2) ∧
    ((None : option Directory) = None → ∀ index x y, records !! index = Some x →
       records !! S index = Some y → sn_status_list x.2 `prefix_of` sn_status_list y.2) ∧
    ∃ x, last records = Some x ∧ d_read run_directory "canonical.bin" = Ok x.1.
Proof.
  split; [exact run_accepted|]. exact (check_success run_directory None run_accepted).
Defined.
End Evaluation.

(** The answers of members 0 to 9; that of member 4 is for another version. *)
Definition demo_arrived : list (nat * XmssSignature) :=
  (λ i, (i, (byte_of_Z (Z.of_nat i),
     message_for demo_committee WotsXmss toy_list (if bool_decide (i = 4%nat) then 1 else 0), SLOT)))
    <$> [3; 0; 9; 4; 2; 8; 5; 7; 6; 1]%nat.

Lemma demo_arrived_nodup : NoDup (fst <$> demo_arrived).
Proof. apply (bool_decide_unpack _). vm_compute. exact I. Qed.

Lemma demo_arrived_range : Forall (λ x, x.1 < N_MEMBERS)%nat demo_arrived.
Proof. apply (bool_decide_unpack _). vm_compute. exact I. Qed.

Lemma demo_arrived_valid :
  length (List.filter (contributes demo_committee toy_list 0 SLOT) demo_arrived) = 9%nat.
Proof. vm_compute. reflexivity. Qed.

Lemma round_completes_witness :
  let message := message_for demo_committee WotsXmss toy_list 0 in
  let valid := List.filter (contributes demo_committee toy_list 0 SLOT) demo_arrived in
  ∃ quorum, count_signatures demo_committee message SLOT demo_arrived = Ok quorum ∧
    length quorum = Nat.min THRESHOLD (length valid) ∧
    ((THRESHOLD ≤ length valid)%nat →
      ∃ b, build_record demo_node toy_list 0 quorum = Ok (Ok b) ∧ authorizes demo_node toy_list 0 b) ∧
    ((length valid < THRESHOLD)%nat → quorum = valid).
Proof.
  apply (round_completes demo_node toy_list 0 SLOT demo_arrived toy_aggregates demo_node_wf
    toy_wf_entries); [done|reflexivity|exact demo_arrived_nodup|exact demo_arrived_range|done].
Defined.

