(* ===== verification/PipelineExamples.v ===== *)
(** * Concrete runs of the benchmark pipeline

    The theorems about the fixture writer, the prover, the acceptance check and
    the verifier, applied at the stand-ins of [Instances]: three members, two
    signers, an outsider, and a disk that takes every write. *)
From S2P Require Import Prelude Fs External Instances Atomic Freshness FreshnessSystem FreshnessRuns.
From S2P Require Import Seats StatusLists Committees Verifiers Params Workload Artifacts VerifierMain.
From S2P Require Import CheckOutput Corpus Fixture Prover Pipeline Examples DemoExamples.

Open Scope Z_scope.

#[local] Existing Instance toy_hashes.
#[local] Existing Instance toy_xmss.
#[local] Existing Instance toy_leanvm.
#[local] Existing Instance toy_bit_list.
#[local] Existing Instance toy_bit_laws.
#[local] Existing Instance toy_raw_ssz.
#[local] Existing Instance toy_raw_laws.
#[local] Existing Instance toy_snark_ssz.
#[local] Existing Instance toy_snark_laws.
#[local] Existing Instance toy_committee_ssz.
#[local] Existing Instance toy_committee_laws.

#[local] Instance sound_disk : Disk := λ _, None.
#[local] Instance plain_text : OsText := λ e, match e with NotFound => "not found" | OtherError => "failed" end%string.

(** The last byte of a stand-in aggregate is its whole proof body. *)
Lemma toy_flip slot m pks :
  flip_last (toy_agg_bytes (slot, m, pks, Byte.x00)) = Some (toy_agg_bytes (slot, m, pks, Byte.x01)).
Proof. unfold flip_last, toy_agg_bytes. by rewrite !app_assoc, last_snoc, removelast_last. Qed.

Lemma toy_decoded_shape a : toy_agg_parse (toy_agg_bytes a) = Ok a → is_u64 a.1.1.1 ∧ length a.1.1.2 = 32%nat.
Proof.
  generalize (toy_agg_bytes a). intros b. unfold toy_agg_parse. destruct (length b <? 40)%nat eqn:El; [done|].
  apply Nat.ltb_ge in El. destruct (last _); [|done]. intros [= <-]. cbn [fst snd]. split.
  - pose proof (le_val_range (slice 0 8 b)) as H. rewrite length_slice in H by lia.
    change (256 ^ Z.of_nat 8) with (2 ^ 64) in H. unfold is_u64, u64_max. lia.
  - apply length_slice. lia.
Qed.

Lemma toy_body_last : body_last.
Proof.
  intros xmss rate a Ha Hrt. destruct a as [[[slot m] pks] body].
  assert (Hbody : body = Byte.x00).
  { simpl in Ha. unfold toy_aggregate in Ha. destruct xmss as [|[[[pk s] m'] sig] l]; [done|].
    destruct (forallb _ _); [|done]. by injection Ha. }
  subst body. apply toy_decoded_shape in Hrt as [Hs Hm]. simpl in Hs, Hm.
  exists (toy_agg_bytes (slot, m, pks, Byte.x01)), (slot, m, pks, Byte.x01).
  assert (Hrt' : toy_agg_parse (toy_agg_bytes (slot, m, pks, Byte.x01)) = Ok (slot, m, pks, Byte.x01))
    by by apply toy_agg_roundtrip.
  split_and!; [apply toy_flip|exact Hrt'|done|done| |exact Hrt'|].
  - change (toy_agg_bytes (slot, m, pks, Byte.x01) ≠ toy_agg_bytes (slot, m, pks, Byte.x00)).
    unfold toy_agg_bytes. rewrite !app_assoc. by intros [_ ?]%app_inj_tail.
  - simpl. apply andb_false_r.
Qed.

(** ** The pipeline *)

Definition pipe_outsider : byte * byte := (Byte.x09, Byte.x09).
Definition pipe_before : Files := {["update-00.bin"%string := [Byte.x00]]}.

Lemma pipe_keys_distinct : NoDup (snd <$> show_pairs ++ [pipe_outsider]).
Proof. apply (bool_decide_unpack _). vm_compute. exact I. Qed.

Lemma pipe_outsider_signs : signs [pipe_outsider].
Proof. exact (twin_signs [9]). Qed.

Lemma pipe_before_stale name : is_Some (pipe_before !! name) → stale_artifact name = true.
Proof.
  intros [b Hb]. unfold pipe_before in Hb. apply lookup_singleton_Some in Hb as [<- _]. reflexivity.
Qed.

Lemma benchmark_pipeline_witness :
  ∃ c F st, committee_new (snd <$> show_pairs) 2 SLOT = Ok c ∧
    fixture_main "fixture" 3 2 show_pairs pipe_outsider None show_fresh ∅ (mkSession 0 []) = Ok (F, st) ∧
    NoDup (s_used st) ∧ accepted_updates c F ∧
    ∀ fixture, holds fixture F →
      ∃ files, prover_main "artifacts" 3 2 (Some fixture) true [] [] show_fresh pipe_before (mkSession 0 []) =
          Ok (files, mkSession 0 []) ∧
        ∀ out, holds out files → check_main out (Some fixture) = true.
Proof.
  exact (benchmark_pipeline toy_committee_size toy_aggregates (λ _, eq_refl) "fixture" "artifacts" 3 2
    show_pairs pipe_outsider None None show_fresh ∅ pipe_before 0 (mkSession 0 []) (twin_signs _)
    pipe_outsider_signs pipe_keys_distinct eq_refl ltac:(lia) ltac:(lia)
    ltac:(apply Nat.leb_le; vm_compute; reflexivity) eq_refl pipe_before_stale).
Defined.

Lemma verified_pipeline_witness :
  ∃ c F st, committee_new (snd <$> show_pairs) 2 SLOT = Ok c ∧
    fixture_main "fixture" 3 2 show_pairs pipe_outsider None show_fresh ∅ (mkSession 0 []) = Ok (F, st) ∧
    ∀ fixture, holds fixture F →
      ∃ files, prover_main "artifacts" 3 2 (Some fixture) false [] [] show_fresh pipe_before (mkSession 0 []) =
          Ok (files, mkSession 0 []) ∧
        (full_output c 2 F files ∧
         (∀ dirs state_path dir o w, verifier_args [dir] = Some (false, dir) → holds (dirs dir) files →
           resting (state_path dir) (committee_to_bytes c) o w →
           ∃ w', verifier_main dirs state_path [dir] w = (Done ExitSuccess, w') ∧
             resting (state_path dir) (committee_to_bytes c) (Some (raised o (Z.of_nat N_UPDATES - 1))) w') ∨
         ∃ list, attack_list F list ∧ (tamper_clash c list ∨ version_clash c list)).
Proof.
  exact (verified_pipeline toy_committee_size toy_aggregates (λ _, eq_refl) "fixture" "artifacts" 3 2
    show_pairs pipe_outsider None None show_fresh ∅ pipe_before 0 (mkSession 0 []) toy_body_last (twin_signs _)
    pipe_outsider_signs pipe_keys_distinct eq_refl ltac:(lia) ltac:(lia)
    ltac:(apply Nat.leb_le; vm_compute; reflexivity) eq_refl).
Defined.

(** ** One run of the verifier *)

(** A codec of snark records that evaluates fast: every entry follows a 1, and a
    0 ends the list. *)
Fixpoint tagged (l : list bytes) : bytes :=
  match l with [] => [Byte.x00] | e :: l => Byte.x01 :: e ++ tagged l end.
Fixpoint untag (fuel : nat) (b : bytes) : list bytes * bytes :=
  match fuel, b with
  | S fuel, Byte.x01 :: b => let '(l, rest) := untag fuel (drop 32 b) in (take 32 b :: l, rest)
  | _, _ :: rest => ([], rest)
  | _, [] => ([], [])
  end.

Lemma untag_tagged l rest fuel :
  wf_entries l → (length l < fuel)%nat → untag fuel (tagged l ++ rest) = (l, rest).
Proof.
  intros Hl. revert fuel. induction Hl as [|e l He _ IH]; intros [|fuel] Hf; simpl in Hf; try lia; [done|].
  cbn [tagged untag app]. rewrite <-!app_assoc, (take_app_length' e), (drop_app_length' e) by done.
  by rewrite IH by lia.
Qed.

Definition tagged_bytes (w : SnarkStatusListWire) : bytes :=
  byte_of_Z (sw_alg w) :: u32_le (sw_version w) ++ tagged (sw_status_list w) ++ sw_zk_proof w.
Definition tagged_parse (b : bytes) : SnarkStatusListWire :=
  let '(l, proof) := untag (length b) (drop 5 b) in
  mkSnarkWire (Z_of_byte (default Byte.x00 (head b))) l (le_val (slice 1 4 b)) proof.

Lemma length_tagged l : (length l < length (tagged l))%nat.
Proof. induction l as [|e l IH]; simpl; [lia|]. rewrite length_app. lia. Qed.

Lemma tagged_parse_bytes w : wf_snark_wire w → tagged_parse (tagged_bytes w) = w.
Proof.
  intros (Ha & Hl & Hv). unfold tagged_parse, tagged_bytes.
  assert (H4 : length (u32_le (sw_version w)) = 4%nat) by apply length_le_bytes.
  set (b := byte_of_Z _ :: _).
  assert (Hd : drop 5 b = tagged (sw_status_list w) ++ sw_zk_proof w) by (apply (drop_app_length' (byte_of_Z (sw_alg w) :: u32_le (sw_version w))); by rewrite length_cons, H4).
  assert (Hs : slice 1 4 b = u32_le (sw_version w)) by (apply (slice_mid 1 4 [byte_of_Z (sw_alg w)]); done).
  rewrite Hd, untag_tagged, Hs, u32_le_val; [|done|done|].
  - unfold b. simpl. rewrite Z_of_byte_of_Z, Z.mod_small by done. by destruct w.
  - unfold b. simpl. rewrite !length_app. pose proof (length_tagged (sw_status_list w)). lia.
Qed.

#[local] Instance wf_snark_dec w : Decision (wf_snark_wire w).
Proof. exact (wf_snark_wire_dec w). Defined.
#[local] Instance tagged_ssz : Ssz SnarkStatusListWire := layout_ssz tagged_bytes tagged_parse wf_snark_wire.
#[local] Instance tagged_laws : SszLaws SnarkStatusListWire wf_snark_wire.
Proof. apply layout_laws, tagged_parse_bytes. Qed.






