(* ===== verification/MlDemoExamples.v ===== *)
(** * A small ML-DSA demo network, evaluated

    Ten members of which two are down, their connections, and an in-memory gate:
    concrete inputs at which the hypotheses of the theorems on the ML-DSA member,
    relying party and network hold. *)
From S2P Require Import Prelude Fs External Instances Atomic Freshness Seats StatusLists MlStatusLists.
From S2P Require Import Committees Verifiers MlCommittees Nodes Wire Credentials Network Storage.
From S2P Require Import Rounds MlMember Holder MlHolder MlRuns MlExamples Examples DemoExamples.

Open Scope Z_scope.

#[local] Existing Instance toy_hashes.
#[local] Existing Instance toy_mldsa.
#[local] Existing Instance toy_bit_list.
#[local] Existing Instance toy_bit_laws.
#[local] Existing Instance toy_statement_ssz.
#[local] Existing Instance toy_ml_ssz.
#[local] Existing Instance toy_ml_laws.
#[local] Existing Instance toy_mlc_ssz.
#[local] Existing Instance demo_request_ssz.
#[local] Existing Instance demo_proposal_ssz.
#[local] Existing Instance demo_updated_ssz.
#[local] Existing Instance demo_failure_ssz.
#[local] Existing Instance demo_volumes.
#[local] Existing Instance demo_jcs.
#[local] Existing Instance demo_os.

(** Every draw gives the same identifier, and the system's generator answers. *)
#[local] Instance fixed_ids : IdSource := λ _, replicate 16 Byte.x07.
#[local] Instance steady_rng : OsRng := Some.

(** ** Messages *)

Definition ml_reply_bytes (r : MlDsaSignatureReply) : bytes :=
  u32_le (Z.of_nat (length (mr_signature r))) ++ mjoin (mr_signature r) ++ mr_reason r.
Definition ml_reply_parse (b : bytes) : MlDsaSignatureReply :=
  let n := Z.to_nat (le_val (take 4 b)) in
  mkMlDsaSignatureReply (chunks n 3309 (slice 4 (3309 * n) b)) (drop (4 + 3309 * n) b).
Definition wf_ml_reply (r : MlDsaSignatureReply) : Prop :=
  Forall (λ s, length s = 3309%nat) (mr_signature r) ∧ (length (mr_signature r) ≤ 1)%nat.
#[local] Instance wf_ml_reply_dec r : Decision (wf_ml_reply r).
Proof. unfold wf_ml_reply. apply _. Defined.
#[local] Instance demo_ml_reply_ssz : Ssz MlDsaSignatureReply :=
  layout_ssz ml_reply_bytes ml_reply_parse wf_ml_reply.

Lemma ml_reply_parse_bytes r : wf_ml_reply r → ml_reply_parse (ml_reply_bytes r) = r.
Proof.
  intros [Hs Hn]. destruct r as [sigs reason]. unfold ml_reply_bytes.
  cbn [mr_signature mr_reason] in *.
  assert (Hj : length (mjoin sigs) = (3309 * length sigs)%nat) by (by apply (length_mjoin 3309)).
  assert (Hc : is_u32 (Z.of_nat (length sigs))) by (unfold is_u32, u32_max; lia).
  assert (H4 : length (u32_le (Z.of_nat (length sigs))) = 4%nat) by apply length_le_bytes.
  unfold ml_reply_parse. rewrite take_app_length' by done. rewrite u32_le_val, Nat2Z.id by done.
  unfold slice. rewrite drop_app_length' by done. rewrite take_app_length' by done.
  rewrite <-drop_drop, drop_app_length', drop_app_length' by done.
  by rewrite chunks_mjoin by (done || lia).
Qed.

Lemma ml_reply_round_trip (sig : MlSignature) :
  let reply := mkMlDsaSignatureReply [ml_sig_encode sig] [] in
  from_ssz_bytes (as_ssz_bytes reply) = Ok reply ∧
  Z.of_nat (length (as_ssz_bytes reply)) ≤ MAX_FRAME.
Proof.
  intros reply. assert (Hw : wf_ml_reply reply).
  { split; [|done]. apply Forall_singleton, ml_sig_encode_length. }
  assert (L : SszLaws MlDsaSignatureReply wf_ml_reply)
    by (apply layout_laws, ml_reply_parse_bytes).
  split; [by apply (ssz_from_as (wf := wf_ml_reply))|].
  change (as_ssz_bytes reply) with (ml_reply_bytes reply). unfold ml_reply_bytes.
  rewrite !length_app, (length_mjoin 3309) by apply Hw. unfold u32_le. by rewrite length_le_bytes.
Qed.

#[local] Instance ml_demo_proposal_laws : SszLaws Proposal wf_proposal.
Proof.
  apply layout_laws. intros [v l] [Hv Hl]. unfold proposal_bytes, proposal_parse.
  cbn [p_version p_list] in *.
  rewrite take_app_length' by (unfold u32_le; by rewrite length_le_bytes). rewrite u32_le_val by done.
  rewrite (app_assoc _ (u32_le 8)), drop_app_length'
    by (unfold u32_le; by rewrite length_app, !length_le_bytes).
  rewrite chunks_mjoin; [done|lia|done|]. rewrite !length_app, (length_mjoin 32) by done.
  set (a := length (u32_le v)). lia.
Qed.

Lemma ml_proposal_size p :
  wf_proposal p → Z.of_nat (length (as_ssz_bytes p)) = 8 + 32 * Z.of_nat (length (p_list p)).
Proof.
  intros [_ Hl]. change (as_ssz_bytes p) with (proposal_bytes p). unfold proposal_bytes, u32_le.
  rewrite !length_app, !length_le_bytes, (length_mjoin 32) by done. lia.
Qed.

#[local] Instance ml_demo_request_laws : SszLaws StatusRequest wf_status_request.
Proof.
  apply layout_laws. intros [a d] Ha. unfold status_request_bytes, status_request_parse. simpl in *.
  by rewrite Z_of_byte_of_Z, Z.mod_small.
Qed.

Lemma ml_request_size r :
  wf_status_request r → Z.of_nat (length (as_ssz_bytes r)) = 5 + Z.of_nat (length (sr_data r)).
Proof.
  intros _. change (as_ssz_bytes r) with (status_request_bytes r). unfold status_request_bytes, u32_le.
  rewrite length_cons, length_app, length_le_bytes. lia.
Qed.

#[local] Instance ml_demo_updated_laws : SszLaws StatusUpdated wf_status_updated.
Proof.
  apply layout_laws. intros [v c] Hv. unfold status_updated_bytes, status_updated_parse.
  cbn [su_version su_credential] in *.
  rewrite take_app_length' by (unfold u32_le; by rewrite length_le_bytes). rewrite u32_le_val by done.
  by rewrite (app_assoc _ (u32_le 8)), drop_app_length'
    by (unfold u32_le; rewrite length_app, !length_le_bytes; reflexivity).
Qed.

Lemma ml_updated_size u :
  wf_status_updated u → Z.of_nat (length (as_ssz_bytes u)) = 8 + Z.of_nat (length (su_credential u)).
Proof.
  intros _. change (as_ssz_bytes u) with (status_updated_bytes u). unfold status_updated_bytes, u32_le.
  rewrite !length_app, !length_le_bytes. lia.
Qed.

Lemma toy_signs k (s : MlDsa65Signer) m :
  ∃ sig, ml_sign s (os_random k) m = Some sig ∧ ml_verify (ml_public_key s) m sig = true.
Proof. eexists. split; [done|]. by apply bool_decide_eq_true_2. Qed.

(** ** Ten members, two of them down *)

Definition ml_demo_members : list MlPublicKey := byte_of_Z ∘ Z.of_nat <$> seq 0 10.
Definition ml_demo_committee : MlCommittee :=
  mkMlCommittee ml_demo_members 7 (anchor_id_from_canonical_bytes (wire_bytes ml_demo_members 7)).

Lemma ml_demo_committee_wf : wf_ml_committee ml_demo_committee.
Proof.
  split; [done|by apply Nat.leb_le; vm_compute| |done]. apply (bool_decide_unpack _). by vm_compute.
Qed.

Definition ml_demo_node (i : nat) : MlNode :=
  mkMlNode i ml_demo_committee (mkMlSigner (byte_of_Z (Z.of_nat i))) false 0.

Lemma ml_demo_node_wf i : wf_ml_node (ml_demo_node i).
Proof. split_and!; [exact ml_demo_committee_wf|done|done]. Qed.

Definition ml_demo_net : Net :=
  mkNet (λ i, if bool_decide (i ∈ [1; 5]%nat) then throw "connection refused"%string
              else ml_connection (mkNet (λ _, throw "unused"%string) [] 0) (ml_demo_node i))
    [3; 0; 9; 1; 4; 2; 8; 5; 7; 6]%nat 10.

Lemma ml_demo_order :
  NoDup (arrival_order ml_demo_net) ∧ Forall (λ i, i < N_MEMBERS)%nat (arrival_order ml_demo_net).
Proof. split; apply (bool_decide_unpack _); exact Logic.I. Qed.

Lemma ml_demo_honest P : seven_honest ml_demo_net ml_demo_committee [0; 2; 3; 4; 6; 7; 8; 9]%nat P.
Proof.
  split.
  - apply Nat.leb_le. reflexivity.
  - apply (bool_decide_unpack _). exact Logic.I.
  - apply Forall_forall. apply (bool_decide_unpack _). exact Logic.I.
  - intros i Hi. exists (mkNet (λ _, throw "unused"%string) [] 0), (ml_demo_node i).
    assert (H : Forall (λ i, bool_decide (i ∈ [1; 5]%nat) = false ∧
      ml_demo_members !! i = Some (byte_of_Z (Z.of_nat i))) [0; 2; 3; 4; 6; 7; 8; 9]%nat)
      by (apply (bool_decide_unpack _); exact Logic.I).
    rewrite Forall_forall in H. destruct (H i Hi) as [Hb Hk].
    split; [unfold ml_demo_net; simpl; by rewrite Hb|by split].
  - intros i b Hi Hh. assert (H : Forall (λ i, i ∉ [0; 2; 3; 4; 6; 7; 8; 9]%nat →
      bool_decide (i ∈ [1; 5]%nat) = true) (arrival_order ml_demo_net))
      by (apply (bool_decide_unpack _); exact Logic.I).
    rewrite Forall_forall in H. unfold ml_demo_net. simpl. rewrite (H i Hi Hh).
    by intros w Hw.
Qed.

(** ** The first round: an empty volume, a credential for alice *)

Definition ml_alice : StatusRequest := mkStatusRequest ACTION_ISSUE (string_bytes "did:demo:alice").

Lemma blank_quiet : quiet_shows None blank_world.
Proof. split; [apply wf_blank|done|apply (blank_shows_nothing record_path)]. Qed.

Lemma ml_alice_applicable i : (i < N_MEMBERS)%nat → applicable (ml_demo_node i) ml_alice 0 [].
Proof.
  intros Hi. left. exists "did:demo:alice"%string. split_and!; [done|by vm_compute|done|].
  intros k. split; [done|]. unfold fits_reply, random_id, fixed_ids.
  assert (H : Forall (λ i, 8 + Z.of_nat (length (jcs_to_vec
    (credential_json (replicate 16 Byte.x07) "did:demo:alice" 0 i))) ≤ MAX_FRAME) (seq 0 10))
    by (apply (bool_decide_unpack _); vm_compute; exact Logic.I).
  rewrite Forall_forall in H. apply (H i), elem_of_seq. unfold N_MEMBERS in Hi. lia.
Qed.

Lemma nothing_undisturbed : undisturbed (λ _, True).
Proof. done. Qed.

(** Peers that answer as members do, without a process behind them. *)
Definition ml_canned_answer (i : nat) (frame : bytes) : bytes :=
  match recv frame with
  | Ok (_, payload, _) =>
      match from_ssz_bytes (A := Proposal) payload with
      | Ok p =>
          let m := statement_for ml_demo_committee (p_list p) (p_version p) in
          let sig : MlSignature := (byte_of_Z (Z.of_nat i), toy_check m) in
          ok_default [] (send MSG_SIGNATURE (as_ssz_bytes (mkMlDsaSignatureReply [ml_sig_encode sig] [])))
      | Err _ => []
      end
  | Err _ => []
  end.
Definition ml_canned_net : Net :=
  mkNet (λ i, if bool_decide (i ∈ [1; 5]%nat) then throw "connection refused"%string
              else mret (λ frame, mret (ml_canned_answer i frame)))
    [3; 0; 9; 1; 4; 2; 8; 5; 7; 6]%nat 10.

Lemma ml_canned_keeps P : net_keeps ml_canned_net P.
Proof.
  intros i. unfold ml_canned_net, connect. case_bool_decide.
  - by apply triple_throw.
  - apply triple_ret. intros w Hw. split; [done|]. intros frame. by apply triple_ret.
Qed.

Lemma ml_round_runs :
  match ml_on_status_request ml_canned_net (ml_demo_node 7) (as_ssz_bytes ml_alice) blank_world with
  | (Done (Ok (kind, _), _), _) => kind =? MSG_STATUS_UPDATED
  | _ => false
  end = true.
Proof. vm_compute. reflexivity. Qed.

(** The round of the theorem: the update is reported, so the record is of version 0
    and lists just the new credential. *)
Lemma ml_round_publishes_authorized_witness :
  ∃ request reply n' w, from_ssz_bytes (as_ssz_bytes ml_alice) = Ok request ∧
    ml_on_status_request ml_canned_net (ml_demo_node 7) (as_ssz_bytes ml_alice) blank_world =
      (Done (Ok reply, n'), w) ∧
    ml_published_round (ml_demo_node 7) request blank_world reply n' w.
Proof.
  pose proof (ml_round_publishes_authorized (BLL := toy_bit_laws) (LM := toy_ml_laws) toy_ml_size
    ml_canned_net (ml_demo_node 7) (as_ssz_bytes ml_alice) blank_world (λ o, o = None)
    (ml_demo_node_wf 7) eq_refl (proj1 ml_demo_order) (proj2 ml_demo_order) (ml_canned_keeps _)
    demo_volume blank_world eq_refl) as H.
  pose proof ml_round_runs as E. revert H E.
  destruct (ml_on_status_request _ _ _ blank_world) as [[[r n']|e|] w]; [|done..].
  intros (_ & _ & [kind reply] & -> & [(request & Hreq & H)|[Hf _]]) E.
  - by exists request, (kind, reply), n', w.
  - simpl in Hf. subst kind. discriminate E.
Defined.

(** ** Node A, with its mark in memory *)

Definition memory_advance (g : option Z) (v : Z) : io HighWaterMarkError (GateDecision * option Z) :=
  match g with
  | Some m => if v <=? m then mret (Stale m, g) else mret (Accepted, Some v)
  | None => mret (Accepted, Some v)
  end.
#[local] Instance memory_gate : FreshnessGate (option Z).
Proof.
  refine {| gate_current := λ g, g; gate_try_advance := memory_advance |}; unfold memory_advance.
  - intros [m|] v w g' w'; [destruct (Z.leb_spec v m)|]; intros [= <- <-]; split; naive_solver.
  - intros [m|] v w x g' w'; [destruct (Z.leb_spec v m)|]; intros [=]; subst; done.
  - intros [m|] v w x g' w' Hn; [destruct (Z.leb_spec v m) as [Hle|]|]; try done.
    specialize (Hn m eq_refl). lia.
Defined.

Definition ml_node_a : MlHolder (G := option Z) := mkMlHolder (mkMlVerifier ml_demo_committee) None.

Lemma ml_node_a_takes : takes (λ _, True) (mh_mark ml_node_a) 0.
Proof. intros o w [_ Hw]. split; [by eexists|done]. Qed.

Lemma ml_issue_runs :
  settles (calm (λ _, True) None)
    (ml_run_round (λ i, ml_connection ml_demo_net (ml_demo_node i)) None ml_node_a
       (ActionIssue "did:demo:alice"))
    (λ r _, ∃ h', r = Ok (Ok (summary_of 0 "credential issued and present: valid"
                              ("high-water now v" +:+ pretty 0)), h') ∧
       ml_holder_mark h' = Some 0) ∧
  calm (λ _, True) None blank_world.
Proof.
  split; [|by split; [|exact blank_quiet]].
  apply (ml_issue_settles (BLL := toy_bit_laws) (LM := toy_ml_laws) toy_ml_size toy_signs
    ml_reply_round_trip ml_proposal_size ml_request_size ml_updated_size
    (λ i, ml_connection ml_demo_net (ml_demo_node i)) (λ _, ml_demo_net)
    ml_demo_committee ml_node_a "did:demo:alice" None 0 [] (λ _, True) nothing_undisturbed eq_refl);
    [reflexivity|done|by vm_compute| |exact ml_node_a_takes].
  intros i Hi. exists (ml_demo_node i). split; [done|]. split; [exact (ml_demo_node_wf i)|done|done| |exact ml_demo_order|].
  - exact (ml_alice_applicable i Hi).
  - exists [0; 2; 3; 4; 6; 7; 8; 9]%nat. apply ml_demo_honest.
Qed.
