(* ===== verification/RawExamples.v ===== *)
(** * Concrete runs of the raw benchmark

    A codec of raw records whose last byte belongs to the last signature, as SSZ
    lays them out, and the theorems about the raw benchmark applied at three
    members, two signers and an outsider. *)
From S2P Require Import Prelude Fs External Instances Seats StatusLists Committees Verifiers Params.
From S2P Require Import Workload Artifacts SlotCounter Corpus Fixture Prover RawAgg RawAggOwn SignerMain.
From S2P Require Import Examples DemoExamples PipelineExamples.

Open Scope Z_scope.

#[local] Existing Instance toy_hashes.
#[local] Existing Instance toy_xmss.
#[local] Existing Instance toy_bit_list.
#[local] Existing Instance toy_bit_laws.
#[local] Existing Instance toy_raw_eq_dec.
#[local] Existing Instance toy_raw_countable.
#[local] Existing Instance wf_raw_wire_dec.
#[local] Existing Instance toy_committee_ssz.
#[local] Existing Instance toy_committee_laws.
#[local] Existing Instance sound_disk.

(** ** The codec: the key byte of the last signature goes last *)

Definition with_signatures (w : RawStatusListWire) (sigs : list XmssSignature) : RawStatusListWire :=
  mkRawWire (rw_alg w) (rw_status_list w) (rw_version w) (rw_signers w) sigs.
Definition with_key (pk : byte) (sig : byte * bytes * Z) : XmssSignature := (pk, sig.1.2, sig.2).

Definition tail_bytes (w : RawStatusListWire) : bytes :=
  match last (rw_signatures w) with
  | None => Byte.x00 :: toy_encode w
  | Some sig =>
      Byte.x01 :: toy_encode (with_signatures w (removelast (rw_signatures w) ++ [with_key Byte.x00 sig])) ++
      [sig.1.1]
  end.

Definition decoded (b : bytes) : RawStatusListWire :=
  default (mkRawWire 0 [] 0 (default (([] : list bool) ↾ eq_refl) (toy_bits [])) [])
    (result_ok (toy_decode wf_raw_wire b)).
Definition tail_parse (b : bytes) : RawStatusListWire :=
  match b with
  | Byte.x01 :: rest =>
      let w := decoded (removelast rest) in
      match last (rw_signatures w) with
      | Some sig => with_signatures w (removelast (rw_signatures w) ++ [with_key (default Byte.x00 (last rest)) sig])
      | None => w
      end
  | _ :: rest => decoded rest
  | [] => decoded []
  end.

Lemma decoded_encode w : wf_raw_wire w → decoded (toy_encode w) = w.
Proof. intros H. unfold decoded. by rewrite toy_decode_encode. Qed.

Lemma tail_bytes_snoc w sigs sig :
  rw_signatures w = sigs ++ [sig] →
  tail_bytes w = Byte.x01 :: toy_encode (with_signatures w (sigs ++ [with_key Byte.x00 sig])) ++ [sig.1.1].
Proof. intros E. unfold tail_bytes. by rewrite E, last_snoc, removelast_last. Qed.

Lemma tail_parse_bytes w : wf_raw_wire w → tail_parse (tail_bytes w) = w.
Proof.
  intros Hw. destruct (last (rw_signatures w)) as [sig|] eqn:E.
  - pose proof E as (sigs & Es)%last_Some. rewrite (tail_bytes_snoc w sigs sig Es). unfold tail_parse.
    rewrite removelast_last, decoded_encode by done. cbn [with_signatures rw_signatures].
    rewrite last_snoc, last_snoc, removelast_last. destruct w, sig as [[pk m] slot]. simpl in *. by subst.
  - unfold tail_bytes. rewrite E. by apply decoded_encode.
Qed.

#[local] Instance tail_ssz : Ssz RawStatusListWire := layout_ssz tail_bytes tail_parse wf_raw_wire.
#[local] Instance tail_laws : SszLaws RawStatusListWire wf_raw_wire.
Proof. apply layout_laws, tail_parse_bytes. Qed.

Lemma tail_signature_last : signature_last.
Proof.
  intros r sigs sig Hr E. set (flip x := byte_of_Z (Z.lxor (Z_of_byte x) 1)).
  set (sig' := with_key (flip sig.1.1) sig).
  set (r' := mkStatusList (sl_alg r) (sl_status_list r) (sl_version r) (sl_signers r) (sigs ++ [sig'])).
  exists (to_bytes r'), sig'. split.
  - unfold to_bytes. simpl. rewrite (tail_bytes_snoc _ sigs sig), (tail_bytes_snoc _ sigs sig') by done. unfold flip_last.
    rewrite app_comm_cons, last_snoc. cbn [fmap option_fmap option_map]. rewrite removelast_last. done.
  - destruct Hr as (Hl & Hv & Hc). apply (raw_codec r' []). split_and!; [done|done|].
    change (signer_count r = length (sigs ++ [sig'])). by rewrite Hc, E, !length_app.
Qed.

(** ** The runs *)

Lemma raw_fixture_run_witness :
  ∃ c F st, committee_new (snd <$> show_pairs) 2 SLOT = Ok c ∧
    fixture_main "fixture" 3 2 show_pairs pipe_outsider None show_fresh ∅ (mkSession 0 []) = Ok (F, st) ∧
    ∀ fixture, Artifacts.holds fixture F →
      ∃ b, run_fixture_verifier fixture 3 2 = Ok b ∧ (b = true ∨ fixture_undone c F).
Proof.
  exact (raw_fixture_run toy_committee_size "fixture" 3 2 show_pairs pipe_outsider None None show_fresh ∅ 0
    tail_signature_last (λ _, eq_refl) (twin_signs _) pipe_outsider_signs pipe_keys_distinct eq_refl
    ltac:(lia) ltac:(lia) ltac:(apply Nat.leb_le; vm_compute; reflexivity) eq_refl).
Defined.

Lemma blank_state_dir : state_dir (λ _, False) blank_world.
Proof.
  split; [done| |].
  - intros q [i Hi]. change (cur_dir blank_world) with (∅ : gmap path nat) in Hi. by rewrite lookup_empty in Hi.
  - intros i Hi. by apply (not_elem_of_empty (C := gset nat)) in Hi.
Qed.

Lemma raw_agg_run_witness :
  ∃ c b w', committee_new (snd <$> show_pairs) 2 SLOT = Ok c ∧
    raw_agg_main ["state"%string] 3 2 show_pairs pipe_outsider show_fresh blank_world = (Done b, w') ∧
    length (w_signed w') = 45%nat ∧
    (b = true ∨ run_undone c show_pairs pipe_outsider (grown show_fresh 0 N_UPDATES) 3).
Proof.
  exact (raw_agg_run ["state"%string] 3 2 show_pairs pipe_outsider show_fresh blank_world
    tail_signature_last (twin_signs _) pipe_outsider_signs pipe_keys_distinct eq_refl
    ltac:(lia) ltac:(lia) ltac:(apply Nat.leb_le; vm_compute; reflexivity) blank_state_dir).
Defined.

Lemma counter_well_typed_witness :
  is_u32 SLOT ∧ triple (λ _, True) (create toy_path (Byte.x00 : XmssPublicKey) SLOT 107)
    (λ c _, wf_counter c) (λ _, True).
Proof. split; [done|]. by apply (@counter_well_typed toy_hashes toy_xmss toy_path Byte.x00). Defined.

(** A disk on which an earlier process left its journal under the same name. *)
Definition left_over : world :=
  World [{[(["tmp"], Some "signer-bench-7") := 0%nat]}]%string {[0%nat := [[Byte.x00]]]} 1 ∅ [] true 0 [].

Lemma signer_run_witness :
  ∃ w', signer_main ["tmp"%string] 7 (Byte.x01, Byte.x01) (Some "3"%string) show_fresh left_over = (Done true, w') ∧
    (w_signed w').*1 = reverse ((λ j, SLOT + Z.of_nat j) <$> seq 0 N_UPDATES) ++ [].
Proof.
  exact (signer_run ["tmp"%string] 7 (Byte.x01, Byte.x01) (Some "3"%string) (Some 3) show_fresh left_over
    (twin_signs [1]) eq_refl eq_refl (λ i Hi, False_ind _ (not_elem_of_empty (C := gset nat) i Hi))).
Defined.
