(* ===== verification/MlRawExamples.v ===== *)
(** * Concrete runs of the ML-DSA binaries

    The theorems about the ML-DSA benchmark programs applied at a committee of three
    members, two signers and an outsider. *)
From S2P Require Import Prelude External Instances Seats MlStatusLists MlCommittees Workload Artifacts.
From S2P Require Import MlFixture MlRawAgg MlSignerMain MlExperiment MlExamples.

Open Scope Z_scope.

#[local] Existing Instance toy_hashes.
#[local] Existing Instance toy_mldsa.
#[local] Existing Instance toy_bit_list.
#[local] Existing Instance toy_bit_laws.
#[local] Existing Instance toy_statement_ssz.
#[local] Existing Instance toy_ml_ssz.
#[local] Existing Instance toy_ml_laws.
#[local] Existing Instance toy_mlc_ssz.
#[local] Existing Instance toy_mlc_laws.
#[local] Instance every_draw : OsRng := Some.
#[local] Instance no_write_error : Disk := λ _, None.

Lemma every_signature k s m : ∃ sig,
  ml_sign s (os_random k) m = Some sig ∧ ml_verify (ml_public_key s) m sig = true.
Proof.
  exists (signing_key s, toy_check m). split; [done|]. unfold ml_verify. simpl. by apply bool_decide_eq_true.
Qed.

Lemma toy_signatures_last (w : MlStatusListWire) sigs raw :
  wf_ml_wire w → mw_signatures w = sigs ++ [raw] →
  ∃ pre, as_ssz_bytes w = pre ++ raw ∧ ∀ raw', length raw' = Z.to_nat SIGNATURE_BYTES →
    as_ssz_bytes (mkMlWire (mw_alg w) (mw_status_list w) (mw_version w) (mw_signers w) (sigs ++ [raw'])) =
      pre ++ raw'.
Proof.
  intros _ E.
  exists (toy_ml_header w ++ mjoin (mw_status_list w) ++ bitmap_bytes (bl_iter (mw_signers w)) ++ mjoin sigs).
  assert (Hj : ∀ x : bytes, mjoin (sigs ++ [x]) = mjoin sigs ++ x)
    by (intros x; rewrite join_app; simpl; by rewrite app_nil_r).
  split.
  - change (as_ssz_bytes w) with (toy_ml_bytes w). unfold toy_ml_bytes. by rewrite E, Hj, <-!app_assoc.
  - intros raw' _. change (as_ssz_bytes ?x) with (toy_ml_bytes x). unfold toy_ml_bytes.
    cbn [mw_status_list mw_signers mw_signatures]. by rewrite Hj, <-!app_assoc.
Qed.

Lemma toy_challenge_seed (sig : MlSignature) :
  ∃ sig' : MlSignature, ml_sig_encode sig' = alter flip_bit 0%nat (ml_sig_encode sig).
Proof. by exists (flip_bit sig.1, sig.2). Qed.

Lemma three_fresh_keys : fresh_keys 3 2 2 [Byte.x00; Byte.x01; Byte.x02] Byte.x07.
Proof. split; [by repeat constructor|]. apply (bool_decide_unpack _). by vm_compute. Qed.

Lemma ml_raw_agg_run_witness :
  ∃ c F, ml_committee_new [Byte.x00; Byte.x01; Byte.x02] 2 = Ok c ∧
    ml_fixture_main ["mldsa_fixture"; "out"; "3"; "2"; "2"]%string (λ _, None) None = Ok F ∧
    ∀ open, bounded_holds (open "out"%string) F →
      (∃ sizes, ml_raw_agg_main ["mldsa_raw_agg"; "out"; "2"]%string open = Ok sizes) ∨
      (ml_raw_agg_main ["mldsa_raw_agg"; "out"; "2"]%string open = Err CONTROL_ACCEPTED ∧
       ml_fixture_undone c F).
Proof.
  exact (ml_raw_agg_run toy_ml_size toy_mlc_size (λ w _ _ _ _, eq_refl) toy_signatures_last toy_challenge_seed
    "mldsa_fixture"%string "mldsa_raw_agg"%string "out"%string "out"%string "3"%string "2"%string "2"%string
    3 2 2 (λ _, None) None None _ _ every_signature (λ _, eq_refl) eq_refl eq_refl eq_refl eq_refl eq_refl
    three_fresh_keys).
Defined.

Lemma ml_signer_run_witness :
  ml_signer_main ["mldsa_signer"; "4"]%string (Some "3"%string) = Ok (Some (3, 3)%nat).
Proof.
  exact (ml_signer_run ["mldsa_signer"; "4"]%string (Some "3"%string) (Some 3) 4 every_signature
    (ex_intro _ _ eq_refl) ltac:(simpl; lia) eq_refl eq_refl).
Defined.

(** *** The experiment: a quorum of two, lists of one and of three entries *)

Definition experiment_command : list string := ["mldsa_statement_experiment"; "2"; "3"; "10"; "1"; "3"]%string.

Lemma two_fresh_keys : fresh_keys 2 1 (1 + 2 * 2 * max 2 MIN_SIGN_SAMPLES) [Byte.x00; Byte.x01] Byte.x03.
Proof. split; [by repeat constructor|]. apply (bool_decide_unpack _). by vm_compute. Qed.

Lemma ml_experiment_run_witness :
  ∃ c, ml_committee_new [Byte.x00; Byte.x01] 2 = Ok c ∧
    (experiment_main experiment_command id = Ok (statement_bytes <$> [1; 3]%nat) ∨
     ∃ entries, entries ∈ [1; 3]%nat ∧
       experiment_main experiment_command id = Err (CONTROL_VERIFIED entries) ∧
       crossed c Byte.x00 Byte.x03 (case_list (new_case entries))).
Proof.
  exact (ml_experiment_run every_signature (λ w _ _ _ _, eq_refl) experiment_command 2 3 10 [1; 3]%nat
    [Byte.x00; Byte.x01] Byte.x00 Byte.x03 id eq_refl two_fresh_keys eq_refl).
Defined.
