(* ===== verification/BootExamples.v ===== *)
(** * The start of a small network, evaluated

    Both starts at the stand-ins of [Instances], over an empty machine. *)
From S2P Require Import Prelude Fs External Instances StatusLists Committees MlStatusLists MlCommittees.
From S2P Require Import Params Wire Credentials Nodes Network Storage Rounds Member MlMember Holder MlHolder MlRuns Boot BootRuns.
From S2P Require Import Atomic SlotCounter Signer SlotSystem Verifiers HolderMain FirstCredential Probe MlExamples Examples DemoExamples MlDemoExamples.

Open Scope Z_scope.

#[local] Existing Instance toy_hashes.
#[local] Existing Instance toy_xmss.
#[local] Existing Instance toy_mldsa.
#[local] Existing Instance toy_committee_ssz.
#[local] Existing Instance toy_committee_laws.
#[local] Existing Instance toy_mlc_ssz.
#[local] Existing Instance toy_mlc_laws.
#[local] Existing Instance demo_volumes.
#[local] Existing Instance demo_clock.
#[local] Existing Instance toy_bit_list.
#[local] Existing Instance toy_bit_laws.
#[local] Existing Instance toy_statement_ssz.
#[local] Existing Instance toy_ml_ssz.
#[local] Existing Instance toy_ml_laws.
#[local] Existing Instance demo_request_ssz.
#[local] Existing Instance demo_proposal_ssz.
#[local] Existing Instance demo_updated_ssz.
#[local] Existing Instance demo_failure_ssz.
#[local] Existing Instance demo_ml_reply_ssz.
#[local] Existing Instance ml_demo_proposal_laws.
#[local] Existing Instance ml_demo_request_laws.
#[local] Existing Instance ml_demo_updated_laws.
#[local] Existing Instance toy_leanvm.
#[local] Existing Instance toy_raw_ssz.
#[local] Existing Instance toy_raw_laws.
#[local] Existing Instance toy_snark_ssz.
#[local] Existing Instance toy_snark_laws.
#[local] Existing Instance demo_reply_ssz.
#[local] Existing Instance demo_reply_laws.
#[local] Existing Instance demo_jcs.
#[local] Existing Instance demo_os.
#[local] Existing Instance fixed_ids.
#[local] Existing Instance steady_rng.

(** A key is the first byte of its seed. *)
#[local] Program Instance first_byte_keys : XmssKeys := {|
  key_gen_from_seed := λ seed _ _, Ok (default Byte.x00 (head seed), default Byte.x00 (head seed));
  xmss_pk_from_ssz := λ b, match last b with Some pk => Ok pk | None => Err "empty"%string end;
|}.
Next Obligation. done. Qed.

(** Every draw gives the same identifier. *)
#[local] Program Instance one_run : RunIds := {| run_id_at := λ _, replicate 32 Byte.x2a |}.
Next Obligation. done. Qed.

Definition member_volume (i : nat) : list string := ["state"; key_name i]%string.

Lemma member_volume_inj i j :
  (i < N_MEMBERS)%nat → (j < N_MEMBERS)%nat → member_volume i = member_volume j → i = j.
Proof. intros Hi Hj E. apply key_name_inj; [done..|]. exact (f_equal (λ l, nth 1 l EmptyString) E). Qed.

Lemma tidy_blank : tidy blank_world.
Proof. split; [done|done|by intros i [? ?]|by intros i ?%elem_of_empty]. Qed.

Definition seed_of (rid : bytes) (i : nat) : bytes := member_seed "secret" rid i.
Definition first_keys (rid : bytes) (i : nat) : byte * byte :=
  (default Byte.x00 (head (seed_of rid i)), default Byte.x00 (head (seed_of rid i))).

Lemma first_keys_distinct : NoDup ((λ i, (first_keys (replicate 32 Byte.x2a) i).2) <$> seq 0 N_MEMBERS).
Proof. apply (bool_decide_unpack _). vm_compute. exact I. Qed.

Definition ml_secrets (i : nat) : string :=
  nth i ["a"; "b"; "c"; "d"; "e"; "f"; "g"; "h"; "i"; "j"]%string EmptyString.

Lemma ml_first_keys_distinct :
  NoDup ((λ i, ml_public_key (ml_signer_of ml_secrets (replicate 32 Byte.x2a) i)) <$> seq 0 N_MEMBERS).
Proof. apply (bool_decide_unpack _). vm_compute. exact I. Qed.

Lemma network_starts_witness :
  ∃ k c nodes w',
    xmss_network_start member_volume (λ _, "secret"%string) (λ _, ModeRaw) 1 (rev (seq 0 N_MEMBERS)) blank_world
      = (Done (c, nodes), w') ∧
    anchor_of first_keys (run_id_at k) c ∧ file_at w' anchor_path = Some (committee_to_bytes c) ∧
    fst <$> nodes = rev (seq 0 N_MEMBERS) ∧ Forall (λ x, joined (λ _, ModeRaw) c x.1 x.2) nodes.
Proof.
  apply (network_starts toy_committee_size member_volume (λ _, "secret"%string) (λ _, ModeRaw) 1 first_keys).
  - done.
  - intros k. exact first_keys_distinct.
  - lia.
  - rewrite <-Permutation_rev. done.
  - exact tidy_blank.
  - done.
  - done.
  - exact member_volume_inj.
  - done.
Defined.


(** Peers answer in one order; the eighth answer is the last in time. *)
Definition demo_arrivals (_ : nat) : list nat := [3; 0; 9; 1; 4; 2; 8; 5; 7; 6]%nat.

Lemma demo_answers i : answers_suffice demo_arrivals (λ _, 8%nat) i.
Proof. split; [|split; [|apply Nat.leb_le; reflexivity]]; apply (bool_decide_unpack _); exact I. Qed.

Lemma demo_apart : state_dir ≠ storage_dir.
Proof. done. Qed.

Lemma demo_clean : clean blank_world.
Proof. by split; [exact tidy_blank|..]. Qed.

Lemma alice_fits (k i : nat) :
  (i < N_MEMBERS)%nat → fits_reply (jcs_to_vec (credential_json (random_id k) "did:demo:alice" 0 i)).
Proof.
  intros Hi. unfold fits_reply, random_id, fixed_ids.
  assert (H : Forall (λ i, 8 + Z.of_nat (length (jcs_to_vec
    (credential_json (replicate 16 Byte.x07) "did:demo:alice" 0 i))) ≤ MAX_FRAME) (seq 0 10))
    by (apply (bool_decide_unpack _); vm_compute; exact I).
  rewrite Forall_forall in H. apply (H i), elem_of_seq. unfold N_MEMBERS in Hi. lia.
Qed.

Lemma first_credential_issued_witness :
  ∃ h w', first_credential ml_secrets demo_arrivals (λ _, 8%nat) 1 (rev (seq 0 N_MEMBERS)) "did:demo:alice"
      blank_world = (Done (OneShot (Ok (summary_of 0 "credential issued and present: valid"
                                          "high-water now v0")) h), w') ∧
    ml_holder_mark h = Some 0.
Proof.
  apply (first_credential_issued (BLL := toy_bit_laws) (LM := toy_ml_laws) (LMC := toy_mlc_laws) demo_apart
    toy_ml_size toy_mlc_size toy_signs ml_reply_round_trip ml_proposal_size ml_request_size ml_updated_size
    ml_secrets demo_arrivals (λ _, 8%nat) 1).
  - intros k. exact ml_first_keys_distinct.
  - lia.
  - rewrite <-Permutation_rev. done.
  - exact demo_clean.
  - done.
  - done.
  - done.
  - intros i _. exact (demo_answers i).
  - by vm_compute.
  - done.
  - by vm_compute.
  - exact alice_fits.
Defined.

(** ** The probe, against member 7 over its counter *)

#[local] Existing Instance Evaluation.quick_raw_ssz.
#[local] Existing Instance Evaluation.quick_raw_laws.
#[local] Existing Instance Evaluation.quick_reply_ssz.
#[local] Existing Instance Evaluation.quick_reply_laws.

Definition idle_net : Net := mkNet (λ _, throw "not dialed"%string) [] 0.
Definition probe_line : list string := ["--member"; "7"; "--entry"; "other"]%string.
Definition probed_node : Node := Evaluation.demo_signing_node.
Definition probed_member (_ : nat) : io string (bytes → io string bytes) :=
  member_connection idle_net 5000 probed_node.

(** The volumes show a record of version 4 and the anchor. *)
Definition probe_disk : world :=
  snd (write_atomic anchor_path (committee_to_bytes demo_committee) Evaluation.demo_disk).

Lemma probed_state : counter_state (n_signer probed_node) probe_disk.
Proof.
  split; [split; [exact toy_first_wf|done]|].
  assert (E : versions probe_disk (f_ino (state_file Evaluation.demo_counter)) = [image Byte.x07 10])
    by (vm_compute; reflexivity).
  change (SlotCounter.holds (f_ino (state_file Evaluation.demo_counter))
    (counter_record Evaluation.demo_counter) probe_disk).
  unfold SlotCounter.holds. rewrite E. split; [done|]. constructor; [apply good_image|constructor].
Qed.

(** The probe gets a signature on version 5, so the member signed it now, at slot
    48. *)
Lemma probe_needs_fresh_slot_witness :
  ∃ w', probe_main probed_member 3 None probe_line probe_disk = (Done 0, w') ∧
    ∃ a m b published list slot,
       probe_args probe_line (mkProbeArgs 0 "probe" None) = Ok a ∧ mode_from_env None = Ok m ∧
       read_ok record_path probe_disk = Some b ∧ decode_list m b = Ok (published, list) ∧
       let version := probe_version a published in
       let list := list ++ [hash_any (string_bytes (pa_label a))] in
       slot_for demo_committee version = Some slot ∧ 10 <= slot ∧
       w_signed w' = (slot, message_for demo_committee WotsXmss list version) :: [].
Proof.
  pose proof (probe_needs_fresh_slot idle_net 5000 probed_node probed_member 3 None probe_line probe_disk
    probed_state (λ _, eq_refl) probe_disk eq_refl) as H.
  assert (E : fst (probe_main probed_member 3 None probe_line probe_disk) = Done 0)
    by (vm_compute; reflexivity).
  destruct (probe_main _ _ _ _ probe_disk) as [o w']. simpl in E. subst o.
  exists w'. split; [reflexivity|]. exact (H eq_refl).
Defined.
