(* ===== verification/LocalExamples.v ===== *)
(** * The walk-through, evaluated

    The theorem about the example program applied at the stand-ins of [Instances],
    over a disk on which an earlier process left a state file. *)
From S2P Require Import Prelude External Instances Fs StatusLists Committees Verifiers SlotCounter.
From S2P Require Import Fleet LocalDemo Examples.

Open Scope Z_scope.

#[local] Existing Instance toy_hashes.
#[local] Existing Instance toy_xmss.
#[local] Existing Instance toy_leanvm.
#[local] Existing Instance toy_bit_list.
#[local] Existing Instance toy_bit_laws.
#[local] Existing Instance toy_raw_ssz.
#[local] Existing Instance toy_raw_laws.
#[local] Existing Instance toy_snark_ssz.
#[local] Existing Instance toy_snark_laws.
#[local] Existing Instance toy_committee_ssz.
#[local] Instance error_text : OsText := λ e, match e with NotFound => "not found" | OtherError => "failed" end%string.

(** A key is the second byte of its seed. *)
#[local] Program Instance second_byte_keys : XmssKeys := {|
  key_gen_from_seed := λ seed _ _, Ok (nth 1 seed Byte.x00, nth 1 seed Byte.x00);
  xmss_pk_from_ssz := λ b, match last b with Some pk => Ok pk | None => Err "empty"%string end;
|}.
Next Obligation. done. Qed.

Definition five_pairs : list (byte * byte) := (λ k, (byte_of_Z (Z.of_nat k), byte_of_Z (Z.of_nat k))) <$> seq 0 5.

(** An earlier run died and left a counter behind. *)
Definition after_a_crash : world :=
  World [{[(["tmp"; "drot-local-example-7"], Some "member-0.slot") := 0%nat]}]%string {[0%nat := [[Byte.x00]]]}
    1 ∅ [] true 0 [].

Lemma five_pairs_distinct : NoDup (snd <$> five_pairs).
Proof. apply (bool_decide_unpack _). by vm_compute. Qed.

Lemma five_pairs_generated k keys :
  five_pairs !! k = Some keys →
  key_gen_from_seed (seed k) GENESIS_SLOT (GENESIS_SLOT + LOCAL_KEY_SLOTS) = Ok keys.
Proof. do 5 (destruct k as [|k]; [by intros E; vm_compute in E; injection E as <-|]). done. Qed.

Lemma five_pairs_sign : signs_in GENESIS_SLOT (GENESIS_SLOT + LOCAL_KEY_SLOTS) five_pairs.
Proof.
  intros sk pk rng m slot (k & [= -> ->] & _)%list_elem_of_fmap Hw.
  exists (byte_of_Z (Z.of_nat k), m, slot). split; [|by apply bool_decide_eq_true].
  trans (if slot <? 1000 then Ok (byte_of_Z (Z.of_nat k), m, slot) else Err "EpochOutOfRange"%string); [done|].
  by rewrite (proj2 (Z.ltb_lt _ _)) by (unfold GENESIS_SLOT, LOCAL_KEY_SLOTS in *; lia).
Qed.

Lemma no_locks i : i ∈ w_locks after_a_crash → (i < w_next after_a_crash)%nat.
Proof. intros Hi. by apply (not_elem_of_empty (C := gset nat)) in Hi. Qed.

Lemma local_demo_runs_witness :
  ∃ c w', committee_new (snd <$> five_pairs) 3 GENESIS_SLOT = Ok c ∧
    local_run ["local_demo"; "snark"]%string ["tmp"; "drot-local-example-7"]%string after_a_crash = (Done tt, w') ∧
    (∀ p, below ["tmp"; "drot-local-example-7"]%string p → cur_dir w' !! p = None) ∧
    w_signed w' = replicate 3 (45, message_for c WotsXmss third_list 2) ++
                  replicate 3 (44, message_for c WotsXmss second_list 1) ++
                  replicate 3 (43, message_for c WotsXmss first_list 0) ++ [].
Proof.
  exact (local_demo_runs ["local_demo"; "snark"]%string LocalSnark ["tmp"; "drot-local-example-7"]%string
    five_pairs after_a_crash toy_aggregates eq_refl eq_refl five_pairs_distinct five_pairs_generated
    five_pairs_sign eq_refl eq_refl no_locks).
Defined.
